(* ===== verification/_CoqProject ===== *)
-Q . S2P
Prelude.v
Primality.v
Field25519.v
Edwards.v
FieldElement.v
FieldCodec.v
GroupElement.v
BaseTable.v
BasePoint.v
ScalarMult.v
Scalar.v
GroupOrder.v
Sha2.v
Ed25519.v
Montgomery.v
Curve25519.v
Curve25519Amd64.v
Salsa20.v
Nacl.v
BlockCipher.v
Tea.v
Blowfish.v
Twofish.v
Cast5.v
Ciphers.v
BnPrime.v
Tower.v
Weierstrass.v
BnCompute.v
Bn256Field.v
Bn256Curve.v
Bn256Pair.v
Bn256Order.v
Bn256.v
Keccak.v
Sha3.v
Digest.v
Digests.v
Kdf.v
Scrypt.v
Bcrypt.v
Cosi.v
Aggregation.v
Tool.v
Mesh.v
MeshSafety.v
MeshProtocol.v
