(* ===== verification/Prelude.v ===== *)
(** * The mesh server and its collective signatures, verified

    The repository is a gRPC server, written in Go, at which the nodes of a network
    register as candidates of a round.  When ten candidates have registered, or ten
    seconds after the first one, the server aggregates their public keys and
    commitments into a committee and announces it to every connected node; the
    members then sign messages collectively.  The signatures are those of the
    [cosi] package of the repository's copy of [golang.org/x/crypto], which is built
    on [ed25519] and on its curve arithmetic.  This development models that whole
    chain: the server ([src/network.go], [src/network_helper.go], [src/tool.go]),
    [cosi] ([cosi.go], [sign.go], [verify.go]), [ed25519.go] and
    [internal/edwards25519] ([edwards25519.go], [const.go]), all under
    [src/golang-x-crypto/ed25519].  It goes on with further packages of that copy: key
    agreement ([curve25519]), the stream cipher [salsa20] and the boxes of [nacl] built
    on both, the block ciphers [tea], [xtea], [blowfish] and [twofish] with [xts], the
    pairing of [bn256], and the hash functions [sha3], [md4] and [ripemd160].

    ** Files, from the bottom up

    - [Prelude]: fixed-width integers with Go's wrap-around and their scopes
      ([i64_scope], [u32_scope] and the like), bytes and little-endian numbers,
      positional sums, list updates, the [outcome] monad of calls that can panic, the
      tactics and hint databases that the other files share.
    - [Primality], [Field25519]: 2^255-19 is prime (a Pocklington certificate), and
      the field GF(2^255-19) with the facts that the curve needs.
    - [Edwards]: the specification of the group: affine points of the twisted
      Edwards curve, the complete addition law, associativity included, and
      multiplication by integers.
    - [FieldElement], [FieldCodec]: the ten-limb arithmetic ([FeAdd] to
      [fePow22523]) and the 32-byte codec ([FeFromBytes], [FeToBytes]).  [repr n f x]
      relates limbs within [n] units to a field element; every function has one rule.
    - [GroupElement]: the five coordinate systems and their operations, each with a
      representation predicate ([ext_repr], [proj_repr], ...) against [Edwards].
    - [BaseTable], [BasePoint]: the two precomputed tables, transcribed, and the proof
      that each of their 264 entries is the multiple of the base point it stands for.
    - [ScalarMult]: [slide], [GeDoubleScalarMultVartime], [GeScalarMultBase].
    - [Scalar]: [ScMulAdd] and [ScReduce] as the sequences of limb steps they are,
      with an interval analysis, run by the kernel, that shows that no [int64]
      overflows.  [GroupOrder]: the order of the base point.
    - [Sha2]: SHA-512 and SHA-256 of the Go library, as FIPS 180-4 defines them.
    - [Ed25519]: key generation, signing and verification.
    - [Montgomery], [Curve25519], [Curve25519Amd64]: the Montgomery form of the curve with
      its differential addition; X25519 in the portable build ([curve25519.go], [doc.go])
      and in the amd64 build ([mont25519_amd64.go]) over an interface for its assembly
      routines, related by a simulation of the ladders.
    - [Salsa20], [Nacl]: the cores and streams of [salsa20], against the specification of
      the double round; [secretbox] and [box] over them and over any authenticator.
    - [BlockCipher], [Tea], [Blowfish], [Twofish], [Cast5], [Ciphers]: the interface
      [cipher.Block] as a record with a class of laws, its implementations, and [xts] over the
      interface.
    - [Tower], [Weierstrass], [BnPrime], [BnCompute]: the mathematics of the pairing, rings and
      fields as classes, extensions of degree two and three with their Frobenius maps, the
      group of chords and tangents with Jacobian coordinates, the prime and the order of
      [bn256] with their certificates, and checked computation on machine integers.
    - [Bn256Field], [Bn256Curve], [Bn256Pair], [Bn256Order], [Bn256]: the package [bn256] over
      them: [constants.go], [gfp2.go], [gfp6.go], [gfp12.go]; [curve.go], [twist.go]; [optate.go]
      against the textbook pairing; the groups of prime order on which Miller's
      algorithm is regular; [bn256.go].
    - [Keccak], [Sha3]: the permutation of [sha3] against the step mappings of FIPS 202; the
      sponge with its buffer as a slice of its storage, SHA-3 and SHAKE.
    - [Digest], [Digests]: the digest object that [md4] and [ripemd160] share, over a class of
      compression functions, and the two compression functions.
    - [Kdf], [Scrypt], [Bcrypt]: [pbkdf2] and [hkdf] over a class of hash functions, [scrypt]
      over them and over the rounds of [Salsa20], [bcrypt] over [Blowfish], against the
      functions of RFC 2898, RFC 5869 and RFC 7914.
    - [Cosi]: the [Cosigners] object with its mask, its cached aggregate key and its
      policy, signing and verification.  [signers_ok] is the invariant of the object.
    - [Aggregation]: the interface between the server and [cosi], as a class of
      operations and a class of laws, with [Cosi] as its instance.
    - [Tool], [Mesh]: the server, over any [Aggregation].  A [world] is the [meshSrv] record with the channels,
      streams, timers and goroutines it refers to; one definition per handler; [step]
      executes one event and [reachable] closes it under all interleavings.
    - [MeshSafety]: the invariant of every reachable state and the exact list of the
      situations in which the process panics.  [MeshProtocol]: what every handler does,
      the composition with [Cosi] in a complete round, and the order of delivery.

    ** Correspondence with the code

    Names are those of the source; a method [T.M] is [T_M] where the name alone would
    be ambiguous.  Functions that write through pointers return the new value; a
    function that changes its argument as a side effect ([FeToBytes] reduces its
    operand) returns that too.  A nil slice, pointer or map is [None]; a panic, an
    index out of range or a nil dereference is [Panic].  Integers that can leave the
    range of their Go type are followed by the conversion of that type.  The random
    source is an argument: the bytes that a read returns, or [None] for an error.

    Handlers that hold [m.mu] are single steps.  [tryFinalize] runs without the lock,
    from a timer or a goroutine, and is split into five steps at the points where it
    reads or writes what other handlers change; the statements within a step are taken
    to be atomic, so that races between single memory accesses are outside of the model.
    The message records have the fields of the protocol messages that the handlers exchange.

    ** What the theorems show

    - Field and curve (C23 to C26): the limb arithmetic is arithmetic
      modulo 2^255-19 within stated bounds, the point operations are the complete group
      law, the tables hold the multiples they stand for, and both codecs are inverse to
      each other and refuse exactly what is no point.
    - Scalars (C21, C22): recodings and multiplications
      compute the multiples they claim, and the reductions modulo the order are exact.
    - Signatures (C4 to C7, C17 to C20): what verification accepts is an equation between points; honest
      signatures, single and collective, are accepted; masks, policies, aggregation and
      the one-time secrets behave as stated, errors included.
    - Server (C1 to C3, C8 to
      C10, C13 to C16): a round of honest
      candidates ends in a committee with which its members can sign; the invariant; the
      situations that stop the process, among them four that ordinary clients can cause;
      delivery, garbage collection, termination of the finalisation.
    - Key agreement and boxes (C11 to C12, C27,
      C28): the ladder computes multiples, both parties agree, the two builds
      agree below 2^255; the stream is the specified one; a box opens for its
      recipient, and exactly the boxes whose authenticator fits are accepted.
    - Block ciphers (C29 to C31): decryption undoes encryption for
      every key that the constructors accept, key schedules keep their tables in shape,
      sectors survive XTS.
    - Pairing (C32 to C35): the tower consists of fields, the curve
      operations are the group law, the pairing is the textbook one on the groups of the
      package, encodings round-trip; where aliasing or infinity break this.
    - Hash functions (C36, C37): digests do not depend on how the input
      is split, and the block functions are those of the standards.
    - Key derivation (C38 to C40): the derived keys are those of the
      standards, in any pieces; which parameters are accepted, refused or stop the process;
      which passwords a hash accepts, and what the code writes behind a password.

    No definition runs on fuel that could run out: recursion is structural, on the
    digits, limbs or keys that the Go loops count; the loops of the sponge and of
    the reader of [hkdf] take the number of bytes that are left, of which every iteration
    consumes at least one; [finishFrom] takes the five steps of a
    goroutine and [tryFinalize_finish] shows that they are enough.

    ** Not modelled

    [main.go] beyond the creation of the server object, gRPC and the generated
    [proto_interface]: sockets and generated code.  Logging.  [poly1305.Sum],
    which is floating-point arithmetic or assembly, and the other assembly routines: they
    are interfaces.  The packages of the [golang.org/x/crypto] copy that are not named
    above.  Constant-time behaviour and the memory model of unsynchronised accesses. *)

From Stdlib Require Export ZArith Lia List Bool.
Export ListNotations.
#[export] Set Warnings "-notation-overridden".
#[global] Open Scope Z_scope.

(** ** Fixed-width integers

    A Go integer of width [w] is a [Z] in the range of its type.  The
    conversions below read the low [w] bits of an arbitrary integer, in two's
    complement for the signed types; every Go operation that can leave the
    range of its type is followed by the conversion of that type. *)

Definition uint8 (x : Z) : Z := Z.land x 255.

Definition uint32 (x : Z) : Z := Z.land x 4294967295.

Definition uint64 (x : Z) : Z := Z.land x 18446744073709551615.

Definition int8 (x : Z) : Z :=
  let r := Z.land x 255 in if r <? 128 then r else r - 256.

Definition int32 (x : Z) : Z :=
  let r := Z.land x 4294967295 in
  if r <? 2147483648 then r else r - 4294967296.

Definition int64 (x : Z) : Z :=
  let r := Z.land x 18446744073709551615 in
  if r <? 9223372036854775808 then r else r - 18446744073709551616.

(** [i64_scope], [i32_scope], [i8_scope], [u32_scope] and [u64_scope] read Go expressions
    of type [int64], [int32], [int8], [uint32] and [uint64]: every operator wraps, at every depth of the
    expression, and the operators have Go's precedences. *)

Declare Scope i64_scope.
Declare Scope i32_scope.
Declare Scope i8_scope.
Declare Scope u32_scope.
Declare Scope u64_scope.
Delimit Scope i64_scope with i64.
Delimit Scope i32_scope with i32.
Delimit Scope i8_scope with i8.
Delimit Scope u32_scope with u32.
Delimit Scope u64_scope with u64.

Reserved Notation "x << k" (at level 40, left associativity).
Reserved Notation "x >> k" (at level 40, left associativity).
Reserved Notation "x .& y" (at level 40, left associativity).
Reserved Notation "x .| y" (at level 50, left associativity).
Reserved Notation "x .^ y" (at level 50, left associativity).
Reserved Notation "x .&^ y" (at level 40, left associativity).

Notation "x + y" := (int64 (Z.add x%i64 y%i64)) : i64_scope.
Notation "x - y" := (int64 (Z.sub x%i64 y%i64)) : i64_scope.
Notation "x * y" := (int64 (Z.mul x%i64 y%i64)) : i64_scope.
Notation "- x" := (int64 (Z.opp x%i64)) : i64_scope.
Notation "x << k" := (int64 (Z.shiftl x%i64 k)) : i64_scope.
Notation "x >> k" := (Z.shiftr x%i64 k) : i64_scope.
Notation "x .& y" := (Z.land x%i64 y%i64) : i64_scope.
Notation "x .| y" := (Z.lor x%i64 y%i64) : i64_scope.

Notation "x + y" := (int32 (Z.add x%i32 y%i32)) : i32_scope.
Notation "x - y" := (int32 (Z.sub x%i32 y%i32)) : i32_scope.
Notation "x * y" := (int32 (Z.mul x%i32 y%i32)) : i32_scope.
Notation "- x" := (int32 (Z.opp x%i32)) : i32_scope.
Notation "x << k" := (int32 (Z.shiftl x%i32 k)) : i32_scope.
Notation "x >> k" := (Z.shiftr x%i32 k) : i32_scope.
Notation "x .& y" := (Z.land x%i32 y%i32) : i32_scope.
Notation "x .| y" := (Z.lor x%i32 y%i32) : i32_scope.
Notation "x .^ y" := (Z.lxor x%i32 y%i32) : i32_scope.

Notation "x + y" := (uint32 (Z.add x%u32 y%u32)) : u32_scope.
Notation "x - y" := (uint32 (Z.sub x%u32 y%u32)) : u32_scope.
Notation "x << k" := (uint32 (Z.shiftl x%u32 k)) : u32_scope.
Notation "x >> k" := (Z.shiftr x%u32 k) : u32_scope.
Notation "x .& y" := (Z.land x%u32 y%u32) : u32_scope.
Notation "x .| y" := (Z.lor x%u32 y%u32) : u32_scope.
Notation "x .^ y" := (Z.lxor x%u32 y%u32) : u32_scope.
Notation "x .&^ y" := (Z.ldiff x%u32 y%u32) : u32_scope.

Notation "x << k" := (uint64 (Z.shiftl x%u64 k)) : u64_scope.
Notation "x >> k" := (Z.shiftr x%u64 k) : u64_scope.
Notation "x .& y" := (Z.land x%u64 y%u64) : u64_scope.
Notation "x .| y" := (Z.lor x%u64 y%u64) : u64_scope.
Notation "x .^ y" := (Z.lxor x%u64 y%u64) : u64_scope.
Notation "x .&^ y" := (Z.ldiff x%u64 y%u64) : u64_scope.

Notation "x + y" := (int8 (Z.add x%i8 y%i8)) : i8_scope.
Notation "x - y" := (int8 (Z.sub x%i8 y%i8)) : i8_scope.
Notation "- x" := (int8 (Z.opp x%i8)) : i8_scope.
Notation "x << k" := (int8 (Z.shiftl x%i8 k)) : i8_scope.
Notation "x >> k" := (Z.shiftr x%i8 k) : i8_scope.

Lemma uint8_mod x : uint8 x = x mod 2 ^ 8.
Proof. apply (Z.land_ones x 8); lia. Qed.

Lemma uint32_mod x : uint32 x = x mod 2 ^ 32.
Proof. apply (Z.land_ones x 32); lia. Qed.

Lemma uint64_mod x : uint64 x = x mod 2 ^ 64.
Proof. apply (Z.land_ones x 64); lia. Qed.

Lemma int8_mod x : int8 x = (x + 2 ^ 7) mod 2 ^ 8 - 2 ^ 7.
Proof.
  unfold int8. change 255 with (Z.ones 8). rewrite Z.land_ones by lia.
  change (2 ^ 8) with 256. change (2 ^ 7) with 128.
  destruct (Z.ltb_spec (x mod 256) 128);
    Z.div_mod_to_equations; lia.
Qed.

Lemma int32_mod x : int32 x = (x + 2 ^ 31) mod 2 ^ 32 - 2 ^ 31.
Proof.
  unfold int32. change 4294967295 with (Z.ones 32). rewrite Z.land_ones by lia.
  change (2 ^ 32) with 4294967296. change (2 ^ 31) with 2147483648.
  destruct (Z.ltb_spec (x mod 4294967296) 2147483648);
    Z.div_mod_to_equations; lia.
Qed.

Lemma int64_mod x : int64 x = (x + 2 ^ 63) mod 2 ^ 64 - 2 ^ 63.
Proof.
  unfold int64. change 18446744073709551615 with (Z.ones 64). rewrite Z.land_ones by lia.
  change (2 ^ 64) with 18446744073709551616.
  change (2 ^ 63) with 9223372036854775808.
  destruct (Z.ltb_spec (x mod 18446744073709551616) 9223372036854775808);
    Z.div_mod_to_equations; lia.
Qed.

(** In range, a conversion is the identity. *)

Lemma uint8_id x : 0 <= x < 256 -> uint8 x = x.
Proof. rewrite uint8_mod; intros; apply Z.mod_small; lia. Qed.

Lemma uint64_id x : 0 <= x < 2 ^ 64 -> uint64 x = x.
Proof. rewrite uint64_mod; intros; apply Z.mod_small; lia. Qed.

Lemma int8_id x : - 128 <= x < 128 -> int8 x = x.
Proof. rewrite int8_mod; intros; rewrite Z.mod_small; lia. Qed.

Lemma int32_id x : - 2147483648 <= x < 2147483648 -> int32 x = x.
Proof. rewrite int32_mod; intros; rewrite Z.mod_small; lia. Qed.

Lemma int64_id x : - 9223372036854775808 <= x < 9223372036854775808 -> int64 x = x.
Proof. rewrite int64_mod; intros; rewrite Z.mod_small; lia. Qed.

Lemma uint8_range x : 0 <= uint8 x < 256.
Proof. rewrite uint8_mod; apply Z.mod_pos_bound; lia. Qed.

Lemma uint64_range x : 0 <= uint64 x < 2 ^ 64.
Proof. rewrite uint64_mod; apply Z.mod_pos_bound; lia. Qed.

Lemma int64_range x : - 2 ^ 63 <= int64 x < 2 ^ 63.
Proof. rewrite int64_mod; pose proof (Z.mod_pos_bound (x + 2 ^ 63) (2 ^ 64)); lia. Qed.

Lemma int32_range x : - 2 ^ 31 <= int32 x < 2 ^ 31.
Proof. rewrite int32_mod; pose proof (Z.mod_pos_bound (x + 2 ^ 31) (2 ^ 32)); lia. Qed.

Lemma int8_range x : - 2 ^ 7 <= int8 x < 2 ^ 7.
Proof. rewrite int8_mod; pose proof (Z.mod_pos_bound (x + 2 ^ 7) (2 ^ 8)); lia. Qed.

(** [int64] only depends on its argument modulo [2 ^ 64], so an inner
    conversion under a ring operation can be dropped: a chain of wrapping
    operations is exact as soon as its exact final value is in range. *)

Lemma int64_cong x y : x mod 2 ^ 64 = y mod 2 ^ 64 -> int64 x = int64 y.
Proof.
  intros H. rewrite !int64_mod.
  rewrite <- (Zplus_mod_idemp_l x), <- (Zplus_mod_idemp_l y), H. reflexivity.
Qed.

Lemma int64_mod64 x : int64 x mod 2 ^ 64 = x mod 2 ^ 64.
Proof.
  rewrite int64_mod, Zminus_mod_idemp_l. f_equal. lia.
Qed.

Lemma int64_add_l x y : int64 (int64 x + y) = int64 (x + y).
Proof.
  apply int64_cong. rewrite Zplus_mod, int64_mod64, <- Zplus_mod. reflexivity.
Qed.

Lemma int64_add_r x y : int64 (x + int64 y) = int64 (x + y).
Proof. rewrite Z.add_comm, int64_add_l, Z.add_comm. reflexivity. Qed.

Lemma int64_mul_l x y : int64 (int64 x * y) = int64 (x * y).
Proof.
  apply int64_cong. rewrite Zmult_mod, int64_mod64, <- Zmult_mod. reflexivity.
Qed.

Lemma int64_mul_r x y : int64 (x * int64 y) = int64 (x * y).
Proof. rewrite Z.mul_comm, int64_mul_l, Z.mul_comm. reflexivity. Qed.

Lemma int64_sub_l x y : int64 (int64 x - y) = int64 (x - y).
Proof.
  apply int64_cong. rewrite Zminus_mod, int64_mod64, <- Zminus_mod. reflexivity.
Qed.

Lemma int64_sub_r x y : int64 (x - int64 y) = int64 (x - y).
Proof.
  apply int64_cong. rewrite Zminus_mod, int64_mod64, <- Zminus_mod. reflexivity.
Qed.

Create Rewrite HintDb wrap.
#[export] Hint Rewrite int64_add_l int64_add_r int64_mul_l int64_mul_r
  int64_sub_l int64_sub_r : wrap.

(** Take the conjunctions of the context, and with [split_and] of the goal,
    apart, without looking under definitions. *)
Ltac break_and := repeat match goal with H : _ /\ _ |- _ => destruct H end.

Ltac split_and := break_and; repeat match goal with |- _ /\ _ => split end.

(** ** Straight-line code

    A hypothesis [H : r = let x := e in k x] is unfolded one binding at a time:
    [intro_let H] names [x] with its defining equation, so that each
    intermediate value of a straight-line function can be bounded once. *)

Lemma let_intro {A B : Type} (r : B) (e : A) (k : A -> B) :
  r = (let x := e in k x) -> exists x, x = e /\ r = k x.
Proof. intros ->. exists e. auto. Qed.

Ltac intro_let H E :=
  lazymatch type of H with
  | _ = (let x := ?e in @?k x) =>
      apply (let_intro _ e k) in H;
      let x' := fresh x in destruct H as (x' & E & H); cbv beta in H
  end.

(** One rounding carry of [k] bits, as the code writes it:
    [c = (x + (1 << (k-1))) >> k] and [x -= c << k]. *)
Lemma round64_bounds k x c :
  2 <= k <= 60 -> - 2 ^ 62 - 2 ^ 60 <= x <= 2 ^ 62 + 2 ^ 60 ->
  c = Z.shiftr (int64 (x + int64 (Z.shiftl 1 (k - 1)))) k ->
  2 ^ k * c - 2 ^ (k - 1) <= x < 2 ^ k * c + 2 ^ (k - 1).
Proof.
  intros Hk Hx ->. rewrite !Z.shiftl_1_l.
  assert (2 ^ k = 2 * 2 ^ (k - 1)) as E
    by (rewrite <- Z.pow_succ_r by lia; f_equal; lia).
  assert (2 ^ (k - 1) <= 2 ^ 59) by (apply Z.pow_le_mono_r; lia).
  assert (0 < 2 ^ (k - 1)) by (apply Z.pow_pos_nonneg; lia).
  rewrite (int64_id (2 ^ (k - 1))) by lia. rewrite int64_id by lia.
  rewrite Z.shiftr_div_pow2 by lia.
  pose proof (Z.div_mod (x + 2 ^ (k - 1)) (2 ^ k)) as D.
  pose proof (Z.mod_pos_bound (x + 2 ^ (k - 1)) (2 ^ k)). lia.
Qed.

Lemma sub_shl64 k x c y :
  0 <= k -> - 2 ^ 63 <= c * 2 ^ k < 2 ^ 63 -> - 2 ^ 63 <= x - c * 2 ^ k < 2 ^ 63 ->
  y = int64 (x - int64 (Z.shiftl c k)) -> y = x - c * 2 ^ k.
Proof.
  intros Hk Hc Hd ->. rewrite Z.shiftl_mul_pow2 by lia.
  rewrite (int64_id (c * 2 ^ k)) by lia. apply int64_id; lia.
Qed.

Lemma add64 x c y :
  - 2 ^ 63 <= x + c < 2 ^ 63 -> y = int64 (x + c) -> y = x + c.
Proof. intros H ->. apply int64_id; lia. Qed.

(** ** Bounds

    [within b x] bounds the absolute value of [x]; the bound of an expression
    is computed from those of its variables. *)

Definition within (b x : Z) : Prop := - b <= x <= b.

Lemma within_le a b x : within a x -> a <= b -> within b x.
Proof. unfold within; lia. Qed.

Lemma within_add a b x y : within a x -> within b y -> within (a + b) (x + y).
Proof. unfold within; lia. Qed.

Lemma within_sub a b x y : within a x -> within b y -> within (a + b) (x - y).
Proof. unfold within; lia. Qed.

Lemma within_opp a x : within a x -> within a (- x).
Proof. unfold within; lia. Qed.

Lemma within_mul a b x y : within a x -> within b y -> within (a * b) (x * y).
Proof. unfold within; nia. Qed.

Lemma within_const c : 0 <= c -> within c c.
Proof. unfold within; lia. Qed.

(** [bound] proves [within b e] for a constant [b] from bounds in the context. *)
Ltac bound_expr :=
  lazymatch goal with
  | |- within _ (?x + ?y) => eapply within_add; [bound_expr | bound_expr]
  | |- within _ (?x - ?y) => eapply within_sub; [bound_expr | bound_expr]
  | |- within _ (?x * ?y) => eapply within_mul; [bound_expr | bound_expr]
  | |- within _ (- ?x) => eapply within_opp; bound_expr
  | |- within _ (Zpos _) => apply within_const; discriminate
  | |- _ => eassumption
  end.

Ltac bound := eapply within_le; [ bound_expr | vm_compute; discriminate ].

(** ** Exactness

    [exact b X x]: the machine expression [X] has the value of the integer
    expression [x], without wrapping, and [b] bounds it.  The rules compute [x]
    and [b] from the shape of [X]; [exact_expr] applies them. *)

Definition exact (b X x : Z) : Prop := X = x /\ within b x.

Lemma exact_leaf b x : within b x -> exact b x x.
Proof. split; auto. Qed.

Section exact.
Context {a b X Y x y : Z} (HX : exact a X x) (HY : exact b Y y).

Lemma exact_add64 : (a + b <? 2 ^ 63) = true -> exact (a + b) (int64 (X + Y)) (x + y).
Proof.
  destruct HX as [-> Wx], HY as [-> Wy]. intros H%Z.ltb_lt.
  split; [apply int64_id | now apply within_add]. unfold within in *; lia.
Qed.

Lemma exact_sub64 : (a + b <? 2 ^ 63) = true -> exact (a + b) (int64 (X - Y)) (x - y).
Proof.
  destruct HX as [-> Wx], HY as [-> Wy]. intros H%Z.ltb_lt.
  split; [apply int64_id | now apply within_sub]. unfold within in *; lia.
Qed.

Lemma exact_mul64 : (a * b <? 2 ^ 63) = true -> exact (a * b) (int64 (X * Y)) (x * y).
Proof.
  destruct HX as [-> Wx], HY as [-> Wy]. intros H%Z.ltb_lt.
  pose proof (within_mul _ _ _ _ Wx Wy) as W.
  split; [apply int64_id | exact W]. unfold within in W; lia.
Qed.

Lemma exact_add32 : (a + b <? 2 ^ 31) = true -> exact (a + b) (int32 (X + Y)) (x + y).
Proof.
  destruct HX as [-> Wx], HY as [-> Wy]. intros H%Z.ltb_lt.
  split; [apply int32_id | now apply within_add]. unfold within in *; lia.
Qed.

Lemma exact_sub32 : (a + b <? 2 ^ 31) = true -> exact (a + b) (int32 (X - Y)) (x - y).
Proof.
  destruct HX as [-> Wx], HY as [-> Wy]. intros H%Z.ltb_lt.
  split; [apply int32_id | now apply within_sub]. unfold within in *; lia.
Qed.

Lemma exact_mul32 : (a * b <? 2 ^ 31) = true -> exact (a * b) (int32 (X * Y)) (x * y).
Proof.
  destruct HX as [-> Wx], HY as [-> Wy]. intros H%Z.ltb_lt.
  pose proof (within_mul _ _ _ _ Wx Wy) as W.
  split; [apply int32_id | exact W]. unfold within in W; lia.
Qed.

Lemma exact_opp32 : (a <? 2 ^ 31) = true -> exact a (int32 (- X)) (- x).
Proof.
  destruct HX as [-> Wx]. intros H%Z.ltb_lt.
  split; [apply int32_id | now apply within_opp]. unfold within in *; lia.
Qed.
End exact.

Ltac exact_expr :=
  lazymatch goal with
  | |- exact _ (int64 (_ + _)) _ => eapply exact_add64; [exact_expr | exact_expr | vm_compute; reflexivity]
  | |- exact _ (int64 (_ - _)) _ => eapply exact_sub64; [exact_expr | exact_expr | vm_compute; reflexivity]
  | |- exact _ (int64 (_ * _)) _ => eapply exact_mul64; [exact_expr | exact_expr | vm_compute; reflexivity]
  | |- exact _ (int32 (_ + _)) _ => eapply exact_add32; [exact_expr | exact_expr | vm_compute; reflexivity]
  | |- exact _ (int32 (_ - _)) _ => eapply exact_sub32; [exact_expr | exact_expr | vm_compute; reflexivity]
  | |- exact _ (int32 (_ * _)) _ => eapply exact_mul32; [exact_expr | exact_expr | vm_compute; reflexivity]
  | |- exact _ (int32 (- _)) _ => eapply exact_opp32; [exact_expr | vm_compute; reflexivity]
  | |- exact _ (Zpos _) _ => apply exact_leaf, within_const; discriminate
  | |- _ => apply exact_leaf; eassumption
  end.

(** [exact_let H] names the next binding of [H : r = let x := e in k x] with
    its exact value and keeps its bound in the context. *)
Ltac exact_let H :=
  let E := fresh "E" in
  let J := fresh "J" in
  let W := fresh "W" in
  intro_let H E;
  lazymatch type of E with
  | ?x = ?X =>
      eassert (J : exact _ X _) by exact_expr;
      destruct J as [J W]; apply (eq_trans E) in J; clear E;
      rename J into E; rewrite <- E in W
  end.

(** ** Bytes

    A byte slice is a list of integers in [0, 256); multi-byte integers are
    little-endian. *)

Definition byte_ok (b : Z) : Prop := 0 <= b < 256.

Definition bytes_ok (l : list Z) : Prop := Forall byte_ok l.

Fixpoint le_val (l : list Z) : Z :=
  match l with
  | [] => 0
  | b :: l => b + 256 * le_val l
  end.

(** The [n]-byte encoding of [x]. *)
Fixpoint le_bytes (n : nat) (x : Z) : list Z :=
  match n with
  | O => []
  | S n => x mod 256 :: le_bytes n (x / 256)
  end.

Lemma length_le_bytes n x : length (le_bytes n x) = n.
Proof. revert x; induction n as [| n IH]; intros x; cbn; [| rewrite IH]; reflexivity. Qed.

Lemma le_bytes_ok n x : bytes_ok (le_bytes n x).
Proof.
  revert x; induction n as [| n IH]; intros x; constructor;
    [apply Z.mod_pos_bound; lia | apply IH].
Qed.

Lemma zeros_ok n : bytes_ok (repeat 0 n).
Proof. apply Forall_forall. intros x ->%repeat_spec. unfold byte_ok. lia. Qed.

Lemma land_lxor_l x y m : Z.land (Z.lxor x y) m = Z.lxor (Z.land x m) (Z.land y m).
Proof.
  apply Z.bits_inj'. intros i Hi. rewrite Z.land_spec, !Z.lxor_spec, !Z.land_spec.
  now destruct (Z.testbit x i), (Z.testbit y i), (Z.testbit m i).
Qed.

Lemma lxor_byte x y : byte_ok x -> byte_ok y -> byte_ok (Z.lxor x y).
Proof.
  unfold byte_ok. intros Hx Hy.
  assert (uint8 (Z.lxor x y) = Z.lxor x y) as <-; [| apply uint8_range].
  unfold uint8. rewrite land_lxor_l. fold (uint8 x). fold (uint8 y).
  now rewrite !uint8_id.
Qed.

Lemma bytes_ok_firstn n l : bytes_ok l -> bytes_ok (firstn n l).
Proof. intros H. rewrite <- (firstn_skipn n l) in H. apply Forall_app in H. tauto. Qed.

Lemma nth_byte bs i : bytes_ok bs -> byte_ok (nth i bs 0).
Proof.
  intros H. destruct (Nat.lt_ge_cases i (length bs)) as [L | L].
  - now apply Forall_nth.
  - rewrite nth_overflow by lia. unfold byte_ok; lia.
Qed.

Lemma bytes_ok_skipn n bs : bytes_ok bs -> bytes_ok (skipn n bs).
Proof. intros H. rewrite <- (firstn_skipn n bs) in H. apply Forall_app in H. tauto. Qed.

Lemma bytes_ok_app l l' : bytes_ok l -> bytes_ok l' -> bytes_ok (l ++ l').
Proof. intros H H'. apply Forall_app. auto. Qed.

(** [bytes] proves the side conditions on the length and the range of byte strings. *)
Create HintDb bytes.
#[export] Hint Resolve length_le_bytes le_bytes_ok zeros_ok bytes_ok_firstn bytes_ok_skipn
  bytes_ok_app : bytes.

Lemma le_val_bounds l : bytes_ok l -> 0 <= le_val l < 256 ^ Z.of_nat (length l).
Proof.
  induction 1 as [| b l Hb _ IH]; [cbn; lia |].
  cbn [le_val length]. rewrite Nat2Z.inj_succ, Z.pow_succ_r by lia.
  unfold byte_ok in Hb. lia.
Qed.

Lemma le_val_le_bytes n x : le_val (le_bytes n x) = x mod 256 ^ Z.of_nat n.
Proof.
  revert x; induction n as [| n IH]; intros x; cbn [le_val le_bytes].
  - change (256 ^ Z.of_nat 0) with 1. now rewrite Z.mod_1_r.
  - rewrite IH, Nat2Z.inj_succ, Z.pow_succ_r by lia.
    rewrite Z.rem_mul_r by lia. lia.
Qed.

Lemma le_bytes_le_val l : bytes_ok l -> le_bytes (length l) (le_val l) = l.
Proof.
  induction 1 as [| b l Hb _ IH]; [reflexivity |]. unfold byte_ok in Hb.
  cbn [le_val le_bytes length]. f_equal.
  - rewrite (Z.mul_comm 256), Z.mod_add by lia. apply Z.mod_small; lia.
  - rewrite (Z.mul_comm 256), Z.div_add, Z.div_small by lia. exact IH.
Qed.

Lemma le_val_inj l l' :
  bytes_ok l -> bytes_ok l' -> length l = length l' -> le_val l = le_val l' -> l = l'.
Proof.
  intros H H' L E. rewrite <- (le_bytes_le_val l H), <- (le_bytes_le_val l' H'). congruence.
Qed.

Lemma le_val_app l l' : le_val (l ++ l') = le_val l + 256 ^ Z.of_nat (length l) * le_val l'.
Proof.
  induction l as [| b l IH]; cbn [app le_val length].
  - change (256 ^ Z.of_nat 0) with 1. lia.
  - rewrite IH, Nat2Z.inj_succ, Z.pow_succ_r by lia. lia.
Qed.

(** [l[i] = v]; the callers stay in range. *)
Fixpoint set_nth {A : Type} (i : nat) (v : A) (l : list A) : list A :=
  match l, i with
  | [], _ => []
  | _ :: l, O => v :: l
  | x :: l, S i => x :: set_nth i v l
  end.

Lemma length_set_nth {A} i (v : A) l : length (set_nth i v l) = length l.
Proof.
  revert i; induction l as [| x l IH]; intros [| i]; cbn; try reflexivity. now rewrite IH.
Qed.

Lemma nth_set_nth {A} i j (v : A) l d :
  (i < length l)%nat -> nth j (set_nth i v l) d = if Nat.eqb j i then v else nth j l d.
Proof.
  revert i j; induction l as [| x l IH]; intros [| i] [| j] H; cbn in *; try lia; auto.
  apply IH. lia.
Qed.

Lemma le_val_set_nth i v l :
  (i < length l)%nat ->
  le_val (set_nth i v l) = le_val l + 256 ^ Z.of_nat i * (v - nth i l 0).
Proof.
  revert i; induction l as [| b l IH]; intros [| i] H; cbn [length set_nth le_val nth] in *;
    [lia | lia | |].
  - change (256 ^ Z.of_nat 0) with 1. lia.
  - rewrite IH, Nat2Z.inj_succ, Z.pow_succ_r by lia. lia.
Qed.

Lemma bytes_ok_set_nth i v l : bytes_ok l -> byte_ok v -> bytes_ok (set_nth i v l).
Proof.
  intros H Hv; revert i; induction H as [| b l Hb Hl IH]; intros [| i]; cbn;
    constructor; first [assumption | apply IH].
Qed.

(** *** Digit arrays *)

(** The value of little-endian digits in base [w]. *)
Fixpoint radix (w : Z) (l : list Z) : Z :=
  match l with
  | [] => 0
  | x :: l => x + w * radix w l
  end.

Lemma radix_split w r i :
  radix w r = radix w (firstn i r) + w ^ Z.of_nat i * radix w (skipn i r).
Proof.
  revert i; induction r as [| x r IH]; intros [| i]; cbn [firstn skipn radix].
  - change (w ^ Z.of_nat 0) with 1. lia.
  - lia.
  - change (w ^ Z.of_nat 0) with 1. lia.
  - rewrite Nat2Z.inj_succ, Z.pow_succ_r by lia. rewrite (IH i). ring.
Qed.

Lemma radix_set_nth w i v r :
  (i < length r)%nat ->
  radix w (set_nth i v r) = radix w r + w ^ Z.of_nat i * (v - nth i r 0).
Proof.
  revert i; induction r as [| x r IH]; intros [| i] H; cbn [length set_nth radix nth] in *;
    [lia | lia | |].
  - change (w ^ Z.of_nat 0) with 1. lia.
  - rewrite IH, Nat2Z.inj_succ, Z.pow_succ_r by lia. ring.
Qed.

Lemma radix_skipn w i r :
  radix w (skipn i r) = nth i r 0 + w * radix w (skipn (S i) r).
Proof.
  revert i; induction r as [| x r IH]; intros [| i]; cbn [skipn nth radix]; auto.
  all: lia.
Qed.

Lemma radix_firstn_succ w i r :
  radix w (firstn (S i) r) = radix w (firstn i r) + w ^ Z.of_nat i * nth i r 0.
Proof.
  revert i; induction r as [| x r IH]; intros i.
  - rewrite !firstn_nil, nth_overflow by (cbn; lia). cbn [radix]. ring.
  - destruct i as [| i].
    + cbn [firstn radix nth]. change (w ^ Z.of_nat 0) with 1. ring.
    + cbn [nth]. rewrite !firstn_cons. cbn [radix]. rewrite IH, Nat2Z.inj_succ, Z.pow_succ_r by lia.
      ring.
Qed.

Lemma skipn_set_nth i k (x : Z) r : (i < k)%nat -> skipn k (set_nth i x r) = skipn k r.
Proof.
  revert i k; induction r as [| y r IH]; intros [| i] [| k] H; cbn [set_nth skipn];
    try lia; try reflexivity. apply IH. lia.
Qed.

Lemma land_shiftl_0 a b k : 0 <= k -> 0 <= a < 2 ^ k -> Z.land a (Z.shiftl b k) = 0.
Proof.
  intros Hk Ha. apply Z.bits_inj'. intros i Hi.
  rewrite Z.land_spec, Z.bits_0, Z.shiftl_spec by lia.
  destruct (Z.ltb_spec i k).
  - rewrite (Z.testbit_neg_r b) by lia. apply andb_false_r.
  - rewrite <- (Z.mod_small a (2 ^ k)) by lia. now rewrite Z.mod_pow2_bits_high by lia.
Qed.

Lemma lor_shiftl_add a b k :
  0 <= k -> 0 <= a < 2 ^ k -> Z.lor a (Z.shiftl b k) = a + b * 2 ^ k.
Proof.
  intros Hk Ha. rewrite <- Z.shiftl_mul_pow2 by exact Hk.
  rewrite <- Z.lxor_lor by now apply land_shiftl_0.
  symmetry. apply Z.add_nocarry_lxor. now apply land_shiftl_0.
Qed.

Lemma firstn_app_exact {A} n (a b : list A) : length a = n -> firstn n (a ++ b) = a.
Proof.
  intros <-. rewrite firstn_app, firstn_all, Nat.sub_diag. apply app_nil_r.
Qed.

Lemma skipn_app_exact {A} n (a b : list A) : length a = n -> skipn n (a ++ b) = b.
Proof.
  intros <-. rewrite skipn_app, skipn_all, Nat.sub_diag. reflexivity.
Qed.

Lemma firstn_four (b : list Z) : forall i, (i + 4 <= length b)%nat ->
  firstn 4 (skipn i b) = [nth i b 0; nth (i + 1) b 0; nth (i + 2) b 0; nth (i + 3) b 0].
Proof.
  induction b as [| x b IH]; intros [| i] L; cbn [length] in L; try lia.
  - do 3 (destruct b as [| ? b]; [cbn in L; lia |]). reflexivity.
  - cbn [skipn nth Nat.add]. apply IH. lia.
Qed.

(** ** Control

    [outcome]: what a call does, where the code can panic (an explicit [panic],
    an index out of range, a nil dereference). *)

Inductive outcome (A : Type) :=
  | Return (a : A)
  | Panic.
Arguments Return {A} a.
Arguments Panic {A}.

Lemma Return_inj {A : Type} (x y : A) : Return x = Return y -> x = y.
Proof. congruence. Qed.

Definition obind {A B : Type} (x : outcome A) (k : A -> outcome B) : outcome B :=
  match x with
  | Return a => k a
  | Panic => Panic
  end.

Declare Scope go_scope.
Delimit Scope go_scope with go.
Notation "x <- e ;; k" := (obind e (fun x => k))
  (at level 100, e at next level, right associativity) : go_scope.

(** [copy(dst, src)]: the overlap is overwritten, the rest of [dst] stays. *)
Definition copy (dst src : list Z) : list Z :=
  firstn (length dst) src ++ skipn (length src) dst.

Lemma copy_length dst src : length (copy dst src) = length dst.
Proof. unfold copy. rewrite length_app, length_firstn, length_skipn. lia. Qed.

Lemma copy_full dst src : length src = length dst -> copy dst src = src.
Proof.
  intros L. unfold copy. rewrite <- L, firstn_all, L, skipn_all. apply app_nil_r.
Qed.

Lemma copy_ok dst src : bytes_ok dst -> bytes_ok src -> bytes_ok (copy dst src).
Proof.
  intros Hd Hs. apply Forall_app. split.
  - rewrite <- (firstn_skipn (length dst) src) in Hs. apply Forall_app in Hs. tauto.
  - rewrite <- (firstn_skipn (length src) dst) in Hd. apply Forall_app in Hd. tauto.
Qed.
