(* ===== verification/Primality.v ===== *)
(** * Primality of 2^255 - 19

    The field of the curve is [Z / (2^255 - 19)].  Its primality is proved here
    by Pocklington's criterion with the chain of certificates
    [p], [q1], [q2], [q3]; the modular powers are computed by
    [powmod], which works with any reduction function. *)

From Stdlib Require Import Znumtheory Zpow_facts Zmod.
From S2P Require Import Prelude.

(** ** Modular powers *)

Section powmod.
Context (n : Z) (red : Z -> Z) (Hred : forall x, red x mod n = x mod n).

Fixpoint powmod (a : Z) (e : positive) : Z :=
  match e with
  | xH => red a
  | xO e => let r := powmod a e in red (r * r)
  | xI e => let r := powmod a e in red (red (r * r) * a)
  end.

Lemma powmod_spec a e : powmod a e mod n = a ^ Zpos e mod n.
Proof.
  assert (forall x y, x mod n = y mod n -> x * x mod n = y * y mod n) as Sq
    by (intros x y E; rewrite Zmult_mod, E, <- Zmult_mod; reflexivity).
  induction e as [e IH | e IH |]; cbn [powmod]; cbv zeta.
  - rewrite Hred, Zmult_mod, Hred, (Sq _ _ IH), <- Zmult_mod.
    f_equal. rewrite Pos2Z.inj_xI, Z.pow_add_r, Z.pow_1_r, Z.pow_twice_r by lia. ring.
  - rewrite Hred, (Sq _ _ IH).
    f_equal. rewrite Pos2Z.inj_xO, Z.pow_twice_r by lia. ring.
  - rewrite Hred, Z.pow_1_r. reflexivity.
Qed.
End powmod.

(** Barrett reduction: whatever [k] and [mu] are, the result is congruent to
    the argument; good parameters make it short. *)
Definition barrett (n k mu x : Z) : Z :=
  x - Z.shiftr (Z.shiftr x (k - 1) * mu) (k + 1) * n.

Lemma barrett_spec n k mu x : barrett n k mu x mod n = x mod n.
Proof.
  unfold barrett. generalize (Z.shiftr (Z.shiftr x (k - 1) * mu) (k + 1)); intros y.
  destruct (Z.eq_dec n 0) as [-> | Hn]; [f_equal; lia |].
  replace (x - y * n) with (x + (- y) * n) by ring. apply Z.mod_add; exact Hn.
Qed.

(** ** Pocklington's criterion *)

Lemma prime_iff r : Z.prime r <-> prime r.
Proof. unfold Z.prime. rewrite <- prime_alt. reflexivity. Qed.

Lemma prime_divisor d : 1 < d -> exists r, Z.prime r /\ (r | d).
Proof.
  intros Hd. assert (0 <= d) as H0 by lia. revert Hd.
  pattern d; apply Zlt_0_ind; [clear d H0 | exact H0].
  intros d IH H0 Hd. destruct (prime_dec d) as [Hp | Hn].
  - exists d. rewrite prime_iff. split; [exact Hp | apply Z.divide_refl].
  - destruct (not_prime_divide d Hd Hn) as (e & He & Hed).
    destruct (IH e ltac:(lia) ltac:(lia)) as (r & Hr & Hre).
    exists r. split; [exact Hr | eapply Z.divide_trans; eauto].
Qed.

(** What one prime factor [q] of [n - 1] contributes: [v] is an inverse of
    [a ^ ((n - 1) / q) - 1] modulo [n]. *)
Record pocklington_factor (n q a v : Z) : Prop := {
  pf_prime : Z.prime q;
  pf_divide : (q | n - 1);
  pf_one : a ^ (n - 1) mod n = 1;
  pf_inv : (a ^ ((n - 1) / q) - 1) * v mod n = 1 }.

Lemma of_Z_divide r n x y :
  0 < r -> 0 < n -> (r | n) -> x mod n = y mod n -> Zmod.of_Z r x = Zmod.of_Z r y.
Proof.
  intros Hr Hn D E. apply Zmod.of_Z_inj.
  rewrite <- (Z.mod_mod_divide x n r), <- (Z.mod_mod_divide y n r), E by assumption.
  reflexivity.
Qed.

Lemma pocklington_divides n q a v r :
  1 < n -> pocklington_factor n q a v -> Z.prime r -> (r | n) -> (q | r - 1).
Proof.
  intros Hn [Hq [m Hm] H1 Hi] Hr Hrn.
  pose proof (Z.prime_ge_2 _ Hq). pose proof (Z.prime_ge_2 _ Hr).
  assert (0 < m) by nia.
  rewrite Hm, Z.div_mul in Hi by lia. rewrite Hm in H1.
  set (b := Zmod.of_Z r (a ^ m)).
  assert (Zmod.pow b q = Zmod.one) as Bq.
  { unfold b. rewrite <- Zmod.of_Z_pow, <- Z.pow_mul_r by lia.
    rewrite <- Zmod.of_Z_1. apply (of_Z_divide r n); try lia; try assumption.
    rewrite H1, Z.mod_small; lia. }
  assert (b <> Zmod.one) as B1.
  { intros E. unfold b in E. rewrite <- Zmod.of_Z_1 in E.
    assert (Zmod.of_Z r ((a ^ m - 1) * v) = Zmod.of_Z r 1) as F.
    { apply (of_Z_divide r n); try lia; try assumption. rewrite Hi, Z.mod_small; lia. }
    rewrite Zmod.of_Z_mul, Zmod.of_Z_sub, E, Zmod.sub_same, Zmod.mul_0_l, Zmod.of_Z_1 in F.
    symmetry in F. revert F. apply Zmod.one_neq_zero. lia. }
  assert (b <> Zmod.zero) as B0.
  { intros E. rewrite E, Zmod.pow_0_l in Bq by lia.
    symmetry in Bq. revert Bq. apply Zmod.one_neq_zero. lia. }
  assert (Z.gcd (Zmod.unsigned b) r = 1) as G.
  { rewrite Z.gcd_comm. apply Z.coprime_prime_l; [assumption |].
    intros D. apply B0. apply Zmod.unsigned_inj. rewrite Zmod.unsigned_0.
    rewrite <- (Zmod.mod_unsigned b). now apply Z.mod_divide; [lia |]. }
  destruct (Z.BoolSpec_divide q (r - 1)) as [D | D]; [exact D | exfalso].
  pose proof (Z.coprime_prime_l q (r - 1) Hq D) as (u & w & Huw)%Z.Bezout_coprime_iff.
  apply B1. rewrite <- (Zmod.pow_1_r b), <- Huw.
  rewrite (Zmod.pow_add_r_coprime _ _ _ G), (Z.mul_comm u), (Z.mul_comm w).
  rewrite !(Zmod.pow_mul_r_coprime _ _ _ G), Bq.
  rewrite Z.sub_1_r, (Zmod.fermat_nz b B0 Hr), !Zmod.pow_1_l.
  apply Zmod.mul_1_l.
Qed.

Lemma prime_of_large_factors n F :
  1 < n -> 0 < F -> n < F * F ->
  (forall r, Z.prime r -> (r | n) -> F < r) -> Z.prime n.
Proof.
  intros Hn HF Hsz Big.
  apply prime_iff. destruct (prime_dec n) as [| Hnp]; [assumption | exfalso].
  destruct (not_prime_divide n Hn Hnp) as (d & Hd & [e He]).
  destruct (prime_divisor d ltac:(lia)) as (r & Hr & Hrd).
  destruct (prime_divisor e ltac:(nia)) as (r' & Hr' & Hre).
  assert (F < r) by (apply Big; [assumption |]; subst n; apply Z.divide_mul_r; assumption).
  assert (F < r') by (apply Big; [assumption |]; subst n; apply Z.divide_mul_l; assumption).
  apply Z.divide_pos_le in Hrd, Hre; nia.
Qed.

Theorem pocklington1 n q a v :
  1 < n -> pocklington_factor n q a v -> n < q * q -> Z.prime n.
Proof.
  intros Hn P Hsz. pose proof (Z.prime_ge_2 _ (pf_prime _ _ _ _ P)).
  apply (prime_of_large_factors n q); [lia | lia | exact Hsz |]. intros r Hr Hrn.
  pose proof (pocklington_divides n q a v r Hn P Hr Hrn) as D.
  pose proof (Z.prime_ge_2 _ Hr). apply Z.divide_pos_le in D; lia.
Qed.

Theorem pocklington2 n q a v q' a' v' :
  1 < n -> pocklington_factor n q a v -> pocklington_factor n q' a' v' ->
  q <> q' -> n < (q * q') * (q * q') -> Z.prime n.
Proof.
  intros Hn P P' Hqq Hsz.
  pose proof (Z.prime_ge_2 _ (pf_prime _ _ _ _ P)).
  pose proof (Z.prime_ge_2 _ (pf_prime _ _ _ _ P')).
  apply (prime_of_large_factors n (q * q')); [lia | nia | exact Hsz |].
  intros r Hr Hrn.
  pose proof (pocklington_divides n q a v r Hn P Hr Hrn) as [x Hx].
  pose proof (pocklington_divides n q' a' v' r Hn P' Hr Hrn) as D'.
  pose proof (Z.prime_ge_2 _ Hr).
  assert (q * q' | r - 1) as DD.
  { rewrite Hx, Z.mul_comm in D'. rewrite Hx.
    apply Z.gauss in D'; [destruct D' as [y ->]; exists y; ring |].
    apply Z.coprime_prime_l; [apply P' | intros C].
    apply Z.divide_prime_prime in C; [congruence | apply P' | apply P]. }
  apply Z.divide_pos_le in DD; lia.
Qed.

(** ** The certificates *)

Lemma trial_division n : 1 < n ->
  forallb (fun d => negb (n mod Z.of_nat d =? 0)) (seq 2 (Z.to_nat (Z.sqrt n))) = true ->
  Z.prime n.
Proof.
  intros Hn H. split; [exact Hn |]. intros d Hd [e He].
  rewrite forallb_forall in H.
  assert (forall x, 1 < x <= Z.sqrt n + 1 -> ~ (x | n)) as Small.
  { intros x Hx Hdiv. specialize (H (Z.to_nat x)).
    rewrite in_seq, Z2Nat.id, (proj2 (Z.mod_divide n x ltac:(lia)) Hdiv) in H by lia.
    discriminate H. lia. }
  pose proof (Z.sqrt_spec n ltac:(lia)) as [_ Hs]. pose proof (Z.sqrt_nonneg n).
  unfold Z.succ in Hs.
  destruct (Z_le_gt_dec d (Z.sqrt n + 1)) as [L | G].
  - apply (Small d); [lia | exists e; lia].
  - assert (1 < e) by nia. assert (e <= Z.sqrt n) by (rewrite He in *; nia).
    apply (Small e); [lia | exists d; lia].
Qed.

Lemma pocklington_check n red a e1 q v :
  1 < n -> (forall x, red x mod n = x mod n) -> Z.prime q -> n - 1 = Zpos e1 * q ->
  (let x := powmod red a e1 in
   (powmod red x (Z.to_pos q) mod n =? 1) && (((x - 1) * v) mod n =? 1)) = true ->
  pocklington_factor n q a v.
Proof.
  intros Hn Hred Hq He H. cbv zeta in H. apply andb_true_iff in H as [H1 H2].
  apply Z.eqb_eq in H1, H2. pose proof (Z.prime_ge_2 _ Hq).
  rewrite (powmod_spec n red Hred), Z2Pos.id in H1 by lia.
  assert (forall k, 0 <= k -> powmod red a e1 ^ k mod n = (a ^ Zpos e1) ^ k mod n) as Pw.
  { intros k Hk. rewrite (Zpower_mod (powmod red a e1)), (powmod_spec n red Hred) by lia.
    rewrite <- Zpower_mod by lia. reflexivity. }
  rewrite Pw, <- Z.pow_mul_r, <- He in H1 by lia.
  split; [exact Hq | exists (Zpos e1); exact He | exact H1 |].
  rewrite He, Z.div_mul by lia. rewrite <- H2 at 2.
  rewrite Zmult_mod, Zminus_mod, <- (powmod_spec n red Hred) by lia.
  rewrite <- Zminus_mod, <- Zmult_mod. reflexivity.
Qed.

Definition prime25519 : Z := 2 ^ 255 - 19.

(** Reduction modulo [2^255 - 19]: fold the part above bit 255. *)
Definition fold19 (x : Z) : Z := Z.land x (2 ^ 255 - 1) + 19 * Z.shiftr x 255.

Lemma fold19_spec x : fold19 x mod prime25519 = x mod prime25519.
Proof.
  unfold fold19, prime25519. change (2 ^ 255 - 1) with (Z.ones 255).
  rewrite Z.land_ones, Z.shiftr_div_pow2 by lia.
  rewrite (Z.div_mod x (2 ^ 255)) at 3 by lia.
  replace (2 ^ 255 * (x / 2 ^ 255) + x mod 2 ^ 255)
    with (x mod 2 ^ 255 + 19 * (x / 2 ^ 255) + (x / 2 ^ 255) * (2 ^ 255 - 19)) by ring.
  symmetry. apply Z.mod_add. lia.
Qed.

Definition red25519 (x : Z) : Z := fold19 (fold19 x).

Lemma red25519_spec x : red25519 x mod prime25519 = x mod prime25519.
Proof. unfold red25519. now rewrite !fold19_spec. Qed.

Definition cert_q1 : Z := 74058212732561358302231226437062788676166966415465897661863160754340907.

Definition cert_q2 : Z := 75445702479781427272750846543864801.

Definition cert_q3 : Z := 1919519569386763.

Lemma prime_cert_q3 : Z.prime cert_q3.
Proof.
  apply (pocklington2 _ 8574133 2 1290547218147893 127 2 1870148777187772);
    [reflexivity | | | discriminate | reflexivity].
  - apply (pocklington_check _ (fun x => x mod cert_q3) 2 223873314);
      [reflexivity | intros; apply Z.mod_mod; discriminate | | reflexivity | vm_compute; reflexivity].
    apply trial_division; [reflexivity | vm_compute; reflexivity].
  - apply (pocklington_check _ (fun x => x mod cert_q3) 2 15114327318006);
      [reflexivity | intros; apply Z.mod_mod; discriminate | | reflexivity | vm_compute; reflexivity].
    apply trial_division; [reflexivity | vm_compute; reflexivity].
Qed.

Definition red_q2 : Z -> Z := barrett cert_q2 116 91479648541149864891604479769993730.

Lemma prime_cert_q2 : Z.prime cert_q2.
Proof.
  apply (pocklington2 _ cert_q3 2 74602835786463724888147869570305675 75707 2 8986369574106813140303762220009459);
    [reflexivity | | | discriminate | reflexivity].
  - apply (pocklington_check _ red_q2 2 39304471641247389600);
      [reflexivity | apply barrett_spec | exact prime_cert_q3 | reflexivity
      | vm_compute; reflexivity].
  - apply (pocklington_check _ red_q2 2 996548568557483816196003626400);
      [reflexivity | apply barrett_spec | | reflexivity | vm_compute; reflexivity].
    apply trial_division; [reflexivity | vm_compute; reflexivity].
Qed.

Definition red_q1 : Z -> Z :=
  barrett cert_q1 236
    164658716767955881003422377988193863702697410721429750821230334084907008.

Lemma prime_cert_q1 : Z.prime cert_q1.
Proof.
  apply (pocklington2 _ cert_q2 2
           70463328703800545008217672123162676565183935400628861884889913886334520
           132049 2
           60866143585925738928617515635715523168309420294331869881307553974491757);
    [reflexivity | | | discriminate | reflexivity].
  - apply (pocklington_check _ red_q1 2 981609426360740691344999861639072106);
      [reflexivity | apply barrett_spec | exact prime_cert_q2 | reflexivity
      | vm_compute; reflexivity].
  - apply (pocklington_check _ red_q1 2
             560838875966961948233089432233964578877287722099113947563882806794);
      [reflexivity | apply barrett_spec | | reflexivity | vm_compute; reflexivity].
    apply trial_division; [reflexivity | vm_compute; reflexivity].
Qed.

Theorem prime_25519 : Z.prime prime25519.
Proof.
  apply (pocklington1 _ cert_q1 2
           55540832096118778044507775605005710249233119951144946814680141076505643269084); [reflexivity | | reflexivity].
  apply (pocklington_check _ red25519 2 781764);
    [reflexivity | exact red25519_spec | exact prime_cert_q1 | reflexivity
    | vm_compute; reflexivity].
Qed.
