(* ===== verification/Field25519.v ===== *)
(** * The prime field GF(2^255 - 19)

    The specification field [F], its field structure, and the three facts
    about it the curve needs: [-1] is a square, the curve constant [d] is not,
    and [x ^ (p - 2)] inverts [x]. *)

From Stdlib Require Export Zmod.
From Stdlib Require Import ZmodNsatz Field.
From S2P Require Import Prelude Primality.

Abbreviation F := (Zmod prime25519).

Declare Scope F_scope.
Delimit Scope F_scope with F.

Notation "0" := (@Zmod.zero prime25519) : F_scope.
Notation "1" := (@Zmod.one prime25519) : F_scope.
Notation "2" := (@Zmod.add prime25519 Zmod.one Zmod.one) : F_scope.
Notation "x + y" := (@Zmod.add prime25519 x y) : F_scope.
Notation "x - y" := (@Zmod.sub prime25519 x y) : F_scope.
Notation "x * y" := (@Zmod.mul prime25519 x y) : F_scope.
Notation "x / y" := (@Zmod.mdiv prime25519 x y) : F_scope.
Notation "- x" := (@Zmod.opp prime25519 x) : F_scope.
Notation "/ x" := (@Zmod.inv prime25519 x) : F_scope.
Notation "x ^ n" := (@Zmod.pow prime25519 x n) : F_scope.

Definition of_Z (z : Z) : F := Zmod.of_Z prime25519 z.

#[export] Existing Instance prime_25519.

Lemma F_field_theory :
  field_theory (R := Zmod prime25519) Zmod.zero Zmod.one Zmod.add Zmod.mul
    Zmod.sub Zmod.opp Zmod.mdiv Zmod.inv eq.
Proof. exact (Zmod.field_theory _ prime_25519). Qed.

Add Field F_field : F_field_theory.

#[export] Instance F_integral_domain :
  Integral_domain.Integral_domain (Rr := Ring_Zmod prime25519).
Proof. exact (Integral_domain_Zmod _ prime_25519). Qed.

Lemma F_eq_dec (x y : F) : {x = y} + {x <> y}.
Proof.
  destruct (Z.eq_dec (Zmod.unsigned x) (Zmod.unsigned y)) as [E | E].
  - left. now apply Zmod.unsigned_inj.
  - right. congruence.
Defined.

Lemma F_mul_0 (x y : F) : (x * y = 0 -> x = 0 \/ y = 0)%F.
Proof. apply Zmod.mul_0_iff_prime, prime_25519. Qed.

Lemma F_one_neq_zero : (1 <> 0)%F.
Proof. apply Zmod.one_neq_zero. discriminate. Qed.

Lemma F_two_neq_zero : (2 <> 0)%F.
Proof. intros H%(f_equal Zmod.unsigned). vm_compute in H. discriminate H. Qed.

Local Open Scope F_scope.

Lemma F_mul_inverse (x : F) : x <> 0 -> x * / x = 1.
Proof. intros Hx. field. exact Hx. Qed.

Lemma F_add_self_neq (x : F) : x <> 0 -> x + x <> 0.
Proof.
  intros Hx H. apply Hx. assert (2 * x = 0) as E by (rewrite <- H; ring).
  apply F_mul_0 in E as [E | E]; [now destruct F_two_neq_zero | exact E].
Qed.

(** ** Congruences *)

Lemma of_Z_add x y : of_Z (x + y)%Z = of_Z x + of_Z y.
Proof. apply Zmod.of_Z_add. Qed.

Lemma of_Z_sub x y : of_Z (x - y)%Z = of_Z x - of_Z y.
Proof. apply Zmod.of_Z_sub. Qed.

Lemma of_Z_mul x y : of_Z (x * y)%Z = of_Z x * of_Z y.
Proof. apply Zmod.of_Z_mul. Qed.

Lemma of_Z_opp x : of_Z (- x)%Z = - of_Z x.
Proof. apply Zmod.of_Z_opp. Qed.

Lemma of_Z_eq x y : of_Z x = of_Z y <-> (x mod prime25519 = y mod prime25519)%Z.
Proof. apply Zmod.of_Z_inj. Qed.

(** A difference by a multiple of the modulus disappears. *)
Lemma of_Z_modulus x k : of_Z (x - prime25519 * k)%Z = of_Z x.
Proof.
  apply of_Z_eq. replace (x - prime25519 * k)%Z with (x + (- k) * prime25519)%Z by ring.
  apply Z.mod_add. discriminate.
Qed.

Create Rewrite HintDb of_Z.
#[export] Hint Rewrite of_Z_add of_Z_sub of_Z_mul of_Z_opp of_Z_modulus : of_Z.

(** ** Powers *)

Lemma F_pow_add (x : F) a b : (0 <= a)%Z -> (0 <= b)%Z -> x ^ (a + b) = x ^ a * x ^ b.
Proof. intros. now apply Zmod.pow_add_r_nonneg. Qed.

Lemma F_pow_mul (x : F) a b : (0 <= a)%Z -> (0 <= b)%Z -> x ^ (a * b) = (x ^ a) ^ b.
Proof. intros. now apply Zmod.pow_mul_r_nonneg. Qed.

Lemma F_pow_invert (x : F) : x <> 0 -> x ^ (prime25519 - 2) = / x.
Proof. intros. apply Zmod.fermat_inv; [assumption | exact prime_25519]. Qed.

Lemma F_pow_fermat (x : F) : x <> 0 -> x ^ (prime25519 - 1) = 1.
Proof.
  intros. rewrite Z.sub_1_r. apply Zmod.fermat_nz; [assumption | exact prime_25519].
Qed.

(** A power of a constant, computed with [powmod]. *)
Lemma F_pow_compute a e r :
  (powmod red25519 a e mod prime25519 =? r mod prime25519)%Z = true ->
  of_Z a ^ Zpos e = of_Z r.
Proof.
  intros H%Z.eqb_eq. unfold of_Z. rewrite <- Zmod.of_Z_pow by discriminate.
  apply of_Z_eq. rewrite <- H. symmetry. apply powmod_spec, red25519_spec.
Qed.

(** ** The constants of the curve *)

(** [d = -121665/121666]. *)
Definition d_Z : Z :=
  37095705934669439343138083508754565189542113879843219016388785533085940283555.

Definition d : F := of_Z d_Z.

Lemma d_spec : d * of_Z 121666 = - of_Z 121665.
Proof. apply Zmod.unsigned_inj. vm_compute. reflexivity. Qed.

Definition sqrtm1_Z : Z :=
  19681161376707505956807079304988542015446066515923890162744021073123829784752.

Definition sqrtm1 : F := of_Z sqrtm1_Z.

Lemma sqrtm1_spec : sqrtm1 * sqrtm1 = - (1).
Proof. apply Zmod.unsigned_inj. vm_compute. reflexivity. Qed.

Lemma d_neq_zero : d <> 0.
Proof. intros H%(f_equal Zmod.unsigned). vm_compute in H. discriminate H. Qed.

(** Euler's criterion: [d] has no square root. *)
Lemma d_nonsquare (x : F) : x * x <> d.
Proof.
  intros E.
  assert (x <> 0) as Hx.
  { intros ->. apply d_neq_zero. rewrite <- E. ring. }
  assert (d ^ ((prime25519 - 1) / 2) = 1) as H.
  { rewrite <- E, <- Zmod.pow_2_r, <- F_pow_mul by discriminate.
    change (2 * ((prime25519 - 1) / 2))%Z with (prime25519 - 1)%Z.
    now apply F_pow_fermat. }
  change ((prime25519 - 1) / 2)%Z with (Zpos (Z.to_pos ((prime25519 - 1) / 2))) in H.
  unfold d in H. rewrite (F_pow_compute _ _ (-1)) in H by (vm_compute; reflexivity).
  apply (f_equal Zmod.unsigned) in H. vm_compute in H. discriminate H.
Qed.

Lemma d_of_Z : d = of_Z d_Z.
Proof. reflexivity. Qed.

Lemma sqrtm1_of_Z : sqrtm1 = of_Z sqrtm1_Z.
Proof. reflexivity. Qed.

#[global] Opaque d sqrtm1.
