(* ===== verification/Edwards.v ===== *)
(** * The twisted Edwards curve -x^2 + y^2 = 1 + d x^2 y^2 over GF(2^255 - 19)

    The specification the group code is verified against: affine points with
    their membership proof, the complete addition law, the group laws, and
    multiplication by an integer. *)

From Stdlib Require Import Field.
From S2P Require Import Prelude Primality Field25519.

Local Open Scope F_scope.

Add Field F_field_edwards : F_field_theory.

Definition on_curve (x y : F) : bool :=
  Zmod.eqb (y * y - x * x) (1 + d * (x * x) * (y * y)).

Definition curve_eq (x y : F) : Prop := y * y - x * x = 1 + d * (x * x) * (y * y).

Lemma on_curve_iff x y : on_curve x y = true <-> curve_eq x y.
Proof. apply Zmod.eqb_eq. Qed.

Record point := Point { px : F; py : F; p_on : on_curve px py = true }.

Lemma point_eq (P Q : point) : px P = px Q -> py P = py Q -> P = Q.
Proof.
  destruct P as [x y H], Q as [x' y' H']; cbn. intros <- <-. f_equal.
  apply Eqdep_dec.UIP_dec, Bool.bool_dec.
Qed.

Lemma p_curve P : curve_eq (px P) (py P).
Proof. apply on_curve_iff, p_on. Qed.

Lemma point_dec (P Q : point) : {P = Q} + {P <> Q}.
Proof.
  destruct (F_eq_dec (px P) (px Q)); [| right; congruence].
  destruct (F_eq_dec (py P) (py Q)); [left; now apply point_eq | right; congruence].
Defined.

(** ** Cofactors

    The polynomial identities below express the closure and associativity
    equations as combinations of the curve equations of the arguments. *)

Definition closure_c1 (x1 y1 x2 y2 : F) : F :=
      y2 * y2 * y2 * y2 - x2 * x2 * y2 * y2 - x2 * x2 * y2 * y2 - x2 * x2 *
      y2 * y2 - x2 * x2 * y2 * y2 - x2 * x2 * y2 * y2 * d - x2 * x2 * y2 *
      y2 * d + x2 * x2 * y2 * y2 * y2 * y2 + x2 * x2 * y2 * y2 * y2 * y2 +
      x2 * x2 * x2 * x2 - x2 * x2 * x2 * x2 * y2 * y2 - x2 * x2 * x2 * x2 *
      y2 * y2 - x2 * x2 * x2 * x2 * y2 * y2 * y2 * y2 * d - x2 * x2 * x2 *
      x2 * y2 * y2 * y2 * y2 * d - x2 * x2 * x2 * x2 * y2 * y2 * y2 * y2 * d
      * d - y1 * y1 * x2 * x2 * y2 * y2 * y2 * y2 * d + y1 * y1 * x2 * x2 *
      x2 * x2 * y2 * y2 * d + y1 * y1 * x2 * x2 * x2 * x2 * y2 * y2 * y2 *
      y2 * d * d + x1 * x1 * x2 * x2 * y2 * y2 * y2 * y2 * d - x1 * x1 * x2
      * x2 * x2 * x2 * y2 * y2 * d - x1 * x1 * x2 * x2 * x2 * x2 * y2 * y2 *
      y2 * y2 * d * d + x1 * x1 * y1 * y1 * x2 * x2 * x2 * x2 * y2 * y2 * y2
      * y2 * d * d * d.

Definition closure_c2 (x1 y1 x2 y2 : F) : F :=
      1 + y2 * y2 - x2 * x2 + x2 * x2 * y2 * y2 + x2 * x2 * y2 * y2 + x2 *
      x2 * y2 * y2 * d - y1 * y1 * y2 * y2 + y1 * y1 * x2 * x2 - y1 * y1 *
      x2 * x2 * y2 * y2 - y1 * y1 * x2 * x2 * y2 * y2 - y1 * y1 * x2 * x2 *
      y2 * y2 * d - y1 * y1 * x2 * x2 * y2 * y2 * d + y1 * y1 * y1 * y1 * x2
      * x2 * y2 * y2 * d + x1 * x1 * y2 * y2 - x1 * x1 * x2 * x2 + x1 * x1 *
      x2 * x2 * y2 * y2 + x1 * x1 * x2 * x2 * y2 * y2 + x1 * x1 * x2 * x2 *
      y2 * y2 * d + x1 * x1 * x2 * x2 * y2 * y2 * d + x1 * x1 * x1 * x1 * x2
      * x2 * y2 * y2 * d.

Definition assoc_x_c1 (x1 y1 x2 y2 x3 y3 : F) : F :=
      - y1 * x2 * y2 * y2 * y2 * y2 * x3 * x3 * y3 * d - y1 * x2 * x2 * y2 *
      y2 * y2 * x3 * d - y1 * x2 * x2 * y2 * y2 * y2 * x3 * x3 * x3 * d - y1
      * x2 * x2 * x2 * y2 * y2 * y3 * d + y1 * x2 * x2 * x2 * y2 * y2 * y3 *
      y3 * y3 * d + y1 * x2 * x2 * x2 * y2 * y2 * y2 * y2 * x3 * x3 * y3 * d
      * d + y1 * x2 * x2 * x2 * x2 * y2 * x3 * y3 * y3 * d + y1 * x2 * x2 *
      x2 * x2 * y2 * y2 * y2 * x3 * y3 * y3 * d * d + x1 * x2 * y2 * y2 * y2
      * y2 * x3 * y3 * y3 * d - x1 * x2 * x2 * y2 * y2 * y2 * y3 * d + x1 *
      x2 * x2 * y2 * y2 * y2 * y3 * y3 * y3 * d - x1 * x2 * x2 * x2 * y2 *
      y2 * x3 * d - x1 * x2 * x2 * x2 * y2 * y2 * x3 * x3 * x3 * d - x1 * x2
      * x2 * x2 * y2 * y2 * y2 * y2 * x3 * y3 * y3 * d * d - x1 * x2 * x2 *
      x2 * x2 * y2 * x3 * x3 * y3 * d - x1 * x2 * x2 * x2 * x2 * y2 * y2 *
      y2 * x3 * x3 * y3 * d * d.

Definition assoc_x_c2 (x1 y1 x2 y2 x3 y3 : F) : F :=
      y1 * y2 * x3 - y1 * y2 * x3 * y3 * y3 + y1 * y2 * x3 * x3 * x3 + y1 *
      y2 * x3 * x3 * x3 * y3 * y3 * d + y1 * x2 * y3 - y1 * x2 * y3 * y3 *
      y3 + y1 * x2 * x3 * x3 * y3 + y1 * x2 * x3 * x3 * y3 * y3 * y3 * d -
      y1 * x2 * y2 * y2 * x3 * x3 * y3 * d - y1 * x2 * x2 * y2 * x3 * y3 *
      y3 * d - y1 * y1 * y1 * y2 * x3 + y1 * y1 * y1 * y2 * x3 * y3 * y3 -
      y1 * y1 * y1 * y2 * x3 * x3 * x3 - y1 * y1 * y1 * y2 * x3 * x3 * x3 *
      y3 * y3 * d - y1 * y1 * y1 * x2 * y3 + y1 * y1 * y1 * x2 * y3 * y3 *
      y3 - y1 * y1 * y1 * x2 * x3 * x3 * y3 - y1 * y1 * y1 * x2 * x3 * x3 *
      y3 * y3 * y3 * d + y1 * y1 * y1 * x2 * y2 * y2 * x3 * x3 * y3 * d + y1
      * y1 * y1 * x2 * x2 * y2 * x3 * y3 * y3 * d + x1 * y2 * y3 - x1 * y2 *
      y3 * y3 * y3 + x1 * y2 * x3 * x3 * y3 + x1 * y2 * x3 * x3 * y3 * y3 *
      y3 * d + x1 * x2 * x3 - x1 * x2 * x3 * y3 * y3 + x1 * x2 * x3 * x3 *
      x3 + x1 * x2 * x3 * x3 * x3 * y3 * y3 * d + x1 * x2 * y2 * y2 * x3 *
      y3 * y3 * d + x1 * x2 * x2 * y2 * x3 * x3 * y3 * d - x1 * y1 * y1 * y2
      * y3 + x1 * y1 * y1 * y2 * y3 * y3 * y3 - x1 * y1 * y1 * y2 * x3 * x3
      * y3 - x1 * y1 * y1 * y2 * x3 * x3 * y3 * y3 * y3 * d - x1 * y1 * y1 *
      x2 * x3 + x1 * y1 * y1 * x2 * x3 * y3 * y3 - x1 * y1 * y1 * x2 * x3 *
      x3 * x3 - x1 * y1 * y1 * x2 * x3 * x3 * x3 * y3 * y3 * d - x1 * y1 *
      y1 * x2 * y2 * y2 * x3 * y3 * y3 * d + x1 * y1 * y1 * x2 * y2 * y2 *
      x3 * x3 * x3 * y3 * y3 * d * d - x1 * y1 * y1 * x2 * x2 * y2 * x3 * x3
      * y3 * d - x1 * y1 * y1 * x2 * x2 * y2 * x3 * x3 * y3 * y3 * y3 * d *
      d + x1 * x1 * y1 * y2 * x3 - x1 * x1 * y1 * y2 * x3 * y3 * y3 + x1 *
      x1 * y1 * y2 * x3 * x3 * x3 + x1 * x1 * y1 * y2 * x3 * x3 * x3 * y3 *
      y3 * d + x1 * x1 * y1 * x2 * y3 - x1 * x1 * y1 * x2 * y3 * y3 * y3 +
      x1 * x1 * y1 * x2 * x3 * x3 * y3 + x1 * x1 * y1 * x2 * x3 * x3 * y3 *
      y3 * y3 * d - x1 * x1 * y1 * x2 * y2 * y2 * x3 * x3 * y3 * d - x1 * x1
      * y1 * x2 * y2 * y2 * x3 * x3 * y3 * y3 * y3 * d * d - x1 * x1 * y1 *
      x2 * x2 * y2 * x3 * y3 * y3 * d + x1 * x1 * y1 * x2 * x2 * y2 * x3 *
      x3 * x3 * y3 * y3 * d * d + x1 * x1 * x1 * y2 * y3 - x1 * x1 * x1 * y2
      * y3 * y3 * y3 + x1 * x1 * x1 * y2 * x3 * x3 * y3 + x1 * x1 * x1 * y2
      * x3 * x3 * y3 * y3 * y3 * d + x1 * x1 * x1 * x2 * x3 - x1 * x1 * x1 *
      x2 * x3 * y3 * y3 + x1 * x1 * x1 * x2 * x3 * x3 * x3 + x1 * x1 * x1 *
      x2 * x3 * x3 * x3 * y3 * y3 * d + x1 * x1 * x1 * x2 * y2 * y2 * x3 *
      y3 * y3 * d + x1 * x1 * x1 * x2 * x2 * y2 * x3 * x3 * y3 * d.

Definition assoc_x_c3 (x1 y1 x2 y2 x3 y3 : F) : F :=
      - y1 * y2 * x3 + y1 * y2 * y2 * y2 * x3 - y1 * x2 * y3 + y1 * x2 * y2
      * y2 * y3 - y1 * x2 * x2 * y2 * x3 - y1 * x2 * x2 * x2 * y3 + y1 * y1
      * y1 * y2 * x3 - y1 * y1 * y1 * y2 * y2 * y2 * x3 + y1 * y1 * y1 * x2
      * y3 - y1 * y1 * y1 * x2 * y2 * y2 * y3 + y1 * y1 * y1 * x2 * x2 * y2
      * x3 + y1 * y1 * y1 * x2 * x2 * x2 * y3 - x1 * y2 * y3 + x1 * y2 * y2
      * y2 * y3 - x1 * x2 * x3 + x1 * x2 * y2 * y2 * x3 - x1 * x2 * x2 * y2
      * y3 - x1 * x2 * x2 * x2 * x3 + x1 * y1 * y1 * y2 * y3 - x1 * y1 * y1
      * y2 * y2 * y2 * y3 + x1 * y1 * y1 * x2 * x3 - x1 * y1 * y1 * x2 * y2
      * y2 * x3 - x1 * y1 * y1 * x2 * y2 * y2 * x3 * d + x1 * y1 * y1 * x2 *
      x2 * y2 * y3 + x1 * y1 * y1 * x2 * x2 * y2 * y3 * d + x1 * y1 * y1 *
      x2 * x2 * x2 * x3 - x1 * x1 * y1 * y2 * x3 + x1 * x1 * y1 * y2 * y2 *
      y2 * x3 - x1 * x1 * y1 * x2 * y3 + x1 * x1 * y1 * x2 * y2 * y2 * y3 +
      x1 * x1 * y1 * x2 * y2 * y2 * y3 * d - x1 * x1 * y1 * x2 * x2 * y2 *
      x3 - x1 * x1 * y1 * x2 * x2 * y2 * x3 * d - x1 * x1 * y1 * x2 * x2 *
      x2 * y3 - x1 * x1 * x1 * y2 * y3 + x1 * x1 * x1 * y2 * y2 * y2 * y3 -
      x1 * x1 * x1 * x2 * x3 + x1 * x1 * x1 * x2 * y2 * y2 * x3 - x1 * x1 *
      x1 * x2 * x2 * y2 * y3 - x1 * x1 * x1 * x2 * x2 * x2 * x3.

Definition assoc_y_c1 (x1 y1 x2 y2 x3 y3 : F) : F :=
      y1 * x2 * y2 * y2 * y2 * y2 * x3 * y3 * y3 * d - y1 * x2 * x2 * y2 *
      y2 * y2 * y3 * d + y1 * x2 * x2 * y2 * y2 * y2 * y3 * y3 * y3 * d - y1
      * x2 * x2 * x2 * y2 * y2 * x3 * d - y1 * x2 * x2 * x2 * y2 * y2 * x3 *
      x3 * x3 * d - y1 * x2 * x2 * x2 * y2 * y2 * y2 * y2 * x3 * y3 * y3 * d
      * d - y1 * x2 * x2 * x2 * x2 * y2 * x3 * x3 * y3 * d - y1 * x2 * x2 *
      x2 * x2 * y2 * y2 * y2 * x3 * x3 * y3 * d * d - x1 * x2 * y2 * y2 * y2
      * y2 * x3 * x3 * y3 * d - x1 * x2 * x2 * y2 * y2 * y2 * x3 * d - x1 *
      x2 * x2 * y2 * y2 * y2 * x3 * x3 * x3 * d - x1 * x2 * x2 * x2 * y2 *
      y2 * y3 * d + x1 * x2 * x2 * x2 * y2 * y2 * y3 * y3 * y3 * d + x1 * x2
      * x2 * x2 * y2 * y2 * y2 * y2 * x3 * x3 * y3 * d * d + x1 * x2 * x2 *
      x2 * x2 * y2 * x3 * y3 * y3 * d + x1 * x2 * x2 * x2 * x2 * y2 * y2 *
      y2 * x3 * y3 * y3 * d * d.

Definition assoc_y_c2 (x1 y1 x2 y2 x3 y3 : F) : F :=
      y1 * y2 * y3 - y1 * y2 * y3 * y3 * y3 + y1 * y2 * x3 * x3 * y3 + y1 *
      y2 * x3 * x3 * y3 * y3 * y3 * d + y1 * x2 * x3 - y1 * x2 * x3 * y3 *
      y3 + y1 * x2 * x3 * x3 * x3 + y1 * x2 * x3 * x3 * x3 * y3 * y3 * d +
      y1 * x2 * y2 * y2 * x3 * y3 * y3 * d + y1 * x2 * x2 * y2 * x3 * x3 *
      y3 * d - y1 * y1 * y1 * y2 * y3 + y1 * y1 * y1 * y2 * y3 * y3 * y3 -
      y1 * y1 * y1 * y2 * x3 * x3 * y3 - y1 * y1 * y1 * y2 * x3 * x3 * y3 *
      y3 * y3 * d - y1 * y1 * y1 * x2 * x3 + y1 * y1 * y1 * x2 * x3 * y3 *
      y3 - y1 * y1 * y1 * x2 * x3 * x3 * x3 - y1 * y1 * y1 * x2 * x3 * x3 *
      x3 * y3 * y3 * d - y1 * y1 * y1 * x2 * y2 * y2 * x3 * y3 * y3 * d - y1
      * y1 * y1 * x2 * x2 * y2 * x3 * x3 * y3 * d + x1 * y2 * x3 - x1 * y2 *
      x3 * y3 * y3 + x1 * y2 * x3 * x3 * x3 + x1 * y2 * x3 * x3 * x3 * y3 *
      y3 * d + x1 * x2 * y3 - x1 * x2 * y3 * y3 * y3 + x1 * x2 * x3 * x3 *
      y3 + x1 * x2 * x3 * x3 * y3 * y3 * y3 * d - x1 * x2 * y2 * y2 * x3 *
      x3 * y3 * d - x1 * x2 * x2 * y2 * x3 * y3 * y3 * d - x1 * y1 * y1 * y2
      * x3 + x1 * y1 * y1 * y2 * x3 * y3 * y3 - x1 * y1 * y1 * y2 * x3 * x3
      * x3 - x1 * y1 * y1 * y2 * x3 * x3 * x3 * y3 * y3 * d - x1 * y1 * y1 *
      x2 * y3 + x1 * y1 * y1 * x2 * y3 * y3 * y3 - x1 * y1 * y1 * x2 * x3 *
      x3 * y3 - x1 * y1 * y1 * x2 * x3 * x3 * y3 * y3 * y3 * d + x1 * y1 *
      y1 * x2 * y2 * y2 * x3 * x3 * y3 * d + x1 * y1 * y1 * x2 * y2 * y2 *
      x3 * x3 * y3 * y3 * y3 * d * d + x1 * y1 * y1 * x2 * x2 * y2 * x3 * y3
      * y3 * d - x1 * y1 * y1 * x2 * x2 * y2 * x3 * x3 * x3 * y3 * y3 * d *
      d + x1 * x1 * y1 * y2 * y3 - x1 * x1 * y1 * y2 * y3 * y3 * y3 + x1 *
      x1 * y1 * y2 * x3 * x3 * y3 + x1 * x1 * y1 * y2 * x3 * x3 * y3 * y3 *
      y3 * d + x1 * x1 * y1 * x2 * x3 - x1 * x1 * y1 * x2 * x3 * y3 * y3 +
      x1 * x1 * y1 * x2 * x3 * x3 * x3 + x1 * x1 * y1 * x2 * x3 * x3 * x3 *
      y3 * y3 * d + x1 * x1 * y1 * x2 * y2 * y2 * x3 * y3 * y3 * d - x1 * x1
      * y1 * x2 * y2 * y2 * x3 * x3 * x3 * y3 * y3 * d * d + x1 * x1 * y1 *
      x2 * x2 * y2 * x3 * x3 * y3 * d + x1 * x1 * y1 * x2 * x2 * y2 * x3 *
      x3 * y3 * y3 * y3 * d * d + x1 * x1 * x1 * y2 * x3 - x1 * x1 * x1 * y2
      * x3 * y3 * y3 + x1 * x1 * x1 * y2 * x3 * x3 * x3 + x1 * x1 * x1 * y2
      * x3 * x3 * x3 * y3 * y3 * d + x1 * x1 * x1 * x2 * y3 - x1 * x1 * x1 *
      x2 * y3 * y3 * y3 + x1 * x1 * x1 * x2 * x3 * x3 * y3 + x1 * x1 * x1 *
      x2 * x3 * x3 * y3 * y3 * y3 * d - x1 * x1 * x1 * x2 * y2 * y2 * x3 *
      x3 * y3 * d - x1 * x1 * x1 * x2 * x2 * y2 * x3 * y3 * y3 * d.

Definition assoc_y_c3 (x1 y1 x2 y2 x3 y3 : F) : F :=
      - y1 * y2 * y3 + y1 * y2 * y2 * y2 * y3 - y1 * x2 * x3 + y1 * x2 * y2
      * y2 * x3 - y1 * x2 * x2 * y2 * y3 - y1 * x2 * x2 * x2 * x3 + y1 * y1
      * y1 * y2 * y3 - y1 * y1 * y1 * y2 * y2 * y2 * y3 + y1 * y1 * y1 * x2
      * x3 - y1 * y1 * y1 * x2 * y2 * y2 * x3 + y1 * y1 * y1 * x2 * x2 * y2
      * y3 + y1 * y1 * y1 * x2 * x2 * x2 * x3 - x1 * y2 * x3 + x1 * y2 * y2
      * y2 * x3 - x1 * x2 * y3 + x1 * x2 * y2 * y2 * y3 - x1 * x2 * x2 * y2
      * x3 - x1 * x2 * x2 * x2 * y3 + x1 * y1 * y1 * y2 * x3 - x1 * y1 * y1
      * y2 * y2 * y2 * x3 + x1 * y1 * y1 * x2 * y3 - x1 * y1 * y1 * x2 * y2
      * y2 * y3 - x1 * y1 * y1 * x2 * y2 * y2 * y3 * d + x1 * y1 * y1 * x2 *
      x2 * y2 * x3 + x1 * y1 * y1 * x2 * x2 * y2 * x3 * d + x1 * y1 * y1 *
      x2 * x2 * x2 * y3 - x1 * x1 * y1 * y2 * y3 + x1 * x1 * y1 * y2 * y2 *
      y2 * y3 - x1 * x1 * y1 * x2 * x3 + x1 * x1 * y1 * x2 * y2 * y2 * x3 +
      x1 * x1 * y1 * x2 * y2 * y2 * x3 * d - x1 * x1 * y1 * x2 * x2 * y2 *
      y3 - x1 * x1 * y1 * x2 * x2 * y2 * y3 * d - x1 * x1 * y1 * x2 * x2 *
      x2 * x3 - x1 * x1 * x1 * y2 * x3 + x1 * x1 * x1 * y2 * y2 * y2 * x3 -
      x1 * x1 * x1 * x2 * y3 + x1 * x1 * x1 * x2 * y2 * y2 * y3 - x1 * x1 *
      x1 * x2 * x2 * y2 * x3 - x1 * x1 * x1 * x2 * x2 * x2 * y3.

(** ** Completeness: the denominators of the addition law never vanish *)

Section denominators.
Context (x1 y1 x2 y2 : F) (H1 : curve_eq x1 y1) (H2 : curve_eq x2 y2).
Let t := d * (x1 * x2 * y1 * y2).

Lemma square_step (s e : F) :
  s * s = - (1) -> d * (x1 * x2 * y1 * y2) = e -> e * e = 1 ->
  d * ((s * x2 + y2) * (x1 * y1) * ((s * x2 + y2) * (x1 * y1))) =
  (s * x1 + e * y1) * (s * x1 + e * y1).
Proof.
  unfold curve_eq in *. intros Hs He Hee.
  transitivity (d * (x1 * y1 * (x1 * y1)) * (y2 * y2 + s * s * (x2 * x2)) +
                2 * s * (x1 * y1) * (d * (x1 * x2 * y1 * y2))); [ring |].
  rewrite Hs. replace (y2 * y2 + - (1) * (x2 * x2)) with (y2 * y2 - x2 * x2) by ring.
  rewrite H2.
  transitivity (d * (x1 * y1 * (x1 * y1)) +
                (d * (x1 * x2 * y1 * y2)) * (d * (x1 * x2 * y1 * y2)) +
                2 * s * (x1 * y1) * (d * (x1 * x2 * y1 * y2))); [ring |].
  rewrite He, Hee.
  transitivity (y1 * y1 - x1 * x1 + 2 * s * (x1 * y1) * e); [rewrite H1; ring |].
  transitivity (s * s * (x1 * x1) + e * e * (y1 * y1) + 2 * s * (x1 * y1) * e);
    [rewrite Hs, Hee |]; ring.
Qed.

Lemma denominator_square : t * t <> 1.
Proof.
  intros Ht.
  assert (forall u v w : F, u <> 0 -> d * (u * u) = w * w -> False) as NS.
  { intros u v w Hu E. apply (d_nonsquare (w / u)).
    transitivity ((w * w) / (u * u)); [field; exact Hu |]. rewrite <- E. field. exact Hu. }
  assert (x1 * y1 <> 0 /\ y2 <> 0) as [Hxy Hy2].
  { split; intros E; apply F_one_neq_zero; rewrite <- Ht; unfold t.
    - replace (x1 * x2 * y1 * y2) with (x1 * y1 * (x2 * y2)) by ring. rewrite E. ring.
    - rewrite E. ring. }
  assert (forall s : F, s * s = - (1) -> s * x2 + y2 = 0) as Z0.
  { intros s Hs. destruct (F_eq_dec (s * x2 + y2) 0) as [E | N]; [exact E | exfalso].
    refine (NS _ 0 _ _ (square_step s t Hs eq_refl Ht)).
    intros E. apply F_mul_0 in E. tauto. }
  pose proof (Z0 sqrtm1 sqrtm1_spec) as E1.
  assert (- sqrtm1 * x2 + y2 = 0) as E2.
  { apply Z0. rewrite <- sqrtm1_spec. ring. }
  destruct (F_add_self_neq y2 Hy2).
  transitivity ((sqrtm1 * x2 + y2) + (- sqrtm1 * x2 + y2)); [ring | rewrite E1, E2; ring].
Qed.

Lemma denominator_plus : 1 + t <> 0.
Proof.
  intros E. apply denominator_square.
  replace (t * t) with ((1 + t) * (t - 1) + 1) by ring. rewrite E. ring.
Qed.

Lemma denominator_minus : 1 - t <> 0.
Proof.
  intros E. apply denominator_square.
  replace (t * t) with (- ((1 - t) * (t + 1)) + 1) by ring. rewrite E. ring.
Qed.

Lemma denominator_both : 1 - t * t <> 0.
Proof.
  intros E. apply denominator_square.
  replace (t * t) with (1 - (1 - t * t)) by ring. rewrite E. ring.
Qed.
End denominators.

(** ** The group *)

(** Numerators and the product that occurs in both denominators. *)
Definition add_a (x1 y1 x2 y2 : F) : F := x1 * y2 + y1 * x2.

Definition add_b (x1 y1 x2 y2 : F) : F := y1 * y2 + x1 * x2.

Definition add_t (x1 y1 x2 y2 : F) : F := d * (x1 * x2 * y1 * y2).

Definition add_x (x1 y1 x2 y2 : F) : F := add_a x1 y1 x2 y2 / (1 + add_t x1 y1 x2 y2).

Definition add_y (x1 y1 x2 y2 : F) : F := add_b x1 y1 x2 y2 / (1 - add_t x1 y1 x2 y2).

(** [curve_zero x y] is the curve equation as a vanishing polynomial. *)
Definition curve_poly (x y : F) : F := y * y - x * x - 1 - d * (x * x) * (y * y).

Lemma curve_zero x y : curve_eq x y -> curve_poly x y = 0.
Proof. unfold curve_eq, curve_poly. intros ->. ring. Qed.

Lemma add_closure x1 y1 x2 y2 :
  curve_eq x1 y1 -> curve_eq x2 y2 ->
  let a := add_a x1 y1 x2 y2 in
  let b := add_b x1 y1 x2 y2 in
  let t := add_t x1 y1 x2 y2 in
  b * b * ((1 + t) * (1 + t)) - a * a * ((1 - t) * (1 - t)) =
  (1 - t * t) * (1 - t * t) + d * (a * a) * (b * b).
Proof.
  intros H1 H2 a b t. apply Zmod.sub_eq_0.
  transitivity (closure_c1 x1 y1 x2 y2 * curve_poly x1 y1 +
                closure_c2 x1 y1 x2 y2 * curve_poly x2 y2).
  - subst a b t. unfold add_a, add_b, add_t, curve_poly, closure_c1, closure_c2. ring.
  - rewrite (curve_zero _ _ H1), (curve_zero _ _ H2). ring.
Qed.

Lemma add_on_curve x1 y1 x2 y2 :
  curve_eq x1 y1 -> curve_eq x2 y2 ->
  on_curve (add_x x1 y1 x2 y2) (add_y x1 y1 x2 y2) = true.
Proof.
  intros H1 H2. apply on_curve_iff.
  pose proof (denominator_plus x1 y1 x2 y2 H1 H2) as Np.
  pose proof (denominator_minus x1 y1 x2 y2 H1 H2) as Nm.
  pose proof (add_closure x1 y1 x2 y2 H1 H2) as C. cbv zeta in C.
  unfold curve_eq, add_x, add_y. fold (add_t x1 y1 x2 y2) in Np, Nm.
  revert C Np Nm. generalize (add_a x1 y1 x2 y2), (add_b x1 y1 x2 y2), (add_t x1 y1 x2 y2).
  intros a b t C Np Nm.
  transitivity ((b * b * ((1 + t) * (1 + t)) - a * a * ((1 - t) * (1 - t))) /
                ((1 + t) * (1 + t) * ((1 - t) * (1 - t)))); [field; auto |].
  rewrite C. field. auto.
Qed.

Definition padd (P Q : point) : point :=
  Point (add_x (px P) (py P) (px Q) (py Q)) (add_y (px P) (py P) (px Q) (py Q))
        (add_on_curve _ _ _ _ (p_curve P) (p_curve Q)).

Lemma zero_on_curve : on_curve 0 1 = true.
Proof. apply on_curve_iff. unfold curve_eq. ring. Qed.

Definition pzero : point := Point 0 1 zero_on_curve.

Lemma opp_on_curve x y : curve_eq x y -> on_curve (- x) y = true.
Proof.
  intros H. apply on_curve_iff. unfold curve_eq in *.
  replace (- x * - x) with (x * x) by ring. exact H.
Qed.

Definition popp (P : point) : point := Point (- px P) (py P) (opp_on_curve _ _ (p_curve P)).

(** ** The group laws *)

Lemma padd_comm P Q : padd P Q = padd Q P.
Proof.
  apply point_eq; cbn [px py padd pzero popp]; unfold add_x, add_y, add_a, add_b, add_t; f_equal; try ring;
    f_equal; f_equal; ring.
Qed.

Lemma padd_zero_l P : padd pzero P = P.
Proof.
  apply point_eq; cbn [px py padd pzero popp]; unfold add_x, add_y, add_a, add_b, add_t.
  - transitivity (px P / 1); [f_equal; ring | field; exact F_one_neq_zero].
  - transitivity (py P / 1); [f_equal; ring | field; exact F_one_neq_zero].
Qed.

Lemma padd_zero_r P : padd P pzero = P.
Proof. rewrite padd_comm. apply padd_zero_l. Qed.

Lemma padd_opp_r P : padd P (popp P) = pzero.
Proof.
  pose proof (denominator_plus _ _ _ _ (p_curve P) (p_curve (popp P))) as Np.
  pose proof (denominator_minus _ _ _ _ (p_curve P) (p_curve (popp P))) as Nm.
  pose proof (p_curve P) as C. unfold curve_eq in C. cbn [px py popp] in Np, Nm.
  apply point_eq; cbn [px py padd pzero popp]; unfold add_x, add_y, add_a, add_b, add_t.
  - field. exact Np.
  - replace (py P * py P + px P * - px P) with (py P * py P - px P * px P) by ring.
    rewrite C. field_simplify_eq; [ring | exact Nm].
Qed.

Lemma padd_opp_l P : padd (popp P) P = pzero.
Proof. rewrite padd_comm. apply padd_opp_r. Qed.

(** The coordinates of [(P + Q) + R] over a common denominator. *)
Section three.
Context (x1 y1 x2 y2 x3 y3 : F).
Let a := add_a x1 y1 x2 y2.
Let b := add_b x1 y1 x2 y2.
Let t := add_t x1 y1 x2 y2.

Definition tri_xn : F := a * (1 - t) * y3 + b * (1 + t) * x3.

Definition tri_yn : F := b * (1 + t) * y3 + a * (1 - t) * x3.

Definition tri_xd : F := (1 - t * t) + d * a * b * x3 * y3.

Definition tri_yd : F := (1 - t * t) - d * a * b * x3 * y3.
End three.

Lemma F_mul_neq_0 (u v : F) : u <> 0 -> v <> 0 -> u * v <> 0.
Proof. intros Hu Hv E. apply F_mul_0 in E. tauto. Qed.

Lemma tri_scaled x1 y1 x2 y2 x3 y3 :
  1 + add_t x1 y1 x2 y2 <> 0 -> 1 - add_t x1 y1 x2 y2 <> 0 ->
  let x := add_x x1 y1 x2 y2 in
  let y := add_y x1 y1 x2 y2 in
  let s := 1 - add_t x1 y1 x2 y2 * add_t x1 y1 x2 y2 in
  tri_xd x1 y1 x2 y2 x3 y3 = s * (1 + add_t x y x3 y3) /\
  tri_yd x1 y1 x2 y2 x3 y3 = s * (1 - add_t x y x3 y3) /\
  tri_xn x1 y1 x2 y2 x3 y3 = s * add_a x y x3 y3 /\
  tri_yn x1 y1 x2 y2 x3 y3 = s * add_b x y x3 y3.
Proof.
  intros Np Nm x y s. subst x y s. unfold tri_xd, tri_yd, tri_xn, tri_yn, add_x, add_y.
  revert Np Nm.
  generalize (add_a x1 y1 x2 y2), (add_b x1 y1 x2 y2), (add_t x1 y1 x2 y2).
  intros a b t Np Nm. unfold add_a, add_b, add_t.
  repeat split; field; auto.
Qed.

Lemma tri_spec x1 y1 x2 y2 x3 y3 :
  curve_eq x1 y1 -> curve_eq x2 y2 -> curve_eq x3 y3 ->
  let x := add_x x1 y1 x2 y2 in
  let y := add_y x1 y1 x2 y2 in
  tri_xd x1 y1 x2 y2 x3 y3 <> 0 /\ tri_yd x1 y1 x2 y2 x3 y3 <> 0 /\
  add_x x y x3 y3 = tri_xn x1 y1 x2 y2 x3 y3 / tri_xd x1 y1 x2 y2 x3 y3 /\
  add_y x y x3 y3 = tri_yn x1 y1 x2 y2 x3 y3 / tri_yd x1 y1 x2 y2 x3 y3.
Proof.
  intros H1 H2 H3 x y.
  pose proof (denominator_plus x1 y1 x2 y2 H1 H2) as Np.
  pose proof (denominator_minus x1 y1 x2 y2 H1 H2) as Nm.
  pose proof (denominator_both x1 y1 x2 y2 H1 H2) as Nb.
  pose proof (proj1 (on_curve_iff _ _) (add_on_curve x1 y1 x2 y2 H1 H2)) as H12.
  pose proof (denominator_plus _ _ x3 y3 H12 H3) as Np'.
  pose proof (denominator_minus _ _ x3 y3 H12 H3) as Nm'.
  destruct (tri_scaled x1 y1 x2 y2 x3 y3 Np Nm) as (-> & -> & -> & ->).
  fold x y in Np', Nm' |- *. fold (add_t x y x3 y3) in Np', Nm'.
  fold (add_t x1 y1 x2 y2) in Nb.
  repeat split; try (now apply F_mul_neq_0).
  - change (add_x x y x3 y3) with (add_a x y x3 y3 / (1 + add_t x y x3 y3)). field. auto.
  - change (add_y x y x3 y3) with (add_b x y x3 y3 / (1 - add_t x y x3 y3)). field. auto.
Qed.

(** [(P + Q) + R] and [P + (Q + R)] agree in the x coordinate. *)
Lemma assoc_x x1 y1 x2 y2 x3 y3 :
  curve_eq x1 y1 -> curve_eq x2 y2 -> curve_eq x3 y3 ->
  tri_xn x1 y1 x2 y2 x3 y3 * tri_xd x2 y2 x3 y3 x1 y1 =
  tri_xn x2 y2 x3 y3 x1 y1 * tri_xd x1 y1 x2 y2 x3 y3.
Proof.
  intros H1 H2 H3. apply Zmod.sub_eq_0.
  transitivity (assoc_x_c1 x1 y1 x2 y2 x3 y3 * curve_poly x1 y1 +
                assoc_x_c2 x1 y1 x2 y2 x3 y3 * curve_poly x2 y2 +
                assoc_x_c3 x1 y1 x2 y2 x3 y3 * curve_poly x3 y3).
  - unfold tri_xn, tri_xd, add_a, add_b, add_t, curve_poly,
      assoc_x_c1, assoc_x_c2, assoc_x_c3. ring.
  - rewrite (curve_zero _ _ H1), (curve_zero _ _ H2), (curve_zero _ _ H3). ring.
Qed.

(** [(P + Q) + R] and [P + (Q + R)] agree in the y coordinate. *)
Lemma assoc_y x1 y1 x2 y2 x3 y3 :
  curve_eq x1 y1 -> curve_eq x2 y2 -> curve_eq x3 y3 ->
  tri_yn x1 y1 x2 y2 x3 y3 * tri_yd x2 y2 x3 y3 x1 y1 =
  tri_yn x2 y2 x3 y3 x1 y1 * tri_yd x1 y1 x2 y2 x3 y3.
Proof.
  intros H1 H2 H3. apply Zmod.sub_eq_0.
  transitivity (assoc_y_c1 x1 y1 x2 y2 x3 y3 * curve_poly x1 y1 +
                assoc_y_c2 x1 y1 x2 y2 x3 y3 * curve_poly x2 y2 +
                assoc_y_c3 x1 y1 x2 y2 x3 y3 * curve_poly x3 y3).
  - unfold tri_yn, tri_yd, add_a, add_b, add_t, curve_poly,
      assoc_y_c1, assoc_y_c2, assoc_y_c3. ring.
  - rewrite (curve_zero _ _ H1), (curve_zero _ _ H2), (curve_zero _ _ H3). ring.
Qed.


Lemma frac_eq (u v u' v' : F) : v <> 0 -> v' <> 0 -> u * v' = u' * v -> u / v = u' / v'.
Proof.
  intros Hv Hv' E. transitivity ((u * v') / (v * v')); [field; auto |].
  rewrite E. field. auto.
Qed.

Theorem padd_assoc P Q R : padd (padd P Q) R = padd P (padd Q R).
Proof.
  rewrite (padd_comm P (padd Q R)).
  pose proof (p_curve P) as HP. pose proof (p_curve Q) as HQ. pose proof (p_curve R) as HR.
  destruct (tri_spec _ _ _ _ _ _ HP HQ HR) as (N1 & N2 & E1 & E2).
  destruct (tri_spec _ _ _ _ _ _ HQ HR HP) as (N3 & N4 & E3 & E4).
  apply point_eq; cbn [px py padd].
  - rewrite E1, E3. apply frac_eq; [assumption .. | now apply assoc_x].
  - rewrite E2, E4. apply frac_eq; [assumption .. | now apply assoc_y].
Qed.

Lemma padd_swap P Q R : padd P (padd Q R) = padd Q (padd P R).
Proof. rewrite <- !padd_assoc. f_equal. apply padd_comm. Qed.

Lemma padd_interchange P Q R S :
  padd (padd P Q) (padd R S) = padd (padd P R) (padd Q S).
Proof. rewrite !padd_assoc. f_equal. apply padd_swap. Qed.

Lemma padd_cancel_l P Q R : padd P Q = padd P R -> Q = R.
Proof.
  intros E. rewrite <- (padd_zero_l Q), <- (padd_zero_l R), <- (padd_opp_l P), !padd_assoc.
  now rewrite E.
Qed.

Lemma popp_unique P Q : padd P Q = pzero -> Q = popp P.
Proof. intros E. apply (padd_cancel_l P). now rewrite E, padd_opp_r. Qed.

Lemma popp_padd P Q : popp (padd P Q) = padd (popp P) (popp Q).
Proof.
  symmetry. apply popp_unique.
  rewrite (padd_comm P Q), padd_assoc, <- (padd_assoc P), padd_opp_r, padd_zero_l.
  apply padd_opp_r.
Qed.

Lemma popp_popp P : popp (popp P) = P.
Proof. symmetry. apply popp_unique, padd_opp_l. Qed.

Lemma popp_zero : popp pzero = pzero.
Proof. symmetry. apply popp_unique, padd_zero_l. Qed.

(** ** Multiplication by an integer *)

Definition zmul (n : Z) (P : point) : point :=
  match n with
  | Z0 => pzero
  | Zpos n => Pos.iter_op padd n P
  | Zneg n => popp (Pos.iter_op padd n P)
  end.

Lemma iter_op_succ n P : Pos.iter_op padd (Pos.succ n) P = padd P (Pos.iter_op padd n P).
Proof. apply Pos.iter_op_succ. intros; now rewrite padd_assoc. Qed.

Lemma zmul_succ n P : zmul (Z.succ n) P = padd P (zmul n P).
Proof.
  destruct n as [| n | n].
  - now rewrite padd_zero_r.
  - change (Z.succ (Zpos n)) with (Zpos (n + 1)). rewrite Pos.add_1_r. apply iter_op_succ.
  - induction n as [| n _] using Pos.peano_ind; [cbn; now rewrite padd_opp_r |].
    replace (Z.succ (Zneg (Pos.succ n))) with (Zneg n) by lia.
    cbn [zmul]. rewrite iter_op_succ, popp_padd, <- padd_assoc, padd_opp_r, padd_zero_l.
    reflexivity.
Qed.

Lemma zmul_pred n P : zmul (Z.pred n) P = padd (popp P) (zmul n P).
Proof.
  rewrite <- (Z.succ_pred n) at 2. rewrite zmul_succ, <- padd_assoc, padd_opp_l.
  now rewrite padd_zero_l.
Qed.

Lemma zmul_add m n P : zmul (m + n) P = padd (zmul m P) (zmul n P).
Proof.
  induction m as [| m IH | m IH] using Z.peano_ind.
  - now rewrite padd_zero_l.
  - rewrite Z.add_succ_l, !zmul_succ, IH, padd_assoc. reflexivity.
  - rewrite Z.add_pred_l, !zmul_pred, IH, padd_assoc. reflexivity.
Qed.

Lemma zmul_opp n P : zmul (- n) P = popp (zmul n P).
Proof. apply popp_unique. now rewrite <- zmul_add, Z.add_opp_diag_r. Qed.

Lemma zmul_sub m n P : zmul (m - n) P = padd (zmul m P) (popp (zmul n P)).
Proof. rewrite <- Z.add_opp_r, zmul_add, zmul_opp. reflexivity. Qed.

Lemma zmul_1 P : zmul 1 P = P.
Proof. reflexivity. Qed.

Lemma zmul_0 P : zmul 0 P = pzero.
Proof. reflexivity. Qed.

Lemma zmul_zero n : zmul n pzero = pzero.
Proof.
  induction n as [| n IH | n IH] using Z.peano_ind; [reflexivity | |].
  - now rewrite zmul_succ, IH, padd_zero_l.
  - now rewrite zmul_pred, IH, popp_zero, padd_zero_l.
Qed.

Lemma zmul_padd n P Q : zmul n (padd P Q) = padd (zmul n P) (zmul n Q).
Proof.
  induction n as [| n IH | n IH] using Z.peano_ind.
  - now rewrite !zmul_0, padd_zero_l.
  - rewrite !zmul_succ, IH, !padd_assoc. f_equal. apply padd_swap.
  - rewrite !zmul_pred, IH, popp_padd, !padd_assoc. f_equal. apply padd_swap.
Qed.

Lemma zmul_popp n P : zmul n (popp P) = popp (zmul n P).
Proof.
  apply popp_unique. now rewrite <- zmul_padd, padd_opp_r, zmul_zero.
Qed.

Lemma zmul_mul m n P : zmul (m * n) P = zmul m (zmul n P).
Proof.
  induction m as [| m IH | m IH] using Z.peano_ind; [reflexivity | |].
  - rewrite Z.mul_succ_l, zmul_add, IH, zmul_succ. apply padd_comm.
  - rewrite Z.mul_pred_l, zmul_sub, IH, zmul_pred. apply padd_comm.
Qed.

Lemma zmul_2 P : zmul 2 P = padd P P.
Proof. reflexivity. Qed.
