(* ===== verification/FieldElement.v ===== *)
(** * Field elements of GF(2^255 - 19) in ten 32-bit limbs

    Model of the field arithmetic of
    [src/golang-x-crypto/ed25519/internal/edwards25519/edwards25519.go]: the
    type [FieldElement] and the functions [FeZero] to [fePow22523], with the
    wrap-around of [int32] and [int64] written out.  Under the limb bounds that
    the callers maintain, no operation wraps and each function computes the
    field operation it is named after. *)

From S2P Require Import Prelude Primality Field25519.

(** ** The code *)

(** [type FieldElement [10]int32]. *)
Record FieldElement := Fe {
  fe0 : Z; fe1 : Z; fe2 : Z; fe3 : Z; fe4 : Z;
  fe5 : Z; fe6 : Z; fe7 : Z; fe8 : Z; fe9 : Z }.

Definition FeZero : FieldElement := Fe 0 0 0 0 0 0 0 0 0 0.

Definition FeOne : FieldElement := Fe 1 0 0 0 0 0 0 0 0 0.

Definition FeAdd (a b : FieldElement) : FieldElement :=
  Fe (fe0 a + fe0 b)%i32 (fe1 a + fe1 b)%i32 (fe2 a + fe2 b)%i32
     (fe3 a + fe3 b)%i32 (fe4 a + fe4 b)%i32 (fe5 a + fe5 b)%i32
     (fe6 a + fe6 b)%i32 (fe7 a + fe7 b)%i32 (fe8 a + fe8 b)%i32
     (fe9 a + fe9 b)%i32.

Definition FeSub (a b : FieldElement) : FieldElement :=
  Fe (fe0 a - fe0 b)%i32 (fe1 a - fe1 b)%i32 (fe2 a - fe2 b)%i32
     (fe3 a - fe3 b)%i32 (fe4 a - fe4 b)%i32 (fe5 a - fe5 b)%i32
     (fe6 a - fe6 b)%i32 (fe7 a - fe7 b)%i32 (fe8 a - fe8 b)%i32
     (fe9 a - fe9 b)%i32.

Definition FeCopy (src : FieldElement) : FieldElement := src.

(** The new value of [f]; [g] is only read. *)
Definition FeCMove (f g : FieldElement) (b : Z) : FieldElement :=
  let b := (- b)%i32 in
  Fe (fe0 f .^ (b .& (fe0 f .^ fe0 g)))%i32 (fe1 f .^ (b .& (fe1 f .^ fe1 g)))%i32
     (fe2 f .^ (b .& (fe2 f .^ fe2 g)))%i32 (fe3 f .^ (b .& (fe3 f .^ fe3 g)))%i32
     (fe4 f .^ (b .& (fe4 f .^ fe4 g)))%i32 (fe5 f .^ (b .& (fe5 f .^ fe5 g)))%i32
     (fe6 f .^ (b .& (fe6 f .^ fe6 g)))%i32 (fe7 f .^ (b .& (fe7 f .^ fe7 g)))%i32
     (fe8 f .^ (b .& (fe8 f .^ fe8 g)))%i32 (fe9 f .^ (b .& (fe9 f .^ fe9 g)))%i32.

Definition FeNeg (f : FieldElement) : FieldElement :=
  Fe (- fe0 f)%i32 (- fe1 f)%i32 (- fe2 f)%i32 (- fe3 f)%i32 (- fe4 f)%i32
     (- fe5 f)%i32 (- fe6 f)%i32 (- fe7 f)%i32 (- fe8 f)%i32 (- fe9 f)%i32.

Definition FeCombine (h0 h1 h2 h3 h4 h5 h6 h7 h8 h9 : Z) : FieldElement :=
  let c0 := ((h0 + (1 << 25)) >> 26)%i64 in
  let h1 := (h1 + c0)%i64 in
  let h0 := (h0 - c0 << 26)%i64 in
  let c4 := ((h4 + (1 << 25)) >> 26)%i64 in
  let h5 := (h5 + c4)%i64 in
  let h4 := (h4 - c4 << 26)%i64 in
  let c1 := ((h1 + (1 << 24)) >> 25)%i64 in
  let h2 := (h2 + c1)%i64 in
  let h1 := (h1 - c1 << 25)%i64 in
  let c5 := ((h5 + (1 << 24)) >> 25)%i64 in
  let h6 := (h6 + c5)%i64 in
  let h5 := (h5 - c5 << 25)%i64 in
  let c2 := ((h2 + (1 << 25)) >> 26)%i64 in
  let h3 := (h3 + c2)%i64 in
  let h2 := (h2 - c2 << 26)%i64 in
  let c6 := ((h6 + (1 << 25)) >> 26)%i64 in
  let h7 := (h7 + c6)%i64 in
  let h6 := (h6 - c6 << 26)%i64 in
  let c3 := ((h3 + (1 << 24)) >> 25)%i64 in
  let h4 := (h4 + c3)%i64 in
  let h3 := (h3 - c3 << 25)%i64 in
  let c7 := ((h7 + (1 << 24)) >> 25)%i64 in
  let h8 := (h8 + c7)%i64 in
  let h7 := (h7 - c7 << 25)%i64 in
  let c4 := ((h4 + (1 << 25)) >> 26)%i64 in
  let h5 := (h5 + c4)%i64 in
  let h4 := (h4 - c4 << 26)%i64 in
  let c8 := ((h8 + (1 << 25)) >> 26)%i64 in
  let h9 := (h9 + c8)%i64 in
  let h8 := (h8 - c8 << 26)%i64 in
  let c9 := ((h9 + (1 << 24)) >> 25)%i64 in
  let h0 := (h0 + c9 * 19)%i64 in
  let h9 := (h9 - c9 << 25)%i64 in
  let c0 := ((h0 + (1 << 25)) >> 26)%i64 in
  let h1 := (h1 + c0)%i64 in
  let h0 := (h0 - c0 << 26)%i64 in
  Fe (int32 h0) (int32 h1) (int32 h2) (int32 h3) (int32 h4)
     (int32 h5) (int32 h6) (int32 h7) (int32 h8) (int32 h9).

Definition FeMul (f g : FieldElement) : FieldElement :=
  let f0 := fe0 f in
  let f1 := fe1 f in
  let f2 := fe2 f in
  let f3 := fe3 f in
  let f4 := fe4 f in
  let f5 := fe5 f in
  let f6 := fe6 f in
  let f7 := fe7 f in
  let f8 := fe8 f in
  let f9 := fe9 f in
  let f1_2 := (2 * fe1 f)%i32 in
  let f3_2 := (2 * fe3 f)%i32 in
  let f5_2 := (2 * fe5 f)%i32 in
  let f7_2 := (2 * fe7 f)%i32 in
  let f9_2 := (2 * fe9 f)%i32 in
  let g0 := fe0 g in
  let g1 := fe1 g in
  let g2 := fe2 g in
  let g3 := fe3 g in
  let g4 := fe4 g in
  let g5 := fe5 g in
  let g6 := fe6 g in
  let g7 := fe7 g in
  let g8 := fe8 g in
  let g9 := fe9 g in
  let g1_19 := (19 * fe1 g)%i32 in
  let g2_19 := (19 * fe2 g)%i32 in
  let g3_19 := (19 * fe3 g)%i32 in
  let g4_19 := (19 * fe4 g)%i32 in
  let g5_19 := (19 * fe5 g)%i32 in
  let g6_19 := (19 * fe6 g)%i32 in
  let g7_19 := (19 * fe7 g)%i32 in
  let g8_19 := (19 * fe8 g)%i32 in
  let g9_19 := (19 * fe9 g)%i32 in
  let h0 := (f0*g0 + f1_2*g9_19 + f2*g8_19 + f3_2*g7_19 + f4*g6_19 +
    f5_2*g5_19 + f6*g4_19 + f7_2*g3_19 + f8*g2_19 + f9_2*g1_19)%i64 in
  let h1 := (f0*g1 + f1*g0 + f2*g9_19 + f3*g8_19 + f4*g7_19 + f5*g6_19 +
    f6*g5_19 + f7*g4_19 + f8*g3_19 + f9*g2_19)%i64 in
  let h2 := (f0*g2 + f1_2*g1 + f2*g0 + f3_2*g9_19 + f4*g8_19 + f5_2*g7_19 +
    f6*g6_19 + f7_2*g5_19 + f8*g4_19 + f9_2*g3_19)%i64 in
  let h3 := (f0*g3 + f1*g2 + f2*g1 + f3*g0 + f4*g9_19 + f5*g8_19 + f6*g7_19 +
    f7*g6_19 + f8*g5_19 + f9*g4_19)%i64 in
  let h4 := (f0*g4 + f1_2*g3 + f2*g2 + f3_2*g1 + f4*g0 + f5_2*g9_19 +
    f6*g8_19 + f7_2*g7_19 + f8*g6_19 + f9_2*g5_19)%i64 in
  let h5 := (f0*g5 + f1*g4 + f2*g3 + f3*g2 + f4*g1 + f5*g0 + f6*g9_19 +
    f7*g8_19 + f8*g7_19 + f9*g6_19)%i64 in
  let h6 := (f0*g6 + f1_2*g5 + f2*g4 + f3_2*g3 + f4*g2 + f5_2*g1 + f6*g0 +
    f7_2*g9_19 + f8*g8_19 + f9_2*g7_19)%i64 in
  let h7 := (f0*g7 + f1*g6 + f2*g5 + f3*g4 + f4*g3 + f5*g2 + f6*g1 + f7*g0 +
    f8*g9_19 + f9*g8_19)%i64 in
  let h8 := (f0*g8 + f1_2*g7 + f2*g6 + f3_2*g5 + f4*g4 + f5_2*g3 + f6*g2 +
    f7_2*g1 + f8*g0 + f9_2*g9_19)%i64 in
  let h9 := (f0*g9 + f1*g8 + f2*g7 + f3*g6 + f4*g5 + f5*g4 + f6*g3 + f7*g2 +
    f8*g1 + f9*g0)%i64 in
  FeCombine h0 h1 h2 h3 h4 h5 h6 h7 h8 h9.

Definition feSquare (f : FieldElement) : Z * Z * Z * Z * Z * Z * Z * Z * Z * Z :=
  let f0 := fe0 f in
  let f1 := fe1 f in
  let f2 := fe2 f in
  let f3 := fe3 f in
  let f4 := fe4 f in
  let f5 := fe5 f in
  let f6 := fe6 f in
  let f7 := fe7 f in
  let f8 := fe8 f in
  let f9 := fe9 f in
  let f0_2 := (2 * fe0 f)%i32 in
  let f1_2 := (2 * fe1 f)%i32 in
  let f2_2 := (2 * fe2 f)%i32 in
  let f3_2 := (2 * fe3 f)%i32 in
  let f4_2 := (2 * fe4 f)%i32 in
  let f5_2 := (2 * fe5 f)%i32 in
  let f6_2 := (2 * fe6 f)%i32 in
  let f7_2 := (2 * fe7 f)%i32 in
  let f5_38 := (38 * f5)%i64 in
  let f6_19 := (19 * f6)%i64 in
  let f7_38 := (38 * f7)%i64 in
  let f8_19 := (19 * f8)%i64 in
  let f9_38 := (38 * f9)%i64 in
  let h0 := (f0*f0 + f1_2*f9_38 + f2_2*f8_19 + f3_2*f7_38 + f4_2*f6_19 +
    f5*f5_38)%i64 in
  let h1 := (f0_2*f1 + f2*f9_38 + f3_2*f8_19 + f4*f7_38 + f5_2*f6_19)%i64 in
  let h2 := (f0_2*f2 + f1_2*f1 + f3_2*f9_38 + f4_2*f8_19 + f5_2*f7_38 +
    f6*f6_19)%i64 in
  let h3 := (f0_2*f3 + f1_2*f2 + f4*f9_38 + f5_2*f8_19 + f6*f7_38)%i64 in
  let h4 := (f0_2*f4 + f1_2*f3_2 + f2*f2 + f5_2*f9_38 + f6_2*f8_19 +
    f7*f7_38)%i64 in
  let h5 := (f0_2*f5 + f1_2*f4 + f2_2*f3 + f6*f9_38 + f7_2*f8_19)%i64 in
  let h6 := (f0_2*f6 + f1_2*f5_2 + f2_2*f4 + f3_2*f3 + f7_2*f9_38 +
    f8*f8_19)%i64 in
  let h7 := (f0_2*f7 + f1_2*f6 + f2_2*f5 + f3_2*f4 + f8*f9_38)%i64 in
  let h8 := (f0_2*f8 + f1_2*f7_2 + f2_2*f6 + f3_2*f5_2 + f4*f4 +
    f9*f9_38)%i64 in
  let h9 := (f0_2*f9 + f1_2*f8 + f2_2*f7 + f3_2*f6 + f4_2*f5)%i64 in
  (h0, h1, h2, h3, h4, h5, h6, h7, h8, h9).

Definition FeSquare (f : FieldElement) : FieldElement :=
  let '(h0, h1, h2, h3, h4, h5, h6, h7, h8, h9) := feSquare f in
  FeCombine h0 h1 h2 h3 h4 h5 h6 h7 h8 h9.

Definition FeSquare2 (f : FieldElement) : FieldElement :=
  let '(h0, h1, h2, h3, h4, h5, h6, h7, h8, h9) := feSquare f in
  FeCombine (h0 + h0)%i64 (h1 + h1)%i64 (h2 + h2)%i64 (h3 + h3)%i64
            (h4 + h4)%i64 (h5 + h5)%i64 (h6 + h6)%i64 (h7 + h7)%i64
            (h8 + h8)%i64 (h9 + h9)%i64.

(** [for i = 1; i < n; i++ { FeSquare(&t, &t) }]. *)
Definition FeSquareLoop (n : nat) (t : FieldElement) : FieldElement :=
  Nat.iter (n - 1) FeSquare t.

Definition FeInvert (z : FieldElement) : FieldElement :=
  let t0 := FeSquare z in
  let t1 := FeSquare t0 in
  let t1 := FeSquareLoop 2 t1 in
  let t1 := FeMul z t1 in
  let t0 := FeMul t0 t1 in
  let t2 := FeSquare t0 in
  let t1 := FeMul t1 t2 in
  let t2 := FeSquare t1 in
  let t2 := FeSquareLoop 5 t2 in
  let t1 := FeMul t2 t1 in
  let t2 := FeSquare t1 in
  let t2 := FeSquareLoop 10 t2 in
  let t2 := FeMul t2 t1 in
  let t3 := FeSquare t2 in
  let t3 := FeSquareLoop 20 t3 in
  let t2 := FeMul t3 t2 in
  let t2 := FeSquare t2 in
  let t2 := FeSquareLoop 10 t2 in
  let t1 := FeMul t2 t1 in
  let t2 := FeSquare t1 in
  let t2 := FeSquareLoop 50 t2 in
  let t2 := FeMul t2 t1 in
  let t3 := FeSquare t2 in
  let t3 := FeSquareLoop 100 t3 in
  let t2 := FeMul t3 t2 in
  let t2 := FeSquare t2 in
  let t2 := FeSquareLoop 50 t2 in
  let t1 := FeMul t2 t1 in
  let t1 := FeSquare t1 in
  let t1 := FeSquareLoop 5 t1 in
  FeMul t1 t0.

Definition fePow22523 (z : FieldElement) : FieldElement :=
  let t0 := FeSquare z in
  let t0 := FeSquareLoop 1 t0 in
  let t1 := FeSquare t0 in
  let t1 := FeSquareLoop 2 t1 in
  let t1 := FeMul z t1 in
  let t0 := FeMul t0 t1 in
  let t0 := FeSquare t0 in
  let t0 := FeSquareLoop 1 t0 in
  let t0 := FeMul t1 t0 in
  let t1 := FeSquare t0 in
  let t1 := FeSquareLoop 5 t1 in
  let t0 := FeMul t1 t0 in
  let t1 := FeSquare t0 in
  let t1 := FeSquareLoop 10 t1 in
  let t1 := FeMul t1 t0 in
  let t2 := FeSquare t1 in
  let t2 := FeSquareLoop 20 t2 in
  let t1 := FeMul t2 t1 in
  let t1 := FeSquare t1 in
  let t1 := FeSquareLoop 10 t1 in
  let t0 := FeMul t1 t0 in
  let t1 := FeSquare t0 in
  let t1 := FeSquareLoop 50 t1 in
  let t1 := FeMul t1 t0 in
  let t2 := FeSquare t1 in
  let t2 := FeSquareLoop 100 t2 in
  let t1 := FeMul t2 t1 in
  let t1 := FeSquare t1 in
  let t1 := FeSquareLoop 50 t1 in
  let t0 := FeMul t1 t0 in
  let t0 := FeSquare t0 in
  let t0 := FeSquareLoop 2 t0 in
  FeMul t0 z.

(** ** Values and bounds *)

Definition fe_sum (h0 h1 h2 h3 h4 h5 h6 h7 h8 h9 : Z) : Z :=
  h0 + 2 ^ 26 * h1 + 2 ^ 51 * h2 + 2 ^ 77 * h3 + 2 ^ 102 * h4 +
  2 ^ 128 * h5 + 2 ^ 153 * h6 + 2 ^ 179 * h7 + 2 ^ 204 * h8 + 2 ^ 230 * h9.

(** The integer a field element stands for. *)
Definition fe_val (f : FieldElement) : Z :=
  fe_sum (fe0 f) (fe1 f) (fe2 f) (fe3 f) (fe4 f)
         (fe5 f) (fe6 f) (fe7 f) (fe8 f) (fe9 f).

(** The element of the field it stands for. *)
Definition fe (f : FieldElement) : F := of_Z (fe_val f).

(** [1.01 * 2 ^ 25] and [1.01 * 2 ^ 24], the bounds [FeCombine] establishes on
    the even and odd limbs. *)
Definition even_unit : Z := 33889976.

Definition odd_unit : Z := 16944988.

Definition fe_bounded (n : Z) (f : FieldElement) : Prop :=
  within (n * even_unit) (fe0 f) /\ within (n * odd_unit) (fe1 f) /\
  within (n * even_unit) (fe2 f) /\ within (n * odd_unit) (fe3 f) /\
  within (n * even_unit) (fe4 f) /\ within (n * odd_unit) (fe5 f) /\
  within (n * even_unit) (fe6 f) /\ within (n * odd_unit) (fe7 f) /\
  within (n * even_unit) (fe8 f) /\ within (n * odd_unit) (fe9 f).

Definition fe_boundedb (n : Z) (f : FieldElement) : bool :=
  let e x := (Z.abs x <=? n * even_unit) in
  let o x := (Z.abs x <=? n * odd_unit) in
  e (fe0 f) && o (fe1 f) && e (fe2 f) && o (fe3 f) && e (fe4 f) &&
  o (fe5 f) && e (fe6 f) && o (fe7 f) && e (fe8 f) && o (fe9 f).

Ltac fe_simpl := cbn [fe0 fe1 fe2 fe3 fe4 fe5 fe6 fe7 fe8 fe9].

Lemma fe_boundedb_spec n f : fe_boundedb n f = true -> fe_bounded n f.
Proof.
  unfold fe_boundedb, fe_bounded, within. rewrite !andb_true_iff, !Z.leb_le, !Z.abs_le. tauto.
Qed.

Lemma fe_bounded_le m n f : fe_bounded m f -> m <= n -> fe_bounded n f.
Proof.
  unfold fe_bounded. intros H L. split_and; (eapply within_le; [eassumption | apply Z.mul_le_mono_nonneg_r; [discriminate | exact L]]).
Qed.

Lemma fe_value_cong f x k : fe_val f = x - prime25519 * k -> fe f = of_Z x.
Proof. unfold fe. intros ->. apply of_Z_modulus. Qed.

(** ** Carries *)

Ltac carry_step H :=
  let E := fresh "E" in intro_let H E;
  lazymatch type of E with
  | ?c = Z.shiftr (int64 (?x + int64 (Z.shiftl 1 _))) ?k =>
      apply (round64_bounds k x c) in E; [| lia | lia]
  | ?y = int64 (?x - int64 (Z.shiftl ?c ?k)) =>
      apply (sub_shl64 k x c y) in E; [| lia | lia | lia]
  | ?y = int64 (?x + int64 (?c * 19)) =>
      rewrite (int64_id (c * 19)) in E by lia;
      apply (add64 x (c * 19) y) in E; [| lia]
  | ?y = int64 (?x + ?c) =>
      apply (add64 x c y) in E; [| lia]
  end.

Lemma FeCombine_spec h0 h1 h2 h3 h4 h5 h6 h7 h8 h9 r :
  Forall (within (2 ^ 62)) [h0; h1; h2; h3; h4; h5; h6; h7; h8; h9] ->
  r = FeCombine h0 h1 h2 h3 h4 h5 h6 h7 h8 h9 ->
  fe_bounded 1 r /\
  exists k, fe_val r = fe_sum h0 h1 h2 h3 h4 h5 h6 h7 h8 h9 - prime25519 * k.
Proof.
  intros B Hr. repeat (apply Forall_cons_iff in B; destruct B as [? B]). clear B.
  unfold within in *. cbv beta delta [FeCombine] in Hr.
  do 36 (carry_step Hr).
  rewrite !int32_id in Hr by lia.
  subst r. split.
  - unfold fe_bounded, within, even_unit, odd_unit; fe_simpl. lia.
  - exists c10. unfold fe_val, fe_sum, prime25519; fe_simpl. subst. ring.
Qed.

Lemma FeCombine_value h0 h1 h2 h3 h4 h5 h6 h7 h8 h9 :
  Forall (within (2 ^ 62)) [h0; h1; h2; h3; h4; h5; h6; h7; h8; h9] ->
  fe_bounded 1 (FeCombine h0 h1 h2 h3 h4 h5 h6 h7 h8 h9) /\
  fe (FeCombine h0 h1 h2 h3 h4 h5 h6 h7 h8 h9) =
    of_Z (fe_sum h0 h1 h2 h3 h4 h5 h6 h7 h8 h9).
Proof.
  intros B. destruct (FeCombine_spec _ _ _ _ _ _ _ _ _ _ _ B eq_refl) as [Hb [k Hk]].
  split; [exact Hb | exact (fe_value_cong _ _ _ Hk)].
Qed.

Ltac forall_bound := repeat (apply Forall_cons; [bound |]); apply Forall_nil.

(** ** Multiplication *)

Definition mul_quot (f0 f1 f2 f3 f4 f5 f6 f7 f8 f9 g0 g1 g2 g3 g4 g5 g6 g7 g8 g9 : Z) : Z :=
  (2 * f1 * g9 + f2 * g8 + 2 * f3 * g7 + f4 * g6 + 2 * f5 * g5 + f6 * g4 +
   2 * f7 * g3 + f8 * g2 + 2 * f9 * g1) +
  2 ^ 26 * (f2 * g9 + f3 * g8 + f4 * g7 + f5 * g6 + f6 * g5 + f7 * g4 + f8 * g3 + f9 * g2) +
  2 ^ 51 * (2 * f3 * g9 + f4 * g8 + 2 * f5 * g7 + f6 * g6 + 2 * f7 * g5 + f8 * g4 +
            2 * f9 * g3) +
  2 ^ 77 * (f4 * g9 + f5 * g8 + f6 * g7 + f7 * g6 + f8 * g5 + f9 * g4) +
  2 ^ 102 * (2 * f5 * g9 + f6 * g8 + 2 * f7 * g7 + f8 * g6 + 2 * f9 * g5) +
  2 ^ 128 * (f6 * g9 + f7 * g8 + f8 * g7 + f9 * g6) +
  2 ^ 153 * (2 * f7 * g9 + f8 * g8 + 2 * f9 * g7) +
  2 ^ 179 * (f8 * g9 + f9 * g8) +
  2 ^ 204 * (2 * f9 * g9).

Lemma FeMul_spec f g :
  fe_bounded 3 f -> fe_bounded 3 g ->
  fe_bounded 1 (FeMul f g) /\ fe (FeMul f g) = (fe f * fe g)%F.
Proof.
  unfold fe_bounded at 1 2. intros Hf Hg.
  break_and.
  remember (FeMul f g) as r eqn:Hr. cbv beta delta [FeMul] in Hr.
  do 44 (exact_let Hr).
  apply FeCombine_spec in Hr; [| forall_bound].
  destruct Hr as [Hb [k Hk]]. split; [exact Hb |].
  unfold fe at 2 3. rewrite <- of_Z_mul.
  apply (fe_value_cong _ _
    (k + mul_quot f0 f1 f2 f3 f4 f5 f6 f7 f8 f9 g0 g1 g2 g3 g4 g5 g6 g7 g8 g9)).
  rewrite Hk. unfold fe_val, fe_sum, mul_quot, prime25519. subst. ring.
Qed.

(** The ten products of [feSquare], in range to be doubled, are those of the
    square. *)
Lemma feSquare_spec f h0 h1 h2 h3 h4 h5 h6 h7 h8 h9 :
  fe_bounded 3 f -> (h0, h1, h2, h3, h4, h5, h6, h7, h8, h9) = feSquare f ->
  Forall (within (2 ^ 61)) [h0; h1; h2; h3; h4; h5; h6; h7; h8; h9] /\
  exists k, fe_sum h0 h1 h2 h3 h4 h5 h6 h7 h8 h9 =
            fe_val f * fe_val f - prime25519 * k.
Proof.
  unfold fe_bounded. intros Hf Hr.
  break_and.
  cbv beta delta [feSquare] in Hr.
  do 33 (exact_let Hr).
  apply pair_equal_spec in Hr as [Hr ->].
  repeat (apply pair_equal_spec in Hr as [Hr ?]). subst h0.
  split; [subst h1 h2 h3 h4 h5 h6 h7 h8; forall_bound |].
  exists (mul_quot f0 f1 f2 f3 f4 f5 f6 f7 f8 f9 f0 f1 f2 f3 f4 f5 f6 f7 f8 f9).
  unfold fe_val, fe_sum, mul_quot, prime25519. subst. ring.
Qed.

Lemma FeSquare_spec f :
  fe_bounded 3 f -> fe_bounded 1 (FeSquare f) /\ fe (FeSquare f) = (fe f * fe f)%F.
Proof.
  intros Hf. unfold FeSquare.
  destruct (feSquare f) as [[[[[[[[[h0 h1] h2] h3] h4] h5] h6] h7] h8] h9] eqn:E.
  symmetry in E. apply feSquare_spec in E as [B [k Hk]]; [| exact Hf].
  destruct (FeCombine_value h0 h1 h2 h3 h4 h5 h6 h7 h8 h9) as [Hb ->].
  - revert B. apply Forall_impl. intros x Hx. apply (within_le _ _ _ Hx). discriminate.
  - split; [exact Hb |]. rewrite Hk. unfold fe. autorewrite with of_Z. reflexivity.
Qed.

Lemma FeSquare2_spec f :
  fe_bounded 3 f ->
  fe_bounded 1 (FeSquare2 f) /\ fe (FeSquare2 f) = (2 * (fe f * fe f))%F.
Proof.
  intros Hf. unfold FeSquare2.
  destruct (feSquare f) as [[[[[[[[[h0 h1] h2] h3] h4] h5] h6] h7] h8] h9] eqn:E.
  symmetry in E. apply feSquare_spec in E as [B [k Hk]]; [| exact Hf].
  repeat (apply Forall_cons_iff in B; destruct B as [? B]). clear B.
  unfold within in *. rewrite !int64_id by lia.
  destruct (FeCombine_value (h0 + h0) (h1 + h1) (h2 + h2) (h3 + h3) (h4 + h4)
              (h5 + h5) (h6 + h6) (h7 + h7) (h8 + h8) (h9 + h9)) as [Hb ->].
  - repeat (apply Forall_cons; [unfold within; lia |]). apply Forall_nil.
  - split; [exact Hb |].
    transitivity (of_Z (fe_sum h0 h1 h2 h3 h4 h5 h6 h7 h8 h9 +
                        fe_sum h0 h1 h2 h3 h4 h5 h6 h7 h8 h9)).
    + f_equal. unfold fe_sum. ring.
    + rewrite of_Z_add, Hk. unfold fe. autorewrite with of_Z. ring.
Qed.

(** ** Limb-wise operations *)

Lemma limb_add m n u x y :
  within (m * u) x -> within (n * u) y -> (m + n) * u < 2 ^ 31 ->
  int32 (x + y) = x + y /\ within ((m + n) * u) (x + y).
Proof.
  unfold within. intros. split; [apply int32_id |]; nia.
Qed.

Lemma limb_sub m n u x y :
  within (m * u) x -> within (n * u) y -> (m + n) * u < 2 ^ 31 ->
  int32 (x - y) = x - y /\ within ((m + n) * u) (x - y).
Proof.
  unfold within. intros. split; [apply int32_id |]; nia.
Qed.

Lemma limb_opp n u x :
  within (n * u) x -> n * u < 2 ^ 31 -> int32 (- x) = - x /\ within (n * u) (- x).
Proof.
  unfold within. intros. split; [apply int32_id |]; nia.
Qed.

Definition limbs_combine (op : Z -> Z -> Z) (f g : FieldElement) : FieldElement :=
  Fe (op (fe0 f) (fe0 g)) (op (fe1 f) (fe1 g)) (op (fe2 f) (fe2 g)) (op (fe3 f) (fe3 g))
     (op (fe4 f) (fe4 g)) (op (fe5 f) (fe5 g)) (op (fe6 f) (fe6 g)) (op (fe7 f) (fe7 g))
     (op (fe8 f) (fe8 g)) (op (fe9 f) (fe9 g)).

(** [m + n <= 63] keeps the sum of two limbs inside [int32]. *)
Lemma FeAdd_limbs m n f g :
  fe_bounded m f -> fe_bounded n g -> m + n <= 63 ->
  FeAdd f g = limbs_combine Z.add f g /\ fe_bounded (m + n) (limbs_combine Z.add f g).
Proof.
  intros Hf Hg L. unfold fe_bounded in *. unfold FeAdd, limbs_combine. fe_simpl. split.
  - break_and. f_equal; eapply limb_add; try eassumption; unfold even_unit, odd_unit; lia.
  - split_and; eapply limb_add; try eassumption; unfold even_unit, odd_unit; lia.
Qed.

Lemma FeSub_limbs m n f g :
  fe_bounded m f -> fe_bounded n g -> m + n <= 63 ->
  FeSub f g = limbs_combine Z.sub f g /\ fe_bounded (m + n) (limbs_combine Z.sub f g).
Proof.
  intros Hf Hg L. unfold fe_bounded in *. unfold FeSub, limbs_combine. fe_simpl. split.
  - break_and. f_equal; eapply limb_sub; try eassumption; unfold even_unit, odd_unit; lia.
  - split_and; eapply limb_sub; try eassumption; unfold even_unit, odd_unit; lia.
Qed.

Lemma FeNeg_limbs n f :
  fe_bounded n f -> n <= 63 ->
  FeNeg f = limbs_combine (fun x _ => - x) f f /\
  fe_bounded n (limbs_combine (fun x _ => - x) f f).
Proof.
  intros Hf L. unfold fe_bounded in *. unfold FeNeg, limbs_combine. fe_simpl. split.
  - break_and. f_equal; eapply limb_opp; try eassumption; unfold even_unit, odd_unit; lia.
  - split_and; eapply limb_opp; try eassumption; unfold even_unit, odd_unit; lia.
Qed.

(** ** Representation

    [repr n f x]: the limbs of [f] are within [n] units and [f] stands for the
    field element [x].  There is one rule per function of the code. *)

Definition repr (n : Z) (f : FieldElement) (x : F) : Prop := fe_bounded n f /\ fe f = x.

Lemma repr_self n f : fe_bounded n f -> repr n f (fe f).
Proof. now split. Qed.

Lemma repr_le m n f x : repr m f x -> m <= n -> repr n f x.
Proof. intros [H E] L. split; [exact (fe_bounded_le m n f H L) | exact E]. Qed.

Lemma repr_eq n f x y : repr n f x -> x = y -> repr n f y.
Proof. now intros H <-. Qed.

Lemma repr_inj m n f x y : repr m f x -> repr n f y -> x = y.
Proof. intros [_ <-] [_ <-]. reflexivity. Qed.

Lemma repr_zero : repr 1 FeZero 0%F.
Proof. split; [now apply fe_boundedb_spec |]. apply Zmod.unsigned_inj. reflexivity. Qed.

Lemma repr_one : repr 1 FeOne 1%F.
Proof. split; [now apply fe_boundedb_spec |]. apply Zmod.unsigned_inj. reflexivity. Qed.

Lemma repr_mul f g x y : repr 3 f x -> repr 3 g y -> repr 1 (FeMul f g) (x * y)%F.
Proof. intros [Hf <-] [Hg <-]. exact (FeMul_spec f g Hf Hg). Qed.

Lemma repr_square f x : repr 3 f x -> repr 1 (FeSquare f) (x * x)%F.
Proof. intros [Hf <-]. exact (FeSquare_spec f Hf). Qed.

Lemma repr_square2 f x : repr 3 f x -> repr 1 (FeSquare2 f) (2 * (x * x))%F.
Proof. intros [Hf <-]. exact (FeSquare2_spec f Hf). Qed.

Lemma repr_add m n f g x y :
  repr m f x -> repr n g y -> m + n <= 63 -> repr (m + n) (FeAdd f g) (x + y)%F.
Proof.
  intros [Hf <-] [Hg <-] L. destruct (FeAdd_limbs m n f g Hf Hg L) as [-> B].
  split; [exact B |]. unfold fe. rewrite <- of_Z_add. f_equal.
  unfold fe_val, fe_sum, limbs_combine; fe_simpl. ring.
Qed.

Lemma repr_sub m n f g x y :
  repr m f x -> repr n g y -> m + n <= 63 -> repr (m + n) (FeSub f g) (x - y)%F.
Proof.
  intros [Hf <-] [Hg <-] L. destruct (FeSub_limbs m n f g Hf Hg L) as [-> B].
  split; [exact B |]. unfold fe. rewrite <- of_Z_sub. f_equal.
  unfold fe_val, fe_sum, limbs_combine; fe_simpl. ring.
Qed.

Lemma repr_neg n f x : repr n f x -> n <= 63 -> repr n (FeNeg f) (- x)%F.
Proof.
  intros [Hf <-] L. destruct (FeNeg_limbs n f Hf L) as [-> B].
  split; [exact B |]. unfold fe. rewrite <- of_Z_opp. f_equal.
  unfold fe_val, fe_sum, limbs_combine; fe_simpl. ring.
Qed.

(** ** Conditional move *)

Lemma cmove_limb x y b : b = 0 \/ b = 1 ->
  Z.lxor x (Z.land (int32 (- b)) (Z.lxor x y)) = if b =? 0 then x else y.
Proof.
  intros [-> | ->].
  - change (int32 (- 0)) with 0. rewrite Z.land_0_l, Z.lxor_0_r. reflexivity.
  - change (int32 (- (1))) with (-1). rewrite Z.land_m1_l, <- Z.lxor_assoc,
      Z.lxor_nilpotent, Z.lxor_0_l. reflexivity.
Qed.

Lemma FeCMove_spec f g b : b = 0 \/ b = 1 -> FeCMove f g b = if b =? 0 then f else g.
Proof.
  intros Hb. unfold FeCMove. rewrite !cmove_limb by exact Hb.
  destruct f, g, Hb as [-> | ->]; reflexivity.
Qed.

(** ** Powers *)

Section powers.
Context (sq : FieldElement -> FieldElement) (mul : FieldElement -> FieldElement -> FieldElement).
Hypothesis repr_sq : forall f x, repr 3 f x -> repr 1 (sq f) (x * x)%F.
Hypothesis repr_product :
  forall f g x y, repr 3 f x -> repr 3 g y -> repr 1 (mul f g) (x * y)%F.

Lemma repr_pow_square f x m :
  repr 3 f (x ^ m)%F -> 0 <= m -> repr 1 (sq f) (x ^ (2 * m))%F.
Proof.
  intros H Hm. apply (repr_eq _ _ _ _ (repr_sq f _ H)).
  rewrite <- F_pow_add by exact Hm. f_equal. ring.
Qed.

Lemma repr_pow_mul f g x m n :
  repr 3 f (x ^ m)%F -> repr 3 g (x ^ n)%F -> 0 <= m -> 0 <= n ->
  repr 1 (mul f g) (x ^ (m + n))%F.
Proof.
  intros Hf Hg Hm Hn. apply (repr_eq _ _ _ _ (repr_product f g _ _ Hf Hg)).
  now rewrite F_pow_add.
Qed.

Lemma repr_pow_loop k f x m :
  repr 1 f (x ^ m)%F -> 0 <= m ->
  repr 1 (Nat.iter (k - 1) sq f) (x ^ (2 ^ Z.of_nat (k - 1) * m))%F.
Proof.
  intros Hf Hm. induction (k - 1)%nat as [| n IH].
  - change (2 ^ Z.of_nat 0) with 1. now rewrite Z.mul_1_l.
  - cbn [Nat.iter nat_rect]. rewrite Nat2Z.inj_succ, Z.pow_succ_r, <- Z.mul_assoc by lia.
    apply repr_pow_square; [apply (repr_le 1 3); [exact IH | lia] | lia].
Qed.
End powers.

(** [pow_rule] knows the exponent that an operation on powers of one element gives;
    [rule] selects the lemma for the operation. *)
Ltac pow_rule_with rule :=
  rule tt;
  lazymatch goal with
  | |- repr _ _ _ => eapply repr_le; [eassumption | discriminate]
  | |- _ => vm_compute; discriminate
  end.

Ltac pow_let_with rule H :=
  let E := fresh "E" in
  let R := fresh "R" in
  intro_let H E;
  lazymatch type of E with
  | ?x = ?X => eassert (R : repr 1 X _) by pow_rule_with rule; rewrite <- E in R; clear E
  end.

Ltac Fe_rule _ :=
  lazymatch goal with
  | |- repr 1 (FeSquare _) _ => eapply (repr_pow_square FeSquare repr_square)
  | |- repr 1 (FeMul _ _) _ => eapply (repr_pow_mul FeMul repr_mul)
  | |- repr 1 (FeSquareLoop _ _) _ => eapply (repr_pow_loop FeSquare repr_square)
  end.

Ltac pow_rule := pow_rule_with Fe_rule.

Ltac pow_let H := pow_let_with Fe_rule H.

Lemma repr_pow_1 n f x : repr n f x -> repr n f (x ^ 1)%F.
Proof. intros H. apply (repr_eq _ _ _ _ H). symmetry. apply Zmod.pow_1_r. Qed.

Lemma repr_pow22523 f x :
  repr 3 f x -> repr 1 (fePow22523 f) (x ^ ((prime25519 - 5) / 8))%F.
Proof.
  intros H%repr_pow_1. remember (fePow22523 f) as r eqn:Hr.
  cbv beta delta [fePow22523] in Hr. do 32 (pow_let Hr). subst r.
  eapply repr_eq; [pow_rule | f_equal; vm_compute; reflexivity].
Qed.

Lemma repr_invert f x : repr 3 f x -> repr 1 (FeInvert f) (x ^ (prime25519 - 2))%F.
Proof.
  intros H%repr_pow_1. remember (FeInvert f) as r eqn:Hr.
  cbv beta delta [FeInvert] in Hr. do 30 (pow_let Hr). subst r.
  eapply repr_eq; [pow_rule | f_equal; vm_compute; reflexivity].
Qed.

(** [repr_expr] computes what an expression of field operations represents. *)
Ltac repr_expr :=
  lazymatch goal with
  | |- repr _ (FeMul _ _) _ => eapply repr_mul;
      (eapply repr_le; [repr_expr | vm_compute; discriminate])
  | |- repr _ (FeSquare _) _ => eapply repr_square;
      (eapply repr_le; [repr_expr | vm_compute; discriminate])
  | |- repr _ (FeSquare2 _) _ => eapply repr_square2;
      (eapply repr_le; [repr_expr | vm_compute; discriminate])
  | |- repr _ (FeInvert _) _ => eapply repr_invert;
      (eapply repr_le; [repr_expr | vm_compute; discriminate])
  | |- repr _ (fePow22523 _) _ => eapply repr_pow22523;
      (eapply repr_le; [repr_expr | vm_compute; discriminate])
  | |- repr _ (FeAdd _ _) _ =>
      eapply repr_add; [repr_expr | repr_expr | vm_compute; discriminate]
  | |- repr _ (FeSub _ _) _ =>
      eapply repr_sub; [repr_expr | repr_expr | vm_compute; discriminate]
  | |- repr _ (FeNeg _) _ => eapply repr_neg; [repr_expr | vm_compute; discriminate]
  | |- repr _ (FeCopy ?f) _ => change (FeCopy f) with f; repr_expr
  | |- repr _ FeZero _ => apply repr_zero
  | |- repr _ FeOne _ => apply repr_one
  | |- _ => eassumption
  end.

(** [repr_let H] names the next binding of a straight-line field computation
    with what it represents. *)
Ltac repr_let H :=
  let E := fresh "E" in
  let R := fresh "R" in
  intro_let H E;
  lazymatch type of E with
  | ?x = ?X => eassert (R : repr _ X _) by repr_expr; rewrite <- E in R; clear E
  end.

(** ** Summary *)

(** The arithmetic of the ten-limb field elements is that of the
    integers modulo 2^255-19.  On operands within three units (a unit is a little
    more than 2^25 or 2^24 per limb) the products and squares do not overflow and
    their result is within one unit; sums and differences of reduced operands are
    within two units. *)
Lemma field_bounds f g x y :
  repr 1 f x -> repr 1 g y ->
  repr 2 (FeAdd f g) (x + y)%F /\ repr 2 (FeSub f g) (x - y)%F /\ repr 1 (FeNeg f) (- x)%F /\
  (forall f' g' x' y', repr 3 f' x' -> repr 3 g' y' ->
     repr 1 (FeMul f' g') (x' * y')%F /\ repr 1 (FeSquare f') (x' * x')%F /\
     repr 1 (FeSquare2 f') (2 * (x' * x'))%F).
Proof.
  intros Hf Hg. split_and.
  - apply (repr_add 1 1); auto; lia.
  - apply (repr_sub 1 1); auto; lia.
  - apply repr_neg; [exact Hf | lia].
  - intros f' g' x' y' Hf' Hg'.
    split; [now apply repr_mul |]. split; [now apply repr_square | now apply repr_square2].
Qed.

(** [FeInvert] computes the multiplicative inverse of every non-zero
    element, and [fePow22523] the power (p-5)/8 that square roots are made of. *)
Lemma field_powers f x :
  repr 3 f x ->
  (x <> 0%F -> exists y, repr 1 (FeInvert f) y /\ (x * y = 1)%F) /\
  repr 1 (fePow22523 f) (x ^ ((prime25519 - 5) / 8))%F.
Proof.
  intros H. split; [| now apply repr_pow22523]. intros Hx.
  exists (x ^ (prime25519 - 2))%F. split; [now apply repr_invert |].
  rewrite F_pow_invert by exact Hx. exact (F_mul_inverse x Hx).
Qed.
