(* ===== verification/FieldCodec.v ===== *)
(** * The byte encoding of field elements

    Model of [load3], [load4], [FeFromBytes], [FeToBytes], [FeIsNegative] and
    [FeIsNonZero] of
    [src/golang-x-crypto/ed25519/internal/edwards25519/edwards25519.go].
    [FeFromBytes] reads the low 255 bits of its 32 bytes; [FeToBytes] writes the
    unique representative in [0, p), whatever the limbs. *)

From S2P Require Import Prelude Primality Field25519 FieldElement.

(** ** The code *)

(** Little-endian loads from the front of a byte slice. *)
Definition load3 (bs : list Z) : Z :=
  let r := nth 0 bs 0 in
  let r := (r .| (nth 1 bs 0 << 8))%i64 in
  (r .| (nth 2 bs 0 << 16))%i64.

Definition load4 (bs : list Z) : Z :=
  let r := nth 0 bs 0 in
  let r := (r .| (nth 1 bs 0 << 8))%i64 in
  let r := (r .| (nth 2 bs 0 << 16))%i64 in
  (r .| (nth 3 bs 0 << 24))%i64.

Definition FeFromBytes (src : list Z) : FieldElement :=
  let h0 := load4 src in
  let h1 := (load3 (skipn 4 src) << 6)%i64 in
  let h2 := (load3 (skipn 7 src) << 5)%i64 in
  let h3 := (load3 (skipn 10 src) << 3)%i64 in
  let h4 := (load3 (skipn 13 src) << 2)%i64 in
  let h5 := load4 (skipn 16 src) in
  let h6 := (load3 (skipn 20 src) << 7)%i64 in
  let h7 := (load3 (skipn 23 src) << 5)%i64 in
  let h8 := (load3 (skipn 26 src) << 4)%i64 in
  let h9 := ((load3 (skipn 29 src) .& 8388607) << 2)%i64 in
  FeCombine h0 h1 h2 h3 h4 h5 h6 h7 h8 h9.

(** [FeToBytes] updates the limbs of its argument: the result is the encoding
    together with the new limbs. *)
Definition FeToBytes (h : FieldElement) : list Z * FieldElement :=
  let h0 := fe0 h in
  let h1 := fe1 h in
  let h2 := fe2 h in
  let h3 := fe3 h in
  let h4 := fe4 h in
  let h5 := fe5 h in
  let h6 := fe6 h in
  let h7 := fe7 h in
  let h8 := fe8 h in
  let h9 := fe9 h in
  let q := ((19*h9 + (1 << 24)) >> 25)%i32 in
  let q := ((h0 + q) >> 26)%i32 in
  let q := ((h1 + q) >> 25)%i32 in
  let q := ((h2 + q) >> 26)%i32 in
  let q := ((h3 + q) >> 25)%i32 in
  let q := ((h4 + q) >> 26)%i32 in
  let q := ((h5 + q) >> 25)%i32 in
  let q := ((h6 + q) >> 26)%i32 in
  let q := ((h7 + q) >> 25)%i32 in
  let q := ((h8 + q) >> 26)%i32 in
  let q := ((h9 + q) >> 25)%i32 in
  let h0 := (h0 + 19 * q)%i32 in
  let c0 := (h0 >> 26)%i32 in
  let h1 := (h1 + c0)%i32 in
  let h0 := (h0 - c0 << 26)%i32 in
  let c1 := (h1 >> 25)%i32 in
  let h2 := (h2 + c1)%i32 in
  let h1 := (h1 - c1 << 25)%i32 in
  let c2 := (h2 >> 26)%i32 in
  let h3 := (h3 + c2)%i32 in
  let h2 := (h2 - c2 << 26)%i32 in
  let c3 := (h3 >> 25)%i32 in
  let h4 := (h4 + c3)%i32 in
  let h3 := (h3 - c3 << 25)%i32 in
  let c4 := (h4 >> 26)%i32 in
  let h5 := (h5 + c4)%i32 in
  let h4 := (h4 - c4 << 26)%i32 in
  let c5 := (h5 >> 25)%i32 in
  let h6 := (h6 + c5)%i32 in
  let h5 := (h5 - c5 << 25)%i32 in
  let c6 := (h6 >> 26)%i32 in
  let h7 := (h7 + c6)%i32 in
  let h6 := (h6 - c6 << 26)%i32 in
  let c7 := (h7 >> 25)%i32 in
  let h8 := (h8 + c7)%i32 in
  let h7 := (h7 - c7 << 25)%i32 in
  let c8 := (h8 >> 26)%i32 in
  let h9 := (h9 + c8)%i32 in
  let h8 := (h8 - c8 << 26)%i32 in
  let c9 := (h9 >> 25)%i32 in
  let h9 := (h9 - c9 << 25)%i32 in
  let s0 := uint8 (h0 >> 0)%i32 in
  let s1 := uint8 (h0 >> 8)%i32 in
  let s2 := uint8 (h0 >> 16)%i32 in
  let s3 := uint8 ((h0 >> 24) .| (h1 << 2))%i32 in
  let s4 := uint8 (h1 >> 6)%i32 in
  let s5 := uint8 (h1 >> 14)%i32 in
  let s6 := uint8 ((h1 >> 22) .| (h2 << 3))%i32 in
  let s7 := uint8 (h2 >> 5)%i32 in
  let s8 := uint8 (h2 >> 13)%i32 in
  let s9 := uint8 ((h2 >> 21) .| (h3 << 5))%i32 in
  let s10 := uint8 (h3 >> 3)%i32 in
  let s11 := uint8 (h3 >> 11)%i32 in
  let s12 := uint8 ((h3 >> 19) .| (h4 << 6))%i32 in
  let s13 := uint8 (h4 >> 2)%i32 in
  let s14 := uint8 (h4 >> 10)%i32 in
  let s15 := uint8 (h4 >> 18)%i32 in
  let s16 := uint8 (h5 >> 0)%i32 in
  let s17 := uint8 (h5 >> 8)%i32 in
  let s18 := uint8 (h5 >> 16)%i32 in
  let s19 := uint8 ((h5 >> 24) .| (h6 << 1))%i32 in
  let s20 := uint8 (h6 >> 7)%i32 in
  let s21 := uint8 (h6 >> 15)%i32 in
  let s22 := uint8 ((h6 >> 23) .| (h7 << 3))%i32 in
  let s23 := uint8 (h7 >> 5)%i32 in
  let s24 := uint8 (h7 >> 13)%i32 in
  let s25 := uint8 ((h7 >> 21) .| (h8 << 4))%i32 in
  let s26 := uint8 (h8 >> 4)%i32 in
  let s27 := uint8 (h8 >> 12)%i32 in
  let s28 := uint8 ((h8 >> 20) .| (h9 << 6))%i32 in
  let s29 := uint8 (h9 >> 2)%i32 in
  let s30 := uint8 (h9 >> 10)%i32 in
  let s31 := uint8 (h9 >> 18)%i32 in
  ([s0; s1; s2; s3; s4; s5; s6; s7; s8; s9; s10; s11; s12; s13; s14; s15;
    s16; s17; s18; s19; s20; s21; s22; s23; s24; s25; s26; s27; s28; s29;
    s30; s31],
   Fe h0 h1 h2 h3 h4 h5 h6 h7 h8 h9).

(** [FeIsNegative] and [FeIsNonZero] call [FeToBytes] on their argument, which
    rewrites its limbs in place: both return the value and the new limbs. *)
Definition FeIsNegative (f : FieldElement) : Z * FieldElement :=
  let '(s, f) := FeToBytes f in (Z.land (nth 0 s 0) 1, f).

Definition FeIsNonZero (f : FieldElement) : Z * FieldElement :=
  let '(s, f) := FeToBytes f in
  let x := fold_left Z.lor s 0 in
  let x := Z.lor x (Z.shiftr x 4) in
  let x := Z.lor x (Z.shiftr x 2) in
  let x := Z.lor x (Z.shiftr x 1) in
  (Z.land x 1, f).


(** ** Loads *)

Lemma load3_spec bs :
  bytes_ok bs -> load3 bs = nth 0 bs 0 + 2 ^ 8 * nth 1 bs 0 + 2 ^ 16 * nth 2 bs 0.
Proof.
  intros H. pose proof (nth_byte bs 0 H). pose proof (nth_byte bs 1 H).
  pose proof (nth_byte bs 2 H). unfold byte_ok in *.
  unfold load3. rewrite !int64_id by (rewrite Z.shiftl_mul_pow2; lia).
  rewrite !lor_shiftl_add by (try lia; rewrite ?lor_shiftl_add; lia). lia.
Qed.

Lemma load4_spec bs :
  bytes_ok bs ->
  load4 bs = nth 0 bs 0 + 2 ^ 8 * nth 1 bs 0 + 2 ^ 16 * nth 2 bs 0 + 2 ^ 24 * nth 3 bs 0.
Proof.
  intros H. change (load4 bs) with (Z.lor (load3 bs) (int64 (Z.shiftl (nth 3 bs 0) 24))).
  pose proof (nth_byte bs 0 H). pose proof (nth_byte bs 1 H).
  pose proof (nth_byte bs 2 H). pose proof (nth_byte bs 3 H). unfold byte_ok in *.
  rewrite load3_spec by exact H. rewrite !int64_id by (rewrite Z.shiftl_mul_pow2; lia).
  rewrite lor_shiftl_add by lia. lia.
Qed.

Lemma shl64 x k : 0 <= k -> - 2 ^ 63 <= x * 2 ^ k < 2 ^ 63 -> int64 (Z.shiftl x k) = x * 2 ^ k.
Proof. intros. rewrite Z.shiftl_mul_pow2 by lia. apply int64_id; lia. Qed.

(** [FeFromBytes] reads the low 255 bits of the 32 bytes. *)
Lemma FeFromBytes_spec src :
  length src = 32%nat -> bytes_ok src ->
  repr 1 (FeFromBytes src) (of_Z (le_val src mod 2 ^ 255)).
Proof.
  intros L H. unfold FeFromBytes.
  rewrite !load4_spec, !load3_spec by (auto using bytes_ok_skipn).
  do 32 (destruct src as [| ? src]; [discriminate L |]).
  destruct src; [| discriminate L]. cbn [nth skipn].
  repeat (apply Forall_cons_iff in H; destruct H as [? H]); clear H. unfold byte_ok in *.
  change 8388607 with (Z.ones 23). rewrite Z.land_ones by lia.
  assert (0 <= (z28 + 2 ^ 8 * z29 + 2 ^ 16 * z30) mod 2 ^ 23 < 2 ^ 23)
    by (apply Z.mod_pos_bound; lia).
  rewrite !shl64 by lia.
  eapply repr_eq; [apply FeCombine_value |].
  - repeat (apply Forall_cons; [unfold within; lia |]). apply Forall_nil.
  - f_equal. unfold fe_sum. cbn [le_val].
    Z.div_mod_to_equations. lia.
Qed.

(** ** Encoding *)

(** The limbs [FeToBytes] leaves behind: each one non-negative and below the
    weight of the next. *)
Definition limbs_canonical (f : FieldElement) : Prop :=
  0 <= fe0 f < 2 ^ 26 /\ 0 <= fe1 f < 2 ^ 25 /\ 0 <= fe2 f < 2 ^ 26 /\
  0 <= fe3 f < 2 ^ 25 /\ 0 <= fe4 f < 2 ^ 26 /\ 0 <= fe5 f < 2 ^ 25 /\
  0 <= fe6 f < 2 ^ 26 /\ 0 <= fe7 f < 2 ^ 25 /\ 0 <= fe8 f < 2 ^ 26 /\
  0 <= fe9 f < 2 ^ 25.

Lemma shr_bounds k x c : 0 <= k -> c = Z.shiftr x k -> 2 ^ k * c <= x < 2 ^ k * c + 2 ^ k.
Proof.
  intros Hk ->. rewrite Z.shiftr_div_pow2 by lia.
  assert (0 < 2 ^ k) by (apply Z.pow_pos_nonneg; lia).
  pose proof (Z.div_mod x (2 ^ k)). pose proof (Z.mod_pos_bound x (2 ^ k)). lia.
Qed.

Lemma sub_shl32 k x c y :
  0 <= k -> - 2 ^ 31 <= c * 2 ^ k < 2 ^ 31 -> - 2 ^ 31 <= x - c * 2 ^ k < 2 ^ 31 ->
  y = int32 (x - int32 (Z.shiftl c k)) -> y = x - c * 2 ^ k.
Proof.
  intros Hk Hc Hd ->. rewrite Z.shiftl_mul_pow2 by lia.
  rewrite (int32_id (c * 2 ^ k)) by lia. apply int32_id; lia.
Qed.

Ltac floor_step H :=
  let E := fresh "E" in intro_let H E;
  lazymatch type of E with
  | ?c = Z.shiftr (int32 (int32 (19 * ?h) + int32 (Z.shiftl 1 24))) 25 =>
      change (int32 (Z.shiftl 1 24)) with (2 ^ 24) in E;
      rewrite (int32_id (19 * h)) in E by lia;
      rewrite (int32_id (19 * h + 2 ^ 24)) in E by lia;
      apply (shr_bounds 25 (19 * h + 2 ^ 24) c) in E; [| lia]
  | ?y = int32 (?x + int32 (19 * ?q)) =>
      rewrite (int32_id (19 * q)) in E by lia; rewrite int32_id in E by lia
  | ?y = int32 (?x - int32 (Z.shiftl ?c ?k)) =>
      apply (sub_shl32 k x c y) in E; [| lia | lia | lia]
  | ?c = Z.shiftr (int32 (?h + ?q)) ?k =>
      rewrite (int32_id (h + q)) in E by lia; apply (shr_bounds k (h + q) c) in E; [| lia]
  | ?c = Z.shiftr ?h ?k => apply (shr_bounds k h c) in E; [| lia]
  | ?y = int32 (?h + ?c) => rewrite (int32_id (h + c)) in E by lia
  | ?x = ?h => is_var h; subst x
  end.

(** The bytes [FeToBytes] cuts the final limbs into. *)
Definition limb_bytes (f : FieldElement) : list Z :=
  let '(Fe h0 h1 h2 h3 h4 h5 h6 h7 h8 h9) := f in
  [uint8 (h0 >> 0)%i32; uint8 (h0 >> 8)%i32; uint8 (h0 >> 16)%i32;
   uint8 ((h0 >> 24) .| (h1 << 2))%i32;
   uint8 (h1 >> 6)%i32; uint8 (h1 >> 14)%i32; uint8 ((h1 >> 22) .| (h2 << 3))%i32;
   uint8 (h2 >> 5)%i32; uint8 (h2 >> 13)%i32; uint8 ((h2 >> 21) .| (h3 << 5))%i32;
   uint8 (h3 >> 3)%i32; uint8 (h3 >> 11)%i32; uint8 ((h3 >> 19) .| (h4 << 6))%i32;
   uint8 (h4 >> 2)%i32; uint8 (h4 >> 10)%i32; uint8 (h4 >> 18)%i32;
   uint8 (h5 >> 0)%i32; uint8 (h5 >> 8)%i32; uint8 (h5 >> 16)%i32;
   uint8 ((h5 >> 24) .| (h6 << 1))%i32;
   uint8 (h6 >> 7)%i32; uint8 (h6 >> 15)%i32; uint8 ((h6 >> 23) .| (h7 << 3))%i32;
   uint8 (h7 >> 5)%i32; uint8 (h7 >> 13)%i32; uint8 ((h7 >> 21) .| (h8 << 4))%i32;
   uint8 (h8 >> 4)%i32; uint8 (h8 >> 12)%i32; uint8 ((h8 >> 20) .| (h9 << 6))%i32;
   uint8 (h9 >> 2)%i32; uint8 (h9 >> 10)%i32; uint8 (h9 >> 18)%i32].

(** The two carry chains of [FeToBytes] reduce the value into [0, p): the first
    computes the quotient [q], the second one subtracts [p * q]. *)
Lemma FeToBytes_limbs h :
  fe_bounded 3 h ->
  exists h', FeToBytes h = (limb_bytes h', h') /\ limbs_canonical h' /\
             fe_val h' = fe_val h mod prime25519.
Proof.
  unfold fe_bounded, within, even_unit, odd_unit. intros B.
  remember (FeToBytes h) as r eqn:Hr. destruct h as [a0 a1 a2 a3 a4 a5 a6 a7 a8 a9].
  cbv beta iota delta [FeToBytes fe0 fe1 fe2 fe3 fe4 fe5 fe6 fe7 fe8 fe9] in Hr.
  cbn [fe0 fe1 fe2 fe3 fe4 fe5 fe6 fe7 fe8 fe9] in B. break_and.
  do 51 (floor_step Hr).
  match type of Hr with
  | _ = let s0 := uint8 (Z.shiftr ?h0 0) in _ =>
    eexists (Fe h0 _ _ _ _ _ _ _ _ _); split; [exact Hr |]
  end.
  unfold limbs_canonical, fe_val, fe_sum; fe_simpl. split; [lia |].
  match goal with |- ?x = ?v mod _ =>
    set (v' := v);
    assert (0 <= x < 2 ^ 255 /\ x = v' + 19 * q9 - 2 ^ 255 * c9) as [Hx Ex] by (unfold v'; lia);
    assert (0 <= v' + q - 2 ^ 255 * q9 < 2 ^ 255) as Hq by (unfold v'; lia);
    assert (- 2 ^ 233 < v' - 2 ^ 230 * a9 < 2 ^ 233) as Hl by (unfold v'; lia)
  end.
  assert (0 <= v' - prime25519 * q9 < prime25519) by (unfold prime25519; clearbody v'; lia).
  apply (Z.mod_unique_pos _ _ q9); unfold prime25519 in *; clearbody v'; lia.
Qed.

(** *** From limbs to bytes *)

Lemma uint8_shr h k : 0 <= k -> uint8 (Z.shiftr h k) = h / 2 ^ k mod 256.
Proof. intros. rewrite uint8_mod, Z.shiftr_div_pow2 by lia. reflexivity. Qed.

Lemma int32_mod8 x : uint8 (int32 x) = uint8 x.
Proof.
  rewrite !uint8_mod, int32_mod, Zminus_mod, <- Zminus_mod.
  change (2 ^ 32) with (2 ^ 8 * 2 ^ 24). Z.div_mod_to_equations. lia.
Qed.

Lemma uint8_joint (wrap : Z -> Z) h g a b :
  (forall x, uint8 (wrap x) = uint8 x) ->
  0 <= a -> 0 <= b <= 8 -> 0 <= h < 2 ^ (a + b) ->
  uint8 (Z.lor (Z.shiftr h a) (wrap (Z.shiftl g b))) =
  h / 2 ^ a + 2 ^ b * (g mod 2 ^ (8 - b)).
Proof.
  intros Hw Ha Hb Hh.
  assert (0 <= h / 2 ^ a < 2 ^ b) as Hd.
  { rewrite Z.pow_add_r in Hh by lia.
    split; [apply Z.div_pos; [lia |] | apply Z.div_lt_upper_bound; lia].
    apply Z.pow_pos_nonneg; lia. }
  transitivity (uint8 (Z.lor (Z.shiftr h a) (Z.shiftl g b))).
  { unfold uint8 at 1 2. rewrite !Z.land_lor_distr_l. f_equal. apply Hw. }
  rewrite Z.shiftr_div_pow2, lor_shiftl_add, uint8_mod by lia.
  assert (2 ^ 8 = 2 ^ b * 2 ^ (8 - b)) as -> by (rewrite <- Z.pow_add_r by lia; f_equal; lia).
  assert (0 < 2 ^ b) by (apply Z.pow_pos_nonneg; lia).
  assert (0 < 2 ^ (8 - b)) by (apply Z.pow_pos_nonneg; lia).
  rewrite Z.rem_mul_r, Z.mod_add, Z.div_add by lia.
  rewrite (Z.mod_small (h / 2 ^ a)), (Z.div_small (h / 2 ^ a)) by lia. reflexivity.
Qed.

Lemma int64_mod8 x : uint8 (int64 x) = uint8 x.
Proof.
  rewrite !uint8_mod, int64_mod.
  change (2 ^ 64) with (2 ^ 8 * 2 ^ 56). Z.div_mod_to_equations. lia.
Qed.

(** A limb whose first [a] bits end the previous byte. *)
Lemma limb_split a b c h :
  0 <= a /\ b = a + 8 /\ c = a + 16 ->
  h = h mod 2 ^ a + 2 ^ a * (h / 2 ^ a mod 256) + 2 ^ b * (h / 2 ^ b mod 256) +
      2 ^ c * (h / 2 ^ c).
Proof.
  intros (Ha & -> & ->). assert (0 < 2 ^ a) by (apply Z.pow_pos_nonneg; lia).
  rewrite !Z.pow_add_r, <- !Z.div_div by lia.
  pose proof (Z.div_mod h (2 ^ a)). generalize dependent (h / 2 ^ a). intros x Hx.
  change (2 ^ 16) with (256 * 256). change (2 ^ 8) with 256. rewrite <- !Z.div_div by lia.
  pose proof (Z.div_mod x 256). pose proof (Z.div_mod (x / 256) 256). nia.
Qed.

Lemma limb_split2 a b h :
  0 <= a /\ b = a + 8 -> h = h mod 2 ^ a + 2 ^ a * (h / 2 ^ a mod 256) + 2 ^ b * (h / 2 ^ b).
Proof.
  intros (Ha & ->). rewrite (limb_split a (a + 8) (a + 16) h) at 1 by lia.
  assert (0 < 2 ^ a) by (apply Z.pow_pos_nonneg; lia).
  replace (a + 16) with (a + 8 + 8) by lia. rewrite !(Z.pow_add_r _ (a + 8)) by lia.
  assert (0 < 2 ^ (a + 8)) by (apply Z.pow_pos_nonneg; lia).
  rewrite <- Z.div_div by lia. pose proof (Z.div_mod (h / 2 ^ (a + 8)) 256). change (2 ^ 8) with 256. nia.
Qed.

(** Replace the divisions and remainders of a goal by variables. *)
Ltac generalize_div_mod :=
  repeat match goal with |- context [?x mod ?m] => generalize (x mod m) end;
  repeat match goal with |- context [?x / ?m] => generalize (x / m) end.

Lemma limb_bytes_val f : limbs_canonical f -> le_val (limb_bytes f) = fe_val f.
Proof.
  destruct f as [h0 h1 h2 h3 h4 h5 h6 h7 h8 h9]. unfold limbs_canonical; fe_simpl.
  intros H. break_and. unfold limb_bytes.
  rewrite !(uint8_joint int32) by (first [exact int32_mod8 | split; lia | lia]). rewrite !uint8_shr by lia.
  unfold fe_val, fe_sum; fe_simpl. cbn [le_val].
  pose proof (limb_split 8 16 24 h0 ltac:(lia)) as S0. change (h0 mod 2 ^ 8) with (h0 mod 256) in S0.
  pose proof (limb_split 6 14 22 h1 ltac:(lia)) as S1.
  pose proof (limb_split 5 13 21 h2 ltac:(lia)) as S2.
  pose proof (limb_split 3 11 19 h3 ltac:(lia)) as S3.
  pose proof (limb_split 2 10 18 h4 ltac:(lia)) as S4.
  pose proof (limb_split 8 16 24 h5 ltac:(lia)) as S5. change (h5 mod 2 ^ 8) with (h5 mod 256) in S5.
  pose proof (limb_split 7 15 23 h6 ltac:(lia)) as S6.
  pose proof (limb_split 5 13 21 h7 ltac:(lia)) as S7.
  pose proof (limb_split 4 12 20 h8 ltac:(lia)) as S8.
  pose proof (limb_split 2 10 18 h9 ltac:(lia)) as S9.
  assert (forall h, 0 <= h < 2 ^ 26 -> h / 2 ^ 18 mod 256 = h / 2 ^ 18) as Top
    by (intros h Hh; apply Z.mod_small; Z.div_mod_to_equations; lia).
  rewrite !Top by lia. change (2 ^ 0) with 1. rewrite !Z.div_1_r.
  repeat match goal with |- context [8 - ?b] =>
    let c := eval compute in (8 - b) in change (8 - b) with c end.
  revert S0 S1 S2 S3 S4 S5 S6 S7 S8 S9. clear.
  generalize_div_mod. intros. subst. ring.
Qed.

Lemma limb_bytes_ok f : bytes_ok (limb_bytes f) /\ length (limb_bytes f) = 32%nat.
Proof.
  destruct f. split; [| reflexivity].
  repeat (apply Forall_cons; [apply uint8_range |]). apply Forall_nil.
Qed.

Lemma limbs_canonical_bounded f : limbs_canonical f -> fe_bounded 2 f.
Proof. unfold limbs_canonical, fe_bounded, within, even_unit, odd_unit. lia. Qed.

(** ** What the encoding means *)

(** The canonical 32-byte encoding of a field element. *)
Definition encode (x : F) : list Z := le_bytes 32 (Zmod.unsigned x).

Lemma unsigned_bounds (x : F) : 0 <= Zmod.unsigned x < prime25519.
Proof. apply Zmod.unsigned_pos_bound. reflexivity. Qed.

Lemma encode_val x : le_val (encode x) = Zmod.unsigned x.
Proof.
  unfold encode. rewrite le_val_le_bytes. apply Z.mod_small.
  pose proof (unsigned_bounds x). change (256 ^ Z.of_nat 32) with (2 ^ 256).
  unfold prime25519 in *. lia.
Qed.

Lemma encode_length x : length (encode x) = 32%nat.
Proof. apply length_le_bytes. Qed.

Lemma encode_ok x : bytes_ok (encode x).
Proof. apply le_bytes_ok. Qed.

Lemma encode_inj x y : encode x = encode y -> x = y.
Proof.
  intros E. apply Zmod.unsigned_inj. rewrite <- !encode_val. now rewrite E.
Qed.

Lemma FeToBytes_spec f x :
  repr 3 f x -> exists f', FeToBytes f = (encode x, f') /\ repr 2 f' x.
Proof.
  intros [B <-]. destruct (FeToBytes_limbs f B) as (f' & E & C & V). exists f'. split.
  - rewrite E. f_equal. destruct (limb_bytes_ok f') as [Ok L].
    apply le_val_inj; auto using encode_ok.
    rewrite encode_val, limb_bytes_val, V by exact C. symmetry. apply Zmod.unsigned_of_Z.
  - split; [now apply limbs_canonical_bounded |]. unfold fe. rewrite V.
    apply of_Z_eq, Zmod_mod.
Qed.

(** Decoding a canonical encoding gives the element back. *)
Lemma FeFromBytes_encode x : repr 1 (FeFromBytes (encode x)) x.
Proof.
  eapply repr_eq; [apply FeFromBytes_spec; auto using encode_length, encode_ok |].
  rewrite encode_val. pose proof (unsigned_bounds x). unfold prime25519 in *.
  rewrite Z.mod_small by lia. apply Zmod.of_Z_to_Z.
Qed.

(** The sign of a field element is the parity of its representative. *)
Definition is_negative (x : F) : Z := Zmod.unsigned x mod 2.

Lemma land_1 x : Z.land x 1 = x mod 2.
Proof. apply (Z.land_ones x 1). lia. Qed.

Lemma FeIsNegative_spec f x :
  repr 3 f x -> exists f', FeIsNegative f = (is_negative x, f') /\ repr 2 f' x.
Proof.
  intros H. destruct (FeToBytes_spec f x H) as (f' & E & R). exists f'. split; [| exact R].
  unfold FeIsNegative. rewrite E. f_equal. rewrite land_1. unfold is_negative, encode.
  cbn [le_bytes nth]. change 256 with (2 * 128). rewrite Z.rem_mul_r by lia.
  rewrite (Z.mul_comm 2 (_ mod 128)), Z.mod_add, Z.mod_mod by lia. reflexivity.
Qed.

Lemma lor_bytes_bounds l a :
  bytes_ok l -> byte_ok a -> byte_ok (fold_left Z.lor l a).
Proof.
  intros H; revert a; induction H as [| b l Hb _ IH]; intros a Ha; [exact Ha |].
  apply IH. unfold byte_ok in *. split; [apply Z.lor_nonneg; lia |].
  destruct (Z.eq_dec (Z.lor a b) 0); [lia |].
  apply (Z.log2_lt_cancel _ 256). rewrite Z.log2_lor by lia.
  apply Z.max_lub_lt; (apply Z.le_lt_trans with (Z.log2 255); [apply Z.log2_le_mono; lia | reflexivity]).
Qed.

Lemma lor_bytes_zero l a :
  bytes_ok l -> fold_left Z.lor l a = 0 <-> a = 0 /\ le_val l = 0.
Proof.
  intros H; revert a; induction H as [| b l Hb Hl IH]; intros a; cbn [fold_left le_val].
  - tauto.
  - rewrite IH, Z.lor_eq_0_iff. pose proof (le_val_bounds l Hl). unfold byte_ok in Hb. lia.
Qed.

(** The bit folding of [FeIsNonZero]: the low bit of [x | x>>4 | ...] is set
    exactly when [x] is not zero. *)
Definition fold_bits (x : Z) : Z :=
  let x := Z.lor x (Z.shiftr x 4) in
  let x := Z.lor x (Z.shiftr x 2) in
  let x := Z.lor x (Z.shiftr x 1) in
  Z.land x 1.

Lemma fold_bits_spec x : byte_ok x -> fold_bits x = if x =? 0 then 0 else 1.
Proof.
  intros H.
  assert (forallb (fun n => let x := Z.of_nat n in fold_bits x =? if x =? 0 then 0 else 1)
            (seq 0 256) = true) as F by (vm_compute; reflexivity).
  rewrite forallb_forall in F. specialize (F (Z.to_nat x)). cbv beta zeta in F.
  unfold byte_ok in H. rewrite Z2Nat.id in F by lia.
  apply Z.eqb_eq, F, in_seq. lia.
Qed.

Lemma FeIsNonZero_fold f :
  FeIsNonZero f = let '(s, f') := FeToBytes f in (fold_bits (fold_left Z.lor s 0), f').
Proof. unfold FeIsNonZero. now destruct (FeToBytes f). Qed.

Lemma FeIsNonZero_spec f x :
  repr 3 f x ->
  exists f', FeIsNonZero f = ((if Zmod.eqb x Zmod.zero then 0 else 1), f') /\ repr 2 f' x.
Proof.
  intros H. destruct (FeToBytes_spec f x H) as (f' & E & R). exists f'. split; [| exact R].
  rewrite FeIsNonZero_fold, E. f_equal.
  rewrite fold_bits_spec by (apply lor_bytes_bounds; [apply encode_ok | unfold byte_ok; lia]).
  destruct (Z.eqb_spec (fold_left Z.lor (encode x) 0) 0) as [Z0 | N0];
    destruct (Zmod.eqb x Zmod.zero) eqn:D; auto; exfalso.
  - apply lor_bytes_zero in Z0 as [_ Z0]; [| apply encode_ok]. rewrite encode_val in Z0.
    apply Bool.not_true_iff_false in D. apply D, Zmod.eqb_eq, Zmod.unsigned_inj.
    rewrite Z0. reflexivity.
  - apply N0, lor_bytes_zero; [apply encode_ok |]. apply Zmod.eqb_eq in D. subst x.
    split; reflexivity.
Qed.

(** ** Properties *)

Lemma codec_round_trip f x :
  repr 3 f x ->
  exists s f', FeToBytes f = (s, f') /\ repr 2 f' x /\ length s = 32%nat /\ bytes_ok s /\
    le_val s = Zmod.unsigned x /\ 0 <= le_val s < prime25519 /\ repr 1 (FeFromBytes s) x /\
    forall t, length t = 32%nat -> bytes_ok t -> le_val t mod 2 ^ 255 = le_val s ->
      repr 1 (FeFromBytes t) x.
Proof.
  intros H. destruct (FeToBytes_spec f x H) as (f' & E & R). exists (encode x), f'.
  split; [exact E |]. split; [exact R |]. split; [apply encode_length |].
  split; [apply encode_ok |]. rewrite encode_val. split; [reflexivity |].
  split; [apply unsigned_bounds |]. split; [apply FeFromBytes_encode |].
  intros t L Ok Et. apply (repr_eq _ _ _ _ (FeFromBytes_spec t L Ok)). rewrite Et.
  apply Zmod.of_Z_to_Z.
Qed.

(** C26: the operations on ten-limb field elements are those of the
    integers modulo 2^255-19.  On operands within three units (a unit is a little
    more than 2^25 or 2^24 per limb) the products and squares do not overflow and
    their result is within one unit; sums and differences of reduced operands are
    within two units; [FeInvert] inverts every non-zero element, and [fePow22523]
    computes the power (p-5)/8 that square roots are made of.  [FeToBytes] writes the
    canonical little-endian representative, below 2^255-19, reading the bytes back
    gives the same element, and [FeFromBytes] ignores the top bit of its input. *)
Theorem field_arithmetic f g x y :
  repr 1 f x -> repr 1 g y ->
  repr 2 (FeAdd f g) (x + y)%F /\ repr 2 (FeSub f g) (x - y)%F /\ repr 1 (FeNeg f) (- x)%F /\
  (forall f' g' x' y', repr 3 f' x' -> repr 3 g' y' ->
     repr 1 (FeMul f' g') (x' * y')%F /\ repr 1 (FeSquare f') (x' * x')%F /\
     repr 1 (FeSquare2 f') (2 * (x' * x'))%F /\
     (x' <> 0%F -> exists z, repr 1 (FeInvert f') z /\ (x' * z = 1)%F) /\
     repr 1 (fePow22523 f') (x' ^ ((prime25519 - 5) / 8))%F) /\
  forall f' x', repr 3 f' x' ->
    exists s f'', FeToBytes f' = (s, f'') /\ repr 2 f'' x' /\ length s = 32%nat /\ bytes_ok s /\
      le_val s = Zmod.unsigned x' /\ 0 <= le_val s < prime25519 /\ repr 1 (FeFromBytes s) x' /\
      forall t, length t = 32%nat -> bytes_ok t -> le_val t mod 2 ^ 255 = le_val s ->
        repr 1 (FeFromBytes t) x'.
Proof.
  intros Hf Hg. destruct (field_bounds f g x y Hf Hg) as (A & S & N & M).
  split; [exact A |]. split; [exact S |]. split; [exact N |]. split; [| exact codec_round_trip].
  intros f' g' x' y' Hf' Hg'. destruct (M f' g' x' y' Hf' Hg') as (M1 & M2 & M3).
  destruct (field_powers f' x' Hf') as [I P]. split_and; assumption.
Qed.

Lemma field_arithmetic_witness :
  repr 2 (FeAdd FeOne FeOne) (1 + 1)%F /\ repr 1 (FeMul FeOne FeOne) (1 * 1)%F /\
  (exists z, repr 1 (FeInvert FeOne) z /\ (1 * z = 1)%F) /\
  exists s f', FeToBytes FeOne = (s, f') /\ le_val s = 1.
Proof.
  destruct (field_arithmetic FeOne FeOne 1%F 1%F repr_one repr_one) as (H & _ & _ & M & C).
  assert (repr 3 FeOne 1%F) as H3 by (apply (repr_le 1 3); [exact repr_one | lia]).
  destruct (M FeOne FeOne 1%F 1%F H3 H3) as (M1 & _ & _ & I & _).
  destruct (C FeOne 1%F H3) as (s & f' & E & _ & _ & _ & V & _).
  split; [exact H |]. split; [exact M1 |]. split; [exact (I F_one_neq_zero) |].
  exists s, f'. split; [exact E | exact V].
Defined.
