(* ===== verification/GroupElement.v ===== *)
(** * Group elements of the twisted Edwards curve

    Model of the group code of
    [src/golang-x-crypto/ed25519/internal/edwards25519/edwards25519.go], lines
    630 to 863, and of the constants [d], [d2], [SqrtM1] and [A] of [const.go].
    Each coordinate system has a representation predicate against the affine
    points of [Edwards]; every operation is shown to compute the group operation
    it is named after, with the limb bounds the field code needs. *)

From Stdlib Require Import Field.
From S2P Require Import Prelude Primality Field25519 Edwards FieldElement FieldCodec.

Add Field F_field_group : F_field_theory.

(** ** The code *)

Module Const.

Definition d : FieldElement :=
  Fe (-10913610) 13857413 (-15372611) 6949391 114729
     (-8787816) (-6275908) (-3247719) (-18696448) (-12055116).

Definition d2 : FieldElement :=
  Fe (-21827239) (-5839606) (-30745221) 13898782 229458
     15978800 (-12551817) (-6495438) 29715968 9444199.

Definition SqrtM1 : FieldElement :=
  Fe (-32595792) (-7943725) 9377950 3500415 12389472
     (-272473) (-25146209) (-2005654) 326686 11406482.

Definition A : FieldElement := Fe 486662 0 0 0 0 0 0 0 0 0.

End Const.

(** (X:Y:Z) with x = X/Z, y = Y/Z. *)
Record ProjectiveGroupElement := Proj {
  pX : FieldElement; pY : FieldElement; pZ : FieldElement }.

(** (X:Y:Z:T) with x = X/Z, y = Y/Z, XY = ZT. *)
Record ExtendedGroupElement := Ext {
  eX : FieldElement; eY : FieldElement; eZ : FieldElement; eT : FieldElement }.

(** ((X:Z),(Y:T)) with x = X/Z, y = Y/T. *)
Record CompletedGroupElement := Comp {
  cX : FieldElement; cY : FieldElement; cZ : FieldElement; cT : FieldElement }.

(** (y+x, y-x, 2dxy). *)
Record PreComputedGroupElement := Pre {
  yPlusX : FieldElement; yMinusX : FieldElement; xy2d : FieldElement }.

Record CachedGroupElement := Cached {
  ca_yPlusX : FieldElement; ca_yMinusX : FieldElement;
  ca_Z : FieldElement; ca_T2d : FieldElement }.

Definition Projective_Zero : ProjectiveGroupElement := Proj FeZero FeOne FeOne.

Definition Projective_Double (p : ProjectiveGroupElement) : CompletedGroupElement :=
  let rX := FeSquare (pX p) in
  let rZ := FeSquare (pY p) in
  let rT := FeSquare2 (pZ p) in
  let rY := FeAdd (pX p) (pY p) in
  let t0 := FeSquare rY in
  let rY := FeAdd rZ rX in
  let rZ := FeSub rZ rX in
  let rX := FeSub t0 rY in
  let rT := FeSub rT rZ in
  Comp rX rY rZ rT.

(** [recip], [x] and [y] are local: what [FeToBytes] and [FeIsNegative] do to
    their limbs is not seen outside. *)
Definition Projective_ToBytes (p : ProjectiveGroupElement) : list Z :=
  let recip := FeInvert (pZ p) in
  let x := FeMul (pX p) recip in
  let y := FeMul (pY p) recip in
  let '(s, y) := FeToBytes y in
  let '(neg, x) := FeIsNegative x in
  set_nth 31 (Z.lxor (nth 31 s 0) (uint8 (Z.shiftl neg 7))) s.

Definition Extended_Zero : ExtendedGroupElement := Ext FeZero FeOne FeOne FeZero.

Definition Extended_ToProjective (p : ExtendedGroupElement) : ProjectiveGroupElement :=
  Proj (FeCopy (eX p)) (FeCopy (eY p)) (FeCopy (eZ p)).

Definition Extended_Double (p : ExtendedGroupElement) : CompletedGroupElement :=
  Projective_Double (Extended_ToProjective p).

Definition Extended_ToCached (p : ExtendedGroupElement) : CachedGroupElement :=
  Cached (FeAdd (eY p) (eX p)) (FeSub (eY p) (eX p)) (FeCopy (eZ p))
         (FeMul (eT p) Const.d2).

Definition Completed_ToProjective (p : CompletedGroupElement) : ProjectiveGroupElement :=
  Proj (FeMul (cX p) (cT p)) (FeMul (cY p) (cZ p)) (FeMul (cZ p) (cT p)).

Definition Completed_ToExtended (p : CompletedGroupElement) : ExtendedGroupElement :=
  Ext (FeMul (cX p) (cT p)) (FeMul (cY p) (cZ p)) (FeMul (cZ p) (cT p))
      (FeMul (cX p) (cY p)).

Definition PreComputed_Zero : PreComputedGroupElement := Pre FeOne FeOne FeZero.

Definition geAdd (p : ExtendedGroupElement) (q : CachedGroupElement) : CompletedGroupElement :=
  let rX := FeAdd (eY p) (eX p) in
  let rY := FeSub (eY p) (eX p) in
  let rZ := FeMul rX (ca_yPlusX q) in
  let rY := FeMul rY (ca_yMinusX q) in
  let rT := FeMul (ca_T2d q) (eT p) in
  let rX := FeMul (eZ p) (ca_Z q) in
  let t0 := FeAdd rX rX in
  let rX := FeSub rZ rY in
  let rY := FeAdd rZ rY in
  let rZ := FeAdd t0 rT in
  let rT := FeSub t0 rT in
  Comp rX rY rZ rT.

Definition geSub (p : ExtendedGroupElement) (q : CachedGroupElement) : CompletedGroupElement :=
  let rX := FeAdd (eY p) (eX p) in
  let rY := FeSub (eY p) (eX p) in
  let rZ := FeMul rX (ca_yMinusX q) in
  let rY := FeMul rY (ca_yPlusX q) in
  let rT := FeMul (ca_T2d q) (eT p) in
  let rX := FeMul (eZ p) (ca_Z q) in
  let t0 := FeAdd rX rX in
  let rX := FeSub rZ rY in
  let rY := FeAdd rZ rY in
  let rZ := FeSub t0 rT in
  let rT := FeAdd t0 rT in
  Comp rX rY rZ rT.

Definition geMixedAdd (p : ExtendedGroupElement) (q : PreComputedGroupElement) :
    CompletedGroupElement :=
  let rX := FeAdd (eY p) (eX p) in
  let rY := FeSub (eY p) (eX p) in
  let rZ := FeMul rX (yPlusX q) in
  let rY := FeMul rY (yMinusX q) in
  let rT := FeMul (xy2d q) (eT p) in
  let t0 := FeAdd (eZ p) (eZ p) in
  let rX := FeSub rZ rY in
  let rY := FeAdd rZ rY in
  let rZ := FeAdd t0 rT in
  let rT := FeSub t0 rT in
  Comp rX rY rZ rT.

Definition geMixedSub (p : ExtendedGroupElement) (q : PreComputedGroupElement) :
    CompletedGroupElement :=
  let rX := FeAdd (eY p) (eX p) in
  let rY := FeSub (eY p) (eX p) in
  let rZ := FeMul rX (yMinusX q) in
  let rY := FeMul rY (yPlusX q) in
  let rT := FeMul (xy2d q) (eT p) in
  let t0 := FeAdd (eZ p) (eZ p) in
  let rX := FeSub rZ rY in
  let rY := FeAdd rZ rY in
  let rZ := FeSub t0 rT in
  let rT := FeAdd t0 rT in
  Comp rX rY rZ rT.

Definition Extended_Add (a b : ExtendedGroupElement) : ExtendedGroupElement :=
  let cb := Extended_ToCached b in
  let r := geAdd a cb in
  Completed_ToExtended r.

Definition Extended_Sub (a b : ExtendedGroupElement) : ExtendedGroupElement :=
  let cb := Extended_ToCached b in
  let r := geSub a cb in
  Completed_ToExtended r.

Definition Extended_ToBytes (p : ExtendedGroupElement) : list Z :=
  let recip := FeInvert (eZ p) in
  let x := FeMul (eX p) recip in
  let y := FeMul (eY p) recip in
  let '(s, y) := FeToBytes y in
  let '(neg, x) := FeIsNegative x in
  set_nth 31 (Z.lxor (nth 31 s 0) (uint8 (Z.shiftl neg 7))) s.

(** The square-root candidate [u v^3 (u v^7)^((q-5)/8)] of [FromBytes], with
    [u], [v] and the coordinate [Y]. *)
Definition FromBytes_candidate (s : list Z) :
    FieldElement * FieldElement * FieldElement * FieldElement :=
  let Y := FeFromBytes s in
  let u := FeSquare Y in
  let v := FeMul u Const.d in
  let u := FeSub u FeOne in
  let v := FeAdd v FeOne in
  let v3 := FeSquare v in
  let v3 := FeMul v3 v in
  let X := FeSquare v3 in
  let X := FeMul X v in
  let X := FeMul X u in
  let X := fePow22523 X in
  let X := FeMul X v3 in
  let X := FeMul X u in
  (Y, u, v, X).

(** The end of [FromBytes]: the sign of the root [X] is set from [s]. *)
Definition FromBytes_finish (s : list Z) (Y X : FieldElement) : bool * ExtendedGroupElement :=
  let '(neg, X) := FeIsNegative X in
  let X := if neg =? Z.shiftr (nth 31 s 0) 7 then X else FeNeg X in
  (true, Ext X Y FeOne (FeMul X Y)).

(** [p.FromBytes(s)]: the returned flag and the new value of [p].  The limbs of
    [X] are those [FeToBytes] and [FeIsNegative] leave; when the flag is
    [false], [T] keeps its old value. *)
Definition Extended_FromBytes (p : ExtendedGroupElement) (s : list Z) :
    bool * ExtendedGroupElement :=
  let '(Y, u, v, X) := FromBytes_candidate s in
  let vxx := FeSquare X in
  let vxx := FeMul vxx v in
  let check := FeSub vxx u in
  let '(nz, check) := FeIsNonZero check in
  if nz =? 1 then
    let check := FeAdd vxx u in
    let '(nz, check) := FeIsNonZero check in
    if nz =? 1 then (false, Ext X Y FeOne (eT p))
    else
      let X := FeMul X Const.SqrtM1 in
      let '(tmpX, X) := FeToBytes X in
      FromBytes_finish s Y X
  else FromBytes_finish s Y X.

(** ** The constants *)

Lemma repr_const n f x :
  fe_boundedb n f = true -> (fe_val f mod prime25519 =? x mod prime25519)%Z = true ->
  repr n f (of_Z x).
Proof.
  intros B V. split; [now apply fe_boundedb_spec | now apply of_Z_eq, Z.eqb_eq].
Qed.

Lemma repr_d : repr 1 Const.d d.
Proof. rewrite d_of_Z. now apply repr_const. Qed.

Lemma repr_d2 : repr 1 Const.d2 (2 * d)%F.
Proof.
  apply (repr_eq _ _ (of_Z (d_Z + d_Z))); [now apply repr_const |].
  rewrite of_Z_add, <- d_of_Z. ring.
Qed.

Lemma repr_SqrtM1 : repr 1 Const.SqrtM1 sqrtm1.
Proof. rewrite sqrtm1_of_Z. now apply repr_const. Qed.

(** [A] is the constant of the Montgomery form birationally equivalent to the
    curve: [A = 2 (a + d) / (a - d)] with [a = -1]. *)
Lemma A_montgomery : (fe Const.A * (- (1) - d) = 2 * (d - 1))%F.
Proof. rewrite d_of_Z. apply Zmod.unsigned_inj. vm_compute. reflexivity. Qed.

(** ** Representation of points *)

Definition proj_repr (p : ProjectiveGroupElement) (P : point) : Prop :=
  exists z : F, z <> 0%F /\
    repr 2 (pX p) (px P * z)%F /\ repr 1 (pY p) (py P * z)%F /\ repr 1 (pZ p) z.

Definition ext_repr (p : ExtendedGroupElement) (P : point) : Prop :=
  exists z : F, z <> 0%F /\
    repr 2 (eX p) (px P * z)%F /\ repr 1 (eY p) (py P * z)%F /\ repr 1 (eZ p) z /\
    repr 1 (eT p) (px P * py P * z)%F.

Definition comp_repr (p : CompletedGroupElement) (P : point) : Prop :=
  exists z t : F, z <> 0%F /\ t <> 0%F /\
    repr 3 (cX p) (px P * z)%F /\ repr 3 (cY p) (py P * t)%F /\
    repr 3 (cZ p) z /\ repr 3 (cT p) t.

Definition pre_repr (p : PreComputedGroupElement) (P : point) : Prop :=
  repr 1 (yPlusX p) (py P + px P)%F /\ repr 1 (yMinusX p) (py P - px P)%F /\
  repr 1 (xy2d p) (2 * d * (px P * py P))%F.

Definition cached_repr (p : CachedGroupElement) (P : point) : Prop :=
  exists z : F, z <> 0%F /\
    repr 3 (ca_yPlusX p) (py P * z + px P * z)%F /\
    repr 3 (ca_yMinusX p) (py P * z - px P * z)%F /\
    repr 1 (ca_Z p) z /\ repr 1 (ca_T2d p) (px P * py P * z * (2 * d))%F.

Local Open Scope F_scope.

(** Close a representation goal by running [repr_expr] and proving the field
    equation that is left with [tac]. *)
Ltac coords :=
  cbn [pX pY pZ eX eY eZ eT cX cY cZ cT yPlusX yMinusX xy2d
       ca_yPlusX ca_yMinusX ca_Z ca_T2d px py pzero padd popp].

Ltac repr_by tac :=
  coords; eapply repr_eq; [eapply repr_le; [repr_expr | vm_compute; discriminate] | tac].

Lemma Projective_Zero_spec : proj_repr Projective_Zero pzero.
Proof.
  exists 1. split; [exact F_one_neq_zero |].
  unfold Projective_Zero. split_and; repr_by ltac:(ring).
Qed.

Lemma Extended_Zero_spec : ext_repr Extended_Zero pzero.
Proof.
  exists 1. split; [exact F_one_neq_zero |].
  unfold Extended_Zero. split_and; repr_by ltac:(ring).
Qed.

Lemma PreComputed_Zero_spec : pre_repr PreComputed_Zero pzero.
Proof. unfold pre_repr, PreComputed_Zero. split_and; repr_by ltac:(ring). Qed.

Lemma Extended_ToProjective_spec p P :
  ext_repr p P -> proj_repr (Extended_ToProjective p) P.
Proof. intros (z & Hz & RX & RY & RZ & RT). exists z. auto. Qed.

Lemma Completed_ToExtended_spec p P :
  comp_repr p P -> ext_repr (Completed_ToExtended p) P.
Proof.
  intros (z & t & Hz & Ht & RX & RY & RZ & RT). exists (z * t).
  split; [now apply F_mul_neq_0 |]. unfold Completed_ToExtended.
  split_and; repr_by ltac:(ring).
Qed.

Lemma Completed_ToProjective_spec p P :
  comp_repr p P -> proj_repr (Completed_ToProjective p) P.
Proof.
  intros H%Completed_ToExtended_spec%Extended_ToProjective_spec. exact H.
Qed.

Lemma Extended_ToCached_spec p P :
  ext_repr p P -> cached_repr (Extended_ToCached p) P.
Proof.
  intros (z & Hz & RX & RY & RZ & RT). exists z. pose proof repr_d2.
  unfold Extended_ToCached.
  split_and; auto; repr_by ltac:(ring).
Qed.

(** *** Addition *)

(** The witnesses for the denominators of a sum: [Z] and [T] of the completed
    point are [c (1 + t)] and [c (1 - t)]. *)
Lemma sum_denominators P Q c :
  c <> 0 ->
  let t := d * (px P * px Q * py P * py Q) in
  1 + t <> 0 /\ 1 - t <> 0 /\ c * (1 + t) <> 0 /\ c * (1 - t) <> 0.
Proof.
  intros Hc t.
  pose proof (denominator_plus _ _ _ _ (p_curve P) (p_curve Q)).
  pose proof (denominator_minus _ _ _ _ (p_curve P) (p_curve Q)).
  auto using F_mul_neq_0.
Qed.

Ltac sum_coords :=
  coords; unfold add_x, add_y, add_a, add_b, add_t.

Section add.
Context (p : ExtendedGroupElement) (P : point) (Hp : ext_repr p P).

Lemma geAdd_spec q Q : cached_repr q Q -> comp_repr (geAdd p q) (padd P Q).
Proof.
  destruct Hp as (z & Hz & RX & RY & RZ & RT). intros (w & Hw & RP & RM & RW & RD).
  destruct (sum_denominators P Q (2 * (z * w))) as (Np & Nm & Nz & Nt);
    [auto using F_mul_neq_0, F_two_neq_zero |].
  eexists _, _. split; [exact Nz |]. split; [exact Nt |].
  unfold geAdd. sum_coords. split_and; repr_by ltac:(field; auto).
Qed.

Lemma geSub_spec q Q : cached_repr q Q -> comp_repr (geSub p q) (padd P (popp Q)).
Proof.
  destruct Hp as (z & Hz & RX & RY & RZ & RT). intros (w & Hw & RP & RM & RW & RD).
  destruct (sum_denominators P (popp Q) (2 * (z * w))) as (Np & Nm & Nz & Nt);
    [auto using F_mul_neq_0, F_two_neq_zero |].
  eexists _, _. split; [exact Nz |]. split; [exact Nt |].
  unfold geSub. sum_coords. split_and; repr_by ltac:(field; auto).
Qed.

Lemma geMixedAdd_spec q Q : pre_repr q Q -> comp_repr (geMixedAdd p q) (padd P Q).
Proof.
  destruct Hp as (z & Hz & RX & RY & RZ & RT). intros (RP & RM & RD).
  destruct (sum_denominators P Q (2 * z)) as (Np & Nm & Nz & Nt);
    [auto using F_mul_neq_0, F_two_neq_zero |].
  eexists _, _. split; [exact Nz |]. split; [exact Nt |].
  unfold geMixedAdd. sum_coords. split_and; repr_by ltac:(field; auto).
Qed.

Lemma geMixedSub_spec q Q : pre_repr q Q -> comp_repr (geMixedSub p q) (padd P (popp Q)).
Proof.
  destruct Hp as (z & Hz & RX & RY & RZ & RT). intros (RP & RM & RD).
  destruct (sum_denominators P (popp Q) (2 * z)) as (Np & Nm & Nz & Nt);
    [auto using F_mul_neq_0, F_two_neq_zero |].
  eexists _, _. split; [exact Nz |]. split; [exact Nt |].
  unfold geMixedSub. sum_coords. split_and; repr_by ltac:(field; auto).
Qed.
End add.

Lemma Projective_Double_spec p P : proj_repr p P -> comp_repr (Projective_Double p) (padd P P).
Proof.
  intros (z & Hz & RX & RY & RZ). 
  destruct (sum_denominators P P (z * z)) as (Np & Nm & Nz & Nt); [auto using F_mul_neq_0 |].
  eexists _, _. split; [exact Nz |]. split; [exact Nt |].
  assert (d * (px P * px P * py P * py P) = py P * py P - px P * px P - 1) as C.
  { rewrite (p_curve P). ring. }
  unfold Projective_Double. sum_coords. rewrite C in *.
  split_and; repr_by ltac:(field; auto).
Qed.

Lemma Extended_Double_spec p P : ext_repr p P -> comp_repr (Extended_Double p) (padd P P).
Proof. intros H. now apply Projective_Double_spec, Extended_ToProjective_spec. Qed.

Lemma Extended_Add_spec a A b B :
  ext_repr a A -> ext_repr b B -> ext_repr (Extended_Add a b) (padd A B).
Proof.
  intros Ha Hb. apply Completed_ToExtended_spec, geAdd_spec; [exact Ha |].
  now apply Extended_ToCached_spec.
Qed.

Lemma Extended_Sub_spec a A b B :
  ext_repr a A -> ext_repr b B -> ext_repr (Extended_Sub a b) (padd A (popp B)).
Proof.
  intros Ha Hb. apply Completed_ToExtended_spec, geSub_spec; [exact Ha |].
  now apply Extended_ToCached_spec.
Qed.

(** ** Encoding of points *)

(** The 32-byte encoding: [y], with the sign of [x] in the top bit. *)
Definition encode_point (P : point) : list Z :=
  le_bytes 32 (Zmod.unsigned (py P) + 2 ^ 255 * is_negative (px P)).

Lemma is_negative_range x : is_negative x = 0%Z \/ is_negative x = 1%Z.
Proof. unfold is_negative. pose proof (Z.mod_pos_bound (Zmod.unsigned x) 2). lia. Qed.

Lemma encode_point_val P :
  le_val (encode_point P) = (Zmod.unsigned (py P) + 2 ^ 255 * is_negative (px P))%Z.
Proof.
  unfold encode_point. rewrite le_val_le_bytes. apply Z.mod_small.
  pose proof (unsigned_bounds (py P)). pose proof (is_negative_range (px P)).
  change (256 ^ Z.of_nat 32)%Z with (2 ^ 256)%Z. unfold prime25519 in *. lia.
Qed.

Lemma encode_point_length P : length (encode_point P) = 32%nat.
Proof. apply length_le_bytes. Qed.

Lemma encode_point_ok P : bytes_ok (encode_point P).
Proof. apply le_bytes_ok. Qed.

#[export] Hint Resolve encode_point_length encode_point_ok : bytes.

(** Setting the sign bit of the encoding of [y]. *)
Lemma set_sign P :
  let s := encode (py P) in
  set_nth 31 (Z.lxor (nth 31 s 0%Z) (uint8 (Z.shiftl (is_negative (px P)) 7))) s =
  encode_point P.
Proof.
  intros s.
  assert (0 <= nth 31 s 0%Z < 128)%Z as B.
  { pose proof (unsigned_bounds (py P)). pose proof (encode_val (py P)) as V. fold s in V.
    pose proof (encode_ok (py P)) as Ok. pose proof (encode_length (py P)) as L. fold s in Ok, L.
    pose proof (nth_byte s 31 Ok) as [B0 _]. split; [exact B0 |].
    pose proof (le_val_set_nth 31 0 s ltac:(lia)) as E.
    pose proof (le_val_bounds _ (bytes_ok_set_nth 31 0 s Ok ltac:(unfold byte_ok; lia))).
    change (256 ^ Z.of_nat 31)%Z with (2 ^ 248)%Z in E. unfold prime25519 in *. lia. }
  assert (Z.lxor (nth 31 s 0%Z) (uint8 (Z.shiftl (is_negative (px P)) 7)) =
          nth 31 s 0%Z + 128 * is_negative (px P))%Z as ->.
  { destruct (is_negative_range (px P)) as [-> | ->].
    - change (uint8 (Z.shiftl 0 7)) with 0%Z. rewrite Z.lxor_0_r. lia.
    - change (uint8 (Z.shiftl 1 7)) with (Z.shiftl 1 7).
      rewrite <- (lor_shiftl_add _ 1 7) by lia. apply Z.lxor_lor.
      apply land_shiftl_0; lia. }
  pose proof (is_negative_range (px P)).
  apply le_val_inj.
  - apply bytes_ok_set_nth; [apply encode_ok | unfold byte_ok; lia].
  - apply encode_point_ok.
  - rewrite length_set_nth, encode_point_length. apply encode_length.
  - rewrite le_val_set_nth by (fold s; pose proof (encode_length (py P)); unfold s; lia).
    rewrite encode_point_val.
    unfold s at 1. rewrite encode_val. change (256 ^ Z.of_nat 31)%Z with (2 ^ 248)%Z. lia.
Qed.

Lemma F_mul_inv (x z : F) : z <> 0 -> x * z * z ^ (prime25519 - 2) = x.
Proof. intros Hz. rewrite F_pow_invert by exact Hz. field. exact Hz. Qed.

Lemma Extended_ToBytes_spec p P : ext_repr p P -> Extended_ToBytes p = encode_point P.
Proof.
  intros (z & Hz & RX & RY & RZ & RT).
  assert (repr 3 (FeMul (eY p) (FeInvert (eZ p))) (py P)) as Ry
    by repr_by ltac:(now apply F_mul_inv).
  assert (repr 3 (FeMul (eX p) (FeInvert (eZ p))) (px P)) as Rx
    by repr_by ltac:(now apply F_mul_inv).
  destruct (FeToBytes_spec _ _ Ry) as (y' & Ey & _).
  destruct (FeIsNegative_spec _ _ Rx) as (x' & Ex & _).
  unfold Extended_ToBytes. cbv zeta. rewrite Ey, Ex. apply set_sign.
Qed.

Lemma Projective_ToBytes_spec p P : proj_repr p P -> Projective_ToBytes p = encode_point P.
Proof.
  intros (z & Hz & RX & RY & RZ).
  assert (repr 3 (FeMul (pY p) (FeInvert (pZ p))) (py P)) as Ry
    by repr_by ltac:(now apply F_mul_inv).
  assert (repr 3 (FeMul (pX p) (FeInvert (pZ p))) (px P)) as Rx
    by repr_by ltac:(now apply F_mul_inv).
  destruct (FeToBytes_spec _ _ Ry) as (y' & Ey & _).
  destruct (FeIsNegative_spec _ _ Rx) as (x' & Ex & _).
  unfold Projective_ToBytes. cbv zeta. rewrite Ey, Ex. apply set_sign.
Qed.

(** ** Decoding of points *)

(** What an encoding determines: [y] modulo 2^255, and the sign of [x] unless
    [x] is zero. *)
Definition coord_y (s : list Z) : F := of_Z (le_val s mod 2 ^ 255).

Definition sign_bit (s : list Z) : Z := Z.shiftr (nth 31 s 0%Z) 7.

Definition decodes (s : list Z) (P : point) : Prop :=
  py P = coord_y s /\ (px P = 0 \/ is_negative (px P) = sign_bit s).

Lemma curve_eq_uv x y : curve_eq x y <-> (d * (y * y) + 1) * (x * x) = y * y - 1.
Proof.
  unfold curve_eq. split; intros E.
  - replace (y * y - 1) with ((y * y - x * x) + (x * x - 1)) by ring. rewrite E. ring.
  - replace (y * y - x * x) with ((y * y - 1) + (1 - x * x)) by ring. rewrite <- E. ring.
Qed.

Lemma v_nonzero y : d * (y * y) + 1 <> 0.
Proof.
  intros E.
  assert (y <> 0) as Hy.
  { intros ->. apply F_one_neq_zero. rewrite <- E. ring. }
  apply (d_nonsquare (sqrtm1 / y)).
  transitivity (sqrtm1 * sqrtm1 / (y * y)); [field; exact Hy |]. rewrite sqrtm1_spec.
  transitivity ((d * (y * y) - (d * (y * y) + 1)) / (y * y)); [f_equal; ring |].
  rewrite E. field. exact Hy.
Qed.

(** Two points with the same [y] differ at most in the sign of [x]. *)
Lemma same_y x x' y : curve_eq x y -> curve_eq x' y -> x' = x \/ x' = - x.
Proof.
  intros H H'. apply (proj1 (curve_eq_uv _ _)) in H, H'.
  assert ((d * (y * y) + 1) * ((x' - x) * (x' + x)) = 0) as E.
  { transitivity ((d * (y * y) + 1) * (x' * x') - (d * (y * y) + 1) * (x * x)); [ring |].
    rewrite H, H'. ring. }
  apply F_mul_0 in E as [E | E]; [exfalso; exact (v_nonzero y E) |].
  apply F_mul_0 in E as [E | E]; [left | right].
  - apply Zmod.sub_eq_0. exact E.
  - transitivity (x' + x - x); [ring |]. rewrite E. ring.
Qed.

Lemma is_negative_opp x : x <> 0 -> is_negative (- x) = (1 - is_negative x)%Z.
Proof.
  intros Hx. unfold is_negative.
  assert (Zmod.unsigned (- x) = prime25519 - Zmod.unsigned x)%Z as ->.
  { rewrite Zmod.unsigned_opp. pose proof (unsigned_bounds x).
    assert (Zmod.unsigned x <> 0%Z).
    { intros E. apply Hx, Zmod.unsigned_inj. exact E. }
    rewrite Z.mod_opp_l_nz by (rewrite ?Z.mod_small; lia). rewrite Z.mod_small by lia. lia. }
  unfold prime25519. change (2 ^ 255 - 19)%Z with (1 + 2 * (2 ^ 254 - 10))%Z.
  Z.div_mod_to_equations. lia.
Qed.

Lemma decodes_inj s P Q : decodes s P -> decodes s Q -> P = Q.
Proof.
  intros [Hy Hx] [Hy' Hx']. apply point_eq; [| congruence].
  pose proof (p_curve P) as CP. pose proof (p_curve Q) as CQ. rewrite Hy in CP. rewrite Hy' in CQ.
  destruct (same_y _ _ _ CP CQ) as [E | E]; [congruence |].
  destruct (F_eq_dec (px P) 0) as [E0 | N0].
  - rewrite E, E0. ring.
  - exfalso. rewrite E in Hx'. rewrite is_negative_opp in Hx' by exact N0.
    destruct Hx as [? | Hx]; [contradiction |]. destruct Hx' as [Hx' | Hx'].
    + apply N0. transitivity (- - px P); [ring |]. rewrite Hx'. ring.
    + pose proof (is_negative_range (px P)). lia.
Qed.

(** *** The square root *)

(** The candidate [u v^3 (u v^7)^((p-5)/8)] is a square root of [u/v] up to the
    sign, or up to a square root of [-1], whenever there is one. *)
Definition root_candidate (u v : F) : F :=
  (v * v * v * (v * v * v) * v * u) ^ ((prime25519 - 5) / 8) * (v * v * v) * u.

Lemma root_candidate_square u v :
  v * (root_candidate u v * root_candidate u v) =
  u * (v * v * v * (v * v * v) * v * u) ^ ((prime25519 - 1) / 4).
Proof.
  unfold root_candidate. set (w := v * v * v * (v * v * v) * v * u).
  change ((prime25519 - 1) / 4)%Z with ((prime25519 - 5) / 8 + (prime25519 - 5) / 8 + 1)%Z.
  rewrite !F_pow_add, Zmod.pow_1_r by (vm_compute; discriminate).
  generalize (w ^ ((prime25519 - 5) / 8)). intros z. unfold w. ring.
Qed.

Lemma root_candidate_spec u v x0 :
  v <> 0 -> v * (x0 * x0) = u ->
  let x := root_candidate u v in
  v * (x * x) = u \/ v * (x * x) = - u.
Proof.
  intros Hv E x. subst x. rewrite root_candidate_square.
  destruct (F_eq_dec x0 0) as [-> | Hx0].
  - left. rewrite <- E. ring.
  - set (t := (v * v * v * (v * v * v) * v * u) ^ ((prime25519 - 1) / 4)).
    assert ((t - 1) * (t + 1) = 0) as T.
    { assert (t * t = 1) as T.
      - unfold t. rewrite <- F_pow_add by (vm_compute; discriminate).
        replace (v * v * v * (v * v * v) * v * u) with ((v * v * v * v * x0) ^ 2)
          by (rewrite Zmod.pow_2_r, <- E; ring).
        rewrite <- F_pow_mul by (vm_compute; discriminate).
        change (2 * ((prime25519 - 1) / 4 + (prime25519 - 1) / 4))%Z with (prime25519 - 1)%Z.
        apply F_pow_fermat. auto 10 using F_mul_neq_0.
      - transitivity (t * t - 1); [ring | rewrite T; ring]. }
    apply F_mul_0 in T as [T | T].
    + left. transitivity (u * (t - 1 + 1)); [ring | rewrite T; ring].
    + right. transitivity (u * (t + 1 - 1)); [ring | rewrite T; ring].
Qed.

Lemma FromBytes_candidate_spec s Y u v X :
  length s = 32%nat -> bytes_ok s -> FromBytes_candidate s = (Y, u, v, X) ->
  let y := coord_y s in
  repr 1 Y y /\ repr 2 u (y * y - 1) /\ repr 2 v (d * (y * y) + 1) /\
  repr 1 X (root_candidate (y * y - 1) (d * (y * y) + 1)).
Proof.
  intros L Ok E y. symmetry in E. cbv beta delta [FromBytes_candidate] in E.
  pose proof repr_d. intro_let E EY. pose proof (FeFromBytes_spec s L Ok) as RY.
  rewrite <- EY in RY. fold (coord_y s) in RY. fold y in RY.
  do 4 (repr_let E).
  assert (repr 2 v1 (d * (y * y) + 1)) as Rv by (apply (repr_eq _ _ _ _ R2); ring).
  clear R2. do 8 (repr_let E). injection E as -> -> -> ->. auto.
Qed.

(** *** [FromBytes] *)

Lemma sign_bit_range s : bytes_ok s -> sign_bit s = 0%Z \/ sign_bit s = 1%Z.
Proof.
  intros Ok. pose proof (nth_byte s 31 Ok) as B. unfold byte_ok in B. unfold sign_bit.
  rewrite Z.shiftr_div_pow2 by lia. Z.div_mod_to_equations. lia.
Qed.

Lemma FromBytes_finish_spec s Y X x :
  bytes_ok s -> repr 1 Y (coord_y s) -> repr 3 X x -> curve_eq x (coord_y s) ->
  exists e P, FromBytes_finish s Y X = (true, e) /\ decodes s P /\ ext_repr e P.
Proof.
  intros Ok RY RX C. destruct (FeIsNegative_spec _ _ RX) as (X' & E & RX').
  unfold FromBytes_finish. rewrite E. fold (sign_bit s).
  cbv zeta. set (X'' := if (_ =? _)%Z then X' else FeNeg X').
  assert (exists x'', repr 2 X'' x'' /\ curve_eq x'' (coord_y s) /\
                      (x'' = 0 \/ is_negative x'' = sign_bit s)) as (x'' & RX'' & C'' & S).
  { unfold X''. destruct (Z.eqb_spec (is_negative x) (sign_bit s)) as [S | S].
    - exists x. auto.
    - exists (- x). split; [repr_by ltac:(reflexivity) |].
      split; [apply on_curve_iff; now apply opp_on_curve |].
      destruct (F_eq_dec x 0) as [-> | Hx]; [left; ring | right].
      rewrite is_negative_opp by exact Hx.
      pose proof (is_negative_range x). pose proof (sign_bit_range s Ok). lia. }
  eexists _, (Point x'' (coord_y s) (proj2 (on_curve_iff _ _) C'')).
  split; [reflexivity |]. split; [split; [reflexivity | exact S] |].
  exists 1. split; [exact F_one_neq_zero |]. split_and; repr_by ltac:(ring).
Qed.

(** [FromBytes] accepts exactly the encodings of points: it returns the unique
    point the bytes determine, and [false] only when there is none. *)
Lemma FromBytes_spec p s :
  length s = 32%nat -> bytes_ok s ->
  match Extended_FromBytes p s with
  | (true, e) => exists P, decodes s P /\ ext_repr e P
  | (false, _) => forall P, py P <> coord_y s
  end.
Proof.
  intros L Ok. unfold Extended_FromBytes.
  destruct (FromBytes_candidate s) as [[[Y u] v] X] eqn:EC.
  destruct (FromBytes_candidate_spec _ _ _ _ _ L Ok EC) as (RY & Ru & Rv & RX). clear EC.
  set (y := coord_y s) in *.
  set (x := root_candidate (y * y - 1) (d * (y * y) + 1)) in *.
  assert (repr 1 (FeMul (FeSquare X) v) ((d * (y * y) + 1) * (x * x))) as Rvxx
    by repr_by ltac:(ring).
  cbv zeta. set (vxx := FeMul (FeSquare X) v) in *.
  destruct (FeIsNonZero_spec (FeSub vxx u) ((d * (y * y) + 1) * (x * x) - (y * y - 1)))
    as (c1 & -> & _); [repr_by ltac:(reflexivity) |].
  destruct (FeIsNonZero_spec (FeAdd vxx u) ((d * (y * y) + 1) * (x * x) + (y * y - 1)))
    as (c2 & -> & _); [repr_by ltac:(reflexivity) |].
  destruct (Zmod.eqb_spec ((d * (y * y) + 1) * (x * x) - (y * y - 1)) 0) as [E1 | E1];
    [| destruct (Zmod.eqb_spec ((d * (y * y) + 1) * (x * x) + (y * y - 1)) 0) as [E2 | E2]];
    cbn [Z.eqb Pos.eqb].
  - (* vx^2 = u *)
    destruct (FromBytes_finish_spec s Y X x) as (e & P & -> & H); auto.
    + apply (repr_le _ _ _ _ RX). lia.
    + now apply curve_eq_uv, Zmod.sub_eq_0.
    + now exists P.
  - (* vx^2 = -u *)
    pose proof repr_SqrtM1.
    destruct (FeToBytes_spec (FeMul X Const.SqrtM1) (x * sqrtm1)) as (X' & -> & RX');
      [repr_by ltac:(reflexivity) |].
    destruct (FromBytes_finish_spec s Y X' (x * sqrtm1)) as (e & P & -> & H'); auto.
    + apply (repr_le _ _ _ _ RX'). lia.
    + apply curve_eq_uv. fold y.
      transitivity ((d * (y * y) + 1) * (x * x) * (sqrtm1 * sqrtm1)); [ring |].
      rewrite sqrtm1_spec.
      transitivity ((y * y - 1) - ((d * (y * y) + 1) * (x * x) + (y * y - 1))); [ring |].
      rewrite E2. ring.
    + now exists P.
  - (* no root *)
    intros P HP. pose proof (p_curve P) as C. rewrite HP in C. fold y in C.
    apply (proj1 (curve_eq_uv _ _)) in C.
    destruct (root_candidate_spec _ _ _ (v_nonzero y) C) as [R | R].
    + apply E1. unfold x. rewrite R. ring.
    + apply E2. unfold x. rewrite R. ring.
Qed.

(** *** Round trip *)

Lemma sign_bit_val s :
  length s = 32%nat -> bytes_ok s -> sign_bit s = (le_val s / 2 ^ 255)%Z.
Proof.
  intros L Ok. pose proof (nth_byte s 31 Ok) as B. unfold byte_ok in B.
  pose proof (le_val_set_nth 31 0 s ltac:(lia)) as E.
  assert (0 <= le_val (set_nth 31 0%Z s) < 2 ^ 248)%Z as B'.
  { clear E B. do 32 (destruct s as [| ? s]; [discriminate L |]). destruct s; [| discriminate L].
    repeat (apply Forall_cons_iff in Ok; destruct Ok as [? Ok]). unfold byte_ok in *.
    cbn [set_nth le_val]. lia. }
  unfold sign_bit. rewrite Z.shiftr_div_pow2 by lia.
  change (256 ^ Z.of_nat 31)%Z with (2 ^ 248)%Z in E. Z.div_mod_to_equations. lia.
Qed.

Lemma decodes_encode P : decodes (encode_point P) P.
Proof.
  pose proof (unsigned_bounds (py P)). pose proof (is_negative_range (px P)).
  assert (prime25519 < 2 ^ 255)%Z by reflexivity. split.
  - unfold coord_y. rewrite encode_point_val, (Z.mul_comm (2 ^ 255)), Z.mod_add by lia.
    rewrite Z.mod_small by lia. symmetry. apply Zmod.of_Z_to_Z.
  - right. rewrite sign_bit_val by auto using encode_point_length, encode_point_ok.
    rewrite encode_point_val, (Z.mul_comm (2 ^ 255)), Z.div_add, Z.div_small by lia. reflexivity.
Qed.

Lemma encode_point_inj P Q : encode_point P = encode_point Q -> P = Q.
Proof.
  intros E. apply (decodes_inj (encode_point P)); [apply decodes_encode |].
  rewrite E. apply decodes_encode.
Qed.

Lemma FromBytes_encode q P :
  exists e, Extended_FromBytes q (encode_point P) = (true, e) /\ ext_repr e P.
Proof.
  pose proof (FromBytes_spec q (encode_point P) (encode_point_length P) (encode_point_ok P)) as H.
  destruct (Extended_FromBytes q (encode_point P)) as [[] e].
  - destruct H as (Q & D & R). exists e. split; [reflexivity |].
    now rewrite (decodes_inj _ _ _ (decodes_encode P) D).
  - destruct (H P). apply (proj1 (decodes_encode P)).
Qed.

(** ** Properties *)

(** C24: the point operations compute the complete group law of the twisted
    Edwards curve, in every coordinate system: sums and differences of extended
    points, doublings of projective and extended points and the mixed operations
    with a precomputed point, with no exceptional case. *)
Theorem group_law p P q Q r R :
  ext_repr p P -> ext_repr q Q -> pre_repr r R ->
  ext_repr (Extended_Add p q) (padd P Q) /\
  ext_repr (Extended_Sub p q) (padd P (popp Q)) /\
  ext_repr (Completed_ToExtended (Extended_Double p)) (padd P P) /\
  proj_repr (Completed_ToProjective (Projective_Double (Extended_ToProjective p))) (padd P P) /\
  comp_repr (geMixedAdd p r) (padd P R) /\ comp_repr (geMixedSub p r) (padd P (popp R)).
Proof.
  intros Hp Hq Hr. split_and.
  - now apply Extended_Add_spec.
  - now apply Extended_Sub_spec.
  - now apply Completed_ToExtended_spec, Extended_Double_spec.
  - now apply Completed_ToProjective_spec, Projective_Double_spec, Extended_ToProjective_spec.
  - now apply geMixedAdd_spec.
  - now apply geMixedSub_spec.
Qed.

Lemma group_law_witness :
  ext_repr (Extended_Add Extended_Zero Extended_Zero) (padd pzero pzero).
Proof.
  apply (group_law Extended_Zero pzero Extended_Zero pzero PreComputed_Zero pzero
           Extended_Zero_spec Extended_Zero_spec PreComputed_Zero_spec).
Defined.

(** [FromBytes] accepts exactly the encodings whose [y] coordinate is
    that of a curve point, and then returns the point with that [y] and the sign
    of [x] given by the top bit; anything else is refused. *)
Lemma point_decoding old s :
  length s = 32%nat -> bytes_ok s ->
  (forall P, decodes s P -> exists e, Extended_FromBytes old s = (true, e) /\ ext_repr e P) /\
  ((forall P, py P <> coord_y s) -> fst (Extended_FromBytes old s) = false) /\
  (fst (Extended_FromBytes old s) = true -> exists P, decodes s P).
Proof.
  intros L Ok. pose proof (FromBytes_spec old s L Ok) as H.
  destruct (Extended_FromBytes old s) as [[] e]; cbn [fst].
  - destruct H as (Q & D & R). split_and.
    + intros P DP. exists e. split; [reflexivity |]. now rewrite (decodes_inj s P Q DP D).
    + intros N. destruct (N Q (proj1 D)).
    + intros _. exists Q. exact D.
  - split_and.
    + intros P DP. destruct (H P (proj1 DP)).
    + reflexivity.
    + discriminate.
Qed.

(** C25: writing a point and reading the 32 bytes back succeeds and gives the same
    point, and two points with the same encoding are equal.  [FromBytes] accepts
    exactly the encodings whose [y] coordinate is that of a curve point, and then
    returns the point with that [y] and the sign of [x] given by the top bit;
    anything else is refused. *)
Theorem point_codec old p P q Q :
  ext_repr p P -> ext_repr q Q ->
  (exists p', Extended_FromBytes old (Extended_ToBytes p) = (true, p') /\ ext_repr p' P) /\
  (Extended_ToBytes p = Extended_ToBytes q -> P = Q) /\
  forall s, length s = 32%nat -> bytes_ok s ->
    (forall R, decodes s R -> exists e, Extended_FromBytes old s = (true, e) /\ ext_repr e R) /\
    ((forall R, py R <> coord_y s) -> fst (Extended_FromBytes old s) = false) /\
    (fst (Extended_FromBytes old s) = true -> exists R, decodes s R).
Proof.
  intros Hp Hq. rewrite (Extended_ToBytes_spec p P Hp), (Extended_ToBytes_spec q Q Hq).
  split; [apply FromBytes_encode |]. split; [apply encode_point_inj |].
  intros s L Ok. exact (point_decoding old s L Ok).
Qed.

Lemma point_codec_witness :
  (exists p', Extended_FromBytes Extended_Zero (Extended_ToBytes Extended_Zero) = (true, p') /\
     ext_repr p' pzero) /\
  exists e, Extended_FromBytes Extended_Zero (encode_point pzero) = (true, e) /\ ext_repr e pzero.
Proof.
  destruct (point_codec Extended_Zero Extended_Zero pzero Extended_Zero pzero
              Extended_Zero_spec Extended_Zero_spec) as (H & _ & D).
  split; [exact H |].
  apply (D (encode_point pzero)); [apply encode_point_length | apply encode_point_ok | apply decodes_encode].
Defined.
