(* ===== verification/BasePoint.v ===== *)
(** * The tables hold the multiples of the base point

    Every entry of [base] and [bi] is checked by computation: one equation per
    coordinate relates an entry to the two entries it is the sum of, without
    inversions, and five doublings lead from one row of [base] to the next. *)

From Stdlib Require Import Field.
From S2P Require Import Prelude Primality Field25519 Edwards FieldElement FieldCodec GroupElement BaseTable.

Add Field F_field_base : F_field_theory.

(** ** The base point *)

(** [B = (x, 4/5)] with [x] even. *)
Definition base_x : Z :=
  15112221349535400772501151409588531511454012693041857206046113283949847762202.

Definition base_y : Z :=
  46316835694926478169428394003475163141307993866256225615783033603165251855960.

Lemma base_on_curve : on_curve (of_Z base_x) (of_Z base_y) = true.
Proof.
  apply on_curve_iff. unfold curve_eq. rewrite d_of_Z.
  rewrite <- !of_Z_mul, <- of_Z_sub. change 1%F with (of_Z 1). rewrite <- of_Z_add.
  apply of_Z_eq. vm_compute. reflexivity.
Qed.

Definition B : point := Point (of_Z base_x) (of_Z base_y) base_on_curve.

Lemma base_y_spec : (5 * base_y) mod prime25519 = 4.
Proof. vm_compute. reflexivity. Qed.

Lemma base_x_positive : is_negative (px B) = 0.
Proof. vm_compute. reflexivity. Qed.

(** ** Checking an entry *)

(** The integers behind the limbs of an entry. *)
Definition entry_vals (e : PreComputedGroupElement) : Z * Z * Z :=
  (fe_val (yPlusX e), fe_val (yMinusX e), fe_val (xy2d e)).

Definition entry (e : Z * Z * Z) (P : point) : Prop :=
  let '(u, v, t) := e in
  of_Z u = (py P + px P)%F /\ of_Z v = (py P - px P)%F /\
  of_Z t = (2 * d * (px P * py P))%F.

Lemma entry_pre_repr e P :
  fe_boundedb 1 (yPlusX e) && fe_boundedb 1 (yMinusX e) && fe_boundedb 1 (xy2d e) = true ->
  entry (entry_vals e) P -> pre_repr e P.
Proof.
  rewrite !andb_true_iff. intros [[H1 H2] H3] (E1 & E2 & E3).
  split; [| split]; (split; [now apply fe_boundedb_spec | assumption]).
Qed.

Definition eqm (a b : Z) : bool :=
  let r := red25519 (a - b) in (r =? 0) || (r =? prime25519).

Lemma eqm_spec a b : eqm a b = true -> of_Z a = of_Z b.
Proof.
  unfold eqm. intros H.
  assert ((a - b) mod prime25519 = 0) as E.
  { rewrite <- red25519_spec. apply orb_true_iff in H as [H | H]; apply Z.eqb_eq in H; rewrite H;
      reflexivity. }
  apply Zmod.sub_eq_0. rewrite <- of_Z_sub. apply (proj2 (of_Z_eq _ 0)). exact E.
Qed.

Lemma of_Z_red x : of_Z (red25519 x) = of_Z x.
Proof. apply of_Z_eq, red25519_spec. Qed.

#[export] Hint Rewrite of_Z_red : of_Z.

(** [2 t = 2 d (2 x) (2 y) / 2], with [d = -121665/121666]. *)
Definition t_check (e : Z * Z * Z) : bool :=
  let '(u, v, t) := e in
  eqm (243332 * t) (-121665 * red25519 ((u - v) * (u + v))).

(** [e3] is the sum of [e1] and [e2]. *)
Definition add_check (e1 e2 e3 : Z * Z * Z) : bool :=
  let '(u1, v1, t1) := e1 in
  let '(u2, v2, t2) := e2 in
  let '(u3, v3, t3) := e3 in
  let a := red25519 (v1 * v2) in
  let b := red25519 (u1 * u2) in
  let s := red25519 (t1 * red25519 ((u2 - v2) * (u2 + v2))) in
  eqm ((u3 - v3) * (8 + s)) (8 * (b - a)) && eqm ((u3 + v3) * (8 - s)) (8 * (b + a)) &&
  t_check e3.

Local Open Scope F_scope.

Lemma F_mul_cancel (c x y : F) : c <> 0 -> c * x = c * y -> x = y.
Proof.
  intros Hc E. apply Zmod.sub_eq_0.
  assert (c * (x - y) = 0) as Z0 by (transitivity (c * x - c * y); [ring | rewrite E; ring]).
  apply F_mul_0 in Z0 as [Z0 | Z0]; [contradiction | exact Z0].
Qed.

Lemma of_Z_neq a : (a mod prime25519 =? 0)%Z = false -> of_Z a <> 0.
Proof. intros H%Z.eqb_neq E. apply H. apply (proj1 (of_Z_eq _ 0)). exact E. Qed.

(** The coordinates behind [u = y + x] and [v = y - x]. *)
Lemma entry_of_coords u v t P :
  of_Z u - of_Z v = 2 * px P -> of_Z u + of_Z v = 2 * py P -> t_check (u, v, t) = true ->
  entry (u, v, t) P.
Proof.
  intros Hx Hy T. pose proof F_two_neq_zero as N2. split; [| split].
  - apply (F_mul_cancel 2 _ _ N2).
    transitivity ((of_Z u + of_Z v) + (of_Z u - of_Z v)); [ring | rewrite Hx, Hy; ring].
  - apply (F_mul_cancel 2 _ _ N2).
    transitivity ((of_Z u + of_Z v) - (of_Z u - of_Z v)); [ring | rewrite Hx, Hy; ring].
  - apply eqm_spec in T. autorewrite with of_Z in T. rewrite Hx, Hy in T.
    apply (F_mul_cancel (of_Z 243332)); [now apply of_Z_neq |]. rewrite T.
    change (of_Z (-121665)) with (- of_Z 121665). rewrite <- d_spec.
    change 243332%Z with (121666 + 121666)%Z. rewrite of_Z_add. ring.
Qed.

Lemma add_check_spec e1 e2 e3 P Q :
  entry e1 P -> entry e2 Q -> add_check e1 e2 e3 = true -> entry e3 (padd P Q).
Proof.
  destruct e1 as [[u1 v1] t1], e2 as [[u2 v2] t2], e3 as [[u3 v3] t3].
  intros (U1 & V1 & T1) (U2 & V2 & T2) H. cbv beta iota zeta delta [add_check] in H.
  apply andb_true_iff in H as [H T]. apply andb_true_iff in H as [HX HY].
  apply eqm_spec in HX, HY. autorewrite with of_Z in HX, HY.
  rewrite U1, V1, U2, V2, T1 in HX, HY.
  destruct (sum_denominators P Q 1 F_one_neq_zero) as (Np & Nm & _ & _).
  assert (of_Z 8 <> 0) as N8 by now apply of_Z_neq.
  assert (of_Z 8 = 2 * 2 * 2) as E8 by (apply Zmod.unsigned_inj; vm_compute; reflexivity).
  apply entry_of_coords; [| | exact T]; sum_coords.
  - apply (F_mul_cancel (of_Z 8 * (1 + d * (px P * px Q * py P * py Q))));
      [auto using F_mul_neq_0 |]. rewrite E8 in HX |- *.
    etransitivity; [| etransitivity; [exact HX |]]; [ring | field; auto].
  - apply (F_mul_cancel (of_Z 8 * (1 - d * (px P * px Q * py P * py Q))));
      [auto using F_mul_neq_0 |]. rewrite E8 in HY |- *.
    etransitivity; [| etransitivity; [exact HY |]]; [ring | field; auto].
Qed.

(** ** Checking a row *)

(** [prev], [rest]: each entry is the previous one plus [e1]. *)
Fixpoint chain_check (e1 prev : Z * Z * Z) (rest : list (Z * Z * Z)) : bool :=
  match rest with
  | [] => true
  | e :: rest => add_check e1 prev e && chain_check e1 e rest
  end.

Lemma chain_check_spec e1 P Q rest prev :
  entry e1 P -> entry prev Q -> chain_check e1 prev rest = true ->
  forall i e, nth_error rest i = Some e -> entry e (padd (zmul (Z.of_nat (S i)) P) Q).
Proof.
  intros H1. revert prev Q. induction rest as [| e rest IH]; intros prev Q H2 C i e' E.
  - destruct i; discriminate E.
  - cbn [chain_check] in C. apply andb_true_iff in C as [C C'].
    pose proof (add_check_spec _ _ _ _ _ H1 H2 C) as H3.
    destruct i as [| i]; cbn [nth_error] in E.
    + injection E as <-. exact H3.
    + pose proof (IH _ _ H3 C' _ _ E) as H4.
      rewrite Nat2Z.inj_succ, zmul_succ, (padd_comm P), padd_assoc. exact H4.
Qed.

(** Doubling in projective coordinates, modulo [p]. *)
Definition dbl (p : Z * Z * Z) : Z * Z * Z :=
  let '(X, Y, Z) := p in
  let a := red25519 (X * X) in
  let b := red25519 (Y * Y) in
  let z := (b - a)%Z in
  let t := (2 * red25519 (Z * Z) - z)%Z in
  let x := (2 * red25519 (X * Y))%Z in
  let y := (b + a)%Z in
  (red25519 (x * t), red25519 (y * z), red25519 (z * t)).

Definition proj_vals (p : Z * Z * Z) (P : point) : Prop :=
  let '(X, Y, Z) := p in
  exists z, z <> 0 /\ of_Z X = px P * z /\ of_Z Y = py P * z /\ of_Z Z = z.

Lemma of_Z_2 : of_Z 2 = 2.
Proof. apply Zmod.unsigned_inj. vm_compute. reflexivity. Qed.

Lemma dbl_spec p P : proj_vals p P -> proj_vals (dbl p) (padd P P).
Proof.
  destruct p as [[X Y] Z]. intros (z & Hz & EX & EY & EZ).
  destruct (sum_denominators P P (z * z)) as (Np & Nm & Nz & Nt); [auto using F_mul_neq_0 |].
  assert (d * (px P * px P * py P * py P) = py P * py P - px P * px P - 1) as C.
  { rewrite (p_curve P). ring. }
  eexists. split; [exact (F_mul_neq_0 _ _ Nz Nt) |]. autorewrite with of_Z.
  rewrite of_Z_2, EX, EY, EZ. sum_coords. rewrite C in *.
  split; [| split]; field; auto.
Qed.

Lemma dbl_iter_spec n p P :
  proj_vals p P -> proj_vals (Nat.iter n dbl p) (zmul (2 ^ Z.of_nat n) P).
Proof.
  intros H. induction n as [| n IH]; [exact H |].
  rewrite Nat2Z.inj_succ, Z.pow_succ_r, zmul_mul, zmul_2 by lia.
  cbn [Nat.iter nat_rect]. now apply dbl_spec.
Qed.

(** [e'] is [2 ^ n] times [e]. *)
Definition dbl_check (n : nat) (e e' : Z * Z * Z) : bool :=
  let '(u, v, _) := e in
  let '(X, Y, Z) := Nat.iter n dbl (u - v, u + v, 2)%Z in
  let '(u', v', _) := e' in
  eqm ((u' - v') * Z) (2 * X) && eqm ((u' + v') * Z) (2 * Y) && t_check e'.

Lemma dbl_check_spec n e e' P :
  entry e P -> dbl_check n e e' = true -> entry e' (zmul (2 ^ Z.of_nat n) P).
Proof.
  destruct e as [[u v] t], e' as [[u' v'] t']. intros (U & V & _) H. unfold dbl_check in H.
  assert (proj_vals (u - v, u + v, 2)%Z P) as D.
  { exists 2. split; [exact F_two_neq_zero |]. autorewrite with of_Z.
    rewrite U, V, of_Z_2. split; [ring | split; [ring | reflexivity]]. }
  apply (dbl_iter_spec n) in D.
  destruct (Nat.iter n dbl (u - v, u + v, 2)%Z) as [[X Y] Z].
  destruct D as (z & Hz & EX & EY & EZ).
  apply andb_true_iff in H as [H T]. apply andb_true_iff in H as [HX HY].
  apply eqm_spec in HX, HY. autorewrite with of_Z in HX, HY.
  rewrite EX, EZ, of_Z_2 in HX. rewrite EY, EZ, of_Z_2 in HY.
  apply entry_of_coords; [| | exact T]; apply (F_mul_cancel z _ _ Hz).
  - rewrite (Zmod.mul_comm z), HX. ring.
  - rewrite (Zmod.mul_comm z), HY. ring.
Qed.

(** ** Checking the tables *)

Local Open Scope Z_scope.

Definition row_check (row : list (Z * Z * Z)) : bool :=
  match row with
  | [] => false
  | e :: rest => chain_check e e rest
  end.

Lemma row_check_spec row P :
  entry (hd (0, 0, 0) row) P -> row_check row = true ->
  forall j e, nth_error row j = Some e -> entry e (zmul (Z.of_nat (S j)) P).
Proof.
  destruct row as [| e row]; [discriminate |]. cbn [hd row_check]. intros H C [| j] e' E.
  - injection E as <-. exact H.
  - rewrite Nat2Z.inj_succ, zmul_succ, padd_comm.
    exact (chain_check_spec _ _ _ _ _ H H C j e' E).
Qed.

(** The first entry of each row is [2 ^ 5] times the eighth of the row before. *)
Fixpoint rows_check (prev : list (Z * Z * Z)) (rows : list (list (Z * Z * Z))) : bool :=
  row_check prev &&
  match rows with
  | [] => true
  | row :: rows =>
      match nth_error prev 7 with
      | Some e8 => dbl_check 5 e8 (hd (0, 0, 0) row) && rows_check row rows
      | None => false
      end
  end.

Lemma rows_check_spec rows : forall prev P,
  entry (hd (0, 0, 0) prev) P -> rows_check prev rows = true ->
  forall i row, nth_error (prev :: rows) i = Some row ->
  forall j e, nth_error row j = Some e ->
  entry e (zmul (Z.of_nat (S j) * 256 ^ Z.of_nat i) P).
Proof.
  induction rows as [| next rows IH]; intros prev P H C i row Hi j e Hj;
    cbn [rows_check] in C; apply andb_true_iff in C as [C0 C];
    (destruct i as [| i]; cbn [nth_error] in Hi;
     [injection Hi as <-; rewrite Z.mul_1_r; now apply (row_check_spec prev) |]).
  - destruct i; discriminate Hi.
  - destruct (nth_error prev 7) as [e8 |] eqn:E8; [| discriminate C].
    apply andb_true_iff in C as [C1 C2].
    pose proof (row_check_spec _ _ H C0 _ _ E8) as H8.
    pose proof (dbl_check_spec _ _ _ _ H8 C1) as H'. rewrite <- zmul_mul in H'.
    pose proof (IH _ _ H' C2 i row Hi j e Hj) as R. rewrite <- zmul_mul in R.
    rewrite (Nat2Z.inj_succ i), Z.pow_succ_r by lia.
    replace (Z.of_nat (S j) * (256 * 256 ^ Z.of_nat i))
      with (Z.of_nat (S j) * 256 ^ Z.of_nat i * 256) by ring.
    exact R.
Qed.

Definition base_entry (e : Z * Z * Z) : bool :=
  let '(u, v, _) := e in
  eqm u (base_y + base_x) && eqm v (base_y - base_x) && t_check e.

Lemma base_entry_spec e : base_entry e = true -> entry e B.
Proof.
  destruct e as [[u v] t]. unfold base_entry. intros H.
  apply andb_true_iff in H as [H T]. apply andb_true_iff in H as [U V].
  apply eqm_spec in U, V. autorewrite with of_Z in U, V.
  apply entry_of_coords; [| | exact T]; rewrite U, V; cbn [px py B]; ring.
Qed.

Definition entry_boundedb (e : PreComputedGroupElement) : bool :=
  fe_boundedb 1 (yPlusX e) && fe_boundedb 1 (yMinusX e) && fe_boundedb 1 (xy2d e).

Lemma base_first : base_entry (entry_vals (hd PreComputed_Zero base_0)) = true.
Proof. vm_compute. reflexivity. Qed.

Lemma base_checked :
  rows_check (map entry_vals base_0) (map (map entry_vals) (tl base)) = true.
Proof. vm_compute. reflexivity. Qed.

Lemma base_0_checked : row_check (map entry_vals base_0) = true.
Proof. vm_compute. reflexivity. Qed.

Lemma bi_first : hd PreComputed_Zero bi = hd PreComputed_Zero base_0.
Proof. reflexivity. Qed.

Lemma bi_checked :
  chain_check (entry_vals (nth 1 base_0 PreComputed_Zero))
    (entry_vals (hd PreComputed_Zero bi)) (map entry_vals (tl bi)) = true.
Proof. vm_compute. reflexivity. Qed.

Lemma tables_bounded :
  forallb entry_boundedb bi && forallb (forallb entry_boundedb) base &&
  forallb (fun row => Nat.eqb (length row) 8) base = true.
Proof. vm_compute. reflexivity. Qed.

Lemma nth_error_nth_lt {A} (l : list A) i dflt :
  (i < length l)%nat -> nth_error l i = Some (nth i l dflt).
Proof. intros H. now apply nth_error_nth'. Qed.

Lemma forallb_nth {A} (f : A -> bool) l i dflt :
  forallb f l = true -> (i < length l)%nat -> f (nth i l dflt) = true.
Proof. intros H L. rewrite forallb_forall in H. now apply H, nth_In. Qed.

Lemma base_row_length i : (i < 32)%nat -> length (nth i base []) = 8%nat.
Proof.
  intros Hi. apply Nat.eqb_eq. pose proof tables_bounded as T.
  apply andb_true_iff in T as [_ T]. exact (forallb_nth _ base i [] T Hi).
Qed.

(** [base[i][j]] is [(j + 1) 256^i B]. *)
Lemma base_spec i j :
  (i < 32)%nat -> (j < 8)%nat ->
  pre_repr (nth j (nth i base []) PreComputed_Zero)
           (zmul (Z.of_nat (S j) * 256 ^ Z.of_nat i) B).
Proof.
  intros Hi Hj. pose proof (base_row_length i Hi) as L. apply entry_pre_repr.
  - pose proof tables_bounded as T. apply andb_true_iff in T as [T _].
    apply andb_true_iff in T as [_ T].
    refine (forallb_nth entry_boundedb _ j _ _ _); [| lia].
    exact (forallb_nth (forallb entry_boundedb) base i [] T Hi).
  - apply (rows_check_spec (map (map entry_vals) (tl base)) (map entry_vals base_0) B
             (base_entry_spec _ base_first) base_checked i (map entry_vals (nth i base []))).
    + change (nth_error (map (map entry_vals) base) i = Some (map entry_vals (nth i base []))).
      now apply map_nth_error, nth_error_nth_lt.
    + apply map_nth_error, nth_error_nth_lt. lia.
Qed.

(** [bi[i]] is [(2 i + 1) B]. *)
Lemma bi_spec i :
  (i < 8)%nat -> pre_repr (nth i bi PreComputed_Zero) (zmul (2 * Z.of_nat i + 1) B).
Proof.
  intros Hi. apply entry_pre_repr.
  - pose proof tables_bounded as T. apply andb_true_iff in T as [T _].
    apply andb_true_iff in T as [T _]. exact (forallb_nth entry_boundedb bi i _ T Hi).
  - assert (entry (entry_vals (hd PreComputed_Zero bi)) B) as H0
      by (rewrite bi_first; exact (base_entry_spec _ base_first)).
    destruct i as [| i]; [exact H0 |].
    assert (entry (entry_vals (nth 1 base_0 PreComputed_Zero)) (zmul 2 B)) as H2.
    { apply (row_check_spec (map entry_vals base_0) B (base_entry_spec _ base_first)
               base_0_checked 1). now apply map_nth_error. }
    replace (2 * Z.of_nat (S i) + 1) with (Z.of_nat (S i) * 2 + 1) by lia.
    rewrite zmul_add, zmul_mul, zmul_1.
    apply (chain_check_spec _ _ _ _ _ H2 H0 bi_checked i).
    change (nth_error (map entry_vals (tl bi)) i =
            Some (entry_vals (nth i (tl bi) PreComputed_Zero))).
    apply map_nth_error, nth_error_nth_lt. cbn [bi tl length]. lia.
Qed.
