(* ===== verification/ScalarMult.v ===== *)
(** * Scalar multiplication

    Model of [slide], [GeDoubleScalarMultVartime], [equal], [negative],
    [PreComputedGroupElementCMove], [selectPoint] and [GeScalarMultBase] of
    [src/golang-x-crypto/ed25519/internal/edwards25519/edwards25519.go].
    Arrays are lists of the array's length; a scalar is 32 little-endian bytes.
    [GeScalarMultBase] computes [a B] and [GeDoubleScalarMultVartime]
    [a A + b B], for scalars below 2^255. *)

From S2P Require Import Prelude Primality Field25519 Edwards FieldElement FieldCodec GroupElement BaseTable BasePoint.

(** ** The code *)

(** *** Fixed base *)

Definition equal (b c : Z) : Z :=
  let x := uint32 (Z.lxor b c) in
  let x := uint32 (x - 1) in
  int32 (Z.shiftr x 31).

Definition negative (b : Z) : Z := Z.land (Z.shiftr b 31) 1.

Definition PreComputedGroupElementCMove (t u : PreComputedGroupElement) (b : Z) :
    PreComputedGroupElement :=
  Pre (FeCMove (yPlusX t) (yPlusX u) b) (FeCMove (yMinusX t) (yMinusX u) b)
      (FeCMove (xy2d t) (xy2d u) b).

Definition selectPoint (pos : nat) (b : Z) : PreComputedGroupElement :=
  let bNegative := negative b in
  let bAbs := (b - (((- bNegative) .& b) << 1))%i32 in
  let t := PreComputed_Zero in
  let t := fold_left (fun t i =>
      PreComputedGroupElementCMove t (nth i (nth pos base []) PreComputed_Zero)
        (equal bAbs (Z.of_nat i + 1)))
    (seq 0 8) t in
  let minusT := Pre (FeCopy (yMinusX t)) (FeCopy (yPlusX t)) (FeNeg (xy2d t)) in
  PreComputedGroupElementCMove t minusT bNegative.

(** [e[2*i] = int8(v & 15)], [e[2*i+1] = int8((v >> 4) & 15)]. *)
Definition nibbles (a : list Z) : list Z :=
  flat_map (fun v => [int8 (Z.land v 15); int8 (Z.land (Z.shiftr v 4) 15)]) a.

(** The carry loop: the last digit only receives the carry. *)
Fixpoint recode (carry : Z) (e : list Z) : list Z :=
  match e with
  | [] => []
  | [x] => [(x + carry)%i8]
  | x :: e =>
      let x := (x + carry)%i8 in
      let carry := ((x + 8) >> 4)%i8 in
      (x - carry << 4)%i8 :: recode carry e
  end.

(** One addition loop, over the indices [off], [off + 2], ... *)
Definition addDigits (e : list Z) (off : nat) (h : ExtendedGroupElement) : ExtendedGroupElement :=
  fold_left (fun h i =>
      let t := selectPoint (i / 2) (nth i e 0) in
      let r := geMixedAdd h t in
      Completed_ToExtended r)
    (map (fun k => 2 * k + off)%nat (seq 0 32)) h.

Definition GeScalarMultBase (a : list Z) : ExtendedGroupElement :=
  let e := recode 0 (nibbles a) in
  let h := addDigits e 1 Extended_Zero in
  let r := Extended_Double h in
  let s := Completed_ToProjective r in
  let r := Projective_Double s in
  let s := Completed_ToProjective r in
  let r := Projective_Double s in
  let s := Completed_ToProjective r in
  let r := Projective_Double s in
  let h := Completed_ToExtended r in
  addDigits e 0 h.

(** *** Sliding windows *)

(** [for k := k; k < 256; k++ { if r[k] == 0 { r[k] = 1; break }; r[k] = 0 }];
    [n] is the number of iterations left, [256 - k] at the start. *)
Fixpoint slideCarry (n k : nat) (r : list Z) : list Z :=
  match n with
  | O => r
  | S n =>
      if nth k r 0 =? 0 then set_nth k 1 r
      else slideCarry n (S k) (set_nth k 0 r)
  end.

(** [for b := b; b <= 6 && i+b < 256; b++]; [n] is the number of values of [b]
    left, six at the start. *)
Fixpoint slideWindow (n b i : nat) (r : list Z) : list Z :=
  match n with
  | O => r
  | S n =>
      if (i + b <? 256)%nat then
        if nth (i + b) r 0 =? 0 then slideWindow n (S b) i r
        else
          let sh := (nth (i + b) r 0 << Z.of_nat b)%i8 in
          if (nth i r 0 + sh)%i8 <=? 15 then
            slideWindow n (S b) i (set_nth (i + b) 0 (set_nth i (nth i r 0 + sh)%i8 r))
          else if -15 <=? (nth i r 0 - sh)%i8 then
            slideWindow n (S b) i
              (slideCarry (256 - (i + b)) (i + b) (set_nth i (nth i r 0 - sh)%i8 r))
          else r
      else r
  end.

Definition slide (a : list Z) : list Z :=
  let r := map (fun i => int8 (Z.land 1 (Z.shiftr (nth (i / 8) a 0) (Z.of_nat (i mod 8)))))
             (seq 0 256) in
  fold_left (fun r i => if nth i r 0 =? 0 then r else slideWindow 6 1 i r) (seq 0 256) r.

(** [Ai]: A, 3A, 5A, ..., 15A. *)
Definition oddMultiples (A : ExtendedGroupElement) : list CachedGroupElement :=
  let A0 := Extended_ToCached A in
  let t := Extended_Double A in
  let A2 := Completed_ToExtended t in
  let step Ai :=
    let t := geAdd A2 (last Ai A0) in
    let u := Completed_ToExtended t in
    Ai ++ [Extended_ToCached u] in
  Nat.iter 7 step [A0].

(** The highest index with a digit, plus one; zero when all digits are zero. *)
Fixpoint topDigit (n : nat) (aSlide bSlide : list Z) : nat :=
  match n with
  | O => O
  | S i => if negb (nth i aSlide 0 =? 0) || negb (nth i bSlide 0 =? 0) then n
           else topDigit i aSlide bSlide
  end.

Definition addA (Ai : list CachedGroupElement) (x : Z) (t : CompletedGroupElement) :
    CompletedGroupElement :=
  let A0 := nth 0 Ai (Extended_ToCached Extended_Zero) in
  if 0 <? x then geAdd (Completed_ToExtended t) (nth (Z.to_nat (Z.quot x 2)) Ai A0)
  else if x <? 0 then
    geSub (Completed_ToExtended t) (nth (Z.to_nat (Z.quot (- x)%i8 2)) Ai A0)
  else t.

Definition addB (x : Z) (t : CompletedGroupElement) : CompletedGroupElement :=
  if 0 <? x then
    geMixedAdd (Completed_ToExtended t) (nth (Z.to_nat (Z.quot x 2)) bi PreComputed_Zero)
  else if x <? 0 then
    geMixedSub (Completed_ToExtended t) (nth (Z.to_nat (Z.quot (- x)%i8 2)) bi PreComputed_Zero)
  else t.

(** [for ; i >= 0; i--], from [n = i + 1]. *)
Fixpoint doubleScalarLoop (Ai : list CachedGroupElement) (aSlide bSlide : list Z)
    (n : nat) (r : ProjectiveGroupElement) : ProjectiveGroupElement :=
  match n with
  | O => r
  | S i =>
      let t := Projective_Double r in
      let t := addA Ai (nth i aSlide 0) t in
      let t := addB (nth i bSlide 0) t in
      doubleScalarLoop Ai aSlide bSlide i (Completed_ToProjective t)
  end.

Definition GeDoubleScalarMultVartime (a : list Z) (A : ExtendedGroupElement) (b : list Z) :
    ProjectiveGroupElement :=
  let aSlide := slide a in
  let bSlide := slide b in
  let Ai := oddMultiples A in
  doubleScalarLoop Ai aSlide bSlide (topDigit 256 aSlide bSlide) Projective_Zero.

(** ** Selecting from the table *)

(** A property of the integers in [lo, lo + n) that is checked by computation. *)
Lemma Z_range_check (f : Z -> bool) lo n x :
  forallb (fun i => f (lo + Z.of_nat i)) (seq 0 n) = true ->
  lo <= x < lo + Z.of_nat n -> f x = true.
Proof.
  intros H Hx. rewrite forallb_forall in H.
  specialize (H (Z.to_nat (x - lo))). cbv beta in H.
  replace (lo + Z.of_nat (Z.to_nat (x - lo))) with x in H by lia.
  apply H, in_seq. lia.
Qed.

Lemma PreCMove_spec t u b :
  b = 0 \/ b = 1 -> PreComputedGroupElementCMove t u b = if b =? 0 then t else u.
Proof.
  intros H. unfold PreComputedGroupElementCMove. rewrite !FeCMove_spec by exact H.
  destruct t, u, H as [-> | ->]; reflexivity.
Qed.

Lemma select_loop row t k :
  0 <= k <= 8 ->
  fold_left (fun t i => PreComputedGroupElementCMove t (nth i row PreComputed_Zero)
                          (equal k (Z.of_nat i + 1))) (seq 0 8) t =
  if k =? 0 then t else nth (Z.to_nat (k - 1)) row PreComputed_Zero.
Proof.
  intros Hk.
  assert (k = 0 \/ k = 1 \/ k = 2 \/ k = 3 \/ k = 4 \/ k = 5 \/ k = 6 \/ k = 7 \/ k = 8) as H by lia.
  repeat destruct H as [-> | H]; try subst k; cbn [seq fold_left];
    rewrite !PreCMove_spec by (vm_compute; auto); reflexivity.
Qed.

Lemma abs_digit b :
  -8 <= b <= 8 ->
  (b - (((- negative b) .& b) << 1))%i32 = Z.abs b /\ negative b = if b <? 0 then 1 else 0.
Proof.
  intros Hb.
  assert (((b - (((- negative b) .& b) << 1))%i32 =? Z.abs b) &&
          (negative b =? if b <? 0 then 1 else 0) = true) as H.
  { apply (Z_range_check (fun b => ((b - (((- negative b) .& b) << 1))%i32 =? Z.abs b) &&
      (negative b =? if b <? 0 then 1 else 0)) (-8) 17); [vm_compute; reflexivity | lia]. }
  apply andb_true_iff in H. now rewrite !Z.eqb_eq in H.
Qed.

Lemma pre_repr_neg t P :
  pre_repr t P -> pre_repr (Pre (FeCopy (yMinusX t)) (FeCopy (yPlusX t)) (FeNeg (xy2d t))) (popp P).
Proof.
  intros (R1 & R2 & R3). split; [| split]; repr_by ltac:(ring).
Qed.

Lemma selectPoint_spec pos b :
  (pos < 32)%nat -> -8 <= b <= 8 ->
  pre_repr (selectPoint pos b) (zmul (b * 256 ^ Z.of_nat pos) B).
Proof.
  intros Hp Hb. destruct (abs_digit b Hb) as [Ea En].
  unfold selectPoint. rewrite Ea, En, select_loop by lia. cbv zeta.
  set (t := if Z.abs b =? 0 then _ else _).
  assert (pre_repr t (zmul (Z.abs b * 256 ^ Z.of_nat pos) B)) as R.
  { unfold t. destruct (Z.eqb_spec (Z.abs b) 0) as [E | E].
    - rewrite E. apply PreComputed_Zero_spec.
    - pose proof (base_spec pos (Z.to_nat (Z.abs b - 1)) Hp ltac:(lia)) as R.
      now replace (Z.of_nat (S (Z.to_nat (Z.abs b - 1)))) with (Z.abs b) in R by lia. }
  rewrite PreCMove_spec by (destruct (b <? 0); auto).
  destruct (Z.ltb_spec b 0); cbn [Z.eqb].
  - apply pre_repr_neg in R. rewrite <- zmul_opp in R.
    now replace (- (Z.abs b * 256 ^ Z.of_nat pos)) with (b * 256 ^ Z.of_nat pos) in R by lia.
  - now rewrite Z.abs_eq in R by lia.
Qed.

(** ** Signed radix-16 digits *)

Lemma land_15 x : Z.land x 15 = x mod 2 ^ 4.
Proof. apply (Z.land_ones x 4). lia. Qed.

Lemma nibbles_spec a :
  bytes_ok a ->
  Forall (fun x => 0 <= x <= 15) (nibbles a) /\ radix 16 (nibbles a) = le_val a /\
  length (nibbles a) = (2 * length a)%nat.
Proof.
  induction 1 as [| v a Hv _ (IH1 & IH2 & IH3)]; [repeat split; auto |].
  unfold byte_ok in Hv. cbn [nibbles flat_map app]. fold (nibbles a).
  rewrite !land_15, Z.shiftr_div_pow2 by lia.
  assert (0 <= v mod 2 ^ 4 < 16) by (apply Z.mod_pos_bound; lia).
  assert (v / 2 ^ 4 mod 2 ^ 4 = v / 2 ^ 4) as -> by (apply Z.mod_small; Z.div_mod_to_equations; lia).
  assert (0 <= v / 2 ^ 4 < 16) by (Z.div_mod_to_equations; lia).
  rewrite !int8_id by lia. split; [| split].
  - repeat constructor; try lia. exact IH1.
  - cbn [radix le_val]. rewrite IH2. Z.div_mod_to_equations. lia.
  - cbn [length]. lia.
Qed.

Definition digit_ok (x : Z) : Prop := -8 <= x <= 8.

Lemma recode_cons carry x e :
  e <> [] ->
  recode carry (x :: e) =
    (let x := (x + carry)%i8 in
     let carry := ((x + 8) >> 4)%i8 in
     (x - carry << 4)%i8 :: recode carry e).
Proof. destruct e; [contradiction | reflexivity]. Qed.

Lemma recode_spec e : forall carry,
  0 <= carry <= 1 -> e <> [] -> Forall (fun x => 0 <= x <= 15) e -> last e 0 <= 7 ->
  radix 16 (recode carry e) = radix 16 e + carry /\ Forall digit_ok (recode carry e) /\
  length (recode carry e) = length e.
Proof.
  unfold digit_ok. induction e as [| x e IH]; intros carry Hc N H L; [contradiction |].
  apply Forall_cons_iff in H as [Hx H]. destruct e as [| y e].
  - cbn [recode last] in *. rewrite int8_id by lia. repeat split; cbn [radix]; auto; try lia.
    constructor; [lia | constructor].
  - rewrite recode_cons by discriminate. set (e' := y :: e) in *. cbv zeta.
    rewrite (int8_id (x + carry)), (int8_id (x + carry + 8)) by lia.
    rewrite Z.shiftr_div_pow2 by lia. set (c := (x + carry + 8) / 2 ^ 4).
    assert (0 <= c <= 1 /\ -8 <= x + carry - 16 * c <= 8) as [C1 C2]
      by (unfold c; Z.div_mod_to_equations; lia).
    clearbody c. rewrite Z.shiftl_mul_pow2 by lia. change (2 ^ 4) with 16.
    rewrite (int8_id (c * 16)) by lia. rewrite int8_id by lia.
    destruct (IH c C1 ltac:(discriminate) H L) as (I1 & I2 & I3).
    clearbody e'. cbn [radix length]. rewrite I1, I3.
    split; [ring | split; [constructor; [lia | exact I2] | reflexivity]].
Qed.

(** ** [GeScalarMultBase] *)

Definition digit_sum (f : nat -> Z) (l : list nat) : Z :=
  fold_right (fun i s => f i * 256 ^ Z.of_nat i + s) 0 l.

Lemma addDigits_loop e off l : forall h P,
  off = 0%nat \/ off = 1%nat ->
  Forall digit_ok e -> Forall (fun i => i < 32)%nat l -> ext_repr h P ->
  ext_repr
    (fold_left (fun h i => Completed_ToExtended (geMixedAdd h (selectPoint (i / 2) (nth i e 0))))
       (map (fun k => 2 * k + off)%nat l) h)
    (padd P (zmul (digit_sum (fun k => nth (2 * k + off) e 0) l) B)).
Proof.
  intros h P Hoff He Hl. revert h P. induction Hl as [| i l Hi Hl IH]; intros h P HP.
  - cbn. now rewrite padd_zero_r.
  - cbn [map fold_left digit_sum fold_right]. rewrite zmul_add, <- padd_assoc. apply IH.
    apply Completed_ToExtended_spec, geMixedAdd_spec; [exact HP |].
    replace ((2 * i + off) / 2)%nat with i
      by (destruct Hoff as [-> | ->]; [rewrite Nat.add_0_r, Nat.mul_comm, Nat.div_mul by lia; reflexivity
          | rewrite Nat.mul_comm, Nat.div_add_l by lia; cbn; lia]).
    apply selectPoint_spec; [exact Hi |].
    destruct (Nat.lt_ge_cases (2 * i + off) (length e)) as [L | L].
    + now apply Forall_nth.
    + rewrite nth_overflow by lia. lia.
Qed.

Lemma addDigits_spec e off h P :
  off = 0%nat \/ off = 1%nat -> Forall digit_ok e -> ext_repr h P ->
  ext_repr (addDigits e off h)
    (padd P (zmul (digit_sum (fun k => nth (2 * k + off) e 0) (seq 0 32)) B)).
Proof.
  intros Hoff He HP. apply addDigits_loop; auto.
  apply Forall_forall. intros i Hi%in_seq. lia.
Qed.

Lemma digit_sum_succ f n :
  digit_sum f (seq 0 (S n)) = f O + 256 * digit_sum (fun k => f (S k)) (seq 0 n).
Proof.
  cbn [seq digit_sum fold_right]. rewrite <- seq_shift. change (256 ^ Z.of_nat 0) with 1.
  rewrite Z.mul_1_r. f_equal. induction (seq 0 n) as [| i l IH]; [reflexivity |].
  cbn [map fold_right digit_sum]. rewrite IH, Nat2Z.inj_succ, Z.pow_succ_r by lia.
  unfold digit_sum. ring.
Qed.

Lemma digit_sum_ext f g l : (forall k, f k = g k) -> digit_sum f l = digit_sum g l.
Proof. intros H. unfold digit_sum. induction l as [| i l IH]; cbn [fold_right]; [| rewrite H, IH]; reflexivity. Qed.

Lemma digit_sum_radix n : forall e,
  length e = (2 * n)%nat ->
  16 * digit_sum (fun k => nth (2 * k + 1) e 0) (seq 0 n) +
  digit_sum (fun k => nth (2 * k + 0) e 0) (seq 0 n) = radix 16 e.
Proof.
  induction n as [| n IH]; intros e L.
  - destruct e; [reflexivity | discriminate L].
  - destruct e as [| x [| y e]]; [discriminate L | cbn in L; lia |].
    rewrite !digit_sum_succ.
    assert (forall o, digit_sum (fun k => nth (2 * S k + o) (x :: y :: e) 0) (seq 0 n) =
                      digit_sum (fun k => nth (2 * k + o) e 0) (seq 0 n)) as E.
    { intros o. apply digit_sum_ext. intros k.
      now replace (2 * S k + o)%nat with (S (S (2 * k + o))) by lia. }
    rewrite !E. change (radix 16 (x :: y :: e)) with (x + 16 * (y + 16 * radix 16 e)).
    rewrite <- (IH e) by (cbn [length] in L; lia).
    change (nth (2 * 0 + 1) (x :: y :: e) 0) with y.
    change (nth (2 * 0 + 0) (x :: y :: e) 0) with x.
    ring.
Qed.

Lemma last_nibbles a v : last (nibbles (a ++ [v])) 0 = int8 (Z.land (Z.shiftr v 4) 15).
Proof. unfold nibbles. rewrite flat_map_app. cbn [flat_map app]. 
  induction (flat_map _ a) as [| x l IH]; [reflexivity |].
  cbn [app last]. destruct (l ++ _) eqn:E; [destruct l; discriminate E | exact IH].
Qed.

Lemma four_doublings h P :
  ext_repr h P ->
  ext_repr (Completed_ToExtended (Projective_Double (Completed_ToProjective (Projective_Double
    (Completed_ToProjective (Projective_Double (Completed_ToProjective (Extended_Double h))))))))
    (zmul 16 P).
Proof.
  intros H. change 16 with (2 * (2 * (2 * 2))). rewrite !zmul_mul, !zmul_2.
  apply Completed_ToExtended_spec.
  do 3 apply Projective_Double_spec, Completed_ToProjective_spec.
  now apply Extended_Double_spec.
Qed.

(** A scalar below 2^255: the precondition [a[31] <= 127]. *)
Definition scalar_ok (a : list Z) : Prop :=
  length a = 32%nat /\ bytes_ok a /\ nth 31 a 0 <= 127.

Theorem GeScalarMultBase_spec a :
  scalar_ok a -> ext_repr (GeScalarMultBase a) (zmul (le_val a) B).
Proof.
  intros (L & Ok & Top). destruct (nibbles_spec a Ok) as (N1 & N2 & N3).
  assert (exists l v, a = l ++ [v] /\ v <= 127) as (l & v & Ea & Hv).
  { destruct (exists_last (l := a)) as (l & v & ->); [intros ->; discriminate L |].
    exists l, v. split; [reflexivity |]. rewrite length_app in L. cbn [length] in L.
    rewrite app_nth2 in Top by lia. replace (31 - length l)%nat with O in Top by lia. exact Top. }
  destruct (recode_spec (nibbles a) 0) as (R1 & R2 & R3); try lia; auto.
  - intros E. rewrite E in N3. cbn in N3. lia.
  - rewrite Ea, last_nibbles. subst a. apply Forall_app in Ok as [_ Ok].
    apply Forall_inv in Ok. unfold byte_ok in Ok.
    rewrite land_15, Z.shiftr_div_pow2 by lia.
    assert (0 <= v / 2 ^ 4 mod 2 ^ 4 <= 7) by (Z.div_mod_to_equations; lia).
    rewrite int8_id; lia.
  - unfold GeScalarMultBase. cbv zeta. set (e := recode 0 (nibbles a)) in *.
    rewrite <- N2, <- (Z.add_0_r (radix 16 (nibbles a))), <- R1.
    rewrite <- (digit_sum_radix 32) by (rewrite R3, N3, L; reflexivity).
    rewrite zmul_add, zmul_mul. apply addDigits_spec; auto. apply four_doublings.
    rewrite <- (padd_zero_l (zmul _ B)). apply addDigits_spec; auto. apply Extended_Zero_spec.
Qed.

(** ** Sliding windows *)

(** *** Digit arrays *)

Lemma firstn_ext_nth (r r' : list Z) i :
  length r = length r' -> (forall j, (j < i)%nat -> nth j r' 0 = nth j r 0) ->
  firstn i r' = firstn i r.
Proof.
  revert r r'; induction i as [| i IH]; intros r r' L H; [reflexivity |].
  destruct r as [| x r], r' as [| x' r']; try discriminate L; [reflexivity |].
  cbn [firstn]. pose proof (H O ltac:(lia)) as E. cbn [nth] in E. rewrite E. f_equal. apply IH; [cbn in L; lia |].
  intros j Hj. apply (H (S j)). lia.
Qed.

Definition bits (r : list Z) (k : nat) : Prop :=
  forall j, (k <= j)%nat -> nth j r 0 = 0 \/ nth j r 0 = 1.

Lemma bits_nonneg r k : bits r k -> 0 <= radix 2 (skipn k r).
Proof.
  intros H. remember (length r - k)%nat as n eqn:E. revert k H E.
  induction n as [| n IH]; intros k H E.
  - rewrite skipn_all2 by lia. cbn. lia.
  - rewrite radix_skipn. pose proof (H k ltac:(lia)).
    assert (bits r (S k)) as H' by (intros j Hj; apply H; lia).
    pose proof (IH (S k) H' ltac:(lia)). lia.
Qed.

(** Dropping more digits drops a non-negative part. *)
Lemma bits_skipn_le r k m :
  bits r k -> 2 ^ Z.of_nat m * radix 2 (skipn (k + m) r) <= radix 2 (skipn k r).
Proof.
  revert k; induction m as [| m IH]; intros k H.
  - rewrite Nat.add_0_r. change (2 ^ Z.of_nat 0) with 1. lia.
  - rewrite (radix_skipn 2 k). pose proof (H k ltac:(lia)).
    assert (bits r (S k)) as H' by (intros j Hj; apply H; lia).
    pose proof (IH (S k) H'). replace (k + S m)%nat with (S k + m)%nat by lia.
    rewrite Nat2Z.inj_succ, Z.pow_succ_r by lia. lia.
Qed.

(** *** The carry *)

Lemma slideCarry_spec n : forall k r,
  (k + n = 256)%nat -> length r = 256%nat -> bits r k ->
  let r' := slideCarry n k r in
  length r' = 256%nat /\ (forall j, (j < k)%nat -> nth j r' 0 = nth j r 0) /\ bits r' k /\
  (nth k r 0 <> 0 -> nth k r' 0 = 0) /\
  (radix 2 r' = radix 2 r + 2 ^ Z.of_nat k \/ radix 2 (skipn k r) = 2 ^ Z.of_nat n - 1).
Proof.
  induction n as [| n IH]; intros k r Hk L Hb r'.
  - subst r'. cbn [slideCarry]. rewrite nth_overflow by lia. repeat split; auto; try lia.
    right. rewrite skipn_all2 by lia. reflexivity.
  - subst r'. cbn [slideCarry]. pose proof (Hb k ltac:(lia)) as Hbk.
    destruct (Z.eqb_spec (nth k r 0) 0) as [E | E].
    + assert (forall j, nth j (set_nth k 1 r) 0 = if Nat.eqb j k then 1 else nth j r 0) as N
        by (intros j; apply nth_set_nth; lia).
      repeat split.
      * now rewrite length_set_nth.
      * intros j Hj. rewrite N. destruct (Nat.eqb_spec j k); [lia | reflexivity].
      * intros j Hj. rewrite N. destruct (Nat.eqb_spec j k); [auto | apply Hb; lia].
      * contradiction.
      * left. rewrite radix_set_nth, E by lia. ring.
    + assert (forall j, nth j (set_nth k 0 r) 0 = if Nat.eqb j k then 0 else nth j r 0) as N
        by (intros j; apply nth_set_nth; lia).
      destruct (IH (S k) (set_nth k 0 r)) as (I1 & I2 & I3 & _ & I5); try lia.
      { now rewrite length_set_nth. }
      { intros j Hj. rewrite N. destruct (Nat.eqb_spec j k); [auto | apply Hb; lia]. }
      assert (nth k (slideCarry n (S k) (set_nth k 0 r)) 0 = 0) as Ek.
      { rewrite I2, N, Nat.eqb_refl by lia. reflexivity. }
      repeat split; auto.
      * intros j Hj. rewrite I2, N by lia. destruct (Nat.eqb_spec j k); [lia | reflexivity].
      * intros j Hj. destruct (Nat.eq_dec j k) as [-> | ?]; [auto | apply I3; lia].
      * rewrite radix_set_nth in I5 by lia. rewrite !Nat2Z.inj_succ, !Z.pow_succ_r in * by lia.
        destruct Hbk as [Hbk | Hbk]; [contradiction |]. rewrite Hbk in I5.
        destruct I5 as [I5 | I5]; [left; lia | right].
        rewrite radix_skipn, Hbk. rewrite skipn_set_nth in I5 by lia. lia.
Qed.

(** *** One window *)

(** The digits the recoding produces. *)
Definition slide_digit (x : Z) : Prop := -15 <= x <= 15 /\ (x = 0 \/ Z.odd x = true).

Section window.
Context (V : Z) (HV : V < 2 ^ 255) (i : nat) (Hi : (i < 256)%nat).
Context (low : list Z) (Hlow : - 2 ^ Z.of_nat i < radix 2 low < 2 ^ Z.of_nat i).

(** The state inside the inner loop: the digits below [i] are done, digit [i] is
    odd, those above are bits, and the ones already absorbed are zero. *)
Record window (b : nat) (r : list Z) : Prop := {
  w_len : length r = 256%nat;
  w_low : firstn i r = low;
  w_dig : -15 <= nth i r 0 <= 15 /\ Z.odd (nth i r 0) = true;
  w_bits : bits r (S i);
  w_val : radix 2 r = V;
  w_zero : forall j, (i < j < i + b)%nat -> (j <= i + 3)%nat -> nth j r 0 = 0 }.

Lemma nth_firstn_low (r r' : list Z) :
  length r = length r' -> firstn i r = low ->
  (forall j, (j < i)%nat -> nth j r' 0 = nth j r 0) -> firstn i r' = low.
Proof. intros L <- H. now apply firstn_ext_nth. Qed.

(** A carry out of the array would make the value too large. *)
Lemma window_no_overflow b r :
  window b r -> (0 < b)%nat -> (i + b < 256)%nat -> 1 <= nth i r 0 ->
  radix 2 (skipn (i + b) r) <> 2 ^ Z.of_nat (256 - (i + b)) - 1.
Proof.
  intros W Hb Hib Hx E. pose proof (w_val b r W) as HVr.
  rewrite (radix_split 2 r i), (w_low b r W), radix_skipn in HVr.
  pose proof (bits_skipn_le r (S i) (b - 1) (w_bits b r W)) as Le.
  replace (S i + (b - 1))%nat with (i + b)%nat in Le by lia. rewrite E in Le.
  assert (2 ^ Z.of_nat (i + b) = 2 ^ Z.of_nat i * (2 * 2 ^ Z.of_nat (b - 1))) as E1
    by (rewrite <- Z.pow_succ_r, <- Z.pow_add_r by lia; f_equal; lia).
  assert (2 ^ Z.of_nat (i + b) * 2 ^ Z.of_nat (256 - (i + b)) = 2 ^ 256) as E2
    by (rewrite <- Z.pow_add_r by lia; f_equal; lia).
  assert (2 ^ Z.of_nat (i + b) <= 2 ^ 255) as E3 by (apply Z.pow_le_mono_r; lia).
  assert (0 < 2 ^ Z.of_nat i) by (apply Z.pow_pos_nonneg; lia).
  generalize dependent (2 ^ Z.of_nat (i + b)). generalize dependent (2 ^ Z.of_nat (256 - (i + b))).
  generalize dependent (2 ^ Z.of_nat (b - 1)). intros. nia.
Qed.

(** Digit and bit of one step of the inner loop. *)
Lemma window_shift b r :
  window b r -> (1 <= b <= 6)%nat -> nth (i + b) r 0 <> 0 ->
  nth (i + b) r 0 = 1 /\ int8 (Z.shiftl (nth (i + b) r 0) (Z.of_nat b)) = 2 ^ Z.of_nat b /\
  2 <= 2 ^ Z.of_nat b <= 64 /\ Z.odd (2 ^ Z.of_nat b) = false.
Proof.
  intros W Hb N. destruct (w_bits b r W (i + b)%nat ltac:(lia)) as [E | E]; [contradiction |].
  rewrite E, Z.shiftl_1_l. split; [reflexivity |].
  assert (b = 1 \/ b = 2 \/ b = 3 \/ b = 4 \/ b = 5 \/ b = 6)%nat as H by lia.
  repeat destruct H as [-> | H]; try subst b; vm_compute; intuition discriminate.
Qed.

Lemma window_next b r : window b r -> nth (i + b) r 0 = 0 -> window (S b) r.
Proof.
  intros [] E. constructor; auto. intros j Hj Hj3.
  destruct (Nat.eq_dec j (i + b)) as [-> | ?]; [exact E | apply w_zero0; lia].
Qed.

(** [r[i] += r[i+b] << b; r[i+b] = 0]. *)
Lemma window_add b r x :
  window b r -> (1 <= b <= 6)%nat -> (i + b < 256)%nat -> nth (i + b) r 0 = 1 ->
  x = nth i r 0 + 2 ^ Z.of_nat b -> -15 <= x <= 15 -> Z.odd x = true ->
  window (S b) (set_nth (i + b) 0 (set_nth i x r)).
Proof.
  intros W Hb Hib E Ex Hx Ho. destruct W as [L Lo D Bi Va Ze].
  assert (forall j, nth j (set_nth (i + b) 0 (set_nth i x r)) 0 =
    if Nat.eqb j (i + b) then 0 else if Nat.eqb j i then x else nth j r 0) as N.
  { intros j. rewrite nth_set_nth by (rewrite length_set_nth; lia).
    now rewrite nth_set_nth by lia. }
  assert (nth i (set_nth (i + b) 0 (set_nth i x r)) 0 = x) as Ni.
  { rewrite N, Nat.eqb_refl. destruct (Nat.eqb_spec i (i + b)); [lia | reflexivity]. }
  constructor.
  - now rewrite !length_set_nth.
  - apply (nth_firstn_low r); [now rewrite !length_set_nth | exact Lo |]. intros j Hj. rewrite N.
    destruct (Nat.eqb_spec j (i + b)), (Nat.eqb_spec j i); lia.
  - now rewrite Ni.
  - intros j Hj. rewrite N. destruct (Nat.eqb_spec j (i + b)); [auto |].
    destruct (Nat.eqb_spec j i); [lia | now apply Bi].
  - rewrite radix_set_nth by (rewrite length_set_nth; lia). rewrite radix_set_nth by lia.
    rewrite nth_set_nth by lia. destruct (Nat.eqb_spec (i + b) i); [lia |].
    rewrite E, Va, Ex, Nat2Z.inj_add, Z.pow_add_r by lia. ring.
  - intros j Hj Hj3. rewrite N. destruct (Nat.eqb_spec j (i + b)); [reflexivity |].
    destruct (Nat.eqb_spec j i); [lia | apply Ze; lia].
Qed.

(** [r[i] -= r[i+b] << b] with the carry. *)
Lemma window_sub b r x :
  window b r -> (1 <= b <= 6)%nat -> (i + b < 256)%nat -> nth (i + b) r 0 = 1 ->
  1 <= nth i r 0 -> x = nth i r 0 - 2 ^ Z.of_nat b -> -15 <= x <= 15 -> Z.odd x = true ->
  window (S b) (slideCarry (256 - (i + b)) (i + b) (set_nth i x r)).
Proof.
  intros W Hb Hib E H1 Ex Hx Ho.
  pose proof (window_no_overflow b r W ltac:(lia) Hib H1) as NO.
  destruct W as [L Lo D Bi Va Ze].
  assert (forall j, nth j (set_nth i x r) 0 = if Nat.eqb j i then x else nth j r 0) as N
    by (intros j; apply nth_set_nth; lia).
  assert (skipn (i + b) (set_nth i x r) = skipn (i + b) r) as Sk
    by (apply skipn_set_nth; lia).
  destruct (slideCarry_spec (256 - (i + b)) (i + b) (set_nth i x r)) as (I1 & I2 & I3 & I4 & I5).
  { lia. } { now rewrite length_set_nth. }
  { intros j Hj. rewrite N. destruct (Nat.eqb_spec j i); [lia | apply Bi; lia]. }
  set (r' := slideCarry _ _ _) in *.
  assert (nth i r' 0 = x) as Ni by (rewrite I2, N, Nat.eqb_refl by lia; reflexivity).
  constructor.
  - exact I1.
  - apply (nth_firstn_low r); [lia | exact Lo |]. intros j Hj. rewrite I2, N by lia.
    destruct (Nat.eqb_spec j i); [lia | reflexivity].
  - now rewrite Ni.
  - intros j Hj. destruct (Nat.lt_ge_cases j (i + b)); [| now apply I3].
    rewrite I2, N by lia. destruct (Nat.eqb_spec j i); [lia | now apply Bi].
  - destruct I5 as [I5 | I5]; [| now rewrite Sk in I5].
    rewrite I5, radix_set_nth, Va, Ex, Nat2Z.inj_add, Z.pow_add_r by lia. ring.
  - intros j Hj Hj3. destruct (Nat.eq_dec j (i + b)) as [-> | ?].
    + apply I4. rewrite N. destruct (Nat.eqb_spec (i + b) i); lia.
    + rewrite I2, N by lia. destruct (Nat.eqb_spec j i); [lia | apply Ze; lia].
Qed.

Lemma slideWindow_spec n : forall b r,
  (1 <= b)%nat -> (n + b = 7)%nat -> window b r -> window 4 (slideWindow n b i r).
Proof.
  induction n as [| n IH]; intros b r Hb Hn W; cbn [slideWindow].
  - destruct W. constructor; auto. intros j Hj Hj3. apply w_zero0; lia.
  - destruct (Nat.ltb_spec (i + b) 256) as [Hib | Hib].
    + destruct (Z.eqb_spec (nth (i + b) r 0) 0) as [E | E].
      { apply IH; [lia | lia | now apply window_next]. }
      destruct (window_shift b r W ltac:(lia) E) as (E1 & Es & Hs & Hodd). rewrite Es.
      destruct (w_dig b r W) as [Hd Ho].
      rewrite (int8_id (nth i r 0 + _)), (int8_id (nth i r 0 - _)) by lia.
      destruct (Z.leb_spec (nth i r 0 + 2 ^ Z.of_nat b) 15) as [C1 | C1].
      { apply IH; [lia | lia |]. eapply window_add; eauto; try lia.
        rewrite Z.odd_add, Ho, Hodd. reflexivity. }
      destruct (Z.leb_spec (-15) (nth i r 0 - 2 ^ Z.of_nat b)) as [C2 | C2].
      { apply IH; [lia | lia |]. eapply window_sub; eauto; try lia.
        rewrite Z.odd_sub, Ho, Hodd. reflexivity. }
      assert (4 <= b)%nat.
      { destruct b as [| [| [| [| b]]]]; [lia | | | | lia]; exfalso;
          change (2 ^ Z.of_nat 1) with 2 in *; change (2 ^ Z.of_nat 2) with 4 in *;
          change (2 ^ Z.of_nat 3) with 8 in *; lia. }
      destruct W. constructor; auto. intros j Hj Hj3. apply w_zero0; lia.
    + destruct W. constructor; auto. intros j Hj Hj3.
      destruct (Nat.lt_ge_cases j 256); [apply w_zero0; lia | now rewrite nth_overflow by lia].
Qed.
End window.

(** *** The whole recoding *)

(** The state of the outer loop at index [i]. *)
Record recoding (V : Z) (i : nat) (r : list Z) : Prop := {
  s_len : length r = 256%nat;
  s_val : radix 2 r = V;
  s_bits : bits r i;
  s_dig : forall j, (j < i)%nat -> slide_digit (nth j r 0);
  s_low : exists z, (forall j, (i <= j < i + z)%nat -> nth j r 0 = 0) /\
            - 2 ^ Z.of_nat (i + z) < radix 2 (firstn i r) < 2 ^ Z.of_nat (i + z) }.

Lemma recoding_step V i r :
  V < 2 ^ 255 -> (i < 256)%nat -> recoding V i r ->
  recoding V (S i) (if nth i r 0 =? 0 then r else slideWindow 6 1 i r).
Proof.
  intros HV Hi [L Va Bi Di (z & Hz & Lo)].
  destruct (Z.eqb_spec (nth i r 0) 0) as [E | E].
  - constructor; auto.
    + intros j Hj. apply Bi. lia.
    + intros j Hj. destruct (Nat.eq_dec j i) as [-> | ?]; [| apply Di; lia].
      rewrite E. split; [lia | auto].
    + exists (z - 1)%nat. split; [intros j Hj; apply Hz; lia |].
      rewrite radix_firstn_succ, E, Z.mul_0_r, Z.add_0_r.
      assert (2 ^ Z.of_nat (i + z) <= 2 ^ Z.of_nat (S i + (z - 1))) by (apply Z.pow_le_mono_r; lia).
      lia.
  - assert (z = 0%nat) as ->.
    { destruct z as [| z]; [reflexivity | destruct E; apply Hz; lia]. }
    rewrite Nat.add_0_r in Lo.
    assert (window V i (firstn i r) 1 r) as W.
    { destruct (Bi i ltac:(lia)) as [? | E1]; [contradiction |].
      constructor; auto; try lia.
      - rewrite E1. split; [lia | reflexivity].
      - intros j Hj. apply Bi. lia. }
    apply (slideWindow_spec V HV i Hi (firstn i r) Lo 6) in W; [| lia | lia].
    destruct W as [L' Lo' D' Bi' Va' Ze']. constructor; auto.
    + intros j Hj. destruct (Nat.eq_dec j i) as [-> | ?]; [split; tauto |].
      rewrite <- (firstn_skipn i (slideWindow 6 1 i r)), Lo'.
      rewrite app_nth1 by (rewrite length_firstn; lia).
      rewrite nth_firstn. destruct (Nat.ltb_spec j i); [apply Di; lia | lia].
    + exists 3%nat. split; [intros j Hj; apply Ze'; lia |].
      rewrite radix_firstn_succ, Lo'.
      replace (S i + 3)%nat with (4 + i)%nat by lia.
      rewrite Nat2Z.inj_add, Z.pow_add_r by lia. change (2 ^ Z.of_nat 4) with 16.
      assert (0 < 2 ^ Z.of_nat i) by (apply Z.pow_pos_nonneg; lia). nia.
Qed.

Lemma recoding_loop V n i r :
  V < 2 ^ 255 -> (i + n <= 256)%nat -> recoding V i r ->
  recoding V (i + n)
    (fold_left (fun r i => if nth i r 0 =? 0 then r else slideWindow 6 1 i r) (seq i n) r).
Proof.
  intros HV. revert i r. induction n as [| n IH]; intros i r Hn H.
  - now rewrite Nat.add_0_r.
  - cbn [seq fold_left]. replace (i + S n)%nat with (S i + n)%nat by lia.
    apply IH; [lia | apply recoding_step; auto; lia].
Qed.

(** *** The bits of a scalar *)

Lemma le_val_testbit a : bytes_ok a -> forall i,
  Z.testbit (le_val a) (Z.of_nat i) = Z.testbit (nth (i / 8) a 0) (Z.of_nat (i mod 8)).
Proof.
  induction 1 as [| b a Hb Ha IH]; intros i.
  - rewrite nth_overflow by (cbn; lia). now rewrite !Z.bits_0.
  - unfold byte_ok in Hb. cbn [le_val].
    replace (b + 256 * le_val a) with (Z.lor b (Z.shiftl (le_val a) 8))
      by (rewrite lor_shiftl_add by lia; lia).
    rewrite Z.lor_spec, Z.shiftl_spec by lia.
    destruct (Nat.lt_ge_cases i 8) as [L | L].
    + rewrite Nat.div_small, Nat.mod_small by lia. cbn [nth].
      rewrite (Z.testbit_neg_r (le_val a)) by lia. apply orb_false_r.
    + replace b with (b mod 2 ^ 8) by (apply Z.mod_small; lia).
      rewrite Z.mod_pow2_bits_high by lia. cbn [orb].
      replace (Z.of_nat i - 8) with (Z.of_nat (i - 8)) by lia. rewrite IH.
      replace i with (i - 8 + 1 * 8)%nat at 3 4 by lia.
      rewrite Nat.div_add, Nat.Div0.mod_add by lia. rewrite Nat.add_1_r. reflexivity.
Qed.

Lemma radix_bits (r : list Z) : forall V,
  (forall j, (j < length r)%nat -> nth j r 0 = Z.b2z (Z.testbit V (Z.of_nat j))) ->
  radix 2 r = V mod 2 ^ Z.of_nat (length r).
Proof.
  induction r as [| x r IH]; intros V H; cbn [radix length].
  - symmetry. apply Z.mod_1_r.
  - rewrite (IH (V / 2)).
    + pose proof (H O ltac:(cbn; lia)) as H0. cbn [nth] in H0. rewrite H0.
      rewrite Nat2Z.inj_succ, Z.pow_succ_r, Z.rem_mul_r by lia.
      rewrite Z.bit0_mod. reflexivity.
    + intros j Hj. pose proof (H (S j) ltac:(cbn; lia)) as HS. cbn [nth] in HS. rewrite HS.
      rewrite Nat2Z.inj_succ, Z.div2_bits by lia. reflexivity.
Qed.

Lemma slide_start a :
  length a = 32%nat -> bytes_ok a ->
  recoding (le_val a) 0
    (map (fun i => int8 (Z.land 1 (Z.shiftr (nth (i / 8) a 0) (Z.of_nat (i mod 8)))))
       (seq 0 256)).
Proof.
  intros L Ok. set (f := fun i => int8 _).
  assert (forall i, f i = Z.b2z (Z.testbit (le_val a) (Z.of_nat i))) as Hf.
  { intros i. unfold f. rewrite le_val_testbit by exact Ok.
    rewrite Z.land_comm, land_1, <- Z.bit0_mod, Z.shiftr_spec, Z.add_0_l by lia.
    destruct (Z.testbit _ _); reflexivity. }
  assert (forall j, nth j (map f (seq 0 256)) 0 = 0 \/ nth j (map f (seq 0 256)) 0 = 1) as Hb.
  { intros j. destruct (Nat.lt_ge_cases j 256) as [Hj | Hj].
    - rewrite (nth_indep _ 0 (f O)) by (rewrite length_map, length_seq; lia).
      rewrite map_nth, seq_nth, Hf by lia. destruct (Z.testbit _ _); auto.
    - rewrite nth_overflow; [auto | rewrite length_map, length_seq; lia]. }
  constructor.
  - now rewrite length_map, length_seq.
  - rewrite (radix_bits _ (le_val a)); rewrite length_map, length_seq.
    + apply Z.mod_small. pose proof (le_val_bounds a Ok) as H. rewrite L in H. exact H.
    + intros j Hj. rewrite (nth_indep _ 0 (f O)) by (rewrite length_map, length_seq; lia).
      rewrite map_nth, seq_nth, Hf by lia. reflexivity.
  - intros j _. apply Hb.
  - intros j Hj. lia.
  - exists 0%nat. split; [intros j Hj; lia | cbn; lia].
Qed.

Lemma scalar_ok_bound a : scalar_ok a -> 0 <= le_val a < 2 ^ 255.
Proof.
  intros (L & Ok & T). split; [now apply le_val_bounds |].
  pose proof (nth_byte a 31 Ok) as Hb. unfold byte_ok in Hb.
  pose proof (sign_bit_val a L Ok) as S. unfold sign_bit in S.
  rewrite Z.shiftr_div_pow2, Z.div_small in S by lia.
  pose proof (le_val_bounds a Ok). Z.div_mod_to_equations. lia.
Qed.

(** The recoding of a scalar below 2^255: 256 digits, each zero or odd and at
    most 15 in absolute value, with the scalar's value. *)
Theorem slide_spec a :
  scalar_ok a ->
  length (slide a) = 256%nat /\ radix 2 (slide a) = le_val a /\
  (forall i, slide_digit (nth i (slide a) 0)).
Proof.
  intros H. destruct (scalar_ok_bound a H) as [_ HV]. destruct H as (L & Ok & _).
  assert (recoding (le_val a) (0 + 256) (slide a)) as [R1 R2 _ R4 _].
  { unfold slide. cbv zeta. apply recoding_loop; [exact HV | lia | now apply slide_start]. }
  split; [exact R1 |]. split; [exact R2 |]. intros i.
  destruct (Nat.lt_ge_cases i 256) as [Hi | Hi]; [apply R4; lia |].
  rewrite nth_overflow by lia. split; [lia | auto].
Qed.

(** ** [GeDoubleScalarMultVartime] *)

Section double.
Context (A : ExtendedGroupElement) (P : point) (HA : ext_repr A P).

Lemma oddMultiples_iter n :
  let A0 := Extended_ToCached A in
  let A2 := Completed_ToExtended (Extended_Double A) in
  let l := Nat.iter n (fun Ai => Ai ++ [Extended_ToCached (Completed_ToExtended
                                          (geAdd A2 (last Ai A0)))]) [A0] in
  length l = S n /\ cached_repr (last l A0) (zmul (2 * Z.of_nat n + 1) P) /\
  forall i, (i <= n)%nat -> cached_repr (nth i l A0) (zmul (2 * Z.of_nat i + 1) P).
Proof.
  intros A0 A2. induction n as [| n (IL & ILast & INth)].
  - cbn [Nat.iter nat_rect length last]. pose proof (Extended_ToCached_spec A P HA) as H0.
    split; [reflexivity |]. split; [exact H0 |]. intros i Hi. now replace i with O by lia.
  - rewrite Nat.iter_succ. set (l := Nat.iter n _ _) in *. cbv zeta in IL, ILast, INth.
    assert (cached_repr (Extended_ToCached (Completed_ToExtended (geAdd A2 (last l A0))))
              (zmul (2 * Z.of_nat (S n) + 1) P)) as New.
    { replace (2 * Z.of_nat (S n) + 1) with (2 + (2 * Z.of_nat n + 1)) by lia.
      rewrite zmul_add, zmul_2.
      apply Extended_ToCached_spec, Completed_ToExtended_spec, geAdd_spec; [| exact ILast].
      now apply Completed_ToExtended_spec, Extended_Double_spec. }
    cbv zeta. rewrite length_app, last_last. cbn [length]. split; [lia |].
    split; [exact New |]. intros i Hi. destruct (Nat.eq_dec i (S n)) as [-> | ?].
    + rewrite app_nth2, IL, Nat.sub_diag by lia. exact New.
    + rewrite app_nth1 by lia. apply INth. lia.
Qed.

Lemma oddMultiples_spec i dflt :
  (i < 8)%nat -> cached_repr (nth i (oddMultiples A) dflt) (zmul (2 * Z.of_nat i + 1) P).
Proof.
  intros Hi. destruct (oddMultiples_iter 7) as (L & _ & H).
  rewrite (nth_indep _ dflt (Extended_ToCached A)) by (unfold oddMultiples; cbv zeta; rewrite L; lia).
  apply H. lia.
Qed.

(** The table index of an odd digit. *)
Lemma digit_index x :
  slide_digit x -> 0 < x ->
  (Z.to_nat (Z.quot x 2) < 8)%nat /\ 2 * Z.of_nat (Z.to_nat (Z.quot x 2)) + 1 = x.
Proof.
  intros [Hx [-> | Ho]] Hp; [lia |]. apply Z.odd_spec in Ho as [k ->].
  rewrite Z.quot_div_nonneg by lia.
  replace ((2 * k + 1) / 2) with k by (Z.div_mod_to_equations; lia). lia.
Qed.

Lemma slide_digit_opp x : slide_digit x -> slide_digit (- x).
Proof.
  intros [Hx Ho]. split; [lia |]. destruct Ho as [-> | Ho]; [auto | right].
  now rewrite Z.odd_opp.
Qed.

Lemma addA_spec x t Q :
  slide_digit x -> comp_repr t Q -> comp_repr (addA (oddMultiples A) x t) (padd Q (zmul x P)).
Proof.
  intros Hx Ht. unfold addA. destruct (Z.ltb_spec 0 x) as [H | H].
  - destruct (digit_index x Hx H) as [I1 I2].
    apply geAdd_spec; [now apply Completed_ToExtended_spec |].
    pose proof (oddMultiples_spec _ (nth 0 (oddMultiples A) (Extended_ToCached Extended_Zero)) I1)
      as R. now rewrite I2 in R.
  - destruct (Z.ltb_spec x 0) as [H' | H'].
    + destruct (digit_index (- x) (slide_digit_opp x Hx) ltac:(lia)) as [I1 I2].
      rewrite int8_id by (destruct Hx; lia).
      replace x with (- (- x)) by lia. rewrite zmul_opp.
      replace (- - - x) with (- x) by lia.
      apply geSub_spec; [now apply Completed_ToExtended_spec |].
      pose proof (oddMultiples_spec _ (nth 0 (oddMultiples A) (Extended_ToCached Extended_Zero)) I1)
        as R. now rewrite I2 in R.
    + replace x with 0 by lia. now rewrite zmul_0, padd_zero_r.
Qed.

Lemma addB_spec x t Q :
  slide_digit x -> comp_repr t Q -> comp_repr (addB x t) (padd Q (zmul x B)).
Proof.
  intros Hx Ht. unfold addB. destruct (Z.ltb_spec 0 x) as [H | H].
  - destruct (digit_index x Hx H) as [I1 I2].
    apply geMixedAdd_spec; [now apply Completed_ToExtended_spec |].
    pose proof (bi_spec _ I1) as R. now rewrite I2 in R.
  - destruct (Z.ltb_spec x 0) as [H' | H'].
    + destruct (digit_index (- x) (slide_digit_opp x Hx) ltac:(lia)) as [I1 I2].
      rewrite int8_id by (destruct Hx; lia).
      replace x with (- (- x)) by lia. rewrite zmul_opp.
      replace (- - - x) with (- x) by lia.
      apply geMixedSub_spec; [now apply Completed_ToExtended_spec |].
      pose proof (bi_spec _ I1) as R. now rewrite I2 in R.
    + replace x with 0 by lia. now rewrite zmul_0, padd_zero_r.
Qed.

Section loop.
Context (sa sb : list Z).
Context (Ha : forall i, slide_digit (nth i sa 0)) (Hb : forall i, slide_digit (nth i sb 0)).

Definition partial_sum (n : nat) : point :=
  padd (zmul (radix 2 (skipn n sa)) P) (zmul (radix 2 (skipn n sb)) B).

Lemma partial_sum_step i :
  partial_sum i =
  padd (padd (padd (partial_sum (S i)) (partial_sum (S i))) (zmul (nth i sa 0) P))
       (zmul (nth i sb 0) B).
Proof.
  unfold partial_sum. rewrite (radix_skipn 2 i sa), (radix_skipn 2 i sb).
  rewrite !zmul_add, !zmul_mul, !zmul_2.
  set (a := zmul (radix 2 (skipn (S i) sa)) P). set (b := zmul (radix 2 (skipn (S i) sb)) B).
  set (x := zmul (nth i sa 0) P). set (y := zmul (nth i sb 0) B).
  rewrite (padd_interchange a b a b), padd_interchange, padd_comm, !padd_assoc. reflexivity.
Qed.

Lemma topDigit_zero n :
  radix 2 (skipn n sa) = 0 -> radix 2 (skipn n sb) = 0 ->
  radix 2 (skipn (topDigit n sa sb) sa) = 0 /\ radix 2 (skipn (topDigit n sa sb) sb) = 0.
Proof.
  induction n as [| i IH]; intros Za Zb; [auto |]. cbn [topDigit].
  destruct (Z.eqb_spec (nth i sa 0) 0) as [Ea | Ea], (Z.eqb_spec (nth i sb 0) 0) as [Eb | Eb];
    cbn [negb orb]; auto.
  apply IH; rewrite radix_skipn; lia.
Qed.

Lemma doubleScalarLoop_spec n r :
  proj_repr r (partial_sum n) ->
  proj_repr (doubleScalarLoop (oddMultiples A) sa sb n r) (partial_sum 0).
Proof.
  revert r; induction n as [| i IH]; intros r H; [exact H |]. cbn [doubleScalarLoop].
  apply IH. rewrite partial_sum_step.
  apply Completed_ToProjective_spec, addB_spec, addA_spec; auto.
  now apply Projective_Double_spec.
Qed.
End loop.

Lemma doubleScalar_slides sa sb :
  length sa = 256%nat -> length sb = 256%nat ->
  (forall i, slide_digit (nth i sa 0)) -> (forall i, slide_digit (nth i sb 0)) ->
  proj_repr (doubleScalarLoop (oddMultiples A) sa sb (topDigit 256 sa sb) Projective_Zero)
    (padd (zmul (radix 2 sa) P) (zmul (radix 2 sb) B)).
Proof.
  intros La Lb Da Db. apply (doubleScalarLoop_spec sa sb Da Db).
  destruct (topDigit_zero sa sb 256) as [Za Zb];
    [rewrite skipn_all2 by lia; reflexivity .. |].
  unfold partial_sum. rewrite Za, Zb, !zmul_0, padd_zero_l. apply Projective_Zero_spec.
Qed.

Lemma GeDoubleScalarMultVartime_slides a b :
  GeDoubleScalarMultVartime a A b =
  doubleScalarLoop (oddMultiples A) (slide a) (slide b) (topDigit 256 (slide a) (slide b))
    Projective_Zero.
Proof. reflexivity. Qed.

Theorem GeDoubleScalarMultVartime_spec a b :
  scalar_ok a -> scalar_ok b ->
  proj_repr (GeDoubleScalarMultVartime a A b) (padd (zmul (le_val a) P) (zmul (le_val b) B)).
Proof.
  intros Ha Hb. destruct (slide_spec a Ha) as (La & Va & Da).
  destruct (slide_spec b Hb) as (Lb & Vb & Db).
  rewrite GeDoubleScalarMultVartime_slides, <- Va, <- Vb.
  exact (doubleScalar_slides _ _ La Lb Da Db).
Qed.
End double.

(** ** Properties *)

(** The scalars of the witnesses: zero, and the largest one. *)
Definition zeroScalar : list Z := repeat 0 32.

Definition topScalar : list Z := repeat 255 31 ++ [127].

Lemma example_scalars : scalar_ok zeroScalar /\ scalar_ok topScalar.
Proof.
  split; (split; [reflexivity |]; split; [| cbn; lia]);
    apply Forall_forall; cbn; intros x Hx; unfold byte_ok;
    repeat (destruct Hx as [<- | Hx]; [lia |]); destruct Hx.
Qed.

(** C21: [GeDoubleScalarMultVartime] returns a A + b B for every point
    [A] and all scalars below 2^255, and [GeScalarMultBase] returns a B.  The recoding
    [slide] that the first one uses gives 256 signed digits of the same value, each
    zero or odd and at most 15 in absolute value. *)
Theorem scalar_multiplication A P a b :
  ext_repr A P -> scalar_ok a -> scalar_ok b ->
  proj_repr (GeDoubleScalarMultVartime a A b) (padd (zmul (le_val a) P) (zmul (le_val b) B)) /\
  ext_repr (GeScalarMultBase a) (zmul (le_val a) B) /\
  length (slide a) = 256%nat /\ radix 2 (slide a) = le_val a /\
  forall i, -15 <= nth i (slide a) 0 <= 15 /\
    (nth i (slide a) 0 = 0 \/ Z.odd (nth i (slide a) 0) = true).
Proof.
  intros HA Ha Hb. split; [exact (GeDoubleScalarMultVartime_spec A P HA a b Ha Hb) |].
  split; [exact (GeScalarMultBase_spec a Ha) |]. exact (slide_spec a Ha).
Qed.

Lemma scalar_multiplication_witness :
  proj_repr (GeDoubleScalarMultVartime topScalar Extended_Zero topScalar)
    (padd (zmul (le_val topScalar) pzero) (zmul (le_val topScalar) B)) /\
  ext_repr (GeScalarMultBase topScalar) (zmul (2 ^ 255 - 1) B).
Proof.
  destruct (scalar_multiplication Extended_Zero pzero topScalar topScalar Extended_Zero_spec)
    as (D & S & _); [apply example_scalars .. |].
  exact (conj D S).
Defined.
