(* ===== verification/Scalar.v ===== *)
(** * Arithmetic modulo the group order

    Model of [ScMulAdd] and [ScReduce] of
    [src/golang-x-crypto/ed25519/internal/edwards25519/edwards25519.go].  The
    scalars are 24 limbs of 21 bits in [int64] variables [s0] to [s23], held here
    in one list; the code between the loads and the stores is a sequence of three
    kinds of blocks, which are the constructors of [scStep].  No step overflows,
    whatever the input, and the stored value is the representative in [0, l). *)

From S2P Require Import Prelude FieldElement FieldCodec.

(** ** The code *)

(** One block of the reduction:
    [carry[i] = (s_i + (1 << 20)) >> 21; s_(i+1) += carry[i]; s_i -= carry[i] << 21],
    the same without the rounding, and the seven lines that fold limb [i] down by
    twelve limbs and clear it. *)
Inductive scStep :=
  | RoundCarry (i : nat)
  | FloorCarry (i : nat)
  | FoldOrder (i : nat).

Definition update (j : nat) (f : Z -> Z) (s : list Z) : list Z :=
  set_nth j (f (nth j s 0)) s.

Definition execStep (st : scStep) (s : list Z) : list Z :=
  match st with
  | RoundCarry i =>
      let carry := ((nth i s 0 + (1 << 20)) >> 21)%i64 in
      let s := update (i + 1) (fun x => (x + carry)%i64) s in
      update i (fun x => (x - carry << 21)%i64) s
  | FloorCarry i =>
      let carry := (nth i s 0 >> 21)%i64 in
      let s := update (i + 1) (fun x => (x + carry)%i64) s in
      update i (fun x => (x - carry << 21)%i64) s
  | FoldOrder i =>
      let si := nth i s 0 in
      let s := update (i - 12) (fun x => (x + si * 666643)%i64) s in
      let s := update (i - 11) (fun x => (x + si * 470296)%i64) s in
      let s := update (i - 10) (fun x => (x + si * 654183)%i64) s in
      let s := update (i - 9) (fun x => (x - si * 997805)%i64) s in
      let s := update (i - 8) (fun x => (x + si * 136657)%i64) s in
      let s := update (i - 7) (fun x => (x - si * 683901)%i64) s in
      set_nth i 0 s
  end.

Definition execSteps (l : list scStep) (s : list Z) : list Z :=
  fold_left (fun s st => execStep st s) l s.

(** The carries over the 23 products of [ScMulAdd]. *)
Definition productCarries : list scStep :=
  map RoundCarry [0; 2; 4; 6; 8; 10; 12; 14; 16; 18; 20; 22]%nat ++
  map RoundCarry [1; 3; 5; 7; 9; 11; 13; 15; 17; 19; 21]%nat.

(** From 24 limbs to 13. *)
Definition foldLimbs : list scStep :=
  map FoldOrder [23; 22; 21; 20; 19; 18]%nat ++
  map RoundCarry [6; 8; 10; 12; 14; 16]%nat ++
  map RoundCarry [7; 9; 11; 13; 15]%nat ++
  map FoldOrder [17; 16; 15; 14; 13; 12]%nat ++
  map RoundCarry [0; 2; 4; 6; 8; 10]%nat ++
  map RoundCarry [1; 3; 5; 7; 9; 11]%nat ++
  [FoldOrder 12].

(** The last two passes, without rounding. *)
Definition floorPass : list scStep := map FloorCarry [0; 1; 2; 3; 4; 5; 6; 7; 8; 9; 10; 11]%nat.

Definition lastCarries : list scStep := map FloorCarry [0; 1; 2; 3; 4; 5; 6; 7; 8; 9; 10]%nat.

Definition lastPass : list scStep := FoldOrder 12 :: lastCarries.

(** The twelve limbs of a 32-byte scalar. *)
Definition scLimbs12 (a : list Z) : list Z :=
  [(2097151 .& load3 a)%i64;
   (2097151 .& (load4 (skipn 2 a) >> 5))%i64;
   (2097151 .& (load3 (skipn 5 a) >> 2))%i64;
   (2097151 .& (load4 (skipn 7 a) >> 7))%i64;
   (2097151 .& (load4 (skipn 10 a) >> 4))%i64;
   (2097151 .& (load3 (skipn 13 a) >> 1))%i64;
   (2097151 .& (load4 (skipn 15 a) >> 6))%i64;
   (2097151 .& (load3 (skipn 18 a) >> 3))%i64;
   (2097151 .& load3 (skipn 21 a))%i64;
   (2097151 .& (load4 (skipn 23 a) >> 5))%i64;
   (2097151 .& (load3 (skipn 26 a) >> 2))%i64;
   (load4 (skipn 28 a) >> 7)%i64].

(** The 24 limbs of 64 bytes. *)
Definition scLimbs24 (a : list Z) : list Z :=
  [(2097151 .& load3 a)%i64;
   (2097151 .& (load4 (skipn 2 a) >> 5))%i64;
   (2097151 .& (load3 (skipn 5 a) >> 2))%i64;
   (2097151 .& (load4 (skipn 7 a) >> 7))%i64;
   (2097151 .& (load4 (skipn 10 a) >> 4))%i64;
   (2097151 .& (load3 (skipn 13 a) >> 1))%i64;
   (2097151 .& (load4 (skipn 15 a) >> 6))%i64;
   (2097151 .& (load3 (skipn 18 a) >> 3))%i64;
   (2097151 .& load3 (skipn 21 a))%i64;
   (2097151 .& (load4 (skipn 23 a) >> 5))%i64;
   (2097151 .& (load3 (skipn 26 a) >> 2))%i64;
   (2097151 .& (load4 (skipn 28 a) >> 7))%i64;
   (2097151 .& (load4 (skipn 31 a) >> 4))%i64;
   (2097151 .& (load3 (skipn 34 a) >> 1))%i64;
   (2097151 .& (load4 (skipn 36 a) >> 6))%i64;
   (2097151 .& (load3 (skipn 39 a) >> 3))%i64;
   (2097151 .& load3 (skipn 42 a))%i64;
   (2097151 .& (load4 (skipn 44 a) >> 5))%i64;
   (2097151 .& (load3 (skipn 47 a) >> 2))%i64;
   (2097151 .& (load4 (skipn 49 a) >> 7))%i64;
   (2097151 .& (load4 (skipn 52 a) >> 4))%i64;
   (2097151 .& (load3 (skipn 55 a) >> 1))%i64;
   (2097151 .& (load4 (skipn 57 a) >> 6))%i64;
   (load4 (skipn 60 a) >> 3)%i64].

(** [s0] to [s23], the limbs of [a b + c] before the carries. *)
Definition scProducts (a b c : list Z) : list Z :=
  let a0 := nth 0 a 0 in
  let a1 := nth 1 a 0 in
  let a2 := nth 2 a 0 in
  let a3 := nth 3 a 0 in
  let a4 := nth 4 a 0 in
  let a5 := nth 5 a 0 in
  let a6 := nth 6 a 0 in
  let a7 := nth 7 a 0 in
  let a8 := nth 8 a 0 in
  let a9 := nth 9 a 0 in
  let a10 := nth 10 a 0 in
  let a11 := nth 11 a 0 in
  let b0 := nth 0 b 0 in
  let b1 := nth 1 b 0 in
  let b2 := nth 2 b 0 in
  let b3 := nth 3 b 0 in
  let b4 := nth 4 b 0 in
  let b5 := nth 5 b 0 in
  let b6 := nth 6 b 0 in
  let b7 := nth 7 b 0 in
  let b8 := nth 8 b 0 in
  let b9 := nth 9 b 0 in
  let b10 := nth 10 b 0 in
  let b11 := nth 11 b 0 in
  let c0 := nth 0 c 0 in
  let c1 := nth 1 c 0 in
  let c2 := nth 2 c 0 in
  let c3 := nth 3 c 0 in
  let c4 := nth 4 c 0 in
  let c5 := nth 5 c 0 in
  let c6 := nth 6 c 0 in
  let c7 := nth 7 c 0 in
  let c8 := nth 8 c 0 in
  let c9 := nth 9 c 0 in
  let c10 := nth 10 c 0 in
  let c11 := nth 11 c 0 in
  let s0 := (c0 + a0*b0)%i64 in
  let s1 := (c1 + a0*b1 + a1*b0)%i64 in
  let s2 := (c2 + a0*b2 + a1*b1 + a2*b0)%i64 in
  let s3 := (c3 + a0*b3 + a1*b2 + a2*b1 + a3*b0)%i64 in
  let s4 := (c4 + a0*b4 + a1*b3 + a2*b2 + a3*b1 + a4*b0)%i64 in
  let s5 := (c5 + a0*b5 + a1*b4 + a2*b3 + a3*b2 + a4*b1 + a5*b0)%i64 in
  let s6 := (c6 + a0*b6 + a1*b5 + a2*b4 + a3*b3 + a4*b2 + a5*b1 + a6*b0)%i64 in
  let s7 := (c7 + a0*b7 + a1*b6 + a2*b5 + a3*b4 + a4*b3 + a5*b2 + a6*b1 + a7*b0)%i64 in
  let s8 := (c8 + a0*b8 + a1*b7 + a2*b6 + a3*b5 + a4*b4 + a5*b3 + a6*b2 + a7*b1 + a8*b0)%i64 in
  let s9 := (c9 + a0*b9 + a1*b8 + a2*b7 + a3*b6 + a4*b5 + a5*b4 + a6*b3 + a7*b2 + a8*b1 +
    a9*b0)%i64 in
  let s10 := (c10 + a0*b10 + a1*b9 + a2*b8 + a3*b7 + a4*b6 + a5*b5 + a6*b4 + a7*b3 + a8*b2 +
    a9*b1 + a10*b0)%i64 in
  let s11 := (c11 + a0*b11 + a1*b10 + a2*b9 + a3*b8 + a4*b7 + a5*b6 + a6*b5 + a7*b4 + a8*b3 +
    a9*b2 + a10*b1 + a11*b0)%i64 in
  let s12 := (a1*b11 + a2*b10 + a3*b9 + a4*b8 + a5*b7 + a6*b6 + a7*b5 + a8*b4 + a9*b3 + a10*b2 +
    a11*b1)%i64 in
  let s13 := (a2*b11 + a3*b10 + a4*b9 + a5*b8 + a6*b7 + a7*b6 + a8*b5 + a9*b4 + a10*b3 +
    a11*b2)%i64 in
  let s14 := (a3*b11 + a4*b10 + a5*b9 + a6*b8 + a7*b7 + a8*b6 + a9*b5 + a10*b4 + a11*b3)%i64 in
  let s15 := (a4*b11 + a5*b10 + a6*b9 + a7*b8 + a8*b7 + a9*b6 + a10*b5 + a11*b4)%i64 in
  let s16 := (a5*b11 + a6*b10 + a7*b9 + a8*b8 + a9*b7 + a10*b6 + a11*b5)%i64 in
  let s17 := (a6*b11 + a7*b10 + a8*b9 + a9*b8 + a10*b7 + a11*b6)%i64 in
  let s18 := (a7*b11 + a8*b10 + a9*b9 + a10*b8 + a11*b7)%i64 in
  let s19 := (a8*b11 + a9*b10 + a10*b9 + a11*b8)%i64 in
  let s20 := (a9*b11 + a10*b10 + a11*b9)%i64 in
  let s21 := (a10*b11 + a11*b10)%i64 in
  let s22 := (a11*b11)%i64 in
  let s23 := 0 in
  [s0; s1; s2; s3; s4; s5; s6; s7; s8; s9; s10; s11; s12; s13; s14; s15; s16; s17; s18;
   s19; s20; s21; s22; s23].

(** The stores. *)
Definition scPack (s : list Z) : list Z :=
  let s0 := nth 0 s 0 in
  let s1 := nth 1 s 0 in
  let s2 := nth 2 s 0 in
  let s3 := nth 3 s 0 in
  let s4 := nth 4 s 0 in
  let s5 := nth 5 s 0 in
  let s6 := nth 6 s 0 in
  let s7 := nth 7 s 0 in
  let s8 := nth 8 s 0 in
  let s9 := nth 9 s 0 in
  let s10 := nth 10 s 0 in
  let s11 := nth 11 s 0 in
  [uint8 (s0 >> 0)%i64;
   uint8 (s0 >> 8)%i64;
   uint8 ((s0 >> 16) .| (s1 << 5))%i64;
   uint8 (s1 >> 3)%i64;
   uint8 (s1 >> 11)%i64;
   uint8 ((s1 >> 19) .| (s2 << 2))%i64;
   uint8 (s2 >> 6)%i64;
   uint8 ((s2 >> 14) .| (s3 << 7))%i64;
   uint8 (s3 >> 1)%i64;
   uint8 (s3 >> 9)%i64;
   uint8 ((s3 >> 17) .| (s4 << 4))%i64;
   uint8 (s4 >> 4)%i64;
   uint8 (s4 >> 12)%i64;
   uint8 ((s4 >> 20) .| (s5 << 1))%i64;
   uint8 (s5 >> 7)%i64;
   uint8 ((s5 >> 15) .| (s6 << 6))%i64;
   uint8 (s6 >> 2)%i64;
   uint8 (s6 >> 10)%i64;
   uint8 ((s6 >> 18) .| (s7 << 3))%i64;
   uint8 (s7 >> 5)%i64;
   uint8 (s7 >> 13)%i64;
   uint8 (s8 >> 0)%i64;
   uint8 (s8 >> 8)%i64;
   uint8 ((s8 >> 16) .| (s9 << 5))%i64;
   uint8 (s9 >> 3)%i64;
   uint8 (s9 >> 11)%i64;
   uint8 ((s9 >> 19) .| (s10 << 2))%i64;
   uint8 (s10 >> 6)%i64;
   uint8 ((s10 >> 14) .| (s11 << 7))%i64;
   uint8 (s11 >> 1)%i64;
   uint8 (s11 >> 9)%i64;
   uint8 (s11 >> 17)%i64].

Definition ScMulAdd (a b c : list Z) : list Z :=
  let s := scProducts (scLimbs12 a) (scLimbs12 b) (scLimbs12 c) in
  let s := execSteps productCarries s in
  let s := execSteps foldLimbs s in
  let s := execSteps floorPass s in
  let s := execSteps lastPass s in
  scPack s.

Definition ScReduce (s : list Z) : list Z :=
  let s := scLimbs24 s in
  let s := execSteps foldLimbs s in
  let s := execSteps floorPass s in
  let s := execSteps lastPass s in
  scPack s.

(** ** Bounds

    Every limb is tracked with an interval; [absStep] computes the intervals
    after a step and fails when the step could leave [int64]. *)

(** [l = 2^252 + 27742317777372353535851937790883648493]. *)
Definition scOrder : Z := 2 ^ 252 + 27742317777372353535851937790883648493.

Definition limb : Z := 2 ^ 21.

Definition value (s : list Z) : Z := radix limb s.

Definition interval : Type := Z * Z.

Definition inside (b : interval) (x : Z) : Prop := fst b <= x <= snd b.

Definition safe (b : interval) : bool := (- 2 ^ 62 <=? fst b) && (snd b <=? 2 ^ 62).

Lemma safe_inside b x : safe b = true -> inside b x -> - 2 ^ 62 <= x <= 2 ^ 62.
Proof.
  unfold safe, inside. rewrite andb_true_iff, !Z.leb_le. lia.
Qed.

Definition bounded (bs : list interval) (s : list Z) : Prop :=
  length s = length bs /\ forall j, inside (nth j bs (0, 0)) (nth j s 0).

Lemma bounded_set bs s j b v :
  bounded bs s -> inside b v -> bounded (set_nth j b bs) (set_nth j v s).
Proof.
  intros [L H] Hv. split; [now rewrite !length_set_nth |]. intros k.
  destruct (Nat.lt_ge_cases j (length bs)) as [Hj | Hj].
  - rewrite !nth_set_nth by lia. destruct (Nat.eqb k j); auto.
  - assert (forall A (x : A) l, (length l <= j)%nat -> set_nth j x l = l) as N.
    { clear. intros A x l. revert j. induction l as [| y l IH]; intros [| j] Hj; cbn in *;
        auto; try lia. f_equal. apply IH. lia. }
    rewrite !N by lia. apply H.
Qed.

(** Adding [si * k], with [si] in [b], to limb [j]. *)
Definition absAdd (b : interval) (jk : nat * Z) (bs : list interval) : option (list interval) :=
  let '(j, k) := jk in
  let p := (Z.min (fst b * k) (snd b * k), Z.max (fst b * k) (snd b * k)) in
  let q := (fst (nth j bs (0, 0)) + fst p, snd (nth j bs (0, 0)) + snd p) in
  if safe p && safe q && (j <? length bs)%nat then Some (set_nth j q bs) else None.

Lemma absAdd_sound b j k bs bs' s si f :
  absAdd b (j, k) bs = Some bs' -> bounded bs s -> inside b si ->
  (forall x, - 2 ^ 62 <= si * k <= 2 ^ 62 -> - 2 ^ 62 <= x + si * k <= 2 ^ 62 -> f x = x + si * k) ->
  bounded bs' (update j f s) /\
  value (update j f s) = value s + limb ^ Z.of_nat j * (si * k) /\
  (forall i, i <> j -> nth i (update j f s) 0 = nth i s 0).
Proof.
  unfold absAdd. set (p := (Z.min _ _, Z.max _ _)). set (q := (_ + fst p, _ + snd p)).
  destruct (safe p && safe q && (j <? length bs)%nat) eqn:E; [| discriminate].
  apply andb_true_iff in E as [E Ej]. apply andb_true_iff in E as [Ep Eq].
  apply Nat.ltb_lt in Ej. intros [= <-] Hb Hs Hf. destruct Hb as [L H].
  assert (inside p (si * k)) as Ip.
  { unfold p, inside in *; cbn [fst snd]. destruct (Z.le_gt_cases 0 k).
    - pose proof (Z.mul_le_mono_nonneg_r (fst b) si k).
      pose proof (Z.mul_le_mono_nonneg_r si (snd b) k). lia.
    - pose proof (Z.mul_le_mono_nonpos_r (fst b) si k).
      pose proof (Z.mul_le_mono_nonpos_r si (snd b) k). lia. }
  assert (inside q (nth j s 0 + si * k)) as Iq
    by (specialize (H j); unfold q, inside in *; cbn [fst snd] in *; lia).
  pose proof (Hf (nth j s 0) (safe_inside _ _ Ep Ip) (safe_inside _ _ Eq Iq)) as Fx.
  unfold update. rewrite Fx. split; [now apply bounded_set |]. split.
  - unfold value. rewrite radix_set_nth by lia. f_equal. f_equal. lia.
  - intros i Hi. rewrite nth_set_nth by lia. destruct (Nat.eqb_spec i j); [contradiction | reflexivity].
Qed.

Definition absCarry (i : nat) (c b' : interval) (bs : list interval) : option (list interval) :=
  let '(lo, hi) := nth i bs (0, 0) in
  let '(lo1, hi1) := nth (i + 1) bs (0, 0) in
  let q := (lo1 + fst c, hi1 + snd c) in
  if safe (lo, hi) && safe q && (i + 1 <? length bs)%nat
  then Some (set_nth i b' (set_nth (i + 1) q bs)) else None.

(** The offsets and coefficients of [FoldOrder]. *)
Definition foldTerms (i : nat) : list (nat * Z) :=
  [((i - 12)%nat, 666643); ((i - 11)%nat, 470296); ((i - 10)%nat, 654183);
   ((i - 9)%nat, -997805); ((i - 8)%nat, 136657); ((i - 7)%nat, -683901)].

Fixpoint absAdds (b : interval) (l : list (nat * Z)) (bs : list interval) : option (list interval) :=
  match l with
  | [] => Some bs
  | jk :: l => match absAdd b jk bs with Some bs => absAdds b l bs | None => None end
  end.

Definition absStep (st : scStep) (bs : list interval) : option (list interval) :=
  match st with
  | RoundCarry i =>
      let '(lo, hi) := nth i bs (0, 0) in
      absCarry i ((lo + 2 ^ 20) / 2 ^ 21, (hi + 2 ^ 20) / 2 ^ 21) (- 2 ^ 20, 2 ^ 20 - 1) bs
  | FloorCarry i =>
      let '(lo, hi) := nth i bs (0, 0) in
      absCarry i (lo / 2 ^ 21, hi / 2 ^ 21) (0, 2 ^ 21 - 1) bs
  | FoldOrder i =>
      if (12 <=? i)%nat && (i <? length bs)%nat then
        match absAdds (nth i bs (0, 0)) (foldTerms i) bs with
        | Some bs => Some (set_nth i (0, 0) bs)
        | None => None
        end
      else None
  end.

(** How far a step moves the value: the carries keep it, folding limb [i]
    subtracts a multiple of the order. *)
Definition shiftOf (st : scStep) (s : list Z) : Z :=
  match st with
  | FoldOrder i => scOrder * (nth i s 0 * limb ^ Z.of_nat (i - 12))
  | _ => 0
  end.

Lemma carry_sound i c b' bs bs' s carry x' :
  absCarry i c b' bs = Some bs' -> bounded bs s -> inside c carry ->
  x' = nth i s 0 - carry * 2 ^ 21 -> inside b' x' -> - 2 ^ 63 <= carry * 2 ^ 21 < 2 ^ 63 ->
  - 2 ^ 22 <= x' <= 2 ^ 22 ->
  let s' := update i (fun x => (x - carry << 21)%i64)
              (update (i + 1) (fun x => (x + carry)%i64) s) in
  bounded bs' s' /\ value s' = value s.
Proof.
  unfold absCarry. destruct (nth i bs (0, 0)) as [lo hi] eqn:Ei.
  destruct (nth (i + 1) bs (0, 0)) as [lo1 hi1] eqn:Ei1.
  destruct (safe (lo, hi) && safe _ && _) eqn:E; [| discriminate].
  apply andb_true_iff in E as [E Ej]. apply andb_true_iff in E as [Es Eq].
  apply Nat.ltb_lt in Ej. intros [= <-] Hb Hc Ex Hx' Hcr Hx'r.
  pose proof Hb as [L H]. pose proof (H (i + 1)%nat) as H1. rewrite Ei1 in H1.
  assert (inside (lo1 + fst c, hi1 + snd c) (nth (i + 1) s 0 + carry)) as I1
    by (unfold inside in *; cbn [fst snd] in *; lia).
  pose proof (safe_inside _ _ Eq I1) as R1.
  assert (update (i + 1) (fun x => (x + carry)%i64) s =
          set_nth (i + 1) (nth (i + 1) s 0 + carry) s) as E1
    by (unfold update; f_equal; apply int64_id; lia).
  cbv zeta. rewrite E1. set (s1 := set_nth (i + 1) (nth (i + 1) s 0 + carry) s).
  assert (nth i s1 0 = nth i s 0) as N1.
  { unfold s1. rewrite nth_set_nth by lia. destruct (Nat.eqb_spec i (i + 1)); [lia | reflexivity]. }
  assert (update i (fun x => (x - carry << 21)%i64) s1 = set_nth i x' s1) as E2.
  { unfold update. f_equal. rewrite N1, Z.shiftl_mul_pow2 by lia.
    rewrite (int64_id (carry * 2 ^ 21)) by lia. rewrite Ex. apply int64_id. lia. }
  rewrite E2. split.
  - apply bounded_set; [now apply bounded_set | exact Hx'].
  - unfold value. rewrite radix_set_nth by (unfold s1; rewrite length_set_nth; lia).
    unfold s1 at 1. rewrite radix_set_nth by lia. rewrite N1, Ex, Nat2Z.inj_add, Z.pow_add_r by lia.
    change (limb ^ Z.of_nat 1) with (2 ^ 21). ring.
Qed.

Lemma round_sound i bs bs' s :
  absStep (RoundCarry i) bs = Some bs' -> bounded bs s ->
  bounded bs' (execStep (RoundCarry i) s) /\ value (execStep (RoundCarry i) s) = value s.
Proof.
  cbn [absStep execStep]. destruct (nth i bs (0, 0)) as [lo hi] eqn:Ei. intros A Hb.
  pose proof Hb as [L H]. pose proof (H i) as Hi. rewrite Ei in Hi.
  assert (safe (lo, hi) = true) as S.
  { unfold absCarry in A. rewrite Ei in A. destruct (nth (i + 1) bs (0, 0)).
    destruct (safe (lo, hi)); [reflexivity | discriminate A]. }
  pose proof (safe_inside _ _ S Hi) as R. unfold inside in Hi. cbn [fst snd] in Hi.
  change (int64 (Z.shiftl 1 20)) with (2 ^ 20). rewrite (int64_id (nth i s 0 + 2 ^ 20)) by lia.
  rewrite Z.shiftr_div_pow2 by lia. set (carry := (nth i s 0 + 2 ^ 20) / 2 ^ 21).
  assert (2 ^ 21 * carry <= nth i s 0 + 2 ^ 20 < 2 ^ 21 * carry + 2 ^ 21) as C
    by (unfold carry; Z.div_mod_to_equations; lia).
  eapply carry_sound; [exact A | exact Hb | | reflexivity | ..];
    unfold inside; cbn [fst snd]; try lia.
  split; apply Z.div_le_mono; lia.
Qed.

Lemma floor_sound i bs bs' s :
  absStep (FloorCarry i) bs = Some bs' -> bounded bs s ->
  bounded bs' (execStep (FloorCarry i) s) /\ value (execStep (FloorCarry i) s) = value s.
Proof.
  cbn [absStep execStep]. destruct (nth i bs (0, 0)) as [lo hi] eqn:Ei. intros A Hb.
  pose proof Hb as [L H]. pose proof (H i) as Hi. rewrite Ei in Hi.
  assert (safe (lo, hi) = true) as S.
  { unfold absCarry in A. rewrite Ei in A. destruct (nth (i + 1) bs (0, 0)).
    destruct (safe (lo, hi)); [reflexivity | discriminate A]. }
  pose proof (safe_inside _ _ S Hi) as R. unfold inside in Hi. cbn [fst snd] in Hi.
  rewrite Z.shiftr_div_pow2 by lia. set (carry := nth i s 0 / 2 ^ 21).
  assert (2 ^ 21 * carry <= nth i s 0 < 2 ^ 21 * carry + 2 ^ 21) as C
    by (unfold carry; Z.div_mod_to_equations; lia).
  eapply carry_sound; [exact A | exact Hb | | reflexivity | ..];
    unfold inside; cbn [fst snd]; try lia.
  split; apply Z.div_le_mono; lia.
Qed.

(** The six additions of [FoldOrder], as additions of [si * k]. *)
Lemma fold_add k si x :
  - 2 ^ 62 <= si * k <= 2 ^ 62 -> - 2 ^ 62 <= x + si * k <= 2 ^ 62 ->
  int64 (x + int64 (si * k)) = x + si * k.
Proof. intros. rewrite (int64_id (si * k)) by lia. apply int64_id. lia. Qed.

Lemma fold_sub k si x :
  - 2 ^ 62 <= si * - k <= 2 ^ 62 -> - 2 ^ 62 <= x + si * - k <= 2 ^ 62 ->
  int64 (x - int64 (si * k)) = x + si * - k.
Proof. intros. rewrite (int64_id (si * k)) by lia. rewrite int64_id; lia. Qed.

Lemma fold_indices i :
  (12 <= i)%nat ->
  (i <> i - 7 /\ i <> i - 8 /\ i <> i - 9 /\ i <> i - 10 /\ i <> i - 11 /\ i <> i - 12)%nat /\
  limb ^ Z.of_nat i = limb ^ Z.of_nat (i - 12) * limb ^ 12 /\
  limb ^ Z.of_nat (i - 11) = limb ^ Z.of_nat (i - 12) * limb /\
  limb ^ Z.of_nat (i - 10) = limb ^ Z.of_nat (i - 12) * limb ^ 2 /\
  limb ^ Z.of_nat (i - 9) = limb ^ Z.of_nat (i - 12) * limb ^ 3 /\
  limb ^ Z.of_nat (i - 8) = limb ^ Z.of_nat (i - 12) * limb ^ 4 /\
  limb ^ Z.of_nat (i - 7) = limb ^ Z.of_nat (i - 12) * limb ^ 5.
Proof.
  intros H. split; [lia |]. rewrite <- (Z.pow_1_r limb) at 6.
  rewrite <- !Z.pow_add_r by lia. repeat split; f_equal; lia.
Qed.

Lemma fold_sound i bs bs' s :
  absStep (FoldOrder i) bs = Some bs' -> bounded bs s ->
  bounded bs' (execStep (FoldOrder i) s) /\
  value (execStep (FoldOrder i) s) = value s - shiftOf (FoldOrder i) s.
Proof.
  cbn [absStep shiftOf]. destruct ((12 <=? i)%nat && (i <? length bs)%nat) eqn:E; [| discriminate].
  apply andb_true_iff in E as [E12 El]. apply Nat.leb_le in E12. apply Nat.ltb_lt in El.
  destruct (fold_indices i E12) as [(I7 & I8 & I9 & I10 & I11 & I12) (P & P11 & P10 & P9 & P8 & P7)].
  intros A Hb. pose proof Hb as [L H]. pose proof (H i) as Hi.
  set (b := nth i bs (0, 0)) in *. unfold execStep. set (si := nth i s 0) in *. cbv zeta.
  unfold foldTerms in A. cbn [absAdds] in A.
  destruct (absAdd b (_, 666643) bs) as [b1 |] eqn:A1; [| discriminate].
  destruct (absAdd_sound _ _ _ _ _ _ _ _ A1 Hb Hi (fold_add _ _)) as (B1 & V1 & N1).
  destruct (absAdd b (_, 470296) b1) as [b2 |] eqn:A2; [| discriminate].
  destruct (absAdd_sound _ _ _ _ _ _ _ _ A2 B1 Hi (fold_add _ _)) as (B2 & V2 & N2).
  destruct (absAdd b (_, 654183) b2) as [b3 |] eqn:A3; [| discriminate].
  destruct (absAdd_sound _ _ _ _ _ _ _ _ A3 B2 Hi (fold_add _ _)) as (B3 & V3 & N3).
  destruct (absAdd b (_, -997805) b3) as [b4 |] eqn:A4; [| discriminate].
  destruct (absAdd_sound _ _ _ _ _ _ _ _ A4 B3 Hi (fold_sub 997805 _)) as (B4 & V4 & N4).
  destruct (absAdd b (_, 136657) b4) as [b5 |] eqn:A5; [| discriminate].
  destruct (absAdd_sound _ _ _ _ _ _ _ _ A5 B4 Hi (fold_add _ _)) as (B5 & V5 & N5).
  destruct (absAdd b (_, -683901) b5) as [b6 |] eqn:A6; [| discriminate].
  destruct (absAdd_sound _ _ _ _ _ _ _ _ A6 B5 Hi (fold_sub 683901 _)) as (B6 & V6 & N6).
  injection A as <-. split; [apply bounded_set; [exact B6 | unfold inside; cbn; lia] |].
  match type of V6 with value ?t = _ => set (s6 := t) in * end.
  assert (nth i s6 0 = si) as Nsi
    by (rewrite (N6 _ I7), (N5 _ I8), (N4 _ I9), (N3 _ I10), (N2 _ I11), (N1 _ I12); reflexivity).
  assert (i < length s6)%nat as Ls
    by (unfold s6, update; rewrite !length_set_nth, L; exact El).
  unfold value at 1. rewrite radix_set_nth by exact Ls. fold (value s6).
  rewrite V6, V5, V4, V3, V2, V1, Nsi, P, P11, P10, P9, P8, P7.
  unfold scOrder, limb. ring.
Qed.

Lemma step_sound st bs bs' s :
  absStep st bs = Some bs' -> bounded bs s ->
  bounded bs' (execStep st s) /\ value (execStep st s) = value s - shiftOf st s.
Proof.
  destruct st as [i | i | i]; intros A Hb.
  - rewrite Z.sub_0_r. now apply (round_sound i bs).
  - rewrite Z.sub_0_r. now apply (floor_sound i bs).
  - now apply (fold_sound i bs).
Qed.

Fixpoint absSteps (l : list scStep) (bs : list interval) : option (list interval) :=
  match l with
  | [] => Some bs
  | st :: l => match absStep st bs with Some bs => absSteps l bs | None => None end
  end.

Lemma execSteps_cons st l s : execSteps (st :: l) s = execSteps l (execStep st s).
Proof. reflexivity. Qed.

Lemma absSteps_cons st l bs bs' :
  absSteps (st :: l) bs = Some bs' ->
  exists b, absStep st bs = Some b /\ absSteps l b = Some bs'.
Proof.
  cbn [absSteps]. destruct (absStep st bs) as [b |]; [| discriminate]. intros H. now exists b.
Qed.

Lemma steps_sound l : forall bs bs' s,
  absSteps l bs = Some bs' -> bounded bs s ->
  bounded bs' (execSteps l s) /\ (value (execSteps l s) - value s) mod scOrder = 0.
Proof.
  induction l as [| st l IH]; intros bs bs' s A Hb; cbn [absSteps] in A.
  - injection A as <-. cbn [execSteps fold_left]. rewrite Z.sub_diag. auto.
  - destruct (absStep st bs) as [b1 |] eqn:A1; [| discriminate A].
    destruct (step_sound _ _ _ _ A1 Hb) as [B1 V1].
    destruct (IH _ _ _ A B1) as [B2 V2]. split; [exact B2 |].
    rewrite execSteps_cons.
    set (s' := execSteps l (execStep st s)) in *.
    assert (exists k, shiftOf st s = scOrder * k) as [k Hk].
    { destruct st; cbn [shiftOf]; [exists 0; ring | exists 0; ring | eexists; reflexivity]. }
    replace (value s' - value s) with (value s' - value (execStep st s) + (- k) * scOrder) by lia.
    rewrite Z.mod_add by discriminate. exact V2.
Qed.

(** A pass of carries keeps the value exactly. *)
Definition is_carry (st : scStep) : Prop :=
  match st with FoldOrder _ => False | _ => True end.

Lemma floors_are_carries l : Forall is_carry (map FloorCarry l).
Proof. induction l; constructor; [exact I | assumption]. Qed.

Lemma carries_exact l : forall bs bs' s,
  Forall is_carry l ->
  absSteps l bs = Some bs' -> bounded bs s ->
  bounded bs' (execSteps l s) /\ value (execSteps l s) = value s.
Proof.
  induction l as [| st l IH]; intros bs bs' s F A Hb; cbn [absSteps] in A.
  - injection A as <-. auto.
  - destruct (absStep st bs) as [b1 |] eqn:A1; [| discriminate A].
    apply Forall_cons_iff in F as [Fst F].
    destruct (step_sound _ _ _ _ A1 Hb) as [B1 V1].
    destruct (IH _ _ _ F A B1) as [B2 V2]. split; [exact B2 |].
    rewrite execSteps_cons, V2, V1.
    destruct st; [| | contradiction]; cbn [shiftOf]; ring.
Qed.

(** ** The value after each pass *)

Lemma bounded_cons b bs x s :
  bounded (b :: bs) (x :: s) -> inside b x /\ bounded bs s.
Proof.
  intros [L H]. split; [exact (H O) |]. split; [cbn in L; lia |]. intros j. exact (H (S j)).
Qed.

Lemma bounded_value bs s :
  bounded bs s -> radix limb (map fst bs) <= value s <= radix limb (map snd bs).
Proof.
  revert s; induction bs as [| b bs IH]; intros [| x s] H; try (destruct H as [L _]; discriminate L).
  - cbn. lia.
  - apply bounded_cons in H as [Hx H]. apply IH in H. unfold inside in Hx.
    unfold value in *. cbn [map radix]. unfold limb in *. lia.
Qed.

Lemma bounded_firstn n bs s : bounded bs s -> bounded (firstn n bs) (firstn n s).
Proof.
  intros [L H]. split; [rewrite !length_firstn; lia |]. intros j. rewrite !nth_firstn.
  destruct (j <? n)%nat; [apply H | unfold inside; cbn; lia].
Qed.

Lemma bounded_skipn n bs s : bounded bs s -> bounded (skipn n bs) (skipn n s).
Proof.
  intros [L H]. split; [rewrite !length_skipn; lia |]. intros j. rewrite !nth_skipn. apply H.
Qed.

(** The intervals of a list whose first [n] limbs are canonical and whose limbs
    above [n] are zero. *)
Definition canonical_below (n : nat) (bs : list interval) : bool :=
  (0 <=? radix limb (map fst (firstn n bs))) &&
  (radix limb (map snd (firstn n bs)) <? limb ^ Z.of_nat n) &&
  (radix limb (map fst (skipn (S n) bs)) =? 0) && (radix limb (map snd (skipn (S n) bs)) =? 0).

Lemma canonical_split n bs s :
  canonical_below n bs = true -> bounded bs s ->
  exists lo, value s = lo + limb ^ Z.of_nat n * nth n s 0 /\ 0 <= lo < limb ^ Z.of_nat n /\
             lo = value (firstn n s).
Proof.
  unfold canonical_below. rewrite !andb_true_iff, Z.leb_le, Z.ltb_lt, !Z.eqb_eq.
  intros (((C1 & C2) & C3) & C4) H. exists (value (firstn n s)).
  pose proof (bounded_value _ _ (bounded_firstn n _ _ H)) as B1.
  pose proof (bounded_value _ _ (bounded_skipn (S n) _ _ H)) as B2.
  split; [| split; [lia | reflexivity]].
  unfold value in *. rewrite (radix_split limb s n), (radix_skipn limb n).
  replace (radix limb (skipn (S n) s)) with 0 by lia. ring.
Qed.

(** The floor passes, given the intervals [bs] after [foldLimbs]: the value is
    brought into [0, l). *)
Section finish.
Context (bs bs2 bs3 : list interval).
Context (A2 : absSteps floorPass bs = Some bs2) (A3 : absSteps lastPass bs2 = Some bs3).
Context (Hlo : - 2 ^ 252 <= radix limb (map fst bs)) (Hhi : radix limb (map snd bs) < 2 ^ 252).
Context (C2 : canonical_below 12 bs2 = true).

Lemma finish_spec s :
  bounded bs s ->
  let s3 := execSteps lastPass (execSteps floorPass s) in
  bounded bs3 s3 /\ value s3 = value s mod scOrder.
Proof.
  intros Hb s3. pose proof (bounded_value _ _ Hb) as V.
  destruct (carries_exact floorPass bs bs2 s (floors_are_carries _) A2 Hb) as [B2 V2].
  destruct (canonical_split 12 _ _ C2 B2) as (lo & E & Hl & _). rewrite V2 in E.
  subst s3. generalize dependent (execSteps floorPass s). intros s2 B2 V2 E.
  unfold lastPass in A3. apply absSteps_cons in A3 as (b & Eb & A3').
  destruct (step_sound _ _ _ _ Eb B2) as [B V'].
  destruct (carries_exact lastCarries b bs3 _ (floors_are_carries _) A3' B) as [B3 V3].
  unfold lastPass. rewrite execSteps_cons. split; [exact B3 |]. rewrite V3.
  rewrite V', V2. cbn [shiftOf]. change (limb ^ Z.of_nat (12 - 12)) with 1. rewrite Z.mul_1_r.
  change (limb ^ Z.of_nat 12) with (2 ^ 252) in *.
  apply (Z.mod_unique_pos _ _ (nth 12 s2 0)); [| ring].
  unfold scOrder. clear - V E Hl Hlo Hhi. lia.
Qed.
End finish.

(** *** The bounds, by computation *)

Definition reduceBounds (bs : list interval) : bool :=
  match absSteps foldLimbs bs with
  | Some b1 =>
      match absSteps floorPass b1 with
      | Some b2 =>
          match absSteps lastPass b2 with
          | Some b3 =>
              (- 2 ^ 252 <=? radix limb (map fst b1)) && (radix limb (map snd b1) <? 2 ^ 252) &&
              canonical_below 12 b2 && canonical_below 11 b3 &&
              forallb (fun b => (0 <=? fst b) && (snd b <? 2 ^ 21)) (firstn 11 b3) &&
              (11 <? length b3)%nat
          | None => false
          end
      | None => false
      end
  | None => false
  end.

Lemma reduce_spec bs s :
  reduceBounds bs = true -> bounded bs s ->
  let s' := execSteps lastPass (execSteps floorPass (execSteps foldLimbs s)) in
  value s' = value s mod scOrder /\ (forall j, (j < 11)%nat -> 0 <= nth j s' 0 < 2 ^ 21) /\
  exists lo, value s' = lo + limb ^ Z.of_nat 11 * nth 11 s' 0 /\ 0 <= lo < limb ^ Z.of_nat 11 /\
             lo = value (firstn 11 s').
Proof.
  unfold reduceBounds. destruct (absSteps foldLimbs bs) as [b1 |] eqn:A1; [| discriminate].
  destruct (absSteps floorPass b1) as [b2 |] eqn:A2; [| discriminate].
  destruct (absSteps lastPass b2) as [b3 |] eqn:A3; [| discriminate].
  rewrite !andb_true_iff, Z.leb_le, Z.ltb_lt. intros (((((Hlo & Hhi) & C2) & C3) & F) & Ln) Hb.
  apply Nat.ltb_lt in Ln.
  destruct (steps_sound _ _ _ _ A1 Hb) as [B1 V1].
  destruct (finish_spec b1 b2 b3 A2 A3 Hlo Hhi C2 _ B1) as [B3 V3]. cbv zeta.
  split; [| split].
  - rewrite V3. rewrite Z.mod_divide in V1 by discriminate. destruct V1 as [k Hk].
    replace (value (execSteps foldLimbs s)) with (value s + k * scOrder) by lia.
    apply Z.mod_add. discriminate.
  - intros j Hj. destruct B3 as [L3 H3]. specialize (H3 j). unfold inside in H3.
    assert (j < length (firstn 11 b3))%nat as Lj by (rewrite length_firstn; lia).
    pose proof (proj1 (forallb_forall _ _) F _ (nth_In _ (0, 0) Lj)) as Fj. cbv beta in Fj.
    rewrite nth_firstn in Fj. destruct (Nat.ltb_spec j 11); [| lia].
    rewrite andb_true_iff, Z.leb_le, Z.ltb_lt in Fj. lia.
  - exact (canonical_split 11 _ _ C3 B3).
Qed.

(** The limbs that are loaded. *)
Definition bounds24 : list interval := repeat (0, 2 ^ 21 - 1) 23 ++ [(0, 2 ^ 29 - 1)].

Lemma bounds24_ok : reduceBounds bounds24 = true.
Proof. vm_compute. reflexivity. Qed.

(** ** Loads *)

Lemma le_val_radix l : le_val l = radix 256 l.
Proof. induction l as [| b l IH]; cbn [le_val radix]; [| rewrite IH]; reflexivity. Qed.

Lemma radix_app w a b : radix w (a ++ b) = radix w a + w ^ Z.of_nat (length a) * radix w b.
Proof.
  induction a as [| x a IH]; cbn [app radix length].
  - change (w ^ Z.of_nat 0) with 1. ring.
  - rewrite IH, Nat2Z.inj_succ, Z.pow_succ_r by lia. ring.
Qed.

Lemma le_val_skipn k s : bytes_ok s -> le_val (skipn k s) = le_val s / 2 ^ (8 * Z.of_nat k).
Proof.
  intros H. rewrite Z.pow_mul_r by lia. change (2 ^ 8) with 256.
  rewrite (le_val_radix s), (radix_split 256 s k), <- !le_val_radix, Z.mul_comm.
  destruct (Nat.le_gt_cases (length s) k) as [L | L].
  - rewrite skipn_all2 by lia. rewrite firstn_all2 by lia. cbn [le_val].
    rewrite Z.mul_0_l, Z.add_0_r. symmetry. apply Z.div_small.
    pose proof (le_val_bounds s H).
    assert (256 ^ Z.of_nat (length s) <= 256 ^ Z.of_nat k) by (apply Z.pow_le_mono_r; lia). lia.
  - rewrite Z.div_add by (apply Z.pow_nonzero; lia). rewrite Z.div_small; [reflexivity |].
    assert (bytes_ok (firstn k s)) as Hf.
    { rewrite <- (firstn_skipn k s) in H. apply Forall_app in H. tauto. }
    pose proof (le_val_bounds _ Hf) as B. rewrite length_firstn, Nat.min_l in B by lia. exact B.
Qed.

Lemma load3_val s : bytes_ok s -> load3 s = le_val s mod 2 ^ 24.
Proof.
  intros H. rewrite load3_spec by exact H.
  pose proof (nth_byte s 0 H). pose proof (nth_byte s 1 H). pose proof (nth_byte s 2 H).
  unfold byte_ok in *. apply (Z.mod_unique_pos _ _ (radix 256 (skipn 3 s))); [lia |].
  rewrite le_val_radix. change s with (skipn 0 s) at 1.
  rewrite (radix_skipn 256 0), (radix_skipn 256 1), (radix_skipn 256 2). ring.
Qed.

Lemma load4_val s : bytes_ok s -> load4 s = le_val s mod 2 ^ 32.
Proof.
  intros H. rewrite load4_spec by exact H.
  pose proof (nth_byte s 0 H). pose proof (nth_byte s 1 H). pose proof (nth_byte s 2 H).
  pose proof (nth_byte s 3 H).
  unfold byte_ok in *. apply (Z.mod_unique_pos _ _ (radix 256 (skipn 4 s))); [lia |].
  rewrite le_val_radix. change s with (skipn 0 s) at 1.
  rewrite (radix_skipn 256 0), (radix_skipn 256 1), (radix_skipn 256 2), (radix_skipn 256 3). ring.
Qed.

Lemma div_mod_shift x r n m :
  0 <= r -> 0 <= n -> r + n <= m -> x mod 2 ^ m / 2 ^ r mod 2 ^ n = x / 2 ^ r mod 2 ^ n.
Proof.
  intros Hr Hn Hm. apply Z.bits_inj'. intros i Hi. destruct (Z.lt_ge_cases i n) as [L | L].
  - rewrite !Z.mod_pow2_bits_low, !Z.div_pow2_bits by lia.
    now rewrite Z.mod_pow2_bits_low by lia.
  - now rewrite !Z.mod_pow2_bits_high by lia.
Qed.

Lemma mask21 x : Z.land 2097151 x = x mod 2 ^ 21.
Proof. rewrite Z.land_comm. apply (Z.land_ones x 21). lia. Qed.

Section loads.
Context (s : list Z) (Ok : bytes_ok s).

Lemma limb4 k r n :
  n = 8 * Z.of_nat k + r -> 0 <= r <= 11 ->
  Z.land 2097151 (Z.shiftr (load4 (skipn k s)) r) = le_val s / 2 ^ n mod 2 ^ 21.
Proof.
  intros -> Hr. rewrite mask21, load4_val by now apply bytes_ok_skipn.
  rewrite Z.shiftr_div_pow2, div_mod_shift, le_val_skipn by (auto; lia).
  rewrite Z.div_div by (try apply Z.pow_nonzero; try apply Z.pow_pos_nonneg; lia).
  now rewrite <- Z.pow_add_r by lia.
Qed.

Lemma limb3 k r n :
  n = 8 * Z.of_nat k + r -> 0 <= r <= 3 ->
  Z.land 2097151 (Z.shiftr (load3 (skipn k s)) r) = le_val s / 2 ^ n mod 2 ^ 21.
Proof.
  intros -> Hr. rewrite mask21, load3_val by now apply bytes_ok_skipn.
  rewrite Z.shiftr_div_pow2, div_mod_shift, le_val_skipn by (auto; lia).
  rewrite Z.div_div by (try apply Z.pow_nonzero; try apply Z.pow_pos_nonneg; lia).
  now rewrite <- Z.pow_add_r by lia.
Qed.

(** [n] limbs of 21 bits and what is above them. *)
Definition limbsOf (n : nat) (V : Z) : list Z :=
  map (fun i => V / 2 ^ (21 * Z.of_nat i) mod 2 ^ 21) (seq 0 n) ++ [V / 2 ^ (21 * Z.of_nat n)].

(** Match a loaded limb with its place in the number. *)
Ltac load_limb :=
  lazymatch goal with
  | |- Z.land 2097151 (Z.shiftr (load4 (skipn _ _)) _) = _ => apply limb4; [reflexivity | lia]
  | |- Z.land 2097151 (Z.shiftr (load3 (skipn _ _)) _) = _ => apply limb3; [reflexivity | lia]
  | |- Z.land 2097151 (load3 (skipn ?k ?s)) = _ => apply (limb3 k 0); [reflexivity | lia]
  | |- Z.land 2097151 (load3 ?s) = _ => apply (limb3 0 0); [reflexivity | lia]
  end.

Lemma top_limb k r n V :
  bytes_ok (skipn k s) -> V = le_val s -> (length s = k + 4)%nat -> 0 <= r ->
  n = 8 * Z.of_nat k + r ->
  Z.shiftr (load4 (skipn k s)) r = V / 2 ^ n.
Proof.
  intros H -> L Hr ->. rewrite load4_val by exact H.
  pose proof (le_val_bounds _ H) as B. rewrite length_skipn, L in B.
  replace (k + 4 - k)%nat with 4%nat in B by lia.
  rewrite Z.mod_small by exact B. rewrite Z.shiftr_div_pow2, le_val_skipn by (auto; lia).
  rewrite Z.div_div by (try apply Z.pow_nonzero; try apply Z.pow_pos_nonneg; lia).
  now rewrite <- Z.pow_add_r by lia.
Qed.

Lemma scLimbs12_spec : length s = 32%nat -> scLimbs12 s = limbsOf 11 (le_val s).
Proof.
  intros L. unfold scLimbs12, limbsOf. cbn [seq map app].
  repeat (apply f_equal2; [load_limb |]). apply f_equal2; [| reflexivity].
  apply top_limb; auto using bytes_ok_skipn; lia.
Qed.

Lemma scLimbs24_spec : length s = 64%nat -> scLimbs24 s = limbsOf 23 (le_val s).
Proof.
  intros L. unfold scLimbs24, limbsOf. cbn [seq map app].
  repeat (apply f_equal2; [load_limb |]). apply f_equal2; [| reflexivity].
  apply top_limb; auto using bytes_ok_skipn; lia.
Qed.
End loads.

Lemma limbsOf_value n V : value (limbsOf n V) = V.
Proof.
  unfold limbsOf, value. rewrite radix_app, length_map, length_seq.
  assert (radix limb (map (fun i => V / 2 ^ (21 * Z.of_nat i) mod 2 ^ 21) (seq 0 n)) =
          V mod 2 ^ (21 * Z.of_nat n)) as ->.
  { induction n as [| n IH].
    - cbn. now rewrite Z.mod_1_r.
    - rewrite seq_S, map_app, radix_app, IH, length_map, length_seq. cbn [map radix Nat.add].
      replace (21 * Z.of_nat (S n)) with (21 * Z.of_nat n + 21) by lia.
      rewrite Z.pow_add_r, Z.rem_mul_r by (try apply Z.pow_nonzero; try apply Z.pow_pos_nonneg; lia).
      unfold limb. rewrite <- Z.pow_mul_r by lia. ring. }
  cbn [radix]. unfold limb. rewrite <- Z.pow_mul_r by lia.
  rewrite (Z.div_mod V (2 ^ (21 * Z.of_nat n))) at 3 by (apply Z.pow_nonzero; lia). ring.
Qed.

Lemma limbsOf_bounded n V m :
  0 <= V < 2 ^ (21 * Z.of_nat n + m) -> 0 <= m ->
  bounded (repeat (0, 2 ^ 21 - 1) n ++ [(0, 2 ^ m - 1)]) (limbsOf n V).
Proof.
  intros HV Hm. unfold limbsOf. set (f := fun i => V / 2 ^ (21 * Z.of_nat i) mod 2 ^ 21).
  split; [now rewrite !length_app, repeat_length, length_map, length_seq |]. intros j.
  destruct (Nat.lt_ge_cases j n) as [L | L].
  - rewrite !app_nth1 by (rewrite ?length_map, ?length_seq, ?repeat_length; lia).
    rewrite (nth_indep _ _ (0, 2 ^ 21 - 1)), nth_repeat by (rewrite repeat_length; lia).
    rewrite (nth_indep _ 0 (f O)), map_nth by (rewrite length_map, length_seq; lia).
    unfold f, inside. cbn [fst snd]. pose proof (Z.mod_pos_bound (V / 2 ^ (21 * Z.of_nat (nth j (seq 0 n) O))) (2 ^ 21)). lia.
  - rewrite !app_nth2 by (rewrite ?length_map, ?length_seq, ?repeat_length; lia).
    rewrite repeat_length, length_map, length_seq.
    destruct (j - n)%nat as [| [| k]]; unfold inside; cbn [nth fst snd]; try lia.
    rewrite Z.pow_add_r in HV by lia.
    assert (0 < 2 ^ (21 * Z.of_nat n)) by (apply Z.pow_pos_nonneg; lia).
    split; [apply Z.div_pos; lia |].
    assert (V / 2 ^ (21 * Z.of_nat n) < 2 ^ m) by (apply Z.div_lt_upper_bound; lia). lia.
Qed.

(** ** Stores *)

Lemma scPack_ok s : bytes_ok (scPack s) /\ length (scPack s) = 32%nat.
Proof.
  split; [| reflexivity].
  repeat (apply Forall_cons; [apply uint8_range |]). apply Forall_nil.
Qed.

Lemma scPack_val s :
  (forall j, (j < 11)%nat -> 0 <= nth j s 0 < 2 ^ 21) -> 0 <= nth 11 s 0 < 2 ^ 22 ->
  le_val (scPack s) = value (firstn 11 s) + limb ^ Z.of_nat 11 * nth 11 s 0.
Proof.
  intros H H11.
  assert (value (firstn 11 s) =
    nth 0 s 0 + 2 ^ 21 * nth 1 s 0 + 2 ^ 42 * nth 2 s 0 + 2 ^ 63 * nth 3 s 0 +
    2 ^ 84 * nth 4 s 0 + 2 ^ 105 * nth 5 s 0 + 2 ^ 126 * nth 6 s 0 + 2 ^ 147 * nth 7 s 0 +
    2 ^ 168 * nth 8 s 0 + 2 ^ 189 * nth 9 s 0 + 2 ^ 210 * nth 10 s 0) as ->.
  { unfold value. rewrite !radix_firstn_succ. cbn [firstn radix]. unfold limb.
    rewrite <- !Z.pow_mul_r by lia.
    cbn [Z.of_nat Pos.of_succ_nat Z.mul Pos.mul Pos.succ Pos.add]. ring. }
  pose proof (H 0%nat ltac:(lia)). pose proof (H 1%nat ltac:(lia)). pose proof (H 2%nat ltac:(lia)).
  pose proof (H 3%nat ltac:(lia)). pose proof (H 4%nat ltac:(lia)). pose proof (H 5%nat ltac:(lia)).
  pose proof (H 6%nat ltac:(lia)). pose proof (H 7%nat ltac:(lia)). pose proof (H 8%nat ltac:(lia)).
  pose proof (H 9%nat ltac:(lia)). pose proof (H 10%nat ltac:(lia)). clear H.
  change (limb ^ Z.of_nat 11) with (2 ^ 231). unfold scPack. cbv zeta.
  generalize dependent (nth 0 s 0); intros s0 B0. generalize dependent (nth 1 s 0); intros s1 B1.
  generalize dependent (nth 2 s 0); intros s2 B2. generalize dependent (nth 3 s 0); intros s3 B3.
  generalize dependent (nth 4 s 0); intros s4 B4. generalize dependent (nth 5 s 0); intros s5 B5.
  generalize dependent (nth 6 s 0); intros s6 B6. generalize dependent (nth 7 s 0); intros s7 B7.
  generalize dependent (nth 8 s 0); intros s8 B8. generalize dependent (nth 9 s 0); intros s9 B9.
  generalize dependent (nth 10 s 0); intros s10 B10. generalize dependent (nth 11 s 0); intros s11 B11.
  rewrite !(uint8_joint int64) by (first [exact int64_mod8 | split; lia | lia]).
  rewrite !uint8_shr by lia. cbn [le_val].
  pose proof (limb_split2 8 16 s0 ltac:(lia)) as S0. change (s0 mod 2 ^ 8) with (s0 mod 256) in S0.
  pose proof (limb_split 3 11 19 s1 ltac:(lia)) as S1.
  pose proof (limb_split2 6 14 s2 ltac:(lia)) as S2.
  pose proof (limb_split 1 9 17 s3 ltac:(lia)) as S3.
  pose proof (limb_split 4 12 20 s4 ltac:(lia)) as S4.
  pose proof (limb_split2 7 15 s5 ltac:(lia)) as S5.
  pose proof (limb_split 2 10 18 s6 ltac:(lia)) as S6.
  pose proof (limb_split2 5 13 s7 ltac:(lia)) as S7.
  pose proof (limb_split2 8 16 s8 ltac:(lia)) as S8. change (s8 mod 2 ^ 8) with (s8 mod 256) in S8.
  pose proof (limb_split 3 11 19 s9 ltac:(lia)) as S9.
  pose proof (limb_split2 6 14 s10 ltac:(lia)) as S10.
  pose proof (limb_split 1 9 17 s11 ltac:(lia)) as S11.
  rewrite (Z.mod_small (s7 / 2 ^ 13)) by (Z.div_mod_to_equations; lia).
  rewrite (Z.mod_small (s11 / 2 ^ 17)) by (Z.div_mod_to_equations; lia).
  change (2 ^ 0) with 1. rewrite !Z.div_1_r.
  repeat match goal with |- context [8 - ?b] =>
    let c := eval compute in (8 - b) in change (8 - b) with c end.
  revert S0 S1 S2 S3 S4 S5 S6 S7 S8 S9 S10 S11. clear.
  generalize_div_mod. intros. subst. ring.
Qed.

(** ** [ScReduce] and [ScMulAdd] *)

(** The canonical encoding of a scalar modulo [l]. *)
Lemma scOrder_bound x : 0 <= x mod scOrder < 2 ^ 253.
Proof. pose proof (Z.mod_pos_bound x scOrder eq_refl). unfold scOrder in *. lia. Qed.

Lemma pack_reduced bs s V :
  reduceBounds bs = true -> bounded bs s -> value s mod scOrder = V mod scOrder ->
  scPack (execSteps lastPass (execSteps floorPass (execSteps foldLimbs s))) =
  le_bytes 32 (V mod scOrder).
Proof.
  intros R Hb E. destruct (reduce_spec bs s R Hb) as (Vs & Hl & lo & Es & Hlo & Elo).
  generalize dependent (execSteps lastPass (execSteps floorPass (execSteps foldLimbs s))).
  intros s' Vs Hl Es Elo. pose proof (scOrder_bound V) as Bv. rewrite Vs, E in Es.
  change (limb ^ Z.of_nat 11) with (2 ^ 231) in Es, Hlo.
  assert (0 <= nth 11 s' 0 < 2 ^ 22) as H11 by lia.
  destruct (scPack_ok s') as [Ok L].
  apply le_val_inj; [exact Ok | apply le_bytes_ok | now rewrite length_le_bytes |].
  rewrite (scPack_val s' Hl H11), le_val_le_bytes.
  change (limb ^ Z.of_nat 11) with (2 ^ 231). rewrite <- Elo, <- Es.
  symmetry. apply Z.mod_small. change (256 ^ Z.of_nat 32) with (2 ^ 256). lia.
Qed.

Theorem ScReduce_spec s :
  length s = 64%nat -> bytes_ok s -> ScReduce s = le_bytes 32 (le_val s mod scOrder).
Proof.
  intros L Ok. unfold ScReduce. cbv zeta. rewrite (scLimbs24_spec s Ok L).
  apply (pack_reduced bounds24); [exact bounds24_ok | | now rewrite limbsOf_value].
  apply (limbsOf_bounded 23 _ 29); [| lia].
  pose proof (le_val_bounds s Ok) as B. rewrite L in B. exact B.
Qed.

(** The 23 products, with room to spare. *)
Definition boundsProducts : list interval := repeat (- 2 ^ 51, 2 ^ 51) 23 ++ [(0, 0)].

Definition boundsCarried : list interval :=
  match absSteps productCarries boundsProducts with Some bs => bs | None => [] end.

Lemma boundsCarried_ok :
  absSteps productCarries boundsProducts = Some boundsCarried /\
  reduceBounds boundsCarried = true.
Proof. split; vm_compute; reflexivity. Qed.

(** Twelve limbs as [scLimbs12] loads them. *)
Definition limbs12_ok (a : list Z) : Prop :=
  length a = 12%nat /\ (forall j, within (2 ^ 21) (nth j a 0) \/ j = 11%nat) /\
  within (2 ^ 25) (nth 11 a 0).

Lemma limbs12_within a j : limbs12_ok a -> (j < 11)%nat -> within (2 ^ 21) (nth j a 0).
Proof. intros (_ & H & _) Hj. destruct (H j); [assumption | lia]. Qed.

Lemma value12 a :
  length a = 12%nat ->
  value a = fold_right (fun j acc => nth j a 0 + 2 ^ 21 * acc) 0 (seq 0 12).
Proof.
  intros L. do 12 (destruct a as [| ? a]; [discriminate L |]). destruct a; [| discriminate L].
  reflexivity.
Qed.

Lemma scProducts_spec a b c :
  limbs12_ok a -> limbs12_ok b -> limbs12_ok c ->
  bounded boundsProducts (scProducts a b c) /\
  value (scProducts a b c) = value a * value b + value c.
Proof.
  intros Ha Hb Hc.
  pose proof (fun j => limbs12_within a j Ha) as A. pose proof (fun j => limbs12_within b j Hb) as B.
  pose proof (fun j => limbs12_within c j Hc) as C.
  pose proof (A 0%nat ltac:(lia)). pose proof (A 1%nat ltac:(lia)). pose proof (A 2%nat ltac:(lia)).
  pose proof (A 3%nat ltac:(lia)). pose proof (A 4%nat ltac:(lia)). pose proof (A 5%nat ltac:(lia)).
  pose proof (A 6%nat ltac:(lia)). pose proof (A 7%nat ltac:(lia)). pose proof (A 8%nat ltac:(lia)).
  pose proof (A 9%nat ltac:(lia)). pose proof (A 10%nat ltac:(lia)). clear A.
  pose proof (B 0%nat ltac:(lia)). pose proof (B 1%nat ltac:(lia)). pose proof (B 2%nat ltac:(lia)).
  pose proof (B 3%nat ltac:(lia)). pose proof (B 4%nat ltac:(lia)). pose proof (B 5%nat ltac:(lia)).
  pose proof (B 6%nat ltac:(lia)). pose proof (B 7%nat ltac:(lia)). pose proof (B 8%nat ltac:(lia)).
  pose proof (B 9%nat ltac:(lia)). pose proof (B 10%nat ltac:(lia)). clear B.
  pose proof (C 0%nat ltac:(lia)). pose proof (C 1%nat ltac:(lia)). pose proof (C 2%nat ltac:(lia)).
  pose proof (C 3%nat ltac:(lia)). pose proof (C 4%nat ltac:(lia)). pose proof (C 5%nat ltac:(lia)).
  pose proof (C 6%nat ltac:(lia)). pose proof (C 7%nat ltac:(lia)). pose proof (C 8%nat ltac:(lia)).
  pose proof (C 9%nat ltac:(lia)). pose proof (C 10%nat ltac:(lia)). clear C.
  rewrite (value12 a) by apply Ha. rewrite (value12 b) by apply Hb. rewrite (value12 c) by apply Hc.
  destruct Ha as (_ & _ & Ha), Hb as (_ & _ & Hb), Hc as (_ & _ & Hc).
  remember (scProducts a b c) as r eqn:Hr. cbv beta delta [scProducts] in Hr.
  do 59 (exact_let Hr). intro_let Hr Z23. subst s23 r. split.
  - split; [reflexivity |]. intros j.
    do 24 (destruct j as [| j];
      [unfold inside; cbn [nth fst snd boundsProducts repeat app];
       first [ split; discriminate
             | lazymatch goal with |- _ <= ?x <= _ =>
                 assert (within (2 ^ 51) x) as Wx by bound; exact Wx end ] |]).
    rewrite !nth_overflow by (cbn [length boundsProducts repeat app]; lia). split; discriminate.
  - cbn [seq fold_right]. unfold value. cbn [radix]. unfold limb. subst. ring.
Qed.

Lemma limbsOf_limbs12 V : 0 <= V < 2 ^ 256 -> limbs12_ok (limbsOf 11 V).
Proof.
  intros HV. pose proof (limbsOf_bounded 11 V 25 ltac:(exact HV) ltac:(lia)) as [L H].
  split; [rewrite L; reflexivity |]. split.
  - intros j. specialize (H j). destruct (Nat.lt_ge_cases j 11) as [Hj | Hj].
    + left. rewrite app_nth1 in H by (rewrite repeat_length; lia).
      rewrite (nth_indep _ _ (0, 2 ^ 21 - 1)), nth_repeat in H by (rewrite repeat_length; lia).
      unfold inside in H. cbn [fst snd] in H. unfold within. lia.
    + destruct (Nat.eq_dec j 11); [now right | left].
      rewrite nth_overflow by (rewrite L, length_app, repeat_length; cbn; lia). unfold within; lia.
  - specialize (H 11%nat). unfold inside in H. cbn [nth repeat app fst snd] in H.
    unfold within. lia.
Qed.

Theorem ScMulAdd_spec a b c :
  length a = 32%nat -> length b = 32%nat -> length c = 32%nat ->
  bytes_ok a -> bytes_ok b -> bytes_ok c ->
  ScMulAdd a b c = le_bytes 32 ((le_val a * le_val b + le_val c) mod scOrder).
Proof.
  intros La Lb Lc Oa Ob Oc. unfold ScMulAdd. cbv zeta.
  rewrite (scLimbs12_spec a Oa La), (scLimbs12_spec b Ob Lb), (scLimbs12_spec c Oc Lc).
  assert (forall s, length s = 32%nat -> bytes_ok s -> limbs12_ok (limbsOf 11 (le_val s))) as K.
  { intros s L O. apply limbsOf_limbs12. pose proof (le_val_bounds s O) as B. now rewrite L in B. }
  destruct (scProducts_spec _ _ _ (K a La Oa) (K b Lb Ob) (K c Lc Oc)) as [Hb V].
  rewrite !limbsOf_value in V. generalize dependent (scProducts (limbsOf 11 (le_val a))
    (limbsOf 11 (le_val b)) (limbsOf 11 (le_val c))). intros s Hb V.
  destruct boundsCarried_ok as [A R]. destruct (steps_sound _ _ _ _ A Hb) as [Hb' V'].
  apply (pack_reduced boundsCarried); [exact R | exact Hb' |].
  rewrite <- V. rewrite Z.mod_divide in V' by discriminate. destruct V' as [k Hk].
  replace (value (execSteps productCarries s)) with (value s + k * scOrder) by lia.
  apply Z.mod_add. discriminate.
Qed.

(** ** Properties *)

(** The canonical 32 bytes of a value modulo the order. *)
Lemma canonical_bytes x s :
  s = le_bytes 32 (x mod scOrder) ->
  le_val s = x mod scOrder /\ 0 <= le_val s < scOrder /\ length s = 32%nat /\ bytes_ok s.
Proof.
  intros ->. pose proof (scOrder_bound x) as Bd.
  rewrite le_val_le_bytes, Z.mod_small by (change (256 ^ Z.of_nat 32) with (2 ^ 256); lia).
  split; [reflexivity |]. split; [now apply Z.mod_pos_bound |].
  split; [apply length_le_bytes | apply le_bytes_ok].
Qed.

(** C22: [ScReduce] maps every 64-byte string to the canonical 32 bytes of
    its little-endian value modulo the order of the base point, and [ScMulAdd] all
    32-byte strings [a], [b] and [c] to those of a b + c; no intermediate limb
    overflows an [int64]. *)
Theorem scalar_arithmetic s a b c :
  length s = 64%nat -> bytes_ok s ->
  length a = 32%nat -> length b = 32%nat -> length c = 32%nat ->
  bytes_ok a -> bytes_ok b -> bytes_ok c ->
  (le_val (ScReduce s) = le_val s mod scOrder /\ 0 <= le_val (ScReduce s) < scOrder /\
   length (ScReduce s) = 32%nat /\ bytes_ok (ScReduce s)) /\
  (le_val (ScMulAdd a b c) = (le_val a * le_val b + le_val c) mod scOrder /\
   0 <= le_val (ScMulAdd a b c) < scOrder /\ length (ScMulAdd a b c) = 32%nat /\
   bytes_ok (ScMulAdd a b c)).
Proof.
  intros L Ok La Lb Lc Oa Ob Oc. split; apply canonical_bytes.
  - exact (ScReduce_spec s L Ok).
  - exact (ScMulAdd_spec a b c La Lb Lc Oa Ob Oc).
Qed.

Lemma scalar_arithmetic_witness :
  let m := repeat 255 32 in
  le_val (ScReduce (repeat 255 64)) = (2 ^ 512 - 1) mod scOrder /\
  le_val (ScMulAdd m m m) = (le_val m * le_val m + le_val m) mod scOrder.
Proof.
  assert (forall n, bytes_ok (repeat 255 n)) as Ok
    by (intros n; apply Forall_forall; intros x ->%repeat_spec; unfold byte_ok; lia).
  destruct (scalar_arithmetic (repeat 255 64) (repeat 255 32) (repeat 255 32) (repeat 255 32))
    as ((R & _) & (M & _)); try reflexivity; try apply Ok.
  exact (conj R M).
Defined.
