(* ===== verification/GroupOrder.v ===== *)
(** * The order of the base point

    [l B = 0] for [l = 2^252 + 27742317777372353535851937790883648493], by
    running [GeScalarMultBase] on [l].  Multiplying [B] by a scalar therefore
    depends on the scalar modulo [l] only, which is what makes the reduction of
    signatures modulo [l] sound. *)

From S2P Require Import Prelude Primality Field25519 Edwards FieldElement FieldCodec GroupElement BaseTable BasePoint ScalarMult Scalar.

Definition is_identity (e : ExtendedGroupElement) : bool :=
  (fe_val (eX e) mod prime25519 =? 0) &&
  ((fe_val (eY e) - fe_val (eZ e)) mod prime25519 =? 0).

Lemma is_identity_spec e P : ext_repr e P -> is_identity e = true -> P = pzero.
Proof.
  intros (z & Hz & [_ RX] & [_ RY] & [_ RZ] & _) H.
  apply andb_true_iff in H as [HX HY]. apply Z.eqb_eq in HX, HY.
  assert (fe (eX e) = 0%F) as X0 by (apply (proj2 (of_Z_eq _ 0)); exact HX).
  assert (fe (eY e) = fe (eZ e)) as YZ.
  { apply Zmod.sub_eq_0. unfold fe. rewrite <- of_Z_sub. apply (proj2 (of_Z_eq _ 0)). exact HY. }
  rewrite X0 in RX. rewrite YZ, RZ in RY. apply point_eq; cbn [px py pzero].
  - symmetry in RX. apply F_mul_0 in RX as [E | E]; [exact E | contradiction].
  - apply (F_mul_cancel z _ _ Hz). rewrite (Zmod.mul_comm z (py P)), <- RY.
    symmetry. apply Zmod.mul_1_r.
Qed.

Lemma order_scalar : scalar_ok (le_bytes 32 scOrder).
Proof.
  split; [apply length_le_bytes |]. split; [apply le_bytes_ok | vm_compute; discriminate].
Qed.

Lemma order_computed : is_identity (GeScalarMultBase (le_bytes 32 scOrder)) = true.
Proof. vm_compute. reflexivity. Qed.

Lemma base_order : zmul scOrder B = pzero.
Proof.
  pose proof (GeScalarMultBase_spec _ order_scalar) as H.
  rewrite le_val_le_bytes in H.
  exact (is_identity_spec _ _ H order_computed).
Qed.

Lemma zmul_mod_order n : zmul (n mod scOrder) B = zmul n B.
Proof.
  rewrite (Z.div_mod n scOrder) at 2 by discriminate.
  rewrite zmul_add, Z.mul_comm, zmul_mul, base_order, zmul_zero, padd_zero_l. reflexivity.
Qed.

Lemma zmul_cong m n : m mod scOrder = n mod scOrder -> zmul m B = zmul n B.
Proof. intros H. now rewrite <- (zmul_mod_order m), H, zmul_mod_order. Qed.

(** ** Properties *)

(** C23: every entry of the two precomputed tables is the multiple of the base
    point that the code takes it for: [base[i][j]] is (j+1) 256^i B and [bi[i]] is
    (2i+1) B, for all 264 entries.  The constant that the scalar code reduces by
    annihilates that point, so that scalars may be reduced modulo it before they
    multiply it. *)
Theorem base_point i j k n :
  (i < 32)%nat -> (j < 8)%nat -> (k < 8)%nat ->
  pre_repr (nth j (nth i base []) PreComputed_Zero) (zmul (Z.of_nat (S j) * 256 ^ Z.of_nat i) B) /\
  pre_repr (nth k bi PreComputed_Zero) (zmul (2 * Z.of_nat k + 1) B) /\
  zmul scOrder B = pzero /\ zmul (n mod scOrder) B = zmul n B.
Proof.
  intros Hi Hj Hk. split; [now apply base_spec |]. split; [now apply bi_spec |].
  split; [exact base_order | apply zmul_mod_order].
Qed.

Lemma base_point_witness :
  pre_repr (nth 7 (nth 31 base []) PreComputed_Zero) (zmul (Z.of_nat 8 * 256 ^ Z.of_nat 31) B) /\
  pre_repr (nth 7 bi PreComputed_Zero) (zmul (2 * Z.of_nat 7 + 1) B).
Proof. destruct (base_point 31 7 7 0) as (H & H' & _); [lia .. |]. exact (conj H H'). Defined.
