(* ===== verification/Sha2.v ===== *)
(** * SHA-512 and SHA-256

    The hash functions of the Go standard library that the sources call
    ([crypto/sha512] in [ed25519] and [cosi], [crypto/sha256] in [tool.go]), as
    FIPS 180-4 defines them.  The two differ in the word size, the constants and
    the rotations only, which are the fields of [sha2]. *)

From S2P Require Import Prelude.

Record sha2 := Sha2 {
  word : Z;                        (* bits of a word *)
  rounds : nat;
  constants : list Z;
  initial : list Z;
  big0 : Z * Z * Z;  big1 : Z * Z * Z;      (* the rotations of Sigma *)
  small0 : Z * Z * Z;  small1 : Z * Z * Z }. (* two rotations and a shift, of sigma *)

Section sha2.
Context (h : sha2).

Definition wrapWord (x : Z) : Z := Z.land x (Z.ones (word h)).

Definition rotr (x n : Z) : Z :=
  Z.lor (Z.shiftr x n) (wrapWord (Z.shiftl x (word h - n))).

Definition bigSigma (r : Z * Z * Z) (x : Z) : Z :=
  let '(a, b, c) := r in Z.lxor (Z.lxor (rotr x a) (rotr x b)) (rotr x c).

Definition smallSigma (r : Z * Z * Z) (x : Z) : Z :=
  let '(a, b, c) := r in Z.lxor (Z.lxor (rotr x a) (rotr x b)) (Z.shiftr x c).

Definition Ch (x y z : Z) : Z :=
  Z.lxor (Z.land x y) (Z.land (Z.lxor x (Z.ones (word h))) z).

Definition Maj (x y z : Z) : Z :=
  Z.lxor (Z.lxor (Z.land x y) (Z.land x z)) (Z.land y z).

(** The message schedule, most recent word first. *)
Fixpoint schedule (n : nat) (w : list Z) : list Z :=
  match n with
  | O => w
  | S n =>
      let t := wrapWord (smallSigma (small1 h) (nth 1 w 0) + nth 6 w 0 +
                         smallSigma (small0 h) (nth 14 w 0) + nth 15 w 0) in
      schedule n (t :: w)
  end.

Definition state : Type := Z * Z * Z * Z * Z * Z * Z * Z.

Definition roundStep (s : state) (kw : Z * Z) : state :=
  let '(a, b, c, d, e, f, g, i) := s in
  let '(k, w) := kw in
  let t1 := i + bigSigma (big1 h) e + Ch e f g + k + w in
  let t2 := bigSigma (big0 h) a + Maj a b c in
  (wrapWord (t1 + t2), a, b, c, wrapWord (d + t1), e, f, g).

Definition compress (v : list Z) (block : list Z) : list Z :=
  let w := rev (schedule (rounds h - 16) (rev block)) in
  let s0 := (nth 0 v 0, nth 1 v 0, nth 2 v 0, nth 3 v 0,
             nth 4 v 0, nth 5 v 0, nth 6 v 0, nth 7 v 0) in
  let '(a, b, c, d, e, f, g, i) := fold_left roundStep (combine (constants h) w) s0 in
  map (fun p => wrapWord (fst p + snd p)) (combine v [a; b; c; d; e; f; g; i]).

(** Big-endian words. *)
Definition wordBytes : nat := Z.to_nat (word h / 8).

Definition be_val (l : list Z) : Z := fold_left (fun acc b => 256 * acc + b) l 0.

Definition be_bytes (n : nat) (x : Z) : list Z := rev (le_bytes n x).

Fixpoint chunks (n : nat) (size : nat) (l : list Z) : list (list Z) :=
  match n with
  | O => []
  | S n => firstn size l :: chunks n size (skipn size l)
  end.

Definition blockBytes : nat := 16 * wordBytes.

(** Padding: a one bit, zeros, and the bit length in two words. *)
Definition pad (msg : list Z) : list Z :=
  let n := length msg in
  let rest := Nat.modulo (n + 1 + 2 * wordBytes) blockBytes in
  let zeros := if Nat.eqb rest 0 then O else (blockBytes - rest)%nat in
  msg ++ [128] ++ repeat 0 zeros ++ be_bytes (2 * wordBytes) (8 * Z.of_nat n).

Definition digest (msg : list Z) : list Z :=
  let p := pad msg in
  let blocks := chunks (length p / blockBytes) blockBytes p in
  let v := fold_left (fun v b => compress v (map be_val (chunks 16 wordBytes b))) blocks
             (initial h) in
  flat_map (be_bytes wordBytes) v.
End sha2.

(** The constants are the first bits of the fractional parts of the square and
    cube roots of the first primes. *)
Definition isPrime (n : nat) : bool :=
  forallb (fun d => negb (n mod d =? 0)%nat) (seq 2 (n - 2)).

Definition firstPrimes (n : nat) : list Z :=
  map Z.of_nat (firstn n (filter isPrime (seq 2 408))).

(** The largest number of at most [n] bits, from [r] on, whose [k]-th power is at
    most [x]. *)
Fixpoint rootBits (n : nat) (k x r : Z) : Z :=
  match n with
  | O => r
  | S n =>
      let r' := r + 2 ^ Z.of_nat n in
      rootBits n k x (if r' ^ k <=? x then r' else r)
  end.

Definition rootFraction (w k p : Z) : Z :=
  rootBits (Z.to_nat w + 5) k (p * 2 ^ (k * w)) 0 mod 2 ^ w.

Definition cubeRoots512 : list Z := Eval vm_compute in map (rootFraction 64 3) (firstPrimes 80).

Definition squareRoots512 : list Z := Eval vm_compute in map (rootFraction 64 2) (firstPrimes 8).

Definition cubeRoots256 : list Z := Eval vm_compute in map (rootFraction 32 3) (firstPrimes 64).

Definition squareRoots256 : list Z := Eval vm_compute in map (rootFraction 32 2) (firstPrimes 8).

Definition SHA512 : sha2 := Sha2 64 80
  cubeRoots512
  squareRoots512
  (28, 34, 39) (14, 18, 41) (1, 8, 7) (19, 61, 6).

Definition SHA256 : sha2 := Sha2 32 64
  cubeRoots256
  squareRoots256
  (2, 13, 22) (6, 11, 25) (7, 18, 3) (17, 19, 10).

Definition sha512 (msg : list Z) : list Z := digest SHA512 msg.

Definition sha256 (msg : list Z) : list Z := digest SHA256 msg.

(** ** Shape of a digest *)

Lemma compress_length h v block : length v = 8%nat -> length (compress h v block) = 8%nat.
Proof.
  intros L. unfold compress.
  destruct (fold_left _ _ _) as [[[[[[[a b] c] d] e] f] g] i].
  rewrite length_map, length_combine, L. reflexivity.
Qed.

Lemma digest_length h msg :
  length (initial h) = 8%nat -> length (digest h msg) = (8 * wordBytes h)%nat.
Proof.
  intros L. unfold digest. cbv zeta.
  assert (forall bs v, length v = 8%nat -> length (fold_left (fun v b =>
    compress h v (map be_val (chunks 16 (wordBytes h) b))) bs v) = 8%nat) as LF.
  { induction bs as [| b bs IH]; intros v Lv; [exact Lv |]. now apply IH, compress_length. }
  specialize (LF (chunks (length (pad h msg) / blockBytes h) (blockBytes h) (pad h msg)) _ L).
  generalize dependent (fold_left (fun v b => compress h v (map be_val (chunks 16 (wordBytes h) b)))
    (chunks (length (pad h msg) / blockBytes h) (blockBytes h) (pad h msg)) (initial h)).
  intros v Lv. rewrite <- Lv. clear.
  induction v as [| x v IH]; [reflexivity |].
  cbn [flat_map length]. rewrite length_app, IH. unfold be_bytes.
  rewrite length_rev, length_le_bytes. lia.
Qed.

Lemma digest_ok h msg : bytes_ok (digest h msg).
Proof.
  unfold digest. cbv zeta. generalize (fold_left (fun v b =>
    compress h v (map be_val (chunks 16 (wordBytes h) b)))
    (chunks (length (pad h msg) / blockBytes h) (blockBytes h) (pad h msg)) (initial h)).
  intros v. induction v as [| x v IH]; [constructor |].
  cbn [flat_map]. apply Forall_app. split; [| exact IH].
  apply Forall_rev, le_bytes_ok.
Qed.

Lemma sha512_length msg : length (sha512 msg) = 64%nat.
Proof. apply (digest_length SHA512). reflexivity. Qed.

Lemma sha512_ok msg : bytes_ok (sha512 msg).
Proof. apply digest_ok. Qed.

Lemma sha256_length msg : length (sha256 msg) = 32%nat.
Proof. apply (digest_length SHA256). reflexivity. Qed.

Lemma sha256_ok msg : bytes_ok (sha256 msg).
Proof. apply digest_ok. Qed.

#[export] Hint Resolve sha512_length sha512_ok sha256_length sha256_ok : bytes.

(** The digests of "abc", from the standard. *)
Example sha512_abc :
  firstn 8 (sha512 [97; 98; 99]) = [0xdd; 0xaf; 0x35; 0xa1; 0x93; 0x61; 0x7a; 0xba].
Proof. vm_compute. reflexivity. Qed.

Example sha256_abc :
  firstn 8 (sha256 [97; 98; 99]) = [0xba; 0x78; 0x16; 0xbf; 0x8f; 0x01; 0xcf; 0xea].
Proof. vm_compute. reflexivity. Qed.

#[global] Opaque sha512 sha256.
