(* ===== verification/Ed25519.v ===== *)
(** * Ed25519 signatures

    Model of [src/golang-x-crypto/ed25519/ed25519.go]: key generation, signing
    and verification over the group, scalar and hash code.  A signature by a
    generated key verifies, and verification decides exactly the group equation
    of the scheme. *)

From S2P Require Import Prelude Primality Field25519 Edwards FieldElement FieldCodec GroupElement BaseTable BasePoint ScalarMult Scalar GroupOrder Sha2.

Local Open Scope go_scope.

(** ** The code *)

Definition PublicKeySize : nat := 32.

Definition PrivateKeySize : nat := 64.

Definition SignatureSize : nat := 64.

Definition zero32 : list Z := repeat 0 32.

(** [priv.Public()]; a key of fewer than 32 bytes makes the slice panic. *)
Definition PrivateKey_Public (priv : list Z) : outcome (list Z) :=
  if (length priv <? 32)%nat then Panic
  else Return (copy (repeat 0 PublicKeySize) (skipn 32 priv)).

(** [digest[0] &= 248; digest[31] &= m; digest[31] |= 64]. *)
Definition clamp (m : Z) (digest : list Z) : list Z :=
  let digest := set_nth 0 (Z.land (nth 0 digest 0) 248) digest in
  let digest := set_nth 31 (Z.land (nth 31 digest 0) m) digest in
  set_nth 31 (Z.lor (nth 31 digest 0) 64) digest.

(** [read] is what [io.ReadFull] returns for 32 bytes: the bytes, or an error. *)
Definition GenerateKey (read : option (list Z)) : option (list Z * list Z) :=
  match read with
  | None => None
  | Some seed =>
      let digest := clamp 127 (sha512 seed) in
      let hBytes := copy zero32 digest in
      let A := GeScalarMultBase hBytes in
      let publicKeyBytes := Extended_ToBytes A in
      let privateKey := seed ++ publicKeyBytes in
      Some (publicKeyBytes, privateKey)
  end.

Definition Sign (privateKey message : list Z) : outcome (list Z) :=
  if negb (length privateKey =? PrivateKeySize)%nat then Panic
  else
    let digest1 := sha512 (firstn 32 privateKey) in
    let expandedSecretKey := clamp 63 (copy zero32 digest1) in
    let messageDigest := sha512 (skipn 32 digest1 ++ message) in
    let messageDigestReduced := ScReduce messageDigest in
    let R := GeScalarMultBase messageDigestReduced in
    let encodedR := Extended_ToBytes R in
    let hramDigest := sha512 (encodedR ++ skipn 32 privateKey ++ message) in
    let hramDigestReduced := ScReduce hramDigest in
    let s := ScMulAdd hramDigestReduced expandedSecretKey messageDigestReduced in
    Return (encodedR ++ s).

(** [crypto.Hash(0)] is the only hash function [Sign] accepts. *)
Definition PrivateKey_Sign (priv message : list Z) (hashFunc : Z) : outcome (option (list Z)) :=
  if negb (hashFunc =? 0) then Return None
  else sig <- Sign priv message;; Return (Some sig).

(** The zero value of a variable of type [ExtendedGroupElement]. *)
Definition Extended_var : ExtendedGroupElement := Ext FeZero FeZero FeZero FeZero.

(** [FeNeg(&A.X, &A.X); FeNeg(&A.T, &A.T)]. *)
Definition negate (A : ExtendedGroupElement) : ExtendedGroupElement :=
  Ext (FeNeg (eX A)) (eY A) (eZ A) (FeNeg (eT A)).

Fixpoint bytes_equal (x y : list Z) : bool :=
  match x, y with
  | [], [] => true
  | a :: x, b :: y => (a =? b) && bytes_equal x y
  | _, _ => false
  end.

Definition Verify (publicKey message sig : list Z) : outcome bool :=
  if negb (length publicKey =? PublicKeySize)%nat then Panic
  else if negb (length sig =? SignatureSize)%nat || negb (Z.land (nth 63 sig 0) 224 =? 0)
  then Return false
  else
    let publicKeyBytes := copy zero32 publicKey in
    let '(ok, A) := Extended_FromBytes Extended_var publicKeyBytes in
    if negb ok then Return false
    else
      let A := negate A in
      let digest := sha512 (firstn 32 sig ++ publicKey ++ message) in
      let hReduced := ScReduce digest in
      let b := copy zero32 (skipn 32 sig) in
      let R := GeDoubleScalarMultVartime hReduced A b in
      let checkR := Projective_ToBytes R in
      Return (bytes_equal (firstn 32 sig) checkR).

(** ** Scalars in range *)

Lemma nth_le_bytes n : forall i x,
  (i < n)%nat -> nth i (le_bytes n x) 0 = x / 256 ^ Z.of_nat i mod 256.
Proof.
  induction n as [| n IH]; intros i x Hi; [lia |]. destruct i as [| i]; cbn [le_bytes nth].
  - change (256 ^ Z.of_nat 0) with 1. now rewrite Z.div_1_r.
  - rewrite IH, Nat2Z.inj_succ, Z.pow_succ_r, Z.div_div by lia. reflexivity.
Qed.

Lemma top_byte x : 0 <= x < 2 ^ 256 -> nth 31 (le_bytes 32 x) 0 = x / 2 ^ 248.
Proof.
  intros H. rewrite nth_le_bytes by lia. change (256 ^ Z.of_nat 31) with (2 ^ 248).
  apply Z.mod_small. Z.div_mod_to_equations. lia.
Qed.

Lemma le_bytes_scalar x : 0 <= x < 2 ^ 255 -> scalar_ok (le_bytes 32 x).
Proof.
  intros H. split; [apply length_le_bytes |]. split; [apply le_bytes_ok |].
  rewrite top_byte by lia. Z.div_mod_to_equations. lia.
Qed.

Lemma le_bytes_val256 x : 0 <= x < 2 ^ 256 -> le_val (le_bytes 32 x) = x.
Proof.
  intros H. rewrite le_val_le_bytes. now apply Z.mod_small.
Qed.

(** The high bits [sig[63] & 224] of a scalar. *)
Lemma high_bits b : byte_ok b -> (Z.land b 224 =? 0) = (b <? 32).
Proof.
  intros H. apply Bool.eqb_prop.
  apply (Z_range_check (fun b => Bool.eqb (Z.land b 224 =? 0) (b <? 32)) 0 256);
    [vm_compute; reflexivity | exact H].
Qed.

(** A digest modulo the order, as the scalar the group code receives. *)
Definition reduced (digest : list Z) : Z := le_val digest mod scOrder.

Lemma reduced_bound digest : 0 <= reduced digest < 2 ^ 253.
Proof. apply scOrder_bound. Qed.

Lemma ScReduce_reduced digest :
  length digest = 64%nat -> bytes_ok digest ->
  ScReduce digest = le_bytes 32 (reduced digest) /\ scalar_ok (ScReduce digest) /\
  le_val (ScReduce digest) = reduced digest.
Proof.
  intros L Ok. rewrite (ScReduce_spec _ L Ok). fold (reduced digest).
  pose proof (reduced_bound digest).
  split; [reflexivity |]. split; [apply le_bytes_scalar; lia | apply le_bytes_val256; lia].
Qed.

(** ** Clamping *)

Lemma clamp_masks b : byte_ok b ->
  Z.lor (Z.land b 127) 64 = Z.lor (Z.land b 63) 64 /\ 0 <= Z.lor (Z.land b 63) 64 <= 127.
Proof.
  intros H.
  assert ((Z.lor (Z.land b 127) 64 =? Z.lor (Z.land b 63) 64) &&
          (0 <=? Z.lor (Z.land b 63) 64) && (Z.lor (Z.land b 63) 64 <=? 127) = true) as C.
  { apply (Z_range_check (fun b => (Z.lor (Z.land b 127) 64 =? Z.lor (Z.land b 63) 64) &&
      (0 <=? Z.lor (Z.land b 63) 64) && (Z.lor (Z.land b 63) 64 <=? 127)) 0 256);
      [vm_compute; reflexivity | exact H]. }
  rewrite !andb_true_iff, Z.eqb_eq, !Z.leb_le in C. tauto.
Qed.

Lemma set_nth_set_nth {A} i (x y : A) l : set_nth i x (set_nth i y l) = set_nth i x l.
Proof.
  revert i; induction l as [| z l IH]; intros [| i]; cbn; auto. now rewrite IH.
Qed.

Lemma clamp_eq m d :
  (31 < length d)%nat ->
  clamp m d = set_nth 31 (Z.lor (Z.land (nth 31 d 0) m) 64)
                (set_nth 0 (Z.land (nth 0 d 0) 248) d).
Proof.
  intros L. unfold clamp. cbv zeta.
  rewrite nth_set_nth, Nat.eqb_refl, set_nth_set_nth by (rewrite length_set_nth; lia).
  now rewrite nth_set_nth by lia.
Qed.

Lemma firstn_set_nth {A} n i (x : A) l : firstn n (set_nth i x l) = set_nth i x (firstn n l).
Proof.
  revert n i; induction l as [| y l IH]; intros [| n] [| i]; cbn; auto. now rewrite IH.
Qed.

(** The secret scalar of a seed: [GenerateKey] masks the top byte with 127 and
    [Sign] with 63, which makes no difference once bit 6 is set. *)
Definition secretScalar (seed : list Z) : list Z := clamp 63 (firstn 32 (sha512 seed)).

Lemma copy_zero32 d : (32 <= length d)%nat -> copy zero32 d = firstn 32 d.
Proof.
  intros L. unfold copy, zero32. rewrite repeat_length, skipn_all2, app_nil_r; [reflexivity |].
  rewrite repeat_length. exact L.
Qed.

Lemma GenerateKey_scalar seed :
  copy zero32 (clamp 127 (sha512 seed)) = secretScalar seed.
Proof.
  pose proof (sha512_length seed) as L. pose proof (sha512_ok seed) as Ok.
  pose proof (nth_byte _ 31 Ok) as Hb. unfold secretScalar.
  generalize dependent (sha512 seed). intros d L Ok Hb.
  rewrite (clamp_eq 127) by lia.
  rewrite copy_zero32 by (rewrite !length_set_nth; lia). rewrite !firstn_set_nth.
  rewrite (clamp_eq 63) by (rewrite length_firstn; lia).
  rewrite !nth_firstn. cbn [Nat.ltb Nat.leb]. now rewrite (proj1 (clamp_masks _ Hb)).
Qed.

Lemma secretScalar_ok seed : scalar_ok (secretScalar seed).
Proof.
  pose proof (sha512_length seed) as L. pose proof (sha512_ok seed) as Ok.
  pose proof (nth_byte _ 31 Ok) as Hb. pose proof (nth_byte _ 0 Ok) as Hb0. unfold secretScalar.
  generalize dependent (sha512 seed). intros d L Ok Hb Hb0.
  assert (length (firstn 32 d) = 32%nat) as Lf by (rewrite length_firstn; lia).
  rewrite clamp_eq by lia. destruct (clamp_masks _ Hb) as [_ Hm].
  rewrite !nth_firstn. cbn [Nat.ltb Nat.leb].
  assert (byte_ok (Z.land (nth 0 d 0) 248)) as H0.
  { apply (Z_range_check (fun b => (0 <=? Z.land b 248) && (Z.land b 248 <? 256)) 0 256) in Hb0;
      [| vm_compute; reflexivity]. rewrite andb_true_iff, Z.leb_le, Z.ltb_lt in Hb0. exact Hb0. }
  split; [now rewrite !length_set_nth |]. split.
  - apply bytes_ok_set_nth; [apply bytes_ok_set_nth | unfold byte_ok; lia]; [| exact H0].
    rewrite <- (firstn_skipn 32 d) in Ok. apply Forall_app in Ok. tauto.
  - rewrite nth_set_nth, Nat.eqb_refl by (rewrite length_set_nth; lia). lia.
Qed.

(** ** Verification decides the group equation *)

Lemma negate_spec A P : ext_repr A P -> ext_repr (negate A) (popp P).
Proof.
  intros (z & Hz & RX & RY & RZ & RT). exists z. unfold negate.
  split; [exact Hz |]. split_and; repr_by ltac:(ring).
Qed.

Lemma bytes_equal_spec x y : bytes_equal x y = true <-> x = y.
Proof.
  revert y; induction x as [| a x IH]; intros [| b y]; cbn [bytes_equal]; try easy.
  rewrite andb_true_iff, Z.eqb_eq, IH. split; [intros [-> ->] | intros [= -> ->]]; auto.
Qed.

(** The point [s B - h A] that the verifier compares with [R]. *)
Definition checkPoint (h s : Z) (A : point) : point := padd (zmul h (popp A)) (zmul s B).

Lemma check_encoding a s A P :
  scalar_ok a -> scalar_ok s -> ext_repr A P ->
  Projective_ToBytes (GeDoubleScalarMultVartime a (negate A) s) =
  encode_point (checkPoint (le_val a) (le_val s) P).
Proof.
  intros Ha Hs HA. apply Projective_ToBytes_spec.
  apply GeDoubleScalarMultVartime_spec; [now apply negate_spec | assumption ..].
Qed.

Definition signature_ok (pk message sig : list Z) : Prop :=
  length sig = 64%nat /\ nth 63 sig 0 < 32 /\
  exists A, decodes pk A /\
    firstn 32 sig =
    encode_point (checkPoint (reduced (sha512 (firstn 32 sig ++ pk ++ message)))
                    (le_val (skipn 32 sig)) A).

Lemma Verify_decides pk message sig :
  length pk = 32%nat -> bytes_ok pk -> bytes_ok sig ->
  exists b, Verify pk message sig = Return b /\ (b = true <-> signature_ok pk message sig).
Proof.
  intros Lpk Opk Osig. unfold Verify, signature_ok, PublicKeySize, SignatureSize.
  rewrite Lpk. cbn [Nat.eqb negb].
  destruct (Nat.eqb_spec (length sig) 64) as [Ls | Ls]; cbn [negb orb];
    [| exists false; split; [reflexivity | split; [discriminate | tauto]]].
  rewrite high_bits by now apply nth_byte.
  destruct (Z.ltb_spec (nth 63 sig 0) 32) as [Ht | Ht]; cbn [negb];
    [| exists false; split; [reflexivity | split; [discriminate | lia]]].
  rewrite copy_full by (rewrite Lpk; reflexivity).
  pose proof (FromBytes_spec Extended_var pk Lpk Opk) as F.
  destruct (Extended_FromBytes Extended_var pk) as [[] A]; cbn [negb].
  - destruct F as (P & D & R). eexists. split; [reflexivity |]. rewrite bytes_equal_spec.
    set (digest := sha512 (firstn 32 sig ++ pk ++ message)).
    destruct (ScReduce_reduced digest (sha512_length _) (sha512_ok _)) as (_ & Hs & Hv).
    assert (length (skipn 32 sig) = 32%nat) as L2 by (rewrite length_skipn; lia).
    rewrite copy_full by (rewrite L2; reflexivity).
    assert (scalar_ok (skipn 32 sig)) as Hb.
    { split; [exact L2 |]. split; [now apply bytes_ok_skipn |].
      rewrite nth_skipn. cbn [Nat.add]. lia. }
    rewrite (check_encoding _ _ _ _ Hs Hb R), Hv. split.
    + intros E. split; [exact Ls |]. split; [exact Ht |].
      exists P. split; assumption.
    + intros (_ & _ & P' & D' & E). now rewrite (decodes_inj _ _ _ D D').
  - exists false. split; [reflexivity |]. split; [discriminate |].
    intros (_ & _ & P & D & _). exfalso. exact (F P (proj1 D)).
Qed.

(** ** Signatures of generated keys *)

(** The public point of a seed, and the key pair [GenerateKey] makes of it. *)
Definition publicPoint (seed : list Z) : point := zmul (le_val (secretScalar seed)) B.

Lemma GenerateKey_spec seed :
  GenerateKey (Some seed) =
  Some (encode_point (publicPoint seed), seed ++ encode_point (publicPoint seed)).
Proof.
  unfold GenerateKey. rewrite GenerateKey_scalar.
  rewrite (Extended_ToBytes_spec _ _ (GeScalarMultBase_spec _ (secretScalar_ok seed))).
  reflexivity.
Qed.

(** The nonce and the challenge of a signature. *)
Definition nonce (seed message : list Z) : Z :=
  reduced (sha512 (skipn 32 (sha512 seed) ++ message)).

Definition challenge (R pk message : list Z) : Z := reduced (sha512 (R ++ pk ++ message)).

Lemma Sign_spec seed message :
  length seed = 32%nat ->
  let pk := encode_point (publicPoint seed) in
  let R := encode_point (zmul (nonce seed message) B) in
  Sign (seed ++ pk) message =
  Return (R ++ le_bytes 32 ((challenge R pk message * le_val (secretScalar seed) +
                             nonce seed message) mod scOrder)).
Proof.
  intros L pk R. unfold Sign, PrivateKeySize.
  rewrite length_app, L. unfold pk at 1. rewrite encode_point_length. cbn [Nat.add Nat.eqb negb].
  rewrite (firstn_app_exact 32), (skipn_app_exact 32) by exact L.
  destruct (ScReduce_reduced (sha512 (skipn 32 (sha512 seed) ++ message))
              (sha512_length _) (sha512_ok _)) as (En & Hn & Vn). fold (nonce seed message) in En, Vn.
  rewrite (Extended_ToBytes_spec _ _ (GeScalarMultBase_spec _ Hn)), Vn. fold R.
  destruct (ScReduce_reduced (sha512 (R ++ pk ++ message))
              (sha512_length _) (sha512_ok _)) as (Ec & Hc & Vc). fold (challenge R pk message) in Ec, Vc.
  rewrite copy_zero32 by (rewrite sha512_length; lia). fold (secretScalar seed).
  destruct (secretScalar_ok seed) as (Ls & Os & _).
  destruct Hn as (Ln & On & _), Hc as (Lc & Oc & _).
  rewrite ScMulAdd_spec by assumption. now rewrite Vn, Vc.
Qed.

(** The verification equation of an honest signature. *)
Lemma checkPoint_honest a r c :
  checkPoint c ((c * a + r) mod scOrder) (zmul a B) = zmul r B.
Proof.
  unfold checkPoint. rewrite zmul_mod_order, zmul_add, zmul_mul, zmul_popp.
  now rewrite <- padd_assoc, padd_opp_l, padd_zero_l.
Qed.

Lemma Sign_Verify seed message :
  length seed = 32%nat ->
  exists pk sk sig,
    GenerateKey (Some seed) = Some (pk, sk) /\ Sign sk message = Return sig /\
    Verify pk message sig = Return true.
Proof.
  intros L. eexists _, _, _. split; [apply GenerateKey_spec |].
  split; [apply (Sign_spec _ _ L) |].
  set (pk := encode_point (publicPoint seed)).
  set (R := encode_point (zmul (nonce seed message) B)).
  set (s := le_bytes 32 _).
  assert (length R = 32%nat) as LR by apply encode_point_length.
  assert (bytes_ok (R ++ s)) as Ok
    by (unfold R, s; auto with bytes).
  destruct (Verify_decides pk message (R ++ s)) as (b & E & Hb);
    [apply encode_point_length | apply encode_point_ok | exact Ok |].
  rewrite E. f_equal. apply Hb.
  pose proof (scOrder_bound (challenge R pk message * le_val (secretScalar seed) +
                             nonce seed message)) as Bs.
  split; [| split].
  - rewrite length_app, LR. reflexivity.
  - rewrite app_nth2, LR by lia. unfold s. rewrite top_byte by lia.
    Z.div_mod_to_equations. lia.
  - exists (publicPoint seed). split; [apply decodes_encode |].
    rewrite (firstn_app_exact 32), (skipn_app_exact 32) by exact LR.
    unfold s. rewrite le_bytes_val256 by lia. unfold publicPoint.
    unfold challenge at 1. rewrite checkPoint_honest. reflexivity.
Qed.

(** ** Properties *)

(** C7: [Verify] with a 32-byte key returns, and accepts exactly the
    64-byte signatures whose scalar has its top three bits clear, whose key is a
    curve point [A] and whose first half encodes s B - h A, [h] being the hash of
    the first half, the key and the message.  A public key that is not 32 bytes makes
    [Verify] panic, a private key that is not 64 bytes makes [Sign] panic; a signature
    that is not 64 bytes is rejected, a pre-hashed message is refused, and a failing
    random source is reported by [GenerateKey]. *)
Theorem verify_equation pk message sig sk hashFunc :
  bytes_ok pk -> bytes_ok sig ->
  (length pk = 32%nat ->
   exists b, Verify pk message sig = Return b /\
    (b = true <->
     length sig = 64%nat /\ nth 63 sig 0 < 32 /\
     exists A, decodes pk A /\
       firstn 32 sig = encode_point (padd
         (zmul (reduced (sha512 (firstn 32 sig ++ pk ++ message))) (popp A))
         (zmul (le_val (skipn 32 sig)) B)))) /\
  GenerateKey None = None /\
  (Sign sk message = Panic <-> length sk <> 64%nat) /\
  (Verify pk message sig = Panic <-> length pk <> 32%nat) /\
  (hashFunc <> 0 -> PrivateKey_Sign sk message hashFunc = Return None) /\
  (length pk = 32%nat -> length sig <> 64%nat -> Verify pk message sig = Return false).
Proof.
  intros Ok Os. split; [intros L; exact (Verify_decides pk message sig L Ok Os) |].
  split; [reflexivity |]. split; [| split; [| split]].
  - unfold Sign, PrivateKeySize. destruct (Nat.eqb_spec (length sk) 64); cbn [negb];
      (split; [congruence || discriminate | congruence || reflexivity]).
  - unfold Verify, PublicKeySize. destruct (Nat.eqb_spec (length pk) 32); cbn [negb];
      [| split; [congruence | reflexivity]].
    destruct (_ || _); [split; [discriminate | congruence] |].
    destruct (Extended_FromBytes _ _) as [[] A]; cbn [negb]; split; first [discriminate | congruence].
  - intros H. unfold PrivateKey_Sign. destruct (Z.eqb_spec hashFunc 0); [contradiction | reflexivity].
  - intros Lp Ls. unfold Verify, PublicKeySize, SignatureSize. rewrite Lp.
    destruct (Nat.eqb_spec (length sig) 64); [contradiction | reflexivity].
Qed.

Lemma verify_equation_witness :
  (exists b, Verify (encode_point B) [1; 2; 3] (repeat 0 64) = Return b /\
    (b = true ->
     exists A, decodes (encode_point B) A /\
       repeat 0 32 = encode_point (padd
         (zmul (reduced (sha512 (repeat 0 32 ++ encode_point B ++ [1; 2; 3]))) (popp A))
         (zmul (le_val (repeat 0 32)) B)))) /\
  Sign [] [1; 2; 3] = Panic /\ PrivateKey_Sign [] [1; 2; 3] 5 = Return None.
Proof.
  destruct (verify_equation (encode_point B) [1; 2; 3] (repeat 0 64) [] 5)
    as (V & _ & S & _ & P & _).
  - apply encode_point_ok.
  - apply Forall_forall. intros x ->%repeat_spec. unfold byte_ok. lia.
  - split; [| split; [apply S; discriminate | apply P; discriminate]].
    destruct V as (b & E & H); [apply encode_point_length |].
    exists b. split; [exact E |]. intros Hb. exact (proj2 (proj2 (proj1 H Hb))).
Defined.

(** C6: a key pair made by [GenerateKey] from any 32 random bytes signs every
    message, the signature has 64 bytes, and [Verify] accepts it under the public
    half; signing is deterministic in the seed. *)
Theorem sign_verify seed message :
  length seed = 32%nat ->
  exists pk sk sig,
    GenerateKey (Some seed) = Some (pk, sk) /\ PrivateKey_Public sk = Return pk /\
    Sign sk message = Return sig /\ PrivateKey_Sign sk message 0 = Return (Some sig) /\
    length sig = 64%nat /\ Verify pk message sig = Return true.
Proof.
  intros L. destruct (Sign_Verify seed message L) as (pk & sk & sig & EG & ES & EV).
  exists pk, sk, sig. split; [exact EG |].
  rewrite GenerateKey_spec in EG. injection EG as <- <-.
  split; [| split; [exact ES |]].
  - unfold PrivateKey_Public. rewrite length_app, L. cbn [Nat.ltb Nat.leb].
    destruct (Nat.ltb_spec (32 + length (encode_point (publicPoint seed))) 32); [lia |].
    rewrite (skipn_app_exact 32) by exact L.
    rewrite copy_full; [reflexivity |]. rewrite encode_point_length. reflexivity.
  - split; [unfold PrivateKey_Sign; cbn [Z.eqb negb]; rewrite ES; reflexivity |].
    split; [| exact EV]. pose proof (Sign_spec seed message L) as E. cbv zeta in E.
    rewrite E in ES. apply Return_inj in ES. rewrite <- ES.
    rewrite length_app, encode_point_length, length_le_bytes. reflexivity.
Qed.

Lemma sign_verify_witness :
  exists pk sk sig, GenerateKey (Some (repeat 7 32)) = Some (pk, sk) /\
    Sign sk [104; 105] = Return sig /\ Verify pk [104; 105] sig = Return true.
Proof.
  destruct (sign_verify (repeat 7 32) [104; 105] eq_refl)
    as (pk & sk & sig & EG & _ & ES & _ & _ & EV).
  exists pk, sk, sig. auto.
Defined.

