(* ===== verification/Montgomery.v ===== *)
(** * The Montgomery u-coordinate of the points of the curve

    The specification that [Curve25519] is verified against.  The map
    [u = (1 + y) / (1 - y)] takes the twisted Edwards curve of [Edwards] to the
    Montgomery curve [v^2 = u^3 + 486662 u^2 + u]; the ladder only computes with [u],
    as a fraction.  [u_repr l X Z P] states that [X / Z] is that fraction, with the common
    factor [l]; doubling and differential addition are proved directly in terms of the
    Edwards coordinates. *)

From Stdlib Require Import Field.
From S2P Require Import Prelude Primality Field25519 Edwards.

Local Open Scope F_scope.

Add Field F_field_montgomery : F_field_theory.

(** The identity, for which the fraction is [2 / 0], gets [0], as in the code. *)
Definition mont_u (P : point) : F := (1 + py P) / (1 - py P).

Definition u_repr (l X Z : F) (P : point) : Prop := X = l * (1 + py P) /\ Z = l * (1 - py P).

(** ** Constants *)

Definition a24 : F := of_Z 121666.

Lemma a24_d : a24 * (1 + d) = 1.
Proof.
  unfold a24. transitivity (of_Z 121666 + d * of_Z 121666); [ring |].
  rewrite d_spec, <- of_Z_opp, <- of_Z_add. apply Zmod.unsigned_inj. vm_compute. reflexivity.
Qed.

Lemma a24_neq_zero : a24 <> 0.
Proof. intros E. apply F_one_neq_zero. rewrite <- a24_d, E. ring. Qed.

Lemma one_d_neq_zero : 1 + d <> 0.
Proof. intros E. apply F_one_neq_zero. rewrite <- a24_d, E. ring. Qed.

(** [-d] is no square either, since [-1] is one. *)
Lemma one_d_square (y : F) : 1 + d * (y * y) <> 0.
Proof.
  intros E. destruct (F_eq_dec y 0) as [-> | Hy].
  - apply F_one_neq_zero. rewrite <- E. ring.
  - apply (d_nonsquare (sqrtm1 / y)).
    transitivity (sqrtm1 * sqrtm1 / (y * y)); [field; exact Hy |].
    rewrite sqrtm1_spec. transitivity ((1 + d * (y * y) - 1) / (y * y)).
    + rewrite E. field. exact Hy.
    + field. exact Hy.
Qed.

(** Products of non-zero factors of the context. *)
Ltac neq_zero :=
  lazymatch goal with
  | |- Zmod.mul _ _ <> _ => apply F_mul_neq_0; neq_zero
  | |- _ => assumption
  end.

(** The curve equation, solved for [x^2]. *)
Lemma curve_x_square (x y : F) : curve_eq x y -> x * x * (1 + d * (y * y)) = y * y - 1.
Proof.
  unfold curve_eq. intros H.
  transitivity (y * y - (y * y - x * x) + d * (x * x) * (y * y)); [ring |].
  rewrite H. ring.
Qed.

(** ** Doubling *)

Lemma double_coords (x y : F) :
  curve_eq x y ->
  let s := add_y x y x y in
  (1 + s) * (1 - add_t x y x y) = 2 * (1 + x * x) /\
  (1 - s) * (1 - add_t x y x y) = 2 * (1 - y * y).
Proof.
  intros H s. pose proof (denominator_minus x y x y H H) as N. fold (add_t x y x y) in N.
  assert (add_t x y x y = y * y - x * x - 1) as T.
  { unfold curve_eq in H. rewrite H. unfold add_t. ring. }
  assert (s * (1 - add_t x y x y) = y * y + x * x) as S.
  { unfold s, add_y, add_b. field. exact N. }
  split.
  - transitivity (1 - add_t x y x y + s * (1 - add_t x y x y)); [ring |]. rewrite S, T. ring.
  - transitivity (1 - add_t x y x y - s * (1 - add_t x y x y)); [ring |]. rewrite S, T. ring.
Qed.

Definition double_factor (l : F) (P : point) : F :=
  (2 * 2 * 2) * (l * l * l * l) * a24 * (1 + d * (py P * py P)) *
  (1 - add_t (px P) (py P) (px P) (py P)).

(** The doubling of the ladder: [A = (X+Z)^2], [B = (X-Z)^2], [E = A - B],
    [X' = A B], [Z' = E (B + 121666 E)]. *)
Lemma u_double l X Z P :
  u_repr l X Z P ->
  let A := (X + Z) * (X + Z) in
  let B := (X - Z) * (X - Z) in
  u_repr (double_factor l P) (A * B) ((A - B) * (B + a24 * (A - B))) (padd P P).
Proof.
  intros [-> ->] A B. subst A B. unfold u_repr, double_factor.
  pose proof (p_curve P) as C. destruct (double_coords _ _ C) as [Hp Hm].
  pose proof (curve_x_square _ _ C) as Hx.
  cbn [padd py]. set (s := add_y _ _ _ _) in *. set (t := add_t _ _ _ _) in *.
  set (x := px P) in *. set (y := py P) in *. split.
  - transitivity (2 * 2 * 2 * (l * l * l * l) * a24 * (1 + d * (y * y)) * ((1 + s) * (1 - t)));
      [| ring]. rewrite Hp.
    transitivity (2 * 2 * 2 * 2 * (l * l * l * l) * a24 *
                  (1 + d * (y * y) + x * x * (1 + d * (y * y)))); [| ring]. rewrite Hx.
    transitivity (2 * 2 * 2 * 2 * (l * l * l * l) * (a24 * (1 + d)) * (y * y)); [| ring].
    rewrite a24_d. ring.
  - transitivity (2 * 2 * 2 * (l * l * l * l) * a24 * (1 + d * (y * y)) * ((1 - s) * (1 - t)));
      [| ring]. rewrite Hm.
    transitivity (2 * 2 * 2 * 2 * (l * l * l * l) * (1 - y * y) *
                  (a24 * (1 + d) * (y * y) + a24 * (1 - y * y))); [rewrite a24_d; ring | ring].
Qed.

Lemma double_factor_neq l P : l <> 0 -> double_factor l P <> 0.
Proof.
  intros Hl. unfold double_factor.
  pose proof (denominator_minus _ _ _ _ (p_curve P) (p_curve P)) as N.
  fold (add_t (px P) (py P) (px P) (py P)) in N.
  pose proof F_two_neq_zero. pose proof a24_neq_zero. pose proof (one_d_square (py P)).
  neq_zero.
Qed.

(** ** Differential addition *)

Lemma F_div_neq_0 (x y : F) : x <> 0 -> y <> 0 -> x / y <> 0.
Proof.
  intros Hx Hy E. apply Hx. transitivity (x / y * y); [field; exact Hy | rewrite E; ring].
Qed.

Section differential.
Context (P Q : point).
Let x1 := px P.
Let y1 := py P.
Let x2 := px Q.
Let y2 := py Q.
Let t := add_t x1 y1 x2 y2.
Let s := py (padd P Q).
Let r := py (padd Q (popp P)).
Let n := y1 * y2.
Let D := (1 + d * (y1 * y1)) * (1 + d * (y2 * y2)).
Let K := (1 + d) * (1 + d * (n * n)).

Lemma diff_denominators : 1 - t <> 0 /\ 1 + t <> 0.
Proof.
  split; [exact (denominator_minus _ _ _ _ (p_curve P) (p_curve Q)) |
          exact (denominator_plus _ _ _ _ (p_curve P) (p_curve Q))].
Qed.

Lemma diff_sum : s * (1 - t) = n + x1 * x2.
Proof.
  destruct diff_denominators as [Nm Np]. unfold s. cbn [padd py].
  fold x1 y1 x2 y2. unfold add_y, add_b. fold t. unfold n. field. exact Nm.
Qed.

Lemma diff_difference : r * (1 + t) = n - x1 * x2.
Proof.
  destruct diff_denominators as [Nm Np]. unfold r. cbn [padd popp px py].
  fold x1 y1 x2 y2. unfold add_y, add_b.
  replace (1 - add_t x2 y2 (- x1) y1) with (1 + t) by (unfold t, add_t; ring).
  unfold n. field. exact Np.
Qed.

Lemma diff_xx : x1 * x2 * (x1 * x2) * D = (y1 * y1 - 1) * (y2 * y2 - 1).
Proof.
  pose proof (curve_x_square _ _ (p_curve P)) as HP.
  pose proof (curve_x_square _ _ (p_curve Q)) as HQ. fold x1 y1 in HP. fold x2 y2 in HQ.
  rewrite <- HP, <- HQ. unfold D. ring.
Qed.

Lemma diff_products :
  (1 + s) * (1 + r) * ((1 - t) * (1 + t)) * D = K * ((y1 + y2) * (y1 + y2)) /\
  (1 - s) * (1 - r) * ((1 - t) * (1 + t)) * D = K * ((y1 - y2) * (y1 - y2)).
Proof.
  pose proof diff_sum as Hs. pose proof diff_difference as Hr. pose proof diff_xx as Hx.
  assert (t = d * n * (x1 * x2)) as Ht by (unfold t, n, add_t; ring).
  split.
  - transitivity ((1 - t + s * (1 - t)) * (1 + t + r * (1 + t)) * D); [ring |].
    rewrite Hs, Hr, Ht.
    transitivity ((1 + n) * (1 + n) * D - (1 - d * n) * (1 - d * n) * (x1 * x2 * (x1 * x2) * D));
      [ring |]. rewrite Hx. unfold D, K, n. ring.
  - transitivity ((1 - t - s * (1 - t)) * (1 + t - r * (1 + t)) * D); [ring |].
    rewrite Hs, Hr, Ht.
    transitivity ((1 - n) * (1 - n) * D - (1 + d * n) * (1 + d * n) * (x1 * x2 * (x1 * x2) * D));
      [ring |]. rewrite Hx. unfold D, K, n. ring.
Qed.

Definition diff_factor (l m : F) : F :=
  (2 * 2 * 2 * 2) * (l * l * (m * m)) * ((1 - t) * (1 + t)) * (1 + r) * D / K.

Lemma diff_K : K <> 0.
Proof. apply F_mul_neq_0; [exact one_d_neq_zero | apply one_d_square]. Qed.

(** The differential addition of the ladder, [u] being that of [Q - P]. *)
Lemma u_differential l m X2 Z2 X3 Z3 u :
  u_repr l X2 Z2 P -> u_repr m X3 Z3 Q -> u * (1 - r) = 1 + r ->
  let DA := (X3 - Z3) * (X2 + Z2) in
  let CB := (X3 + Z3) * (X2 - Z2) in
  u_repr (diff_factor l m) ((DA + CB) * (DA + CB)) (u * ((DA - CB) * (DA - CB))) (padd P Q).
Proof.
  intros [-> ->] [-> ->] Hu DA CB. subst DA CB. fold y1 y2.
  destruct diff_products as [Hp Hm]. pose proof diff_K as HK.
  unfold u_repr. fold s. set (c := (2 * 2 * 2 * 2) * (l * l * (m * m))).
  split.
  - transitivity (c * (K * ((y1 + y2) * (y1 + y2))) / K); [unfold c; field; exact HK |].
    rewrite <- Hp. unfold diff_factor. fold c. field. exact HK.
  - transitivity (c * u * (K * ((y1 - y2) * (y1 - y2))) / K); [unfold c; field; exact HK |].
    rewrite <- Hm.
    transitivity (c * (u * (1 - r)) * (1 - s) * ((1 - t) * (1 + t)) * D / K); [field; exact HK |].
    rewrite Hu. unfold diff_factor. fold c. field. exact HK.
Qed.

Lemma diff_factor_neq l m u :
  l <> 0 -> m <> 0 -> u <> 0 -> u * (1 - r) = 1 + r -> diff_factor l m <> 0.
Proof.
  intros Hl Hm Hu E. destruct diff_denominators as [Nm Np].
  assert (1 + r <> 0) as Nr.
  { rewrite <- E. apply F_mul_neq_0; [exact Hu |]. intros Z. rewrite Z in E.
    apply F_two_neq_zero. transitivity (1 + r + (1 - r)); [ring |]. rewrite Z, <- E. ring. }
  unfold diff_factor. apply F_div_neq_0; [unfold D | exact diff_K].
  pose proof F_two_neq_zero. pose proof (one_d_square y1). pose proof (one_d_square y2).
  neq_zero.
Qed.
End differential.

(** ** Reading the fraction *)

Lemma u_repr_identity l : u_repr l (l * 2) 0 pzero.
Proof. unfold u_repr. cbn [pzero py]. split; ring. Qed.

Lemma mont_u_popp P : mont_u (popp P) = mont_u P.
Proof. reflexivity. Qed.

Lemma mont_u_spec P : py P <> 1 -> mont_u P * (1 - py P) = 1 + py P.
Proof.
  intros N. assert (1 - py P <> 0) as N'.
  { intros E. apply N. transitivity (1 - (1 - py P)); [ring | rewrite E; ring]. }
  unfold mont_u. field. exact N'.
Qed.

Lemma mont_u_zero : mont_u pzero = 0.
Proof. apply Zmod.unsigned_inj. vm_compute. reflexivity. Qed.

(** The point [(0, -1)] of order two, the other one with [u = 0]. *)
Lemma two_on_curve : on_curve 0 (- (1)) = true.
Proof. apply on_curve_iff. unfold curve_eq. ring. Qed.

Definition ptwo : point := Point 0 (- (1)) two_on_curve.

Lemma mont_u_two : mont_u ptwo = 0.
Proof. apply Zmod.unsigned_inj. vm_compute. reflexivity. Qed.

Lemma ptwo_double : padd ptwo ptwo = pzero.
Proof.
  apply point_eq; apply Zmod.unsigned_inj; vm_compute; reflexivity.
Qed.

Lemma zmul_ptwo n : zmul n ptwo = pzero \/ zmul n ptwo = ptwo.
Proof.
  induction n as [| n IH | n IH] using Z.peano_ind; [now left | |].
  - rewrite zmul_succ. destruct IH as [-> | ->];
      [right; apply padd_zero_r | left; exact ptwo_double].
  - rewrite zmul_pred. assert (popp ptwo = ptwo) as ->.
    { symmetry. apply popp_unique, ptwo_double. }
    destruct IH as [-> | ->]; [right; apply padd_zero_r | left; exact ptwo_double].
Qed.

Lemma mont_u_zmul_two n : mont_u (zmul n ptwo) = 0.
Proof. destruct (zmul_ptwo n) as [-> | ->]; [exact mont_u_zero | exact mont_u_two]. Qed.

Lemma mont_u_eq_zero P : mont_u P = 0 -> P = pzero \/ P = ptwo.
Proof.
  intros E. destruct (F_eq_dec (py P) 1) as [Y | N].
  - left. apply point_eq; [| exact Y]. pose proof (curve_x_square _ _ (p_curve P)) as C.
    rewrite Y in C. replace (1 * 1 - 1) with 0 in C by ring.
    apply F_mul_0 in C as [C | C]; [| now destruct (one_d_square 1)].
    apply F_mul_0 in C as [C | C]; exact C.
  - right. pose proof (mont_u_spec P N) as S. rewrite E in S.
    assert (py P = - (1)) as Y.
    { transitivity (1 + py P - 1); [ring |]. rewrite <- S. ring. }
    apply point_eq; [| exact Y]. pose proof (curve_x_square _ _ (p_curve P)) as C.
    rewrite Y in C. replace (- (1) * - (1) - 1) with 0 in C by ring.
    apply F_mul_0 in C as [C | C]; [| now destruct (one_d_square (- (1)))].
    apply F_mul_0 in C as [C | C]; exact C.
Qed.

Lemma F_pow_quotient (x z : F) : x * z ^ (prime25519 - 2) = x / z.
Proof.
  destruct (F_eq_dec z 0) as [-> | N].
  - unfold Zmod.mdiv. rewrite Zmod.pow_0_l by discriminate.
    now rewrite Zmod.inv_0.
  - rewrite F_pow_invert by exact N. reflexivity.
Qed.

Lemma F_div_0 (x : F) : x / 0 = 0.
Proof. unfold Zmod.mdiv. rewrite Zmod.inv_0. ring. Qed.

(** The quotient that the ladder ends with. *)
Lemma u_repr_quotient l X Z P :
  u_repr l X Z P -> l <> 0 \/ mont_u P = 0 -> X / Z = mont_u P.
Proof.
  intros [-> ->] H. destruct (F_eq_dec l 0) as [-> | N].
  - destruct H as [H | ->]; [now destruct H |].
    replace (0 * (1 - py P)) with 0 by ring. apply F_div_0.
  - destruct (F_eq_dec (1 - py P) 0) as [Y | Y].
    + unfold mont_u. rewrite Y. replace (l * 0) with 0 by ring. now rewrite !F_div_0.
    + unfold mont_u. field. auto.
Qed.

(** ** The ladder

    [xz_pair P u n b X2 Z2 X3 Z3]: the fractions stand for the multiples [n] and [n + 1] of
    [P], in this order for [b = 0] and swapped for [b = 1]; if the u-coordinate of [P] is
    not zero, neither of them is [0 / 0]. *)

Definition xz_pair (P : point) (u : F) (n b : Z) (X2 Z2 X3 Z3 : F) : Prop :=
  exists l m, u_repr l X2 Z2 (zmul (n + b) P) /\ u_repr m X3 Z3 (zmul (n + 1 - b) P) /\
    (u <> 0 -> l <> 0 /\ m <> 0).

Lemma xz_difference n b P :
  b = 0%Z \/ b = 1%Z ->
  py (padd (zmul (n + 1 - b) P) (popp (zmul (n + b) P))) = py P.
Proof.
  intros Hb. rewrite <- zmul_sub. replace (n + 1 - b - (n + b))%Z with (1 - 2 * b)%Z by ring.
  destruct Hb as [-> | ->]; [reflexivity |]. change (1 - 2 * 1)%Z with (- (1))%Z.
  rewrite zmul_opp. reflexivity.
Qed.

Lemma xz_step P u n b X2 Z2 X3 Z3 :
  u * (1 - py P) = 1 + py P -> b = 0%Z \/ b = 1%Z -> xz_pair P u n b X2 Z2 X3 Z3 ->
  let A := (X2 + Z2) * (X2 + Z2) in
  let B := (X2 - Z2) * (X2 - Z2) in
  let DA := (X3 - Z3) * (X2 + Z2) in
  let CB := (X3 + Z3) * (X2 - Z2) in
  xz_pair P u (2 * n + b) b (A * B) ((A - B) * (B + a24 * (A - B)))
    ((DA + CB) * (DA + CB)) (u * ((DA - CB) * (DA - CB))).
Proof.
  intros Hu Hb (l & m & U2 & U3 & N). cbv zeta.
  pose proof (u_double _ _ _ _ U2) as D2. rewrite <- (xz_difference n b P Hb) in Hu.
  pose proof (u_differential _ _ _ _ _ _ _ _ _ U2 U3 Hu) as D3.
  rewrite <- zmul_2, <- zmul_mul in D2. rewrite <- zmul_add in D3.
  do 2 eexists. replace (2 * n + b + b)%Z with (2 * (n + b))%Z by ring. split; [exact D2 |].
  replace (2 * n + b + 1 - b)%Z with (n + b + (n + 1 - b))%Z by ring. split; [exact D3 |].
  intros Hu0. destruct (N Hu0) as [Hl Hm].
  split; [now apply double_factor_neq | now apply (diff_factor_neq _ _ _ _ u)].
Qed.

Lemma xz_swap P u n b X2 Z2 X3 Z3 :
  xz_pair P u n b X2 Z2 X3 Z3 -> xz_pair P u n (1 - b) X3 Z3 X2 Z2.
Proof.
  intros (l & m & U2 & U3 & N). exists m, l.
  replace (n + (1 - b))%Z with (n + 1 - b)%Z by ring.
  replace (n + 1 - (1 - b))%Z with (n + b)%Z by ring. tauto.
Qed.

(** A conditional swap that brings the pair from the order [w] to the order [b]. *)
Lemma xz_reorder P u n w b X2 Z2 X3 Z3 :
  w = 0%Z \/ w = 1%Z -> b = 0%Z \/ b = 1%Z -> xz_pair P u n w X2 Z2 X3 Z3 ->
  if (w =? b)%Z then xz_pair P u n b X2 Z2 X3 Z3 else xz_pair P u n b X3 Z3 X2 Z2.
Proof.
  intros Hw Hb H. destruct (Z.eqb_spec w b) as [<- | E]; [exact H |].
  replace b with (1 - w)%Z by lia. now apply xz_swap.
Qed.

Lemma half_two : / 2 * 2 = 1.
Proof. apply Zmod.unsigned_inj. vm_compute. reflexivity. Qed.

Lemma xz_start P : py P <> 1 -> xz_pair P (mont_u P) 0 0 1 0 (mont_u P) 1.
Proof.
  intros N. assert (1 - py P <> 0) as N'.
  { intros E. apply N. transitivity (1 - (1 - py P)); [ring | rewrite E; ring]. }
  exists (/ 2), (/ (1 - py P)). split; [| split].
  - unfold u_repr. cbn [zmul Z.add pzero py]. split; [symmetry; exact half_two | ring].
  - change (0 + 1 - 0)%Z with 1%Z. rewrite zmul_1. unfold u_repr. split.
    + unfold mont_u, Zmod.mdiv. apply Zmod.mul_comm.
    + symmetry. rewrite Zmod.mul_comm. apply F_mul_inverse, N'.
  - intros _. split.
    + intros E. apply F_one_neq_zero. rewrite <- half_two, E. ring.
    + intros E. apply F_one_neq_zero. rewrite <- (F_mul_inverse _ N'), E. ring.
Qed.

Lemma xz_result P n X Z X3 Z3 :
  xz_pair P (mont_u P) n 0 X Z X3 Z3 -> X / Z = mont_u (zmul n P).
Proof.
  intros (l & m & U & _ & N). rewrite Z.add_0_r in U. apply (u_repr_quotient l); [exact U |].
  destruct (F_eq_dec (mont_u P) 0) as [Z0 | NZ]; [right | left; apply (N NZ)].
  destruct (mont_u_eq_zero _ Z0) as [-> | ->];
    [rewrite zmul_zero; exact mont_u_zero | apply mont_u_zmul_two].
Qed.

(** The prefix of a scalar that the next bit extends. *)
Lemma div_pow_step v pos :
  (0 <= v -> v / 2 ^ Z.of_nat pos =
   2 * (v / 2 ^ Z.of_nat (S pos)) + Z.b2z (Z.testbit v (Z.of_nat pos)))%Z.
Proof.
  intros Hv. rewrite Nat2Z.inj_succ, Z.pow_succ_r, (Z.mul_comm 2 (2 ^ _)), <- Z.div_div by lia.
  rewrite Z.testbit_spec' by lia. pose proof (Z.div_mod (v / 2 ^ Z.of_nat pos) 2). lia.
Qed.

Lemma swap_bits w b : (w = 0 \/ w = 1 -> b = 0 \/ b = 1 ->
  (Z.lxor w b = 0 \/ Z.lxor w b = 1) /\ (Z.lxor w b =? 0) = (w =? b))%Z.
Proof. intros [-> | ->] [-> | ->]; cbn; auto. Qed.

(** A point with a given u-coordinate, other than the identity: the ladder does not
    distinguish the two points whose coordinate is zero. *)
Lemma mont_u_proper P :
  exists Q, py Q <> 1 /\ mont_u Q = mont_u P /\ forall n, mont_u (zmul n Q) = mont_u (zmul n P).
Proof.
  destruct (F_eq_dec (mont_u P) 0) as [Z0 | NZ].
  - exists ptwo. split; [| split].
    + intros E%(f_equal Zmod.unsigned). vm_compute in E. discriminate E.
    + now rewrite Z0, mont_u_two.
    + intros n. rewrite mont_u_zmul_two. destruct (mont_u_eq_zero _ Z0) as [-> | ->];
        [now rewrite zmul_zero, mont_u_zero | now rewrite mont_u_zmul_two].
  - exists P. split; [| auto]. intros E. apply NZ. unfold mont_u. rewrite E.
    replace (1 - 1) with 0 by ring. apply F_div_0.
Qed.
