(* ===== verification/Curve25519.v ===== *)
(** * The Diffie-Hellman function of curve25519

    Model of [src/golang-x-crypto/curve25519/curve25519.go] and [doc.go]: the portable
    implementation, which has its own copy of the ten-limb field arithmetic, and the
    Montgomery ladder of [scalarMult].  The ladder is shown to compute the u-coordinate of
    a multiple of the Edwards point of [Edwards] that has the given u-coordinate, so that
    the two packages compute in the same group. *)

From S2P Require Import Prelude Primality Field25519 Edwards FieldElement FieldCodec GroupElement BasePoint ScalarMult Sha2 Ed25519 Montgomery.

(** ** The code *)

(** [type fieldElement [10]int32]. *)
Definition fieldElement : Type := FieldElement.

Definition feZero : fieldElement := Fe 0 0 0 0 0 0 0 0 0 0.

Definition feOne : fieldElement := Fe 1 0 0 0 0 0 0 0 0 0.

Definition feAdd (a b : fieldElement) : fieldElement :=
  Fe (fe0 a + fe0 b)%i32 (fe1 a + fe1 b)%i32 (fe2 a + fe2 b)%i32 (fe3 a + fe3 b)%i32
     (fe4 a + fe4 b)%i32 (fe5 a + fe5 b)%i32 (fe6 a + fe6 b)%i32 (fe7 a + fe7 b)%i32
     (fe8 a + fe8 b)%i32 (fe9 a + fe9 b)%i32.

Definition feSub (a b : fieldElement) : fieldElement :=
  Fe (fe0 a - fe0 b)%i32 (fe1 a - fe1 b)%i32 (fe2 a - fe2 b)%i32 (fe3 a - fe3 b)%i32
     (fe4 a - fe4 b)%i32 (fe5 a - fe5 b)%i32 (fe6 a - fe6 b)%i32 (fe7 a - fe7 b)%i32
     (fe8 a - fe8 b)%i32 (fe9 a - fe9 b)%i32.

Definition feCopy (src : fieldElement) : fieldElement := src.

(** The three loops of [feCSwap], limb by limb: the new limbs of [f] and [g]. *)
Definition swapLimb (b f g : Z) : Z * Z :=
  let x := Z.land b (Z.lxor f g) in (Z.lxor f x, Z.lxor g x).

Definition feCSwap (f g : fieldElement) (b : Z) : fieldElement * fieldElement :=
  let b := (- b)%i32 in
  let (f0, g0) := swapLimb b (fe0 f) (fe0 g) in
  let (f1, g1) := swapLimb b (fe1 f) (fe1 g) in
  let (f2, g2) := swapLimb b (fe2 f) (fe2 g) in
  let (f3, g3) := swapLimb b (fe3 f) (fe3 g) in
  let (f4, g4) := swapLimb b (fe4 f) (fe4 g) in
  let (f5, g5) := swapLimb b (fe5 f) (fe5 g) in
  let (f6, g6) := swapLimb b (fe6 f) (fe6 g) in
  let (f7, g7) := swapLimb b (fe7 f) (fe7 g) in
  let (f8, g8) := swapLimb b (fe8 f) (fe8 g) in
  let (f9, g9) := swapLimb b (fe9 f) (fe9 g) in
  (Fe f0 f1 f2 f3 f4 f5 f6 f7 f8 f9, Fe g0 g1 g2 g3 g4 g5 g6 g7 g8 g9).

Definition load3 (bs : list Z) : Z :=
  let r := nth 0 bs 0 in
  let r := (r .| (nth 1 bs 0 << 8))%i64 in
  (r .| (nth 2 bs 0 << 16))%i64.

Definition load4 (bs : list Z) : Z :=
  let r := nth 0 bs 0 in
  let r := (r .| (nth 1 bs 0 << 8))%i64 in
  let r := (r .| (nth 2 bs 0 << 16))%i64 in
  (r .| (nth 3 bs 0 << 24))%i64.

(** All 256 bits are read: the top bit is not masked. *)
Definition feFromBytes (src : list Z) : fieldElement :=
  let h0 := load4 src in
  let h1 := (load3 (skipn 4 src) << 6)%i64 in
  let h2 := (load3 (skipn 7 src) << 5)%i64 in
  let h3 := (load3 (skipn 10 src) << 3)%i64 in
  let h4 := (load3 (skipn 13 src) << 2)%i64 in
  let h5 := load4 (skipn 16 src) in
  let h6 := (load3 (skipn 20 src) << 7)%i64 in
  let h7 := (load3 (skipn 23 src) << 5)%i64 in
  let h8 := (load3 (skipn 26 src) << 4)%i64 in
  let h9 := (load3 (skipn 29 src) << 2)%i64 in
  let c9 := ((h9 + (1 << 24)) >> 25)%i64 in
  let h0 := (h0 + c9 * 19)%i64 in
  let h9 := (h9 - c9 << 25)%i64 in
  let c1 := ((h1 + (1 << 24)) >> 25)%i64 in
  let h2 := (h2 + c1)%i64 in
  let h1 := (h1 - c1 << 25)%i64 in
  let c3 := ((h3 + (1 << 24)) >> 25)%i64 in
  let h4 := (h4 + c3)%i64 in
  let h3 := (h3 - c3 << 25)%i64 in
  let c5 := ((h5 + (1 << 24)) >> 25)%i64 in
  let h6 := (h6 + c5)%i64 in
  let h5 := (h5 - c5 << 25)%i64 in
  let c7 := ((h7 + (1 << 24)) >> 25)%i64 in
  let h8 := (h8 + c7)%i64 in
  let h7 := (h7 - c7 << 25)%i64 in
  let c0 := ((h0 + (1 << 25)) >> 26)%i64 in
  let h1 := (h1 + c0)%i64 in
  let h0 := (h0 - c0 << 26)%i64 in
  let c2 := ((h2 + (1 << 25)) >> 26)%i64 in
  let h3 := (h3 + c2)%i64 in
  let h2 := (h2 - c2 << 26)%i64 in
  let c4 := ((h4 + (1 << 25)) >> 26)%i64 in
  let h5 := (h5 + c4)%i64 in
  let h4 := (h4 - c4 << 26)%i64 in
  let c6 := ((h6 + (1 << 25)) >> 26)%i64 in
  let h7 := (h7 + c6)%i64 in
  let h6 := (h6 - c6 << 26)%i64 in
  let c8 := ((h8 + (1 << 25)) >> 26)%i64 in
  let h9 := (h9 + c8)%i64 in
  let h8 := (h8 - c8 << 26)%i64 in
  Fe (int32 h0) (int32 h1) (int32 h2) (int32 h3) (int32 h4)
     (int32 h5) (int32 h6) (int32 h7) (int32 h8) (int32 h9).

Definition feToBytes (h : fieldElement) : list Z * fieldElement :=
  let h0 := fe0 h in
  let h1 := fe1 h in
  let h2 := fe2 h in
  let h3 := fe3 h in
  let h4 := fe4 h in
  let h5 := fe5 h in
  let h6 := fe6 h in
  let h7 := fe7 h in
  let h8 := fe8 h in
  let h9 := fe9 h in
  let q := ((19*h9 + (1 << 24)) >> 25)%i32 in
  let q := ((h0 + q) >> 26)%i32 in
  let q := ((h1 + q) >> 25)%i32 in
  let q := ((h2 + q) >> 26)%i32 in
  let q := ((h3 + q) >> 25)%i32 in
  let q := ((h4 + q) >> 26)%i32 in
  let q := ((h5 + q) >> 25)%i32 in
  let q := ((h6 + q) >> 26)%i32 in
  let q := ((h7 + q) >> 25)%i32 in
  let q := ((h8 + q) >> 26)%i32 in
  let q := ((h9 + q) >> 25)%i32 in
  let h0 := (h0 + 19 * q)%i32 in
  let c0 := (h0 >> 26)%i32 in
  let h1 := (h1 + c0)%i32 in
  let h0 := (h0 - c0 << 26)%i32 in
  let c1 := (h1 >> 25)%i32 in
  let h2 := (h2 + c1)%i32 in
  let h1 := (h1 - c1 << 25)%i32 in
  let c2 := (h2 >> 26)%i32 in
  let h3 := (h3 + c2)%i32 in
  let h2 := (h2 - c2 << 26)%i32 in
  let c3 := (h3 >> 25)%i32 in
  let h4 := (h4 + c3)%i32 in
  let h3 := (h3 - c3 << 25)%i32 in
  let c4 := (h4 >> 26)%i32 in
  let h5 := (h5 + c4)%i32 in
  let h4 := (h4 - c4 << 26)%i32 in
  let c5 := (h5 >> 25)%i32 in
  let h6 := (h6 + c5)%i32 in
  let h5 := (h5 - c5 << 25)%i32 in
  let c6 := (h6 >> 26)%i32 in
  let h7 := (h7 + c6)%i32 in
  let h6 := (h6 - c6 << 26)%i32 in
  let c7 := (h7 >> 25)%i32 in
  let h8 := (h8 + c7)%i32 in
  let h7 := (h7 - c7 << 25)%i32 in
  let c8 := (h8 >> 26)%i32 in
  let h9 := (h9 + c8)%i32 in
  let h8 := (h8 - c8 << 26)%i32 in
  let c9 := (h9 >> 25)%i32 in
  let h9 := (h9 - c9 << 25)%i32 in
  let s0 := uint8 (h0 >> 0)%i32 in
  let s1 := uint8 (h0 >> 8)%i32 in
  let s2 := uint8 (h0 >> 16)%i32 in
  let s3 := uint8 ((h0 >> 24) .| (h1 << 2))%i32 in
  let s4 := uint8 (h1 >> 6)%i32 in
  let s5 := uint8 (h1 >> 14)%i32 in
  let s6 := uint8 ((h1 >> 22) .| (h2 << 3))%i32 in
  let s7 := uint8 (h2 >> 5)%i32 in
  let s8 := uint8 (h2 >> 13)%i32 in
  let s9 := uint8 ((h2 >> 21) .| (h3 << 5))%i32 in
  let s10 := uint8 (h3 >> 3)%i32 in
  let s11 := uint8 (h3 >> 11)%i32 in
  let s12 := uint8 ((h3 >> 19) .| (h4 << 6))%i32 in
  let s13 := uint8 (h4 >> 2)%i32 in
  let s14 := uint8 (h4 >> 10)%i32 in
  let s15 := uint8 (h4 >> 18)%i32 in
  let s16 := uint8 (h5 >> 0)%i32 in
  let s17 := uint8 (h5 >> 8)%i32 in
  let s18 := uint8 (h5 >> 16)%i32 in
  let s19 := uint8 ((h5 >> 24) .| (h6 << 1))%i32 in
  let s20 := uint8 (h6 >> 7)%i32 in
  let s21 := uint8 (h6 >> 15)%i32 in
  let s22 := uint8 ((h6 >> 23) .| (h7 << 3))%i32 in
  let s23 := uint8 (h7 >> 5)%i32 in
  let s24 := uint8 (h7 >> 13)%i32 in
  let s25 := uint8 ((h7 >> 21) .| (h8 << 4))%i32 in
  let s26 := uint8 (h8 >> 4)%i32 in
  let s27 := uint8 (h8 >> 12)%i32 in
  let s28 := uint8 ((h8 >> 20) .| (h9 << 6))%i32 in
  let s29 := uint8 (h9 >> 2)%i32 in
  let s30 := uint8 (h9 >> 10)%i32 in
  let s31 := uint8 (h9 >> 18)%i32 in
  ([s0; s1; s2; s3; s4; s5; s6; s7; s8; s9; s10; s11; s12; s13; s14; s15;
    s16; s17; s18; s19; s20; s21; s22; s23; s24; s25; s26; s27; s28; s29; s30; s31],
   Fe h0 h1 h2 h3 h4 h5 h6 h7 h8 h9).

Definition feMul (f g : fieldElement) : fieldElement :=
  let f0 := fe0 f in
  let f1 := fe1 f in
  let f2 := fe2 f in
  let f3 := fe3 f in
  let f4 := fe4 f in
  let f5 := fe5 f in
  let f6 := fe6 f in
  let f7 := fe7 f in
  let f8 := fe8 f in
  let f9 := fe9 f in
  let g0 := fe0 g in
  let g1 := fe1 g in
  let g2 := fe2 g in
  let g3 := fe3 g in
  let g4 := fe4 g in
  let g5 := fe5 g in
  let g6 := fe6 g in
  let g7 := fe7 g in
  let g8 := fe8 g in
  let g9 := fe9 g in
  let g1_19 := (19 * g1)%i32 in
  let g2_19 := (19 * g2)%i32 in
  let g3_19 := (19 * g3)%i32 in
  let g4_19 := (19 * g4)%i32 in
  let g5_19 := (19 * g5)%i32 in
  let g6_19 := (19 * g6)%i32 in
  let g7_19 := (19 * g7)%i32 in
  let g8_19 := (19 * g8)%i32 in
  let g9_19 := (19 * g9)%i32 in
  let f1_2 := (2 * f1)%i32 in
  let f3_2 := (2 * f3)%i32 in
  let f5_2 := (2 * f5)%i32 in
  let f7_2 := (2 * f7)%i32 in
  let f9_2 := (2 * f9)%i32 in
  let f0g0 := (f0 * g0)%i64 in
  let f0g1 := (f0 * g1)%i64 in
  let f0g2 := (f0 * g2)%i64 in
  let f0g3 := (f0 * g3)%i64 in
  let f0g4 := (f0 * g4)%i64 in
  let f0g5 := (f0 * g5)%i64 in
  let f0g6 := (f0 * g6)%i64 in
  let f0g7 := (f0 * g7)%i64 in
  let f0g8 := (f0 * g8)%i64 in
  let f0g9 := (f0 * g9)%i64 in
  let f1g0 := (f1 * g0)%i64 in
  let f1g1_2 := (f1_2 * g1)%i64 in
  let f1g2 := (f1 * g2)%i64 in
  let f1g3_2 := (f1_2 * g3)%i64 in
  let f1g4 := (f1 * g4)%i64 in
  let f1g5_2 := (f1_2 * g5)%i64 in
  let f1g6 := (f1 * g6)%i64 in
  let f1g7_2 := (f1_2 * g7)%i64 in
  let f1g8 := (f1 * g8)%i64 in
  let f1g9_38 := (f1_2 * g9_19)%i64 in
  let f2g0 := (f2 * g0)%i64 in
  let f2g1 := (f2 * g1)%i64 in
  let f2g2 := (f2 * g2)%i64 in
  let f2g3 := (f2 * g3)%i64 in
  let f2g4 := (f2 * g4)%i64 in
  let f2g5 := (f2 * g5)%i64 in
  let f2g6 := (f2 * g6)%i64 in
  let f2g7 := (f2 * g7)%i64 in
  let f2g8_19 := (f2 * g8_19)%i64 in
  let f2g9_19 := (f2 * g9_19)%i64 in
  let f3g0 := (f3 * g0)%i64 in
  let f3g1_2 := (f3_2 * g1)%i64 in
  let f3g2 := (f3 * g2)%i64 in
  let f3g3_2 := (f3_2 * g3)%i64 in
  let f3g4 := (f3 * g4)%i64 in
  let f3g5_2 := (f3_2 * g5)%i64 in
  let f3g6 := (f3 * g6)%i64 in
  let f3g7_38 := (f3_2 * g7_19)%i64 in
  let f3g8_19 := (f3 * g8_19)%i64 in
  let f3g9_38 := (f3_2 * g9_19)%i64 in
  let f4g0 := (f4 * g0)%i64 in
  let f4g1 := (f4 * g1)%i64 in
  let f4g2 := (f4 * g2)%i64 in
  let f4g3 := (f4 * g3)%i64 in
  let f4g4 := (f4 * g4)%i64 in
  let f4g5 := (f4 * g5)%i64 in
  let f4g6_19 := (f4 * g6_19)%i64 in
  let f4g7_19 := (f4 * g7_19)%i64 in
  let f4g8_19 := (f4 * g8_19)%i64 in
  let f4g9_19 := (f4 * g9_19)%i64 in
  let f5g0 := (f5 * g0)%i64 in
  let f5g1_2 := (f5_2 * g1)%i64 in
  let f5g2 := (f5 * g2)%i64 in
  let f5g3_2 := (f5_2 * g3)%i64 in
  let f5g4 := (f5 * g4)%i64 in
  let f5g5_38 := (f5_2 * g5_19)%i64 in
  let f5g6_19 := (f5 * g6_19)%i64 in
  let f5g7_38 := (f5_2 * g7_19)%i64 in
  let f5g8_19 := (f5 * g8_19)%i64 in
  let f5g9_38 := (f5_2 * g9_19)%i64 in
  let f6g0 := (f6 * g0)%i64 in
  let f6g1 := (f6 * g1)%i64 in
  let f6g2 := (f6 * g2)%i64 in
  let f6g3 := (f6 * g3)%i64 in
  let f6g4_19 := (f6 * g4_19)%i64 in
  let f6g5_19 := (f6 * g5_19)%i64 in
  let f6g6_19 := (f6 * g6_19)%i64 in
  let f6g7_19 := (f6 * g7_19)%i64 in
  let f6g8_19 := (f6 * g8_19)%i64 in
  let f6g9_19 := (f6 * g9_19)%i64 in
  let f7g0 := (f7 * g0)%i64 in
  let f7g1_2 := (f7_2 * g1)%i64 in
  let f7g2 := (f7 * g2)%i64 in
  let f7g3_38 := (f7_2 * g3_19)%i64 in
  let f7g4_19 := (f7 * g4_19)%i64 in
  let f7g5_38 := (f7_2 * g5_19)%i64 in
  let f7g6_19 := (f7 * g6_19)%i64 in
  let f7g7_38 := (f7_2 * g7_19)%i64 in
  let f7g8_19 := (f7 * g8_19)%i64 in
  let f7g9_38 := (f7_2 * g9_19)%i64 in
  let f8g0 := (f8 * g0)%i64 in
  let f8g1 := (f8 * g1)%i64 in
  let f8g2_19 := (f8 * g2_19)%i64 in
  let f8g3_19 := (f8 * g3_19)%i64 in
  let f8g4_19 := (f8 * g4_19)%i64 in
  let f8g5_19 := (f8 * g5_19)%i64 in
  let f8g6_19 := (f8 * g6_19)%i64 in
  let f8g7_19 := (f8 * g7_19)%i64 in
  let f8g8_19 := (f8 * g8_19)%i64 in
  let f8g9_19 := (f8 * g9_19)%i64 in
  let f9g0 := (f9 * g0)%i64 in
  let f9g1_38 := (f9_2 * g1_19)%i64 in
  let f9g2_19 := (f9 * g2_19)%i64 in
  let f9g3_38 := (f9_2 * g3_19)%i64 in
  let f9g4_19 := (f9 * g4_19)%i64 in
  let f9g5_38 := (f9_2 * g5_19)%i64 in
  let f9g6_19 := (f9 * g6_19)%i64 in
  let f9g7_38 := (f9_2 * g7_19)%i64 in
  let f9g8_19 := (f9 * g8_19)%i64 in
  let f9g9_38 := (f9_2 * g9_19)%i64 in
  let h0 := (f0g0 + f1g9_38 + f2g8_19 + f3g7_38 + f4g6_19 + f5g5_38 + f6g4_19 + f7g3_38 +
    f8g2_19 + f9g1_38)%i64 in
  let h1 := (f0g1 + f1g0 + f2g9_19 + f3g8_19 + f4g7_19 + f5g6_19 + f6g5_19 + f7g4_19 +
    f8g3_19 + f9g2_19)%i64 in
  let h2 := (f0g2 + f1g1_2 + f2g0 + f3g9_38 + f4g8_19 + f5g7_38 + f6g6_19 + f7g5_38 +
    f8g4_19 + f9g3_38)%i64 in
  let h3 := (f0g3 + f1g2 + f2g1 + f3g0 + f4g9_19 + f5g8_19 + f6g7_19 + f7g6_19 + f8g5_19 +
    f9g4_19)%i64 in
  let h4 := (f0g4 + f1g3_2 + f2g2 + f3g1_2 + f4g0 + f5g9_38 + f6g8_19 + f7g7_38 + f8g6_19 +
    f9g5_38)%i64 in
  let h5 := (f0g5 + f1g4 + f2g3 + f3g2 + f4g1 + f5g0 + f6g9_19 + f7g8_19 + f8g7_19 +
    f9g6_19)%i64 in
  let h6 := (f0g6 + f1g5_2 + f2g4 + f3g3_2 + f4g2 + f5g1_2 + f6g0 + f7g9_38 + f8g8_19 +
    f9g7_38)%i64 in
  let h7 := (f0g7 + f1g6 + f2g5 + f3g4 + f4g3 + f5g2 + f6g1 + f7g0 + f8g9_19 + f9g8_19)%i64 in
  let h8 := (f0g8 + f1g7_2 + f2g6 + f3g5_2 + f4g4 + f5g3_2 + f6g2 + f7g1_2 + f8g0 +
    f9g9_38)%i64 in
  let h9 := (f0g9 + f1g8 + f2g7 + f3g6 + f4g5 + f5g4 + f6g3 + f7g2 + f8g1 + f9g0)%i64 in
  let c0 := ((h0 + (1 << 25)) >> 26)%i64 in
  let h1 := (h1 + c0)%i64 in
  let h0 := (h0 - c0 << 26)%i64 in
  let c4 := ((h4 + (1 << 25)) >> 26)%i64 in
  let h5 := (h5 + c4)%i64 in
  let h4 := (h4 - c4 << 26)%i64 in
  let c1 := ((h1 + (1 << 24)) >> 25)%i64 in
  let h2 := (h2 + c1)%i64 in
  let h1 := (h1 - c1 << 25)%i64 in
  let c5 := ((h5 + (1 << 24)) >> 25)%i64 in
  let h6 := (h6 + c5)%i64 in
  let h5 := (h5 - c5 << 25)%i64 in
  let c2 := ((h2 + (1 << 25)) >> 26)%i64 in
  let h3 := (h3 + c2)%i64 in
  let h2 := (h2 - c2 << 26)%i64 in
  let c6 := ((h6 + (1 << 25)) >> 26)%i64 in
  let h7 := (h7 + c6)%i64 in
  let h6 := (h6 - c6 << 26)%i64 in
  let c3 := ((h3 + (1 << 24)) >> 25)%i64 in
  let h4 := (h4 + c3)%i64 in
  let h3 := (h3 - c3 << 25)%i64 in
  let c7 := ((h7 + (1 << 24)) >> 25)%i64 in
  let h8 := (h8 + c7)%i64 in
  let h7 := (h7 - c7 << 25)%i64 in
  let c4 := ((h4 + (1 << 25)) >> 26)%i64 in
  let h5 := (h5 + c4)%i64 in
  let h4 := (h4 - c4 << 26)%i64 in
  let c8 := ((h8 + (1 << 25)) >> 26)%i64 in
  let h9 := (h9 + c8)%i64 in
  let h8 := (h8 - c8 << 26)%i64 in
  let c9 := ((h9 + (1 << 24)) >> 25)%i64 in
  let h0 := (h0 + c9 * 19)%i64 in
  let h9 := (h9 - c9 << 25)%i64 in
  let c0 := ((h0 + (1 << 25)) >> 26)%i64 in
  let h1 := (h1 + c0)%i64 in
  let h0 := (h0 - c0 << 26)%i64 in
  Fe (int32 h0) (int32 h1) (int32 h2) (int32 h3) (int32 h4)
     (int32 h5) (int32 h6) (int32 h7) (int32 h8) (int32 h9).

Definition feSquare (f : fieldElement) : fieldElement :=
  let f0 := fe0 f in
  let f1 := fe1 f in
  let f2 := fe2 f in
  let f3 := fe3 f in
  let f4 := fe4 f in
  let f5 := fe5 f in
  let f6 := fe6 f in
  let f7 := fe7 f in
  let f8 := fe8 f in
  let f9 := fe9 f in
  let f0_2 := (2 * f0)%i32 in
  let f1_2 := (2 * f1)%i32 in
  let f2_2 := (2 * f2)%i32 in
  let f3_2 := (2 * f3)%i32 in
  let f4_2 := (2 * f4)%i32 in
  let f5_2 := (2 * f5)%i32 in
  let f6_2 := (2 * f6)%i32 in
  let f7_2 := (2 * f7)%i32 in
  let f5_38 := (38 * f5)%i32 in
  let f6_19 := (19 * f6)%i32 in
  let f7_38 := (38 * f7)%i32 in
  let f8_19 := (19 * f8)%i32 in
  let f9_38 := (38 * f9)%i32 in
  let f0f0 := (f0 * f0)%i64 in
  let f0f1_2 := (f0_2 * f1)%i64 in
  let f0f2_2 := (f0_2 * f2)%i64 in
  let f0f3_2 := (f0_2 * f3)%i64 in
  let f0f4_2 := (f0_2 * f4)%i64 in
  let f0f5_2 := (f0_2 * f5)%i64 in
  let f0f6_2 := (f0_2 * f6)%i64 in
  let f0f7_2 := (f0_2 * f7)%i64 in
  let f0f8_2 := (f0_2 * f8)%i64 in
  let f0f9_2 := (f0_2 * f9)%i64 in
  let f1f1_2 := (f1_2 * f1)%i64 in
  let f1f2_2 := (f1_2 * f2)%i64 in
  let f1f3_4 := (f1_2 * f3_2)%i64 in
  let f1f4_2 := (f1_2 * f4)%i64 in
  let f1f5_4 := (f1_2 * f5_2)%i64 in
  let f1f6_2 := (f1_2 * f6)%i64 in
  let f1f7_4 := (f1_2 * f7_2)%i64 in
  let f1f8_2 := (f1_2 * f8)%i64 in
  let f1f9_76 := (f1_2 * f9_38)%i64 in
  let f2f2 := (f2 * f2)%i64 in
  let f2f3_2 := (f2_2 * f3)%i64 in
  let f2f4_2 := (f2_2 * f4)%i64 in
  let f2f5_2 := (f2_2 * f5)%i64 in
  let f2f6_2 := (f2_2 * f6)%i64 in
  let f2f7_2 := (f2_2 * f7)%i64 in
  let f2f8_38 := (f2_2 * f8_19)%i64 in
  let f2f9_38 := (f2 * f9_38)%i64 in
  let f3f3_2 := (f3_2 * f3)%i64 in
  let f3f4_2 := (f3_2 * f4)%i64 in
  let f3f5_4 := (f3_2 * f5_2)%i64 in
  let f3f6_2 := (f3_2 * f6)%i64 in
  let f3f7_76 := (f3_2 * f7_38)%i64 in
  let f3f8_38 := (f3_2 * f8_19)%i64 in
  let f3f9_76 := (f3_2 * f9_38)%i64 in
  let f4f4 := (f4 * f4)%i64 in
  let f4f5_2 := (f4_2 * f5)%i64 in
  let f4f6_38 := (f4_2 * f6_19)%i64 in
  let f4f7_38 := (f4 * f7_38)%i64 in
  let f4f8_38 := (f4_2 * f8_19)%i64 in
  let f4f9_38 := (f4 * f9_38)%i64 in
  let f5f5_38 := (f5 * f5_38)%i64 in
  let f5f6_38 := (f5_2 * f6_19)%i64 in
  let f5f7_76 := (f5_2 * f7_38)%i64 in
  let f5f8_38 := (f5_2 * f8_19)%i64 in
  let f5f9_76 := (f5_2 * f9_38)%i64 in
  let f6f6_19 := (f6 * f6_19)%i64 in
  let f6f7_38 := (f6 * f7_38)%i64 in
  let f6f8_38 := (f6_2 * f8_19)%i64 in
  let f6f9_38 := (f6 * f9_38)%i64 in
  let f7f7_38 := (f7 * f7_38)%i64 in
  let f7f8_38 := (f7_2 * f8_19)%i64 in
  let f7f9_76 := (f7_2 * f9_38)%i64 in
  let f8f8_19 := (f8 * f8_19)%i64 in
  let f8f9_38 := (f8 * f9_38)%i64 in
  let f9f9_38 := (f9 * f9_38)%i64 in
  let h0 := (f0f0 + f1f9_76 + f2f8_38 + f3f7_76 + f4f6_38 + f5f5_38)%i64 in
  let h1 := (f0f1_2 + f2f9_38 + f3f8_38 + f4f7_38 + f5f6_38)%i64 in
  let h2 := (f0f2_2 + f1f1_2 + f3f9_76 + f4f8_38 + f5f7_76 + f6f6_19)%i64 in
  let h3 := (f0f3_2 + f1f2_2 + f4f9_38 + f5f8_38 + f6f7_38)%i64 in
  let h4 := (f0f4_2 + f1f3_4 + f2f2 + f5f9_76 + f6f8_38 + f7f7_38)%i64 in
  let h5 := (f0f5_2 + f1f4_2 + f2f3_2 + f6f9_38 + f7f8_38)%i64 in
  let h6 := (f0f6_2 + f1f5_4 + f2f4_2 + f3f3_2 + f7f9_76 + f8f8_19)%i64 in
  let h7 := (f0f7_2 + f1f6_2 + f2f5_2 + f3f4_2 + f8f9_38)%i64 in
  let h8 := (f0f8_2 + f1f7_4 + f2f6_2 + f3f5_4 + f4f4 + f9f9_38)%i64 in
  let h9 := (f0f9_2 + f1f8_2 + f2f7_2 + f3f6_2 + f4f5_2)%i64 in
  let c0 := ((h0 + (1 << 25)) >> 26)%i64 in
  let h1 := (h1 + c0)%i64 in
  let h0 := (h0 - c0 << 26)%i64 in
  let c4 := ((h4 + (1 << 25)) >> 26)%i64 in
  let h5 := (h5 + c4)%i64 in
  let h4 := (h4 - c4 << 26)%i64 in
  let c1 := ((h1 + (1 << 24)) >> 25)%i64 in
  let h2 := (h2 + c1)%i64 in
  let h1 := (h1 - c1 << 25)%i64 in
  let c5 := ((h5 + (1 << 24)) >> 25)%i64 in
  let h6 := (h6 + c5)%i64 in
  let h5 := (h5 - c5 << 25)%i64 in
  let c2 := ((h2 + (1 << 25)) >> 26)%i64 in
  let h3 := (h3 + c2)%i64 in
  let h2 := (h2 - c2 << 26)%i64 in
  let c6 := ((h6 + (1 << 25)) >> 26)%i64 in
  let h7 := (h7 + c6)%i64 in
  let h6 := (h6 - c6 << 26)%i64 in
  let c3 := ((h3 + (1 << 24)) >> 25)%i64 in
  let h4 := (h4 + c3)%i64 in
  let h3 := (h3 - c3 << 25)%i64 in
  let c7 := ((h7 + (1 << 24)) >> 25)%i64 in
  let h8 := (h8 + c7)%i64 in
  let h7 := (h7 - c7 << 25)%i64 in
  let c4 := ((h4 + (1 << 25)) >> 26)%i64 in
  let h5 := (h5 + c4)%i64 in
  let h4 := (h4 - c4 << 26)%i64 in
  let c8 := ((h8 + (1 << 25)) >> 26)%i64 in
  let h9 := (h9 + c8)%i64 in
  let h8 := (h8 - c8 << 26)%i64 in
  let c9 := ((h9 + (1 << 24)) >> 25)%i64 in
  let h0 := (h0 + c9 * 19)%i64 in
  let h9 := (h9 - c9 << 25)%i64 in
  let c0 := ((h0 + (1 << 25)) >> 26)%i64 in
  let h1 := (h1 + c0)%i64 in
  let h0 := (h0 - c0 << 26)%i64 in
  Fe (int32 h0) (int32 h1) (int32 h2) (int32 h3) (int32 h4)
     (int32 h5) (int32 h6) (int32 h7) (int32 h8) (int32 h9).

Definition feMul121666 (f : fieldElement) : fieldElement :=
  let h0 := (fe0 f * 121666)%i64 in
  let h1 := (fe1 f * 121666)%i64 in
  let h2 := (fe2 f * 121666)%i64 in
  let h3 := (fe3 f * 121666)%i64 in
  let h4 := (fe4 f * 121666)%i64 in
  let h5 := (fe5 f * 121666)%i64 in
  let h6 := (fe6 f * 121666)%i64 in
  let h7 := (fe7 f * 121666)%i64 in
  let h8 := (fe8 f * 121666)%i64 in
  let h9 := (fe9 f * 121666)%i64 in
  let c9 := ((h9 + (1 << 24)) >> 25)%i64 in
  let h0 := (h0 + c9 * 19)%i64 in
  let h9 := (h9 - c9 << 25)%i64 in
  let c1 := ((h1 + (1 << 24)) >> 25)%i64 in
  let h2 := (h2 + c1)%i64 in
  let h1 := (h1 - c1 << 25)%i64 in
  let c3 := ((h3 + (1 << 24)) >> 25)%i64 in
  let h4 := (h4 + c3)%i64 in
  let h3 := (h3 - c3 << 25)%i64 in
  let c5 := ((h5 + (1 << 24)) >> 25)%i64 in
  let h6 := (h6 + c5)%i64 in
  let h5 := (h5 - c5 << 25)%i64 in
  let c7 := ((h7 + (1 << 24)) >> 25)%i64 in
  let h8 := (h8 + c7)%i64 in
  let h7 := (h7 - c7 << 25)%i64 in
  let c0 := ((h0 + (1 << 25)) >> 26)%i64 in
  let h1 := (h1 + c0)%i64 in
  let h0 := (h0 - c0 << 26)%i64 in
  let c2 := ((h2 + (1 << 25)) >> 26)%i64 in
  let h3 := (h3 + c2)%i64 in
  let h2 := (h2 - c2 << 26)%i64 in
  let c4 := ((h4 + (1 << 25)) >> 26)%i64 in
  let h5 := (h5 + c4)%i64 in
  let h4 := (h4 - c4 << 26)%i64 in
  let c6 := ((h6 + (1 << 25)) >> 26)%i64 in
  let h7 := (h7 + c6)%i64 in
  let h6 := (h6 - c6 << 26)%i64 in
  let c8 := ((h8 + (1 << 25)) >> 26)%i64 in
  let h9 := (h9 + c8)%i64 in
  let h8 := (h8 - c8 << 26)%i64 in
  Fe (int32 h0) (int32 h1) (int32 h2) (int32 h3) (int32 h4)
     (int32 h5) (int32 h6) (int32 h7) (int32 h8) (int32 h9).

(** [for i = 1; i < n; i++ { feSquare(&t, &t) }]. *)
Definition feSquareLoop (n : nat) (t : fieldElement) : fieldElement :=
  Nat.iter (n - 1) feSquare t.

Definition feInvert (z : fieldElement) : fieldElement :=
  let t0 := feSquare z in
  let t0 := feSquareLoop 1 t0 in
  let t1 := feSquare t0 in
  let t1 := feSquareLoop 2 t1 in
  let t1 := feMul z t1 in
  let t0 := feMul t0 t1 in
  let t2 := feSquare t0 in
  let t2 := feSquareLoop 1 t2 in
  let t1 := feMul t1 t2 in
  let t2 := feSquare t1 in
  let t2 := feSquareLoop 5 t2 in
  let t1 := feMul t2 t1 in
  let t2 := feSquare t1 in
  let t2 := feSquareLoop 10 t2 in
  let t2 := feMul t2 t1 in
  let t3 := feSquare t2 in
  let t3 := feSquareLoop 20 t3 in
  let t2 := feMul t3 t2 in
  let t2 := feSquare t2 in
  let t2 := feSquareLoop 10 t2 in
  let t1 := feMul t2 t1 in
  let t2 := feSquare t1 in
  let t2 := feSquareLoop 50 t2 in
  let t2 := feMul t2 t1 in
  let t3 := feSquare t2 in
  let t3 := feSquareLoop 100 t3 in
  let t2 := feMul t3 t2 in
  let t2 := feSquare t2 in
  let t2 := feSquareLoop 50 t2 in
  let t1 := feMul t2 t1 in
  let t1 := feSquare t1 in
  let t1 := feSquareLoop 5 t1 in
  feMul t1 t0.

(** The variables of the loop of [scalarMult]. *)
Record ladderVars := Ladder {
  lx2 : fieldElement; lz2 : fieldElement; lx3 : fieldElement; lz3 : fieldElement;
  lswap : Z }.

(** The body of the loop, from the second conditional swap on. *)
Definition ladderArith (x1 x2 z2 x3 z3 : fieldElement) :
    fieldElement * fieldElement * fieldElement * fieldElement :=
  let tmp0 := feSub x3 z3 in
  let tmp1 := feSub x2 z2 in
  let x2 := feAdd x2 z2 in
  let z2 := feAdd x3 z3 in
  let z3 := feMul tmp0 x2 in
  let z2 := feMul z2 tmp1 in
  let tmp0 := feSquare tmp1 in
  let tmp1 := feSquare x2 in
  let x3 := feAdd z3 z2 in
  let z2 := feSub z3 z2 in
  let x2 := feMul tmp1 tmp0 in
  let tmp1 := feSub tmp1 tmp0 in
  let z2 := feSquare z2 in
  let z3 := feMul121666 tmp1 in
  let x3 := feSquare x3 in
  let tmp0 := feAdd tmp0 z3 in
  let z3 := feMul x1 z2 in
  let z2 := feMul tmp1 tmp0 in
  (x2, z2, x3, z3).

Definition ladderStep (e : list Z) (x1 : fieldElement) (pos : nat) (s : ladderVars) :
    ladderVars :=
  let b := Z.shiftr (nth (pos / 8) e 0) (Z.land (Z.of_nat pos) 7) in
  let b := Z.land b 1 in
  let swap := Z.lxor (lswap s) b in
  let (x2, x3) := feCSwap (lx2 s) (lx3 s) swap in
  let (z2, z3) := feCSwap (lz2 s) (lz3 s) swap in
  let '(x2, z2, x3, z3) := ladderArith x1 x2 z2 x3 z3 in
  Ladder x2 z2 x3 z3 b.

(** The iterations for the positions [pos - 1], ..., [0]. *)
Fixpoint ladderLoop (e : list Z) (x1 : fieldElement) (pos : nat) (s : ladderVars) : ladderVars :=
  match pos with
  | O => s
  | S pos => ladderLoop e x1 pos (ladderStep e x1 pos s)
  end.

Definition scalarMult (input base : list Z) : list Z :=
  let e := copy (repeat 0 32%nat) input in
  let e := set_nth 0 (Z.land (nth 0 e 0) 248) e in
  let e := set_nth 31 (Z.land (nth 31 e 0) 127) e in
  let e := set_nth 31 (Z.lor (nth 31 e 0) 64) e in
  let x1 := feFromBytes base in
  let x2 := feOne in
  let x3 := feCopy x1 in
  let z3 := feOne in
  let s := ladderLoop e x1 255 (Ladder x2 feZero x3 z3 0) in
  let (x2, _) := feCSwap (lx2 s) (lx3 s) (lswap s) in
  let (z2, _) := feCSwap (lz2 s) (lz3 s) (lswap s) in
  let z2 := feInvert z2 in
  let x2 := feMul x2 z2 in
  fst (feToBytes x2).

Definition basePoint : list Z := 9 :: repeat 0 31%nat.

Definition ScalarMult (input base : list Z) : list Z := scalarMult input base.

Definition ScalarBaseMult (input : list Z) : list Z := ScalarMult input basePoint.

(** ** The field arithmetic

    The functions that coincide with those of [FieldElement] inherit their rules. *)

Lemma feMul_eq f g : feMul f g = FeMul f g.
Proof. reflexivity. Qed.

Lemma feToBytes_eq h : feToBytes h = FeToBytes h.
Proof. reflexivity. Qed.

(** The carries of [feFromBytes] and [feMul121666]. *)
Definition feCarries (h0 h1 h2 h3 h4 h5 h6 h7 h8 h9 : Z) : fieldElement :=
  let c9 := ((h9 + (1 << 24)) >> 25)%i64 in
  let h0 := (h0 + c9 * 19)%i64 in
  let h9 := (h9 - c9 << 25)%i64 in
  let c1 := ((h1 + (1 << 24)) >> 25)%i64 in
  let h2 := (h2 + c1)%i64 in
  let h1 := (h1 - c1 << 25)%i64 in
  let c3 := ((h3 + (1 << 24)) >> 25)%i64 in
  let h4 := (h4 + c3)%i64 in
  let h3 := (h3 - c3 << 25)%i64 in
  let c5 := ((h5 + (1 << 24)) >> 25)%i64 in
  let h6 := (h6 + c5)%i64 in
  let h5 := (h5 - c5 << 25)%i64 in
  let c7 := ((h7 + (1 << 24)) >> 25)%i64 in
  let h8 := (h8 + c7)%i64 in
  let h7 := (h7 - c7 << 25)%i64 in
  let c0 := ((h0 + (1 << 25)) >> 26)%i64 in
  let h1 := (h1 + c0)%i64 in
  let h0 := (h0 - c0 << 26)%i64 in
  let c2 := ((h2 + (1 << 25)) >> 26)%i64 in
  let h3 := (h3 + c2)%i64 in
  let h2 := (h2 - c2 << 26)%i64 in
  let c4 := ((h4 + (1 << 25)) >> 26)%i64 in
  let h5 := (h5 + c4)%i64 in
  let h4 := (h4 - c4 << 26)%i64 in
  let c6 := ((h6 + (1 << 25)) >> 26)%i64 in
  let h7 := (h7 + c6)%i64 in
  let h6 := (h6 - c6 << 26)%i64 in
  let c8 := ((h8 + (1 << 25)) >> 26)%i64 in
  let h9 := (h9 + c8)%i64 in
  let h8 := (h8 - c8 << 26)%i64 in
  Fe (int32 h0) (int32 h1) (int32 h2) (int32 h3) (int32 h4)
     (int32 h5) (int32 h6) (int32 h7) (int32 h8) (int32 h9).

Lemma feCarries_spec h0 h1 h2 h3 h4 h5 h6 h7 h8 h9 r :
  Forall (within (2 ^ 43)) [h0; h1; h2; h3; h4; h5; h6; h7; h8; h9] ->
  r = feCarries h0 h1 h2 h3 h4 h5 h6 h7 h8 h9 ->
  repr 1 r (of_Z (fe_sum h0 h1 h2 h3 h4 h5 h6 h7 h8 h9)).
Proof.
  intros B Hr. repeat (apply Forall_cons_iff in B; destruct B as [? B]). clear B.
  unfold within in *. cbv beta delta [feCarries] in Hr.
  do 30 (carry_step Hr). rewrite !int32_id in Hr by lia. subst r. split.
  - unfold fe_bounded, within, even_unit, odd_unit; fe_simpl. lia.
  - apply (fe_value_cong _ _ c9). unfold fe_val, fe_sum, prime25519; fe_simpl. subst. ring.
Qed.

Lemma repr_mul121666 f x : repr 2 f x -> repr 1 (feMul121666 f) (a24 * x)%F.
Proof.
  intros [B <-]. unfold fe_bounded in B. break_and.
  remember (feMul121666 f) as r eqn:Hr. cbv beta delta [feMul121666] in Hr.
  do 10 (exact_let Hr). apply feCarries_spec in Hr; [| forall_bound].
  apply (repr_eq _ _ _ _ Hr). unfold a24, fe. rewrite <- of_Z_mul. f_equal.
  unfold fe_val, fe_sum. subst. ring.
Qed.

(** The 32-bit factors [38 * f5] to [38 * f9] do not overflow either. *)
Lemma repr_feSquare f x : repr 3 f x -> repr 1 (feSquare f) (x * x)%F.
Proof.
  intros [B <-]. unfold fe_bounded in B. break_and.
  remember (feSquare f) as r eqn:Hr. cbv beta delta [feSquare] in Hr.
  repeat (exact_let Hr).
  apply FeCombine_spec in Hr; [| forall_bound]. destruct Hr as [Hb [k Hk]].
  split; [exact Hb |]. unfold fe at 2 3. rewrite <- of_Z_mul.
  apply (fe_value_cong _ _
    (k + mul_quot f0 f1 f2 f3 f4 f5 f6 f7 f8 f9 f0 f1 f2 f3 f4 f5 f6 f7 f8 f9)).
  rewrite Hk. unfold fe_val, fe_sum, mul_quot, prime25519. subst. ring.
Qed.

(** [feFromBytes] reads its 32 bytes as a 256-bit number. *)
Lemma repr_feFromBytes src :
  length src = 32%nat -> bytes_ok src -> repr 1 (feFromBytes src) (of_Z (le_val src)).
Proof.
  intros L H. remember (feFromBytes src) as r eqn:Hr. cbv beta delta [feFromBytes] in Hr.
  change load3 with FieldCodec.load3 in Hr. change load4 with FieldCodec.load4 in Hr.
  do 10 (let E := fresh "E" in intro_let Hr E;
         rewrite ?load4_spec, ?load3_spec in E by (auto using bytes_ok_skipn)).
  do 32 (destruct src as [| ? src]; [discriminate L |]).
  destruct src; [| discriminate L]. cbn [nth skipn] in E, E0, E1, E2, E3, E4, E5, E6, E7, E8.
  repeat (apply Forall_cons_iff in H; destruct H as [? H]); clear H. unfold byte_ok in *.
  rewrite shl64 in E0, E1, E2, E3, E5, E6, E7, E8 by lia.
  apply feCarries_spec in Hr.
  - apply (repr_eq _ _ _ _ Hr). f_equal. unfold fe_sum. cbn [le_val]. subst. ring.
  - repeat (apply Forall_cons; [unfold within; lia |]). apply Forall_nil.
Qed.

Lemma repr_feMul f g x y : repr 3 f x -> repr 3 g y -> repr 1 (feMul f g) (x * y)%F.
Proof. rewrite feMul_eq. apply repr_mul. Qed.

Lemma repr_feAdd m n f g x y :
  repr m f x -> repr n g y -> m + n <= 63 -> repr (m + n) (feAdd f g) (x + y)%F.
Proof. exact (repr_add m n f g x y). Qed.

Lemma repr_feSub m n f g x y :
  repr m f x -> repr n g y -> m + n <= 63 -> repr (m + n) (feSub f g) (x - y)%F.
Proof. exact (repr_sub m n f g x y). Qed.

Lemma feToBytes_spec f x : repr 3 f x -> fst (feToBytes f) = encode x.
Proof. rewrite feToBytes_eq. intros H. destruct (FeToBytes_spec f x H) as (f' & -> & _). reflexivity. Qed.

(** ** Inversion *)

Ltac fe_rule _ :=
  lazymatch goal with
  | |- repr 1 (feSquare _) _ => eapply (repr_pow_square feSquare repr_feSquare)
  | |- repr 1 (feMul _ _) _ => eapply (repr_pow_mul feMul repr_feMul)
  | |- repr 1 (feSquareLoop _ _) _ => eapply (repr_pow_loop feSquare repr_feSquare)
  end.

Lemma repr_feInvert f x : repr 3 f x -> repr 1 (feInvert f) (x ^ (prime25519 - 2))%F.
Proof.
  intros H%repr_pow_1. remember (feInvert f) as r eqn:Hr.
  cbv beta delta [feInvert] in Hr. do 32 (pow_let_with fe_rule Hr). subst r.
  eapply repr_eq; [pow_rule_with fe_rule | f_equal; vm_compute; reflexivity].
Qed.

(** ** Conditional swap *)

Lemma swapLimb_spec b x y :
  b = 0 \/ b = 1 -> swapLimb (int32 (- b)) x y = if b =? 0 then (x, y) else (y, x).
Proof.
  intros [-> | ->]; unfold swapLimb.
  - change (int32 (- 0)) with 0. now rewrite Z.land_0_l, !Z.lxor_0_r.
  - change (int32 (- (1))) with (-1). rewrite Z.land_m1_l.
    rewrite (Z.lxor_comm x y) at 2. now rewrite <- !Z.lxor_assoc, !Z.lxor_nilpotent, !Z.lxor_0_l.
Qed.

Lemma feCSwap_spec f g b :
  b = 0 \/ b = 1 -> feCSwap f g b = if b =? 0 then (f, g) else (g, f).
Proof.
  intros Hb. unfold feCSwap. rewrite !swapLimb_spec by exact Hb.
  destruct f, g, Hb as [-> | ->]; reflexivity.
Qed.

(** ** One step of the ladder *)

Ltac fe_expr :=
  lazymatch goal with
  | |- repr _ (feMul _ _) _ => eapply repr_feMul;
      (eapply repr_le; [fe_expr | vm_compute; discriminate])
  | |- repr _ (feSquare _) _ => eapply repr_feSquare;
      (eapply repr_le; [fe_expr | vm_compute; discriminate])
  | |- repr _ (feMul121666 _) _ => eapply repr_mul121666;
      (eapply repr_le; [fe_expr | vm_compute; discriminate])
  | |- repr _ (feAdd _ _) _ => eapply repr_feAdd; [fe_expr | fe_expr | vm_compute; discriminate]
  | |- repr _ (feSub _ _) _ => eapply repr_feSub; [fe_expr | fe_expr | vm_compute; discriminate]
  | |- _ => eassumption
  end.

Lemma ladderArith_repr x1 x2 z2 x3 z3 u X2 Z2 X3 Z3 :
  repr 1 x1 u -> repr 1 x2 X2 -> repr 1 z2 Z2 -> repr 1 x3 X3 -> repr 1 z3 Z3 ->
  exists x2' z2' x3' z3', ladderArith x1 x2 z2 x3 z3 = (x2', z2', x3', z3') /\
    let A := ((X2 + Z2) * (X2 + Z2))%F in
    let B := ((X2 - Z2) * (X2 - Z2))%F in
    let DA := ((X3 - Z3) * (X2 + Z2))%F in
    let CB := ((X3 + Z3) * (X2 - Z2))%F in
    repr 1 x2' (A * B)%F /\ repr 1 z2' ((A - B) * (B + a24 * (A - B)))%F /\
    repr 1 x3' ((DA + CB) * (DA + CB))%F /\ repr 1 z3' (u * ((DA - CB) * (DA - CB)))%F.
Proof.
  intros. eexists _, _, _, _. split; [reflexivity |]. cbv zeta. repeat split_and; fe_expr.
Qed.

(** The variables stand for a pair of multiples of [P] around [n]. *)
Definition ladder_inv (P : point) (u : F) (n : Z) (s : ladderVars) : Prop :=
  exists X2 Z2 X3 Z3,
    repr 1 (lx2 s) X2 /\ repr 1 (lz2 s) Z2 /\ repr 1 (lx3 s) X3 /\ repr 1 (lz3 s) Z3 /\
    (lswap s = 0 \/ lswap s = 1) /\ xz_pair P u n (lswap s) X2 Z2 X3 Z3.

Lemma ladder_arith_inv P u n b x1 x2 z2 x3 z3 X2 Z2 X3 Z3 :
  (u * (1 - py P) = 1 + py P)%F -> (b = 0 \/ b = 1) ->
  repr 1 x1 u -> repr 1 x2 X2 -> repr 1 z2 Z2 -> repr 1 x3 X3 -> repr 1 z3 Z3 ->
  xz_pair P u n b X2 Z2 X3 Z3 ->
  ladder_inv P u (2 * n + b)
    (let '(x2, z2, x3, z3) := ladderArith x1 x2 z2 x3 z3 in Ladder x2 z2 x3 z3 b).
Proof.
  intros Hu Hb R1 R2 R3 R4 R5 U.
  destruct (ladderArith_repr _ _ _ _ _ _ _ _ _ _ R1 R2 R3 R4 R5)
    as (x2' & z2' & x3' & z3' & -> & S2 & T2 & S3 & T3).
  do 4 eexists. cbn [lx2 lz2 lx3 lz3 lswap].
  split; [exact S2 |]. split; [exact T2 |]. split; [exact S3 |]. split; [exact T3 |].
  split; [exact Hb | now apply xz_step].
Qed.

Lemma ladderStep_inv P u e x1 n pos s :
  (u * (1 - py P) = 1 + py P)%F -> repr 1 x1 u -> bytes_ok e -> ladder_inv P u n s ->
  ladder_inv P u (2 * n + Z.b2z (Z.testbit (le_val e) (Z.of_nat pos))) (ladderStep e x1 pos s).
Proof.
  intros Hu R1 He (X2 & Z2 & X3 & Z3 & R2 & R3 & R4 & R5 & Hw & U).
  set (b := Z.b2z _). unfold ladderStep.
  assert (Z.land (Z.shiftr (nth (pos / 8) e 0) (Z.land (Z.of_nat pos) 7)) 1 = b) as ->.
  { rewrite land_1, <- Z.bit0_mod, Z.shiftr_spec, Z.add_0_l by lia.
    change 7 with (Z.ones 3). rewrite Z.land_ones by lia. unfold b.
    rewrite (le_val_testbit e He pos), Nat2Z.inj_mod. reflexivity. }
  assert (b = 0 \/ b = 1) as Hb by (unfold b; destruct (Z.testbit _ _); auto).
  destruct (swap_bits _ _ Hw Hb) as [Hs Ew]. rewrite !feCSwap_spec by exact Hs. rewrite Ew.
  apply (xz_reorder _ _ _ _ b) in U; [| assumption ..].
  destruct (lswap s =? b); eapply ladder_arith_inv; eassumption.
Qed.

Lemma ladderLoop_inv P u e x1 pos : forall s,
  (u * (1 - py P) = 1 + py P)%F -> repr 1 x1 u -> bytes_ok e ->
  ladder_inv P u (le_val e / 2 ^ Z.of_nat pos) s ->
  ladder_inv P u (le_val e) (ladderLoop e x1 pos s).
Proof.
  induction pos as [| pos IH]; intros s Hu R1 He I; cbn [ladderLoop].
  - change (2 ^ Z.of_nat 0) with 1 in I. now rewrite Z.div_1_r in I.
  - apply IH; try assumption. pose proof (le_val_bounds e He).
    rewrite div_pow_step by lia. now apply ladderStep_inv.
Qed.

(** ** Scalar multiplication *)

(** The scalar that 32 bytes stand for, once clamped. *)
Definition dhScalar (input : list Z) : Z := le_val (clamp 127 input).

Lemma clamp_bytes b : byte_ok b ->
  64 <= Z.lor (Z.land b 127) 64 <= 127 /\ 0 <= Z.land b 248 < 256 /\ Z.land b 248 mod 8 = 0.
Proof.
  intros H.
  apply (Z_range_check (fun b => (64 <=? Z.lor (Z.land b 127) 64) &&
    (Z.lor (Z.land b 127) 64 <=? 127) && (0 <=? Z.land b 248) && (Z.land b 248 <? 256) &&
    (Z.land b 248 mod 8 =? 0)) 0 256) in H; [| vm_compute; reflexivity].
  rewrite !andb_true_iff, !Z.leb_le, Z.ltb_lt, Z.eqb_eq in H. tauto.
Qed.

Lemma clamp_127 d :
  length d = 32%nat -> bytes_ok d ->
  bytes_ok (clamp 127 d) /\ 2 ^ 254 <= le_val (clamp 127 d) < 2 ^ 255 /\
  le_val (clamp 127 d) mod 8 = 0.
Proof.
  intros L Ok. destruct (clamp_bytes _ (nth_byte _ 31 Ok)) as (H31 & _ & _).
  destruct (clamp_bytes _ (nth_byte _ 0 Ok)) as (_ & H0 & M0). rewrite clamp_eq by lia.
  revert H31 H0 M0. generalize (Z.lor (Z.land (nth 31 d 0) 127) 64), (Z.land (nth 0 d 0) 248).
  intros t h Ht Hh Mh. split.
  - repeat apply bytes_ok_set_nth; [exact Ok | |]; unfold byte_ok; lia.
  - do 32 (destruct d as [| ? d]; [discriminate L |]). destruct d; [| discriminate L].
    repeat (apply Forall_cons_iff in Ok; destruct Ok as [? Ok]). unfold byte_ok in *.
    cbn [set_nth le_val]. split; [lia |]. apply Z.mod_divide in Mh as [q ->]; [| lia].
    match goal with |- (q * 8 + 256 * ?v) mod 8 = 0 =>
      replace (q * 8 + 256 * v) with ((q + 32 * v) * 8) by ring end.
    apply Z.mod_mul. lia.
Qed.

(** The quotient at the end of [scalarMult]. *)
Lemma feToBytes_quotient x z X Z :
  repr 1 x X -> repr 1 z Z ->
  fst (feToBytes (feMul x (feInvert z))) = encode (X * Z ^ (prime25519 - 2))%F.
Proof.
  intros RX RZ. apply feToBytes_spec, (repr_le 1 3); [| lia].
  apply repr_feMul; [apply (repr_le 1 3); [exact RX | lia] |].
  apply (repr_le 1 3); [apply repr_feInvert, (repr_le 1 3); [exact RZ | lia] | lia].
Qed.

Lemma dhScalar_prefix input :
  length input = 32%nat -> bytes_ok input -> le_val (clamp 127 input) / 2 ^ Z.of_nat 255 = 0.
Proof.
  intros Li Oi. destruct (clamp_127 input Li Oi) as (_ & Be & _).
  apply Z.div_small. change (Z.of_nat 255) with 255. lia.
Qed.

Lemma scalarMult_spec input base P :
  length input = 32%nat -> bytes_ok input -> length base = 32%nat -> bytes_ok base ->
  of_Z (le_val base) = mont_u P ->
  scalarMult input base = encode (mont_u (zmul (dhScalar input) P)).
Proof.
  intros Li Oi Lb Ob Eu. destruct (mont_u_proper P) as (Q & N & EQ & <-).
  rewrite <- EQ in Eu. unfold scalarMult. cbv zeta.
  rewrite (copy_full (repeat 0 32) input) by exact Li. fold (clamp 127 input).
  destruct (clamp_127 input Li Oi) as (Oe & _ & _).
  pose proof (dhScalar_prefix input Li Oi) as D0. unfold dhScalar.
  revert Oe D0. generalize (clamp 127 input). intros e Oe D0.
  pose proof (repr_feFromBytes base Lb Ob) as R1. rewrite Eu in R1.
  revert R1. generalize (feFromBytes base). intros x1 R1.
  assert (ladder_inv Q (mont_u Q) (le_val e / 2 ^ Z.of_nat 255)
            (Ladder feOne feZero (feCopy x1) feOne 0)) as I0.
  { rewrite D0. exists 1%F, 0%F, (mont_u Q), 1%F.
    split; [exact repr_one |]. split; [exact repr_zero |]. split; [exact R1 |].
    split; [exact repr_one |]. split; [now left | now apply xz_start]. }
  apply (ladderLoop_inv _ _ _ _ 255 _ (mont_u_spec Q N) R1 Oe) in I0.
  revert I0. generalize (ladderLoop e x1 255 (Ladder feOne feZero (feCopy x1) feOne 0)).
  intros s (X2 & Z2 & X3 & Z3 & R2 & R3 & R4 & R5 & Hw & U).
  apply (xz_reorder _ _ _ _ 0) in U; [| exact Hw | now left].
  rewrite !feCSwap_spec by exact Hw.
  destruct (lswap s =? 0); erewrite feToBytes_quotient by eassumption;
    rewrite F_pow_quotient; now rewrite (xz_result _ _ _ _ _ _ U).
Qed.

(** ** The base point *)

Lemma mont_u_base : mont_u B = of_Z 9.
Proof.
  assert (py B = of_Z base_y) as Y by reflexivity. unfold mont_u. rewrite Y.
  apply Zmod.unsigned_inj. vm_compute. reflexivity.
Qed.

Lemma basePoint_ok : length basePoint = 32%nat /\ bytes_ok basePoint /\ le_val basePoint = 9.
Proof.
  split; [reflexivity |]. split; [| reflexivity].
  apply Forall_cons; [unfold byte_ok; lia | apply zeros_ok].
Qed.

Lemma ScalarBaseMult_spec input :
  length input = 32%nat -> bytes_ok input ->
  ScalarBaseMult input = encode (mont_u (zmul (dhScalar input) B)).
Proof.
  intros Li Oi. destruct basePoint_ok as (L & O & V).
  assert (of_Z (le_val basePoint) = mont_u B) as E by (rewrite V; symmetry; exact mont_u_base).
  exact (scalarMult_spec input basePoint B Li Oi L O E).
Qed.

Lemma of_Z_encode x : of_Z (le_val (encode x)) = x.
Proof. rewrite encode_val. apply Zmod.of_Z_to_Z. Qed.

(** A scalar applied to an encoded coordinate. *)
Lemma ScalarMult_encode input P :
  length input = 32%nat -> bytes_ok input ->
  ScalarMult input (encode (mont_u P)) = encode (mont_u (zmul (dhScalar input) P)).
Proof.
  intros Li Oi.
  exact (scalarMult_spec input _ P Li Oi (encode_length _) (encode_ok _) (of_Z_encode _)).
Qed.

(** Clamped scalars are multiples of eight. *)
Lemma dhScalar_cofactor input P :
  length input = 32%nat -> bytes_ok input -> zmul 8 P = pzero ->
  zmul (dhScalar input) P = pzero.
Proof.
  intros Li Oi H8. destruct (clamp_127 input Li Oi) as (_ & _ & M).
  apply Z.mod_divide in M as [q E]; [| lia]. unfold dhScalar. rewrite E, zmul_mul, H8.
  apply zmul_zero.
Qed.

(** ** Properties *)

Lemma encode_u_zero : encode (mont_u pzero) = repeat 0 32.
Proof. vm_compute. reflexivity. Qed.

(** The X25519 scalar of the first half of an Ed25519 digest is the secret scalar. *)
Lemma dhScalar_seed seed : dhScalar (firstn 32 (sha512 seed)) = le_val (secretScalar seed).
Proof.
  rewrite <- GenerateKey_scalar. unfold dhScalar. f_equal.
  pose proof (sha512_length seed) as L. generalize dependent (sha512 seed). intros d L.
  assert (length (firstn 32 d) = 32%nat) as Lf by (rewrite length_firstn; lia).
  rewrite (clamp_eq 127 d), (clamp_eq 127 (firstn 32 d)) by lia.
  rewrite copy_zero32 by (rewrite !length_set_nth; lia). rewrite !firstn_set_nth, !nth_firstn.
  reflexivity.
Qed.

(** The Montgomery ladder on the [u] coordinate of a curve point. *)
Lemma ladder_multiple input base P :
  length input = 32%nat -> bytes_ok input -> length base = 32%nat -> bytes_ok base ->
  of_Z (le_val base) = mont_u P ->
  scalarMult input base = encode (mont_u (zmul (dhScalar input) P)) /\
  2 ^ 254 <= dhScalar input < 2 ^ 255 /\ dhScalar input mod 8 = 0 /\
  (zmul 8 P = pzero -> scalarMult input base = repeat 0 32).
Proof.
  intros Li Oi Lb Ob Hu. pose proof (scalarMult_spec input base P Li Oi Lb Ob Hu) as E.
  destruct (clamp_127 input Li Oi) as (_ & Bd & M). split; [exact E |]. split; [exact Bd |].
  split; [exact M |]. intros H8. rewrite E, (dhScalar_cofactor input P Li Oi H8).
  exact encode_u_zero.
Qed.

#[local] Opaque scalarMult.

Lemma shared_secret a b :
  length a = 32%nat -> bytes_ok a -> length b = 32%nat -> bytes_ok b ->
  ScalarMult a (ScalarBaseMult b) = encode (mont_u (zmul (dhScalar a * dhScalar b) B)).
Proof.
  intros La Oa Lb Ob. rewrite (ScalarBaseMult_spec b Lb Ob), zmul_mul.
  exact (ScalarMult_encode a (zmul (dhScalar b) B) La Oa).
Qed.

(** C11: X25519.  For 32 bytes that are the [u] coordinate of a curve point
    [P], the ladder of [scalarMult] returns the [u] coordinate of the multiple of [P] by
    the clamped scalar, in canonical form; that scalar lies between 2^254 and 2^255 and
    is a multiple of 8, so that every point of small order gives zeros.  Two parties who
    exchange their [ScalarBaseMult] results compute the same secret, and the X25519 key
    made from the digest of an Ed25519 seed belongs to the point that [GenerateKey]
    publishes. *)
Theorem diffie_hellman a b seed :
  length a = 32%nat -> bytes_ok a -> length b = 32%nat -> bytes_ok b ->
  (forall base P, length base = 32%nat -> bytes_ok base -> of_Z (le_val base) = mont_u P ->
     scalarMult a base = encode (mont_u (zmul (dhScalar a) P)) /\
     2 ^ 254 <= dhScalar a < 2 ^ 255 /\ dhScalar a mod 8 = 0 /\
     (zmul 8 P = pzero -> scalarMult a base = repeat 0 32)) /\
  ScalarMult a (ScalarBaseMult b) = ScalarMult b (ScalarBaseMult a) /\
  ScalarMult a (ScalarBaseMult b) = encode (mont_u (zmul (dhScalar a * dhScalar b) B)) /\
  GenerateKey (Some seed) =
    Some (encode_point (publicPoint seed), seed ++ encode_point (publicPoint seed)) /\
  ScalarBaseMult (firstn 32 (sha512 seed)) = encode (mont_u (publicPoint seed)).
Proof.
  intros La Oa Lb Ob. pose proof (shared_secret a b La Oa Lb Ob) as E.
  pose proof (shared_secret b a Lb Ob La Oa) as E'. rewrite Z.mul_comm in E'.
  split; [intros base P L O H; exact (ladder_multiple a base P La Oa L O H) |].
  split; [exact (eq_trans E (eq_sym E')) |]. split; [exact E |].
  split; [exact (GenerateKey_spec seed) |].
  pose proof (sha512_length seed) as L. pose proof (sha512_ok seed) as Ok.
  unfold publicPoint. rewrite <- dhScalar_seed. apply ScalarBaseMult_spec; [| auto with bytes].
  rewrite length_firstn, L. reflexivity.
Qed.

Lemma diffie_hellman_witness :
  scalarMult (repeat 1 32) basePoint = encode (mont_u (zmul (dhScalar (repeat 1 32)) B)) /\
  ScalarMult (repeat 1 32) (ScalarBaseMult (repeat 2 32)) =
  ScalarMult (repeat 2 32) (ScalarBaseMult (repeat 1 32)).
Proof.
  destruct basePoint_ok as (Lb & Ob & Vb).
  assert (forall x, byte_ok x -> bytes_ok (repeat x 32)) as Ok
    by (intros x Hx; apply Forall_forall; intros y ->%repeat_spec; exact Hx).
  pose proof (diffie_hellman (repeat 1 32) (repeat 2 32) [] eq_refl
    (Ok 1 ltac:(unfold byte_ok; lia)) eq_refl (Ok 2 ltac:(unfold byte_ok; lia))) as H.
  split; [| exact (proj1 (proj2 H))].
  refine (proj1 (proj1 H basePoint B Lb Ob _)). rewrite Vb. symmetry. exact mont_u_base.
Defined.
