(* ===== verification/Curve25519Amd64.v ===== *)
(** * The amd64 build of curve25519

    Model of [src/golang-x-crypto/curve25519/mont25519_amd64.go], the Go part of the
    implementation in five 51-bit limbs.  [cswap], [ladderstep], [freeze], [mul] and
    [square] are the routines of the assembly files of that directory: the class [Assembly]
    has them as operations and [AssemblyLaws] states what the Go code relies on.  For every
    implementation of the interface, [scalarMult] agrees with the portable one of
    [Curve25519], except that the top bit of the base point is ignored. *)

From S2P Require Import Prelude Primality Field25519 Edwards FieldElement FieldCodec BasePoint ScalarMult Ed25519 Montgomery Curve25519.

(** ** The code *)

(** [[5]uint64]. *)
Record limbs := L5 { l0 : Z; l1 : Z; l2 : Z; l3 : Z; l4 : Z }.

(** [[5][5]uint64]: the variable [work] of [mladder]. *)
Record workspace := Work { w0 : limbs; w1 : limbs; w2 : limbs; w3 : limbs; w4 : limbs }.

Class Assembly := {
  cswap : workspace -> Z -> workspace;   (* called with [&work[1]] *)
  ladderstep : workspace -> workspace;
  freeze : limbs -> limbs;
  mul : limbs -> limbs -> limbs;
  square : limbs -> limbs }.

Section code.
Context {Asm : Assembly}.

Definition setint (v : Z) : limbs := L5 v 0 0 0 0.

(** The variables of the loops of [mladder]. *)
Definition mladderStep (s : list Z) (i j : nat) (st : workspace * Z) : workspace * Z :=
  let (work, prevbit) := st in
  let bit := Z.land (Z.shiftr (nth i s 0) (Z.of_nat j)) 1 in
  let swap := Z.lxor bit prevbit in
  (ladderstep (cswap work swap), bit).

(** [for j < 8 { ...; j-- }] from [j = k - 1]: after [j = 0] the unsigned [j] wraps around
    and the loop ends. *)
Fixpoint mladderBits (s : list Z) (i k : nat) (st : workspace * Z) : workspace * Z :=
  match k with
  | O => st
  | S j => mladderBits s i j (mladderStep s i j st)
  end.

(** The iterations for [i = n - 1], ..., [0], the first of them with [j = k - 1]. *)
Fixpoint mladderBytes (s : list Z) (n k : nat) (st : workspace * Z) : workspace * Z :=
  match n with
  | O => st
  | S i => mladderBytes s i 8 (mladderBits s i k st)
  end.

Definition mladder (xr : limbs) (s : list Z) : limbs * limbs :=
  let work := Work xr (setint 1) (setint 0) xr (setint 1) in
  let (work, _) := mladderBytes s 32 7 (work, 0) in
  (w1 work, w2 work).

Definition unpack (x : list Z) : limbs :=
  let r0 := (nth 0 x 0 .| (nth 1 x 0 << 8) .| (nth 2 x 0 << 16) .| (nth 3 x 0 << 24) .|
    (nth 4 x 0 << 32) .| (nth 5 x 0 << 40) .| ((nth 6 x 0 .& 7) << 48))%u64 in
  let r1 := ((nth 6 x 0 >> 3) .| (nth 7 x 0 << 5) .| (nth 8 x 0 << 13) .| (nth 9 x 0 << 21) .|
    (nth 10 x 0 << 29) .| (nth 11 x 0 << 37) .| ((nth 12 x 0 .& 63) << 45))%u64 in
  let r2 := ((nth 12 x 0 >> 6) .| (nth 13 x 0 << 2) .| (nth 14 x 0 << 10) .| (nth 15 x 0 << 18) .|
    (nth 16 x 0 << 26) .| (nth 17 x 0 << 34) .| (nth 18 x 0 << 42) .| ((nth 19 x 0 .& 1) << 50))%u64 in
  let r3 := ((nth 19 x 0 >> 1) .| (nth 20 x 0 << 7) .| (nth 21 x 0 << 15) .| (nth 22 x 0 << 23) .|
    (nth 23 x 0 << 31) .| (nth 24 x 0 << 39) .| ((nth 25 x 0 .& 15) << 47))%u64 in
  let r4 := ((nth 25 x 0 >> 4) .| (nth 26 x 0 << 4) .| (nth 27 x 0 << 12) .| (nth 28 x 0 << 20) .|
    (nth 29 x 0 << 28) .| (nth 30 x 0 << 36) .| ((nth 31 x 0 .& 127) << 44))%u64 in
  L5 r0 r1 r2 r3 r4.

Definition pack (x : limbs) : list Z :=
  let t := freeze x in
  let o0 := uint8 (l0 t) in
  let o1 := uint8 (l0 t >> 8)%u64 in
  let o2 := uint8 (l0 t >> 16)%u64 in
  let o3 := uint8 (l0 t >> 24)%u64 in
  let o4 := uint8 (l0 t >> 32)%u64 in
  let o5 := uint8 (l0 t >> 40)%u64 in
  let o6 := uint8 (l0 t >> 48)%u64 in
  let o6 := Z.lxor o6 (Z.land (uint8 (l1 t << 3)%u64) 248) in
  let o7 := uint8 (l1 t >> 5)%u64 in
  let o8 := uint8 (l1 t >> 13)%u64 in
  let o9 := uint8 (l1 t >> 21)%u64 in
  let o10 := uint8 (l1 t >> 29)%u64 in
  let o11 := uint8 (l1 t >> 37)%u64 in
  let o12 := uint8 (l1 t >> 45)%u64 in
  let o12 := Z.lxor o12 (Z.land (uint8 (l2 t << 6)%u64) 192) in
  let o13 := uint8 (l2 t >> 2)%u64 in
  let o14 := uint8 (l2 t >> 10)%u64 in
  let o15 := uint8 (l2 t >> 18)%u64 in
  let o16 := uint8 (l2 t >> 26)%u64 in
  let o17 := uint8 (l2 t >> 34)%u64 in
  let o18 := uint8 (l2 t >> 42)%u64 in
  let o19 := uint8 (l2 t >> 50)%u64 in
  let o19 := Z.lxor o19 (Z.land (uint8 (l3 t << 1)%u64) 254) in
  let o20 := uint8 (l3 t >> 7)%u64 in
  let o21 := uint8 (l3 t >> 15)%u64 in
  let o22 := uint8 (l3 t >> 23)%u64 in
  let o23 := uint8 (l3 t >> 31)%u64 in
  let o24 := uint8 (l3 t >> 39)%u64 in
  let o25 := uint8 (l3 t >> 47)%u64 in
  let o25 := Z.lxor o25 (Z.land (uint8 (l4 t << 4)%u64) 240) in
  let o26 := uint8 (l4 t >> 4)%u64 in
  let o27 := uint8 (l4 t >> 12)%u64 in
  let o28 := uint8 (l4 t >> 20)%u64 in
  let o29 := uint8 (l4 t >> 28)%u64 in
  let o30 := uint8 (l4 t >> 36)%u64 in
  let o31 := uint8 (l4 t >> 44)%u64 in
  [o0; o1; o2; o3; o4; o5; o6; o7; o8; o9; o10; o11; o12; o13; o14; o15;
   o16; o17; o18; o19; o20; o21; o22; o23; o24; o25; o26; o27; o28; o29; o30; o31].

(** [for i := 1; i < n; i++ { square(&t, &t) }]. *)
Definition squareLoop (n : nat) (t : limbs) : limbs := Nat.iter (n - 1) square t.

Definition invert (x : limbs) : limbs :=
  let z2 := square x in
  let t := square z2 in
  let t := square t in
  let z9 := mul t x in
  let z11 := mul z9 z2 in
  let t := square z11 in
  let z2_5_0 := mul t z9 in
  let t := square z2_5_0 in
  let t := squareLoop 5 t in
  let z2_10_0 := mul t z2_5_0 in
  let t := square z2_10_0 in
  let t := squareLoop 10 t in
  let z2_20_0 := mul t z2_10_0 in
  let t := square z2_20_0 in
  let t := squareLoop 20 t in
  let t := mul t z2_20_0 in
  let t := square t in
  let t := squareLoop 10 t in
  let z2_50_0 := mul t z2_10_0 in
  let t := square z2_50_0 in
  let t := squareLoop 50 t in
  let z2_100_0 := mul t z2_50_0 in
  let t := square z2_100_0 in
  let t := squareLoop 100 t in
  let t := mul t z2_100_0 in
  let t := square t in
  let t := squareLoop 50 t in
  let t := mul t z2_50_0 in
  let t := square t in
  let t := square t in
  let t := square t in
  let t := square t in
  let t := square t in
  mul t z11.

Definition scalarMult_amd64 (input base : list Z) : list Z :=
  let e := copy (repeat 0 32%nat) input in
  let e := set_nth 0 (Z.land (nth 0 e 0) 248) e in
  let e := set_nth 31 (Z.land (nth 31 e 0) 127) e in
  let e := set_nth 31 (Z.lor (nth 31 e 0) 64) e in
  let t := unpack base in
  let (t, z) := mladder t e in
  let z := invert z in
  let t := mul t z in
  pack t.
End code.

(** ** What the assembly promises *)

Definition limbs_val (t : limbs) : Z :=
  l0 t + 2 ^ 51 * l1 t + 2 ^ 102 * l2 t + 2 ^ 153 * l3 t + 2 ^ 204 * l4 t.

Definition limbs_F (t : limbs) : F := of_Z (limbs_val t).

(** All limbs have at most 51 bits. *)
Definition limbs_51 (t : limbs) : Prop :=
  0 <= l0 t < 2 ^ 51 /\ 0 <= l1 t < 2 ^ 51 /\ 0 <= l2 t < 2 ^ 51 /\ 0 <= l3 t < 2 ^ 51 /\
  0 <= l4 t < 2 ^ 51.

(** [loose] are the operands that the routines accept; they return such ones. *)
Class AssemblyLaws (Asm : Assembly) := {
  loose : limbs -> Prop;
  loose_51 : forall t, limbs_51 t -> loose t;
  mul_law : forall a b, loose a -> loose b ->
    loose (mul a b) /\ limbs_F (mul a b) = (limbs_F a * limbs_F b)%F;
  square_law : forall a, loose a ->
    loose (square a) /\ limbs_F (square a) = (limbs_F a * limbs_F a)%F;
  freeze_law : forall a, loose a ->
    limbs_51 (freeze a) /\ limbs_val (freeze a) = limbs_val a mod prime25519;
  cswap_law : forall w v, v = 0 \/ v = 1 ->
    cswap w v = if v =? 0 then w else Work (w0 w) (w3 w) (w4 w) (w1 w) (w2 w);
  ladderstep_law : forall w,
    loose (w0 w) -> loose (w1 w) -> loose (w2 w) -> loose (w3 w) -> loose (w4 w) ->
    let w' := ladderstep w in
    let X2 := limbs_F (w1 w) in
    let Z2 := limbs_F (w2 w) in
    let X3 := limbs_F (w3 w) in
    let Z3 := limbs_F (w4 w) in
    let A := ((X2 + Z2) * (X2 + Z2))%F in
    let B := ((X2 - Z2) * (X2 - Z2))%F in
    let DA := ((X3 - Z3) * (X2 + Z2))%F in
    let CB := ((X3 + Z3) * (X2 - Z2))%F in
    w0 w' = w0 w /\ loose (w1 w') /\ loose (w2 w') /\ loose (w3 w') /\ loose (w4 w') /\
    limbs_F (w1 w') = (A * B)%F /\ limbs_F (w2 w') = ((A - B) * (B + a24 * (A - B)))%F /\
    limbs_F (w3 w') = ((DA + CB) * (DA + CB))%F /\
    limbs_F (w4 w') = (limbs_F (w0 w) * ((DA - CB) * (DA - CB)))%F }.

(** ** Packing *)

Lemma uint64_shl x k : 0 <= k -> 0 <= x -> x * 2 ^ k < 2 ^ 64 -> uint64 (Z.shiftl x k) = x * 2 ^ k.
Proof. intros. rewrite Z.shiftl_mul_pow2 by lia. apply uint64_id; nia. Qed.

Lemma or_shl a x k :
  0 <= k -> 0 <= a < 2 ^ k -> 0 <= x -> x * 2 ^ k < 2 ^ 64 ->
  Z.lor a (uint64 (Z.shiftl x k)) = a + x * 2 ^ k.
Proof.
  intros Hk Ha Hx Hb. rewrite uint64_shl, <- (lor_shiftl_add a x k) by lia.
  now rewrite Z.shiftl_mul_pow2 by lia.
Qed.

Ltac or_shls :=
  repeat match goal with
  | |- context [Z.lor ?a (uint64 (Z.shiftl ?x ?k))] =>
      lazymatch a with context [Z.lor] => fail | _ => rewrite (or_shl a x k) by lia end
  end.

(** A byte that two limbs share. *)
Lemma byte_split b k : byte_ok b -> 0 <= k <= 8 ->
  b = b mod 2 ^ k + 2 ^ k * (b / 2 ^ k) /\ 0 <= b mod 2 ^ k < 2 ^ k /\ 0 <= b / 2 ^ k < 2 ^ (8 - k).
Proof.
  unfold byte_ok. intros Hb Hk. assert (0 < 2 ^ k) by (apply Z.pow_pos_nonneg; lia).
  pose proof (Z.div_mod b (2 ^ k)). pose proof (Z.mod_pos_bound b (2 ^ k)).
  split; [lia |]. split; [lia |]. split; [apply Z.div_pos; lia |].
  apply Z.div_lt_upper_bound; [lia |]. rewrite <- Z.pow_add_r by lia.
  replace (k + (8 - k)) with 8 by lia. lia.
Qed.

Lemma unpack_spec x :
  length x = 32%nat -> bytes_ok x ->
  limbs_51 (unpack x) /\ limbs_val (unpack x) = le_val x mod 2 ^ 255.
Proof.
  intros L H. do 32 (destruct x as [| ? x]; [discriminate L |]).
  destruct x; [| discriminate L]. unfold unpack. cbn [nth].
  repeat (apply Forall_cons_iff in H; destruct H as [? H]); clear H.
  repeat match goal with
  | |- context [Z.shiftr ?b ?k] =>
      is_var b; destruct (byte_split b k) as (? & ? & ?); [assumption | lia |];
      rewrite (Z.shiftr_div_pow2 b k) by lia;
      let m := eval compute in (2 ^ k - 1) in
      change (Z.land b m) with (Z.land b (Z.ones k)); rewrite (Z.land_ones b k) by lia;
      generalize dependent (b mod 2 ^ k); generalize dependent (b / 2 ^ k); intros
  end.
  change 127 with (Z.ones 7). rewrite Z.land_ones by lia.
  destruct (byte_split z30 7) as (? & ? & ?); [assumption | lia |].
  unfold byte_ok in *. or_shls.
  unfold limbs_51, limbs_val. cbn [l0 l1 l2 l3 l4 le_val]. split; [lia |].
  apply (Z.mod_unique_pos _ _ (z30 / 2 ^ 7)); lia.
Qed.

Lemma uint64_mod8 x : uint8 (uint64 x) = uint8 x.
Proof.
  rewrite !uint8_mod, uint64_mod. change (2 ^ 64) with (2 ^ 8 * 2 ^ 56).
  Z.div_mod_to_equations. lia.
Qed.

(** A byte of [pack] that is made of two limbs. *)
Lemma byte_joint h g a b :
  0 <= a -> 0 <= b <= 8 -> 0 <= h < 2 ^ (a + b) ->
  Z.lxor (uint8 (Z.shiftr h a)) (Z.land (uint8 (uint64 (Z.shiftl g b))) (Z.shiftl (Z.ones (8 - b)) b)) =
  h / 2 ^ a + 2 ^ b * (g mod 2 ^ (8 - b)).
Proof.
  intros Ha Hb Hh. assert (0 < 2 ^ a) by (apply Z.pow_pos_nonneg; lia).
  assert (0 < 2 ^ b) by (apply Z.pow_pos_nonneg; lia).
  assert (0 < 2 ^ (8 - b)) by (apply Z.pow_pos_nonneg; lia).
  assert (2 ^ b * 2 ^ (8 - b) = 2 ^ 8) as E8 by (rewrite <- Z.pow_add_r by lia; f_equal; lia).
  rewrite Z.pow_add_r in Hh by lia.
  assert (0 <= h / 2 ^ a < 2 ^ b) as Hd
    by (split; [apply Z.div_pos; lia | apply Z.div_lt_upper_bound; lia]).
  assert (2 ^ b <= 2 ^ 8) by nia.
  rewrite uint64_mod8, (uint8_mod (Z.shiftl g b)), Z.shiftl_mul_pow2, <- E8 by lia.
  rewrite (Z.mul_comm (2 ^ b) (2 ^ (8 - b))), Zmult_mod_distr_r, <- Z.shiftl_mul_pow2 by lia.
  rewrite <- Z.shiftl_land, Z.land_ones, Z.mod_mod by lia.
  rewrite uint8_id by (rewrite Z.shiftr_div_pow2 by lia; lia).
  rewrite Z.shiftr_div_pow2, Z.lxor_lor, lor_shiftl_add by (lia || apply land_shiftl_0; lia).
  lia.
Qed.

Lemma div_split h a : 0 <= a -> h / 2 ^ a = h / 2 ^ a mod 256 + 256 * (h / 2 ^ (a + 8)).
Proof.
  intros Ha. rewrite Z.pow_add_r by lia. assert (0 < 2 ^ a) by (apply Z.pow_pos_nonneg; lia).
  rewrite <- Z.div_div by lia. pose proof (Z.div_mod (h / 2 ^ a) 256). change (2 ^ 8) with 256. lia.
Qed.

(** The bytes that [pack] cuts reduced limbs into. *)
Definition limbs_bytes (t : limbs) : list Z :=
  let byte h k := h / 2 ^ k mod 256 in
  [byte (l0 t) 0; byte (l0 t) 8; byte (l0 t) 16; byte (l0 t) 24; byte (l0 t) 32; byte (l0 t) 40;
   l0 t / 2 ^ 48 + 2 ^ 3 * (l1 t mod 2 ^ 5);
   byte (l1 t) 5; byte (l1 t) 13; byte (l1 t) 21; byte (l1 t) 29; byte (l1 t) 37;
   l1 t / 2 ^ 45 + 2 ^ 6 * (l2 t mod 2 ^ 2);
   byte (l2 t) 2; byte (l2 t) 10; byte (l2 t) 18; byte (l2 t) 26; byte (l2 t) 34; byte (l2 t) 42;
   l2 t / 2 ^ 50 + 2 ^ 1 * (l3 t mod 2 ^ 7);
   byte (l3 t) 7; byte (l3 t) 15; byte (l3 t) 23; byte (l3 t) 31; byte (l3 t) 39;
   l3 t / 2 ^ 47 + 2 ^ 4 * (l4 t mod 2 ^ 4);
   byte (l4 t) 4; byte (l4 t) 12; byte (l4 t) 20; byte (l4 t) 28; byte (l4 t) 36; byte (l4 t) 44].

Lemma pack_bytes {Asm : Assembly} x :
  limbs_51 (freeze x) -> pack x = limbs_bytes (freeze x).
Proof.
  unfold limbs_51, pack, limbs_bytes. generalize (freeze x). intros [t0 t1 t2 t3 t4] H.
  cbn [l0 l1 l2 l3 l4] in *. break_and. cbv zeta beta.
  change 248 with (Z.shiftl (Z.ones (8 - 3)) 3). change 192 with (Z.shiftl (Z.ones (8 - 6)) 6).
  change 254 with (Z.shiftl (Z.ones (8 - 1)) 1). change 240 with (Z.shiftl (Z.ones (8 - 4)) 4).
  rewrite !byte_joint by (lia || split; lia). rewrite !uint8_shr by lia.
  change (8 - 3) with 5. change (8 - 6) with 2. change (8 - 1) with 7. change (8 - 4) with 4.
  now rewrite uint8_mod, Z.div_1_r.
Qed.

Lemma limbs_bytes_val t : limbs_51 t -> le_val (limbs_bytes t) = limbs_val t.
Proof.
  destruct t as [t0 t1 t2 t3 t4]. unfold limbs_51, limbs_bytes, limbs_val.
  cbn [l0 l1 l2 l3 l4]. intros H. break_and. cbv zeta beta. cbn [le_val].
  pose proof (Z.div_mod t1 (2 ^ 5)). pose proof (Z.div_mod t2 (2 ^ 2)).
  pose proof (Z.div_mod t3 (2 ^ 7)). pose proof (Z.div_mod t4 (2 ^ 4)).
  assert (t4 / 2 ^ 44 mod 256 = t4 / 2 ^ 44) as E44
    by (apply Z.mod_small; Z.div_mod_to_equations; lia).
  assert (t0 = t0 / 2 ^ 0) as E0 by (symmetry; apply Z.div_1_r).
  pose proof (fun k => div_split t0 k) as D0. pose proof (fun k => div_split t1 k) as D1.
  pose proof (fun k => div_split t2 k) as D2. pose proof (fun k => div_split t3 k) as D3.
  pose proof (fun k => div_split t4 k) as D4.
  pose proof (D0 0). pose proof (D0 8). pose proof (D0 16). pose proof (D0 24).
  pose proof (D0 32). pose proof (D0 40).
  pose proof (D1 5). pose proof (D1 13). pose proof (D1 21). pose proof (D1 29).
  pose proof (D1 37).
  pose proof (D2 2). pose proof (D2 10). pose proof (D2 18). pose proof (D2 26).
  pose proof (D2 34). pose proof (D2 42).
  pose proof (D3 7). pose proof (D3 15). pose proof (D3 23). pose proof (D3 31).
  pose proof (D3 39).
  pose proof (D4 4). pose proof (D4 12). pose proof (D4 20). pose proof (D4 28).
  pose proof (D4 36).
  clear D0 D1 D2 D3 D4. cbn [Z.add Pos.add Pos.succ] in *. lia.
Qed.

Lemma limbs_bytes_ok t : limbs_51 t -> bytes_ok (limbs_bytes t) /\ length (limbs_bytes t) = 32%nat.
Proof.
  destruct t as [t0 t1 t2 t3 t4]. unfold limbs_51. cbn [l0 l1 l2 l3 l4]. intros H. break_and.
  split; [| reflexivity]. unfold limbs_bytes. cbn [l0 l1 l2 l3 l4]. cbv zeta beta.
  repeat (apply Forall_cons; [unfold byte_ok; first [apply Z.mod_pos_bound; lia |
    Z.div_mod_to_equations; lia] |]). apply Forall_nil.
Qed.

(** ** The ladder over the interface *)

Section proofs.
Context {Asm : Assembly} {Laws : AssemblyLaws Asm}.

(** [holds t x]: usable limbs that stand for [x]. *)
Definition holds (t : limbs) (x : F) : Prop := loose t /\ limbs_F t = x.

Lemma holds_mul a b x y : holds a x -> holds b y -> holds (mul a b) (x * y)%F.
Proof. intros [La <-] [Lb <-]. exact (mul_law a b La Lb). Qed.

Lemma holds_square a x : holds a x -> holds (square a) (x * x)%F.
Proof. intros [La <-]. exact (square_law a La). Qed.

Lemma holds_setint v : 0 <= v < 2 ^ 51 -> holds (setint v) (of_Z v).
Proof.
  intros Hv. split.
  - apply loose_51. unfold limbs_51, setint. cbn [l0 l1 l2 l3 l4]. lia.
  - unfold limbs_F, limbs_val, setint. cbn [l0 l1 l2 l3 l4]. f_equal. lia.
Qed.

Lemma holds_unpack x :
  length x = 32%nat -> bytes_ok x -> holds (unpack x) (of_Z (le_val x mod 2 ^ 255)).
Proof.
  intros L O. destruct (unpack_spec x L O) as [B V]. split; [now apply loose_51 |].
  unfold limbs_F. now rewrite V.
Qed.

Lemma pack_spec t x : holds t x -> pack t = encode x.
Proof.
  intros [Lt <-]. destruct (freeze_law t Lt) as [B V]. rewrite pack_bytes by exact B.
  destruct (limbs_bytes_ok _ B) as [Ok Len].
  apply le_val_inj; auto using encode_ok.
  rewrite encode_val, limbs_bytes_val, V by exact B. symmetry. apply Zmod.unsigned_of_Z.
Qed.

(** *** Inversion *)

Lemma holds_pow_square t x m :
  holds t (x ^ m)%F -> 0 <= m -> holds (square t) (x ^ (2 * m))%F.
Proof.
  intros H Hm. pose proof (holds_square _ _ H) as S. rewrite <- F_pow_add in S by exact Hm.
  now replace (2 * m) with (m + m) by ring.
Qed.

Lemma holds_pow_mul a b x m n :
  holds a (x ^ m)%F -> holds b (x ^ n)%F -> 0 <= m -> 0 <= n -> holds (mul a b) (x ^ (m + n))%F.
Proof. intros Ha Hb Hm Hn. rewrite F_pow_add by assumption. now apply holds_mul. Qed.

Lemma holds_pow_loop k t x m :
  holds t (x ^ m)%F -> 0 <= m -> holds (squareLoop k t) (x ^ (2 ^ Z.of_nat (k - 1) * m))%F.
Proof.
  intros Ht Hm. unfold squareLoop. induction (k - 1)%nat as [| n IH].
  - change (2 ^ Z.of_nat 0) with 1. now rewrite Z.mul_1_l.
  - cbn [Nat.iter nat_rect]. rewrite Nat2Z.inj_succ, Z.pow_succ_r, <- Z.mul_assoc by lia.
    apply holds_pow_square; [exact IH | lia].
Qed.

Ltac holds_rule :=
  lazymatch goal with
  | |- holds (square _) _ => eapply holds_pow_square
  | |- holds (mul _ _) _ => eapply holds_pow_mul
  | |- holds (squareLoop _ _) _ => eapply holds_pow_loop
  end;
  lazymatch goal with
  | |- holds _ _ => eassumption
  | |- _ => vm_compute; discriminate
  end.

Ltac holds_let H :=
  let E := fresh "E" in
  let R := fresh "R" in
  intro_let H E;
  lazymatch type of E with
  | ?x = ?X => eassert (R : holds X _) by holds_rule; rewrite <- E in R; clear E
  end.

Lemma holds_invert t x : holds t x -> holds (invert t) (x ^ (prime25519 - 2))%F.
Proof.
  intros H. assert (holds t (x ^ 1)%F) as H1 by now rewrite Zmod.pow_1_r. clear H.
  remember (invert t) as r eqn:Hr. cbv beta delta [invert] in Hr. do 33 (holds_let Hr).
  subst r. change (prime25519 - 2) with (2 ^ 255 - 32 + 11).
  eapply holds_pow_mul; [eassumption .. | |]; vm_compute; discriminate.
Qed.

(** *** Simulation

    Both implementations go through the same field elements: [sim] relates the variables of
    the portable loop to the work space. *)

Definition sim (u : F) (s : ladderVars) (st : workspace * Z) : Prop :=
  exists X2 Z2 X3 Z3,
    (repr 1 (lx2 s) X2 /\ repr 1 (lz2 s) Z2 /\ repr 1 (lx3 s) X3 /\ repr 1 (lz3 s) Z3) /\
    (holds (w0 (fst st)) u /\ holds (w1 (fst st)) X2 /\ holds (w2 (fst st)) Z2 /\
     holds (w3 (fst st)) X3 /\ holds (w4 (fst st)) Z3) /\
    lswap s = snd st /\ (snd st = 0 \/ snd st = 1).

Lemma sim_arith u b x1 x2 z2 x3 z3 w X2 Z2 X3 Z3 :
  b = 0 \/ b = 1 -> repr 1 x1 u ->
  repr 1 x2 X2 -> repr 1 z2 Z2 -> repr 1 x3 X3 -> repr 1 z3 Z3 ->
  holds (w0 w) u -> holds (w1 w) X2 -> holds (w2 w) Z2 -> holds (w3 w) X3 -> holds (w4 w) Z3 ->
  sim u (let '(x2, z2, x3, z3) := ladderArith x1 x2 z2 x3 z3 in Ladder x2 z2 x3 z3 b)
      (ladderstep w, b).
Proof.
  intros Hb R1 R2 R3 R4 R5 [L0 E0] [L1 E1] [L2 E2] [L3 E3] [L4 E4].
  destruct (ladderArith_repr _ _ _ _ _ _ _ _ _ _ R1 R2 R3 R4 R5)
    as (x2' & z2' & x3' & z3' & -> & T).
  pose proof (ladderstep_law w L0 L1 L2 L3 L4) as S. cbv zeta in S.
  rewrite E0, E1, E2, E3, E4 in S. destruct S as (S0 & M1 & M2 & M3 & M4 & S1 & S2 & S3 & S4).
  do 4 eexists. cbn [lx2 lz2 lx3 lz3 lswap fst snd]. split; [exact T |].
  rewrite S0. repeat split; try assumption.
Qed.

Lemma sim_step u e x1 i j s st :
  repr 1 x1 u -> (j < 8)%nat -> sim u s st ->
  sim u (ladderStep e x1 (8 * i + j) s) (mladderStep e i j st).
Proof.
  intros R1 Hj (X2 & Z2 & X3 & Z3 & (R2 & R3 & R4 & R5) & (H0 & H1 & H2 & H3 & H4) & Ew & Hw).
  destruct st as [w prev]. cbn [fst snd] in *. unfold ladderStep, mladderStep.
  assert (Z.land (Z.of_nat (8 * i + j)) 7 = Z.of_nat j) as ->.
  { change 7 with (Z.ones 3). rewrite Z.land_ones by lia.
    replace (Z.of_nat (8 * i + j)) with (Z.of_nat j + Z.of_nat i * 2 ^ 3) by lia.
    rewrite Z.mod_add by lia. apply Z.mod_small. lia. }
  assert ((8 * i + j) / 8 = i)%nat as ->.
  { rewrite Nat.mul_comm, Nat.div_add_l, Nat.div_small by lia. lia. }
  set (b := Z.land (Z.shiftr _ _) 1).
  assert (b = 0 \/ b = 1) as Hb.
  { unfold b. rewrite land_1. pose proof (Z.mod_pos_bound (Z.shiftr (nth i e 0) (Z.of_nat j)) 2). lia. }
  rewrite Ew, (Z.lxor_comm b prev). destruct (swap_bits prev b Hw Hb) as [Hv _].
  rewrite !feCSwap_spec, cswap_law by exact Hv.
  destruct (Z.lxor prev b =? 0); eapply sim_arith; cbn [w0 w1 w2 w3 w4]; eassumption.
Qed.

Lemma sim_bits u e x1 i k : forall s st,
  repr 1 x1 u -> (k <= 8)%nat -> sim u s st ->
  exists s', ladderLoop e x1 (8 * i + k) s = ladderLoop e x1 (8 * i) s' /\
    sim u s' (mladderBits e i k st).
Proof.
  induction k as [| j IH]; intros s st R1 Hk S; cbn [mladderBits].
  - exists s. now rewrite Nat.add_0_r.
  - rewrite Nat.add_succ_r. cbn [ladderLoop]. apply IH; [exact R1 | lia |].
    now apply sim_step.
Qed.

Lemma sim_bytes u e x1 n : forall k s st,
  repr 1 x1 u -> (k <= 8)%nat -> (n = 0 -> k = 8)%nat -> sim u s st ->
  sim u (ladderLoop e x1 (8 * n + k - 8) s) (mladderBytes e n k st).
Proof.
  induction n as [| i IH]; intros k s st R1 Hk H0 Hsim; cbn [mladderBytes].
  - rewrite H0 by reflexivity. exact Hsim.
  - replace (8 * S i + k - 8)%nat with (8 * i + k)%nat by lia.
    destruct (sim_bits u e x1 i k s st R1 Hk Hsim) as (s' & -> & S').
    replace (8 * i)%nat with (8 * i + 8 - 8)%nat by lia. apply IH; auto.
Qed.

(** After the loop the last swap flag is the last bit of the scalar. *)
Lemma ladderLoop_swap e x1 pos : forall s,
  lswap (ladderLoop e x1 (S pos) s) = nth 0 e 0 mod 2.
Proof.
  induction pos as [| pos IH]; intros s; [| apply IH]. cbn [ladderLoop]. unfold ladderStep.
  destruct (feCSwap (lx2 s) _ _), (feCSwap (lz2 s) _ _).
  destruct (ladderArith _ _ _ _ _) as [[[? ?] ?] ?]. cbn [lswap].
  change (0 / 8)%nat with 0%nat. change (Z.land (Z.of_nat 0) 7) with 0.
  rewrite Z.shiftr_0_r. apply land_1.
Qed.

(** The base point without its top bit. *)
Definition clearTop (base : list Z) : list Z := set_nth 31 (Z.land (nth 31 base 0) 127) base.

Lemma clearTop_spec base :
  length base = 32%nat -> bytes_ok base ->
  length (clearTop base) = 32%nat /\ bytes_ok (clearTop base) /\
  le_val (clearTop base) = le_val base mod 2 ^ 255.
Proof.
  intros L Ok. pose proof (nth_byte _ 31 Ok) as Hb. unfold clearTop.
  change 127 with (Z.ones 7). rewrite Z.land_ones by lia.
  pose proof (Z.mod_pos_bound (nth 31 base 0) (2 ^ 7)) as Hm. unfold byte_ok in Hb.
  split; [now rewrite length_set_nth |].
  split; [apply bytes_ok_set_nth; [exact Ok | unfold byte_ok; lia] |].
  do 32 (destruct base as [| ? base]; [discriminate L |]). destruct base; [| discriminate L].
  cbn [nth] in *. cbn [set_nth le_val].
  repeat (apply Forall_cons_iff in Ok; destruct Ok as [? Ok]). unfold byte_ok in *.
  pose proof (Z.div_mod z30 (2 ^ 7)).
  apply (Z.mod_unique_pos _ _ (z30 / 2 ^ 7)); lia.
Qed.

Lemma clamp_even d : length d = 32%nat -> nth 0 (clamp 127 d) 0 mod 2 = 0.
Proof.
  intros L. rewrite clamp_eq, nth_set_nth by (rewrite ?length_set_nth; lia). cbn [Nat.eqb].
  rewrite nth_set_nth, Nat.eqb_refl by lia.
  rewrite <- (land_1 (Z.land _ _)), <- Z.land_assoc. apply Z.land_0_r.
Qed.

(** [mladder] leaves out the swap after the last bit, which clamping has cleared. *)
Lemma scalarMult_amd64_portable input base :
  length input = 32%nat -> bytes_ok input -> length base = 32%nat -> bytes_ok base ->
  scalarMult_amd64 input base = scalarMult input (clearTop base).
Proof.
  intros Li Oi Lb Ob. destruct (clearTop_spec base Lb Ob) as (Lc & Oc & Vc).
  pose proof (repr_feFromBytes _ Lc Oc) as R1. rewrite Vc in R1.
  pose proof (holds_unpack base Lb Ob) as H1. pose proof (clamp_even input Li) as Ev.
  unfold scalarMult, scalarMult_amd64, mladder. cbv zeta.
  rewrite (copy_full (repeat 0 32) input) by exact Li. fold (clamp 127 input).
  revert R1 H1 Ev. generalize (clamp 127 input) (feFromBytes (clearTop base)) (unpack base).
  generalize (of_Z (le_val base mod 2 ^ 255)). intros u e x1 t R1 H1 Ev.
  assert (sim u (Ladder feOne feZero (feCopy x1) feOne 0)
            (Work t (setint 1) (setint 0) t (setint 1), 0)) as S.
  { exists 1%F, 0%F, u, 1%F. cbn [lx2 lz2 lx3 lz3 lswap fst snd w0 w1 w2 w3 w4].
    split; [split; [exact repr_one | split; [exact repr_zero | split; [exact R1 | exact repr_one]]] |].
    split; [| auto]. split; [exact H1 |]. split; [exact (holds_setint 1 ltac:(lia)) |].
    split; [exact (holds_setint 0 ltac:(lia)) |]. split; [exact H1 |].
    exact (holds_setint 1 ltac:(lia)). }
  apply (sim_bytes u e x1 32 7) in S; [| exact R1 | lia | discriminate].
  change (8 * 32 + 7 - 8)%nat with 255%nat in S.
  pose proof (ladderLoop_swap e x1 254 (Ladder feOne feZero (feCopy x1) feOne 0)) as Sw.
  rewrite Ev in Sw. revert S Sw.
  generalize (ladderLoop e x1 255 (Ladder feOne feZero (feCopy x1) feOne 0)).
  intros s S Sw. destruct (mladderBytes _ _ _ _) as [w prev].
  destruct S as (X2 & Z2 & X3 & Z3 & (R2 & R3 & _) & (_ & H2 & H3 & _) & _ & _).
  cbn [fst] in H2, H3. rewrite Sw, !feCSwap_spec by now left. cbn [Z.eqb].
  rewrite (pack_spec _ _ (holds_mul _ _ _ _ H2 (holds_invert _ _ H3))). symmetry.
  now apply feToBytes_quotient.
Qed.
End proofs.

(** ** An instance

    The interface is not empty: exact arithmetic modulo the prime satisfies it. *)

Definition split_limbs (v : Z) : limbs :=
  L5 (v mod 2 ^ 51) (v / 2 ^ 51 mod 2 ^ 51) (v / 2 ^ 102 mod 2 ^ 51) (v / 2 ^ 153 mod 2 ^ 51)
     (v / 2 ^ 204 mod 2 ^ 51).

Lemma div_split51 h a :
  0 <= a -> h / 2 ^ a = h / 2 ^ a mod 2 ^ 51 + 2 ^ 51 * (h / 2 ^ (a + 51)).
Proof.
  intros Ha. rewrite Z.pow_add_r by lia. assert (0 < 2 ^ a) by (apply Z.pow_pos_nonneg; lia).
  rewrite <- Z.div_div by lia. pose proof (Z.div_mod (h / 2 ^ a) (2 ^ 51)). lia.
Qed.

Lemma split_limbs_spec v :
  0 <= v < 2 ^ 255 -> limbs_51 (split_limbs v) /\ limbs_val (split_limbs v) = v.
Proof.
  intros Hv. unfold limbs_51, limbs_val, split_limbs. cbn [l0 l1 l2 l3 l4].
  split; [repeat split; try (apply Z.mod_pos_bound; lia) |].
  pose proof (Z.div_mod v (2 ^ 51)). pose proof (div_split51 v 51). pose proof (div_split51 v 102).
  pose proof (div_split51 v 153). change (153 + 51) with 204 in *. change (102 + 51) with 153 in *.
  change (51 + 51) with 102 in *.
  rewrite (Z.mod_small (v / 2 ^ 204)); [lia |].
  split; [apply Z.div_pos; lia | apply Z.div_lt_upper_bound; lia].
Qed.

Definition of_F (x : F) : limbs := split_limbs (Zmod.unsigned x).

Lemma of_F_spec x : limbs_51 (of_F x) /\ limbs_F (of_F x) = x /\ limbs_val (of_F x) = Zmod.unsigned x.
Proof.
  pose proof (unsigned_bounds x) as B. assert (prime25519 < 2 ^ 255) by reflexivity.
  destruct (split_limbs_spec (Zmod.unsigned x)) as [L V]; [lia |].
  split; [exact L |]. split; [| exact V]. unfold limbs_F, of_F. rewrite V. apply Zmod.of_Z_to_Z.
Qed.

#[export] Instance exact_assembly : Assembly := {
  cswap w v := if v =? 0 then w else Work (w0 w) (w3 w) (w4 w) (w1 w) (w2 w);
  ladderstep w :=
    let X2 := limbs_F (w1 w) in
    let Z2 := limbs_F (w2 w) in
    let X3 := limbs_F (w3 w) in
    let Z3 := limbs_F (w4 w) in
    let A := ((X2 + Z2) * (X2 + Z2))%F in
    let B := ((X2 - Z2) * (X2 - Z2))%F in
    let DA := ((X3 - Z3) * (X2 + Z2))%F in
    let CB := ((X3 + Z3) * (X2 - Z2))%F in
    Work (w0 w) (of_F (A * B)%F) (of_F ((A - B) * (B + a24 * (A - B)))%F)
      (of_F ((DA + CB) * (DA + CB))%F) (of_F (limbs_F (w0 w) * ((DA - CB) * (DA - CB)))%F);
  freeze t := of_F (limbs_F t);
  mul a b := of_F (limbs_F a * limbs_F b)%F;
  square a := of_F (limbs_F a * limbs_F a)%F }.

#[export] Instance exact_laws : AssemblyLaws exact_assembly.
Proof.
  refine {| loose := fun _ => True |}; cbn [mul square freeze cswap ladderstep exact_assembly].
  - auto.
  - intros a b _ _. split; [exact I | apply of_F_spec].
  - intros a _. split; [exact I | apply of_F_spec].
  - intros a _. split; [apply of_F_spec |]. destruct (of_F_spec (limbs_F a)) as (_ & _ & ->).
    apply Zmod.unsigned_of_Z.
  - auto.
  - intros w _ _ _ _ _. cbn [w0 w1 w2 w3 w4].
    split; [reflexivity |]. do 4 (split; [exact I |]). repeat split; apply of_F_spec.
Defined.

(** ** Properties *)

Lemma clearTop_id base :
  length base = 32%nat -> bytes_ok base -> le_val base < 2 ^ 255 -> clearTop base = base.
Proof.
  intros L Ok H. destruct (clearTop_spec base L Ok) as (Lc & Oc & Vc).
  apply le_val_inj; [exact Oc | exact Ok | congruence |]. rewrite Vc. apply Z.mod_small.
  pose proof (le_val_bounds base Ok). lia.
Qed.

Lemma top_bit base :
  length base = 32%nat -> bytes_ok base -> 2 ^ 255 <= le_val base ->
  le_val base = le_val base mod 2 ^ 255 + 19 - prime25519 * -1.
Proof.
  intros L Ok H. pose proof (le_val_bounds base Ok) as Bd. rewrite L in Bd.
  change (256 ^ Z.of_nat 32) with (2 ^ 256) in Bd.
  rewrite <- (Z.mod_unique_pos (le_val base) (2 ^ 255) 1 (le_val base - 2 ^ 255)) by lia.
  unfold prime25519. lia.
Qed.

#[local] Opaque scalarMult scalarMult_amd64.


