(* ===== verification/Nacl.v ===== *)
(** * Authenticated encryption: secretbox and box

    Model of [src/golang-x-crypto/nacl/secretbox/secretbox.go],
    [src/golang-x-crypto/nacl/box/box.go] and [src/golang-x-crypto/poly1305/poly1305.go],
    over [Salsa20] and [Curve25519].  [poly1305.Sum], which the builds implement in floating
    point or in assembly, is an interface: a function of the message and the key that returns
    16 bytes.  What one side seals, the other side opens, and nothing is returned unless the
    authenticator fits. *)

From S2P Require Import Prelude Primality Field25519 Edwards FieldElement FieldCodec BasePoint Ed25519 Montgomery Curve25519 Salsa20.

Local Open Scope go_scope.

(** ** The code *)

Definition TagSize : nat := 16.

(** [poly1305.Sum(&tag, m, &key)]. *)
Class Authenticator := {
  Sum : list Z -> list Z -> list Z;
  Sum_ok : forall m key, bytes_ok (Sum m key) /\ length (Sum m key) = TagSize }.

(** A slice: its elements and those between its length and its capacity. *)
Record slice := Slice { elems : list Z; spare : list Z }.

Definition Overhead : nat := TagSize.

Section code.
Context {Poly : Authenticator}.

(** [subtle.ConstantTimeCompare(x, y) == 1], on slices of equal length. *)
Definition poly1305_Verify (mac m key : list Z) : bool := bytes_equal (Sum m key) mac.

Definition setup (nonce key : list Z) : list Z * list Z :=
  let hNonce := copy (repeat 0 16%nat) nonce in
  let subKey := HSalsa20 hNonce key Sigma in
  let counter := copy (repeat 0 16%nat) (skipn 16 nonce) in
  (subKey, counter).

(** The contents of [head], whose last [n] bytes are [tail]. *)
Definition sliceForAppend (input : slice) (n : nat) : list Z :=
  let total := (length (elems input) + n)%nat in
  if (total <=? length (elems input) + length (spare input))%nat
  then elems input ++ firstn n (spare input)
  else copy (repeat 0 total) (elems input).

(** The result is the contents of the slice that is returned: writes to [out], which
    aliases its end, are collected in the tail. *)
Definition Seal (out : slice) (message nonce key : list Z) : outcome (list Z) :=
  let (subKey, counter) := setup nonce key in
  let firstBlock := repeat 0 64%nat in
  firstBlock <- XORKeyStream firstBlock firstBlock counter subKey;;
  let poly1305Key := copy (repeat 0 32%nat) firstBlock in
  let ret := sliceForAppend out (length message + TagSize) in
  let tail := skipn (length (elems out)) ret in
  let firstMessageBlock := if (32 <? length message)%nat then firstn 32 message else message in
  let tagOut := firstn TagSize tail in
  let body := skipn TagSize tail in
  body <- xorInto body firstMessageBlock
            (firstn (length firstMessageBlock) (skipn 32 firstBlock));;
  let message := skipn (length firstMessageBlock) message in
  let rest := skipn (length firstMessageBlock) body in
  let counter := set_nth 8 1 counter in
  rest <- XORKeyStream rest message counter subKey;;
  let ciphertext := firstn (length firstMessageBlock) body ++ rest in
  let tag := Sum ciphertext poly1305Key in
  let tagOut := copy tagOut tag in
  Return (firstn (length (elems out)) ret ++ tagOut ++ ciphertext).

(** [None] stands for [nil, false]. *)
Definition Open (out : slice) (box nonce key : list Z) : outcome (option (list Z)) :=
  if (length box <? Overhead)%nat then Return None
  else
    let (subKey, counter) := setup nonce key in
    let firstBlock := repeat 0 64%nat in
    firstBlock <- XORKeyStream firstBlock firstBlock counter subKey;;
    let poly1305Key := copy (repeat 0 32%nat) firstBlock in
    let tag := copy (repeat 0 TagSize) box in
    if negb (poly1305_Verify tag (skipn TagSize box) poly1305Key) then Return None
    else
      let ret := sliceForAppend out (length box - Overhead) in
      let tail := skipn (length (elems out)) ret in
      let box := skipn Overhead box in
      let firstMessageBlock := if (32 <? length box)%nat then firstn 32 box else box in
      tail <- xorInto tail firstMessageBlock
                (firstn (length firstMessageBlock) (skipn 32 firstBlock));;
      let box := skipn (length firstMessageBlock) box in
      let rest := skipn (length firstMessageBlock) tail in
      let counter := set_nth 8 1 counter in
      rest <- XORKeyStream rest box counter subKey;;
      Return (Some (firstn (length (elems out)) ret ++
                    firstn (length firstMessageBlock) tail ++ rest)).

(** *** box *)

(** [read] is what [io.ReadFull] returns for 32 bytes. *)
Definition box_GenerateKey (read : option (list Z)) : option (list Z * list Z) :=
  match read with
  | None => None
  | Some privateKey => Some (ScalarBaseMult privateKey, privateKey)
  end.

Definition Precompute (peersPublicKey privateKey : list Z) : list Z :=
  let sharedKey := ScalarMult privateKey peersPublicKey in
  HSalsa20 (repeat 0 16%nat) sharedKey Sigma.

Definition box_Seal (out : slice) (message nonce peersPublicKey privateKey : list Z) :=
  Seal out message nonce (Precompute peersPublicKey privateKey).

Definition SealAfterPrecomputation (out : slice) (message nonce sharedKey : list Z) :=
  Seal out message nonce sharedKey.

Definition box_Open (out : slice) (box nonce peersPublicKey privateKey : list Z) :=
  Open out box nonce (Precompute peersPublicKey privateKey).

Definition OpenAfterPrecomputation (out : slice) (box nonce sharedKey : list Z) :=
  Open out box nonce sharedKey.
End code.

(** ** The stream of a box

    The message is encrypted with the key stream from its 33rd byte on; the first 32
    bytes are the key of the authenticator. *)

Definition boxKey (nonce key : list Z) : list Z := fst (setup nonce key).

Definition boxByte (nonce key : list Z) (i : nat) : Z :=
  keyByte (snd (setup nonce key)) (boxKey nonce key) i.

Definition authKey (nonce key : list Z) : list Z := map (boxByte nonce key) (seq 0 32).

Definition boxStream (nonce key : list Z) (i : nat) : Z := boxByte nonce key (32 + i).

Lemma setup_counter nonce key :
  length nonce = 24%nat -> bytes_ok nonce ->
  exists n, length n = 8%nat /\ bytes_ok n /\ snd (setup nonce key) = n ++ repeat 0 8%nat.
Proof.
  intros L Ok. exists (skipn 16 nonce). split; [now rewrite length_skipn, L |].
  split; [auto with bytes |]. unfold setup, copy. cbn [snd].
  rewrite repeat_length, length_skipn, L. rewrite firstn_all2 by (rewrite length_skipn, L; lia).
  reflexivity.
Qed.

Lemma counter_zero n :
  length n = 8%nat -> bytes_ok n -> counter_ok (n ++ repeat 0 8%nat).
Proof.
  intros L Ok. split; [rewrite length_app, L; reflexivity | auto with bytes].
Qed.

(** [counter[8] = 1] makes the second call continue the stream of the first one. *)
Lemma counter_one n :
  length n = 8%nat -> bytes_ok n ->
  set_nth 8 1 (n ++ repeat 0 8%nat) = nextCounter (n ++ repeat 0 8%nat).
Proof.
  intros L Ok. rewrite nextCounter_spec by now apply counter_zero. unfold counterAt.
  rewrite (firstn_app_exact 8), (skipn_app_exact 8) by exact L.
  do 8 (destruct n as [| ? n]; [discriminate L |]). destruct n; [| discriminate L].
  reflexivity.
Qed.

Lemma xorWith_zeros n : forall ks, xorWith ks (repeat 0 n) = map ks (seq 0 n).
Proof.
  induction n as [| n IH]; intros ks; cbn [repeat xorWith seq map]; [reflexivity |].
  rewrite Z.lxor_0_l, IH, <- seq_shift, map_map. reflexivity.
Qed.

Lemma firstn_seq n s : forall m, firstn n (seq s m) = seq s (Nat.min n m).
Proof.
  revert s; induction n as [| n IH]; intros s [| m]; cbn [firstn seq Nat.min]; try reflexivity.
  now rewrite IH.
Qed.

Lemma nth_stream (ks : nat -> Z) n i : (i < n)%nat -> nth i (map ks (seq 0 n)) 0 = ks i.
Proof.
  intros H. rewrite (nth_indep _ 0 (ks 0%nat)) by (rewrite length_map, length_seq; exact H).
  now rewrite map_nth, seq_nth.
Qed.

(** The first block that both functions derive. *)
Lemma firstBlock_spec nonce key :
  length nonce = 24%nat -> bytes_ok nonce ->
  XORKeyStream (repeat 0 64%nat) (repeat 0 64%nat) (snd (setup nonce key)) (fst (setup nonce key)) =
  Return (map (boxByte nonce key) (seq 0 64)).
Proof.
  intros L Ok. destruct (setup_counter nonce key L Ok) as (n & Ln & On & E).
  rewrite XORKeyStream_spec by (rewrite E; now apply counter_zero).
  rewrite Nat.leb_refl, xorWith_zeros, skipn_all2, app_nil_r by lia.
  apply (f_equal Return), map_ext. reflexivity.
Qed.

Lemma authKey_spec nonce key :
  copy (repeat 0 32%nat) (map (boxByte nonce key) (seq 0 64)) = authKey nonce key.
Proof.
  unfold copy. rewrite repeat_length, length_map, length_seq, skipn_all2, app_nil_r
    by (rewrite repeat_length; lia).
  rewrite firstn_map, firstn_seq. reflexivity.
Qed.

Lemma first_part (m : list Z) :
  (if (32 <? length m)%nat then firstn 32 m else m) = firstn 32 m.
Proof.
  destruct (Nat.ltb_spec 32 (length m)); [reflexivity |]. now rewrite firstn_all2 by lia.
Qed.

(** The two xors, one with the end of the first block and one with the following blocks,
    are one xor with the stream. *)
Lemma box_xor nonce key body m :
  length nonce = 24%nat -> bytes_ok nonce -> length body = length m ->
  exists b r,
    xorInto body (firstn 32 m)
      (firstn (length (firstn 32 m)) (skipn 32 (map (boxByte nonce key) (seq 0 64)))) = Return b /\
    XORKeyStream (skipn (length (firstn 32 m)) b) (skipn (length (firstn 32 m)) m)
      (set_nth 8 1 (snd (setup nonce key))) (fst (setup nonce key)) = Return r /\
    firstn (length (firstn 32 m)) b ++ r = xorWith (boxStream nonce key) m.
Proof.
  intros L Ok Lb. destruct (setup_counter nonce key L Ok) as (n & Ln & On & E).
  set (k := length (firstn 32 m)). assert (k = Nat.min 32 (length m)) as Hk by apply length_firstn.
  rewrite skipn_map, skipn_seq, firstn_map, firstn_seq.
  rewrite xorInto_spec by (rewrite length_map, length_seq; fold k; lia). fold k.
  destruct (Nat.leb_spec k (length body)); [| lia].
  set (x := xorWith _ (firstn 32 m)). assert (length x = k) as Lx by apply length_xorWith.
  exists (x ++ skipn k body), (xorWith (fun i => boxStream nonce key (k + i)) (skipn k m)).
  split; [reflexivity |]. rewrite (skipn_app_exact k), (firstn_app_exact k) by exact Lx. split.
  - rewrite E, counter_one, XORKeyStream_spec by
      (assumption || (rewrite nextCounter_spec by (now apply counter_zero);
                      now apply counterAt_ok, counter_zero)).
    rewrite !length_skipn, Lb, Nat.leb_refl.
    assert (skipn (length m - k) (skipn k body) = []) as ->
      by (apply skipn_all2; rewrite length_skipn; lia).
    rewrite app_nil_r. apply (f_equal Return), xorWith_ext.
    intros i Hi. rewrite length_skipn in Hi. assert (k = 32)%nat as K by lia.
    rewrite keyByte_next by now apply counter_zero. unfold boxStream, boxByte, boxKey.
    now rewrite E, K.
  - unfold x. rewrite <- (firstn_skipn 32 m) at 3. rewrite xorWith_app. fold k. f_equal.
    + apply xorWith_ext. fold k. intros i Hi.
      rewrite (nth_indep _ 0 (boxByte nonce key 0)) by (rewrite length_map, length_seq; lia).
      rewrite map_nth, seq_nth by lia. reflexivity.
    + destruct (Nat.le_gt_cases 32 (length m)); [now replace k with 32%nat by lia |].
      now rewrite !skipn_all2 by lia.
Qed.

Lemma sliceForAppend_spec out n :
  length (sliceForAppend out n) = (length (elems out) + n)%nat /\
  firstn (length (elems out)) (sliceForAppend out n) = elems out.
Proof.
  unfold sliceForAppend. destruct (Nat.leb_spec (length (elems out) + n) (length (elems out) + length (spare out))).
  - rewrite length_app, length_firstn. split; [lia | now apply firstn_app_exact].
  - split; [now rewrite copy_length, repeat_length |]. unfold copy.
    rewrite repeat_length, firstn_app, firstn_firstn. rewrite length_firstn.
    rewrite firstn_all2 by lia. replace (length (elems out) - _)%nat with 0%nat by lia.
    now rewrite firstn_O, app_nil_r.
Qed.

Section proofs.
Context {Poly : Authenticator}.

(** The box of a message. *)
Definition boxed (message nonce key : list Z) : list Z :=
  let c := xorWith (boxStream nonce key) message in Sum c (authKey nonce key) ++ c.

Lemma Seal_spec out message nonce key :
  length nonce = 24%nat -> bytes_ok nonce ->
  Seal out message nonce key = Return (elems out ++ boxed message nonce key).
Proof.
  intros L Ok. unfold Seal, boxed. destruct (setup nonce key) as [sub ctr] eqn:Es.
  pose proof (firstBlock_spec nonce key L Ok) as Fb. rewrite Es in Fb. cbn [fst snd] in Fb.
  rewrite Fb. cbn [obind]. rewrite authKey_spec, first_part.
  destruct (sliceForAppend_spec out (length message + TagSize)) as [Lr Er].
  set (ret := sliceForAppend _ _) in *. set (tail := skipn (length (elems out)) ret).
  assert (length tail = length message + 16)%nat as Lt
    by (unfold tail; rewrite length_skipn, Lr; unfold TagSize; lia).
  destruct (box_xor nonce key (skipn TagSize tail) message L Ok) as (b & r & Eb & Err & Ec).
  { rewrite length_skipn, Lt. unfold TagSize. lia. }
  rewrite Es in Err. cbn [fst snd] in Err. rewrite Eb. cbn [obind]. rewrite Err. cbn [obind].
  rewrite Ec, Er. set (c := xorWith _ message). destruct (Sum_ok c (authKey nonce key)) as [_ Ls].
  rewrite copy_full; [reflexivity |]. rewrite Ls, length_firstn, Lt. unfold TagSize. lia.
Qed.

Lemma copy_tag (box : list Z) :
  (16 <= length box)%nat -> copy (repeat 0 TagSize) box = firstn 16 box.
Proof.
  intros H. unfold copy. rewrite repeat_length, skipn_all2, app_nil_r; [reflexivity |].
  rewrite repeat_length. exact H.
Qed.

Lemma Open_spec out box nonce key :
  length nonce = 24%nat -> bytes_ok nonce ->
  Open out box nonce key =
  Return (if (length box <? 16)%nat then None
          else if bytes_equal (Sum (skipn 16 box) (authKey nonce key)) (firstn 16 box)
          then Some (elems out ++ xorWith (boxStream nonce key) (skipn 16 box)) else None).
Proof.
  intros L Ok. unfold Open. change Overhead with 16%nat. change TagSize with 16%nat.
  destruct (Nat.ltb_spec (length box) 16) as [H | H]; [reflexivity |].
  destruct (setup nonce key) as [sub ctr] eqn:Es.
  pose proof (firstBlock_spec nonce key L Ok) as Fb. rewrite Es in Fb. cbn [fst snd] in Fb.
  rewrite Fb. cbn [obind]. rewrite authKey_spec, copy_tag by exact H. unfold poly1305_Verify.
  destruct (bytes_equal _ _); [cbn [negb] | reflexivity]. rewrite first_part.
  destruct (sliceForAppend_spec out (length box - 16)) as [Lr Er].
  set (ret := sliceForAppend _ _) in *. set (tail := skipn (length (elems out)) ret).
  destruct (box_xor nonce key tail (skipn 16 box) L Ok) as (b & r & Eb & Err & Ec).
  { unfold tail. rewrite !length_skipn, Lr. lia. }
  rewrite Es in Err. cbn [fst snd] in Err. rewrite Eb. cbn [obind]. rewrite Err. cbn [obind].
  now rewrite Ec, Er.
Qed.

Lemma Open_boxed out message nonce key :
  length nonce = 24%nat -> bytes_ok nonce ->
  Open out (boxed message nonce key) nonce key = Return (Some (elems out ++ message)).
Proof.
  intros L Ok. rewrite Open_spec by assumption. unfold boxed. set (c := xorWith _ message).
  destruct (Sum_ok c (authKey nonce key)) as [_ Ls]. rewrite length_app, Ls. unfold TagSize in *.
  destruct (Nat.ltb_spec (16 + length c) 16); [lia |].
  rewrite (skipn_app_exact 16), (firstn_app_exact 16) by exact Ls.
  replace (bytes_equal _ _) with true by (symmetry; now apply bytes_equal_spec).
  unfold c. now rewrite xorWith_involutive.
Qed.
End proofs.

(** ** Properties *)

#[local] Opaque scalarMult.

(** Both parties precompute the same key. *)
Lemma Precompute_symmetric a b :
  length a = 32%nat -> bytes_ok a -> length b = 32%nat -> bytes_ok b ->
  Precompute (ScalarBaseMult b) a = Precompute (ScalarBaseMult a) b.
Proof.
  intros La Oa Lb Ob. unfold Precompute.
  pose proof (shared_secret a b La Oa Lb Ob) as E. pose proof (shared_secret b a Lb Ob La Oa) as E'.
  rewrite Z.mul_comm in E'. now rewrite E, E'.
Qed.

(** C12: for every authenticator that returns 16 bytes.  What [box.Seal] makes with the
    keys of two parties is appended to [out], 16 bytes longer than the message, and
    [box.Open] of the other party returns the message; precomputing the key changes
    nothing.  On an arbitrary box [secretbox.Open] never panics and returns a message
    exactly when the box has at least 16 bytes and its tag is the authenticator of the
    rest under the key of this nonce; the message is then the rest xored with the
    stream. *)
Theorem nacl_box {Poly : Authenticator} out out' message nonce a b box key :
  length nonce = 24%nat -> bytes_ok nonce ->
  length a = 32%nat -> bytes_ok a -> length b = 32%nat -> bytes_ok b ->
  (exists sealed,
     box_Seal out message nonce (ScalarBaseMult b) a = Return (elems out ++ sealed) /\
     SealAfterPrecomputation out message nonce (Precompute (ScalarBaseMult b) a) =
       Return (elems out ++ sealed) /\
     length sealed = (length message + Overhead)%nat /\
     box_Open out' sealed nonce (ScalarBaseMult a) b = Return (Some (elems out' ++ message)) /\
     OpenAfterPrecomputation out' sealed nonce (Precompute (ScalarBaseMult a) b) =
       Return (Some (elems out' ++ message))) /\
  Open out box nonce key =
  Return (if (length box <? 16)%nat then None
          else if bytes_equal (Sum (skipn 16 box) (authKey nonce key)) (firstn 16 box)
          then Some (elems out ++ xorWith (boxStream nonce key) (skipn 16 box)) else None).
Proof.
  intros Ln On La Oa Lb Ob. split; [| exact (Open_spec out box nonce key Ln On)].
  unfold box_Seal, SealAfterPrecomputation, box_Open, OpenAfterPrecomputation.
  rewrite <- (Precompute_symmetric a b La Oa Lb Ob).
  generalize (Precompute (ScalarBaseMult b) a). intros k.
  exists (boxed message nonce k). rewrite (Seal_spec out message nonce k Ln On).
  split; [reflexivity |]. split; [reflexivity |].
  rewrite (Open_boxed out' message nonce k Ln On). split; [| split; reflexivity].
  unfold boxed. cbv zeta. rewrite length_app, length_xorWith, (proj2 (Sum_ok _ _)).
  unfold Overhead. apply Nat.add_comm.
Qed.

(** The interface is not empty. *)
Definition zero_authenticator : Authenticator :=
  {| Sum := fun _ _ => repeat 0 16; Sum_ok := fun _ _ => conj (zeros_ok 16) eq_refl |}.

Lemma nacl_box_witness :
  let out := Slice [] [] in
  exists sealed,
    box_Seal (Poly := zero_authenticator) out [1; 2; 3] (repeat 0 24)
      (ScalarBaseMult (repeat 2 32)) (repeat 1 32) = Return sealed /\
    box_Open (Poly := zero_authenticator) out sealed (repeat 0 24)
      (ScalarBaseMult (repeat 1 32)) (repeat 2 32) = Return (Some [1; 2; 3]).
Proof.
  destruct (nacl_box (Poly := zero_authenticator) (Slice [] []) (Slice [] []) [1; 2; 3] (repeat 0 24)
    (repeat 1 32) (repeat 2 32) [] []) as ((sealed & E & _ & _ & E' & _) & _);
    try reflexivity; try apply zeros_ok;
    try (apply Forall_forall; intros x ->%repeat_spec; unfold byte_ok; lia).
  exists sealed. exact (conj E E').
Defined.
