(* ===== verification/BlockCipher.v ===== *)
(** * Block ciphers and the XTS mode

    The interface [cipher.Block] of the Go library, as a record of operations with its
    laws, and the client of the interface that the repository has:
    [src/golang-x-crypto/xts/xts.go].  The files [Tea], [Blowfish], [Cast5] and [Twofish]
    provide the implementations.  XTS is verified against the interface: decryption of a
    sector undoes its encryption for every block cipher that satisfies the laws. *)

From S2P Require Import Prelude.

Local Open Scope go_scope.

(** ** The interface *)

(** [cipher.Block]: the operations on one block of [BlockSize] bytes. *)
Record Block := MkBlock {
  BlockSize : nat;
  EncryptBlock : list Z -> list Z;
  DecryptBlock : list Z -> list Z }.

Definition block_ok (n : nat) (x : list Z) : Prop := length x = n /\ bytes_ok x.

Class BlockLaws (b : Block) : Prop := {
  encrypt_block : forall x, block_ok (BlockSize b) x -> block_ok (BlockSize b) (EncryptBlock b x);
  decrypt_block : forall x, block_ok (BlockSize b) x -> block_ok (BlockSize b) (DecryptBlock b x);
  decrypt_encrypt : forall x, block_ok (BlockSize b) x -> DecryptBlock b (EncryptBlock b x) = x;
  encrypt_decrypt : forall x, block_ok (BlockSize b) x -> EncryptBlock b (DecryptBlock b x) = x }.

(** [b.Encrypt(dst, src)] on slices: the first block of [src] goes to the start of [dst]; an
    index out of range panics. *)
Definition Block_Encrypt (b : Block) (dst src : list Z) : outcome (list Z) :=
  if (length src <? BlockSize b)%nat || (length dst <? BlockSize b)%nat then Panic
  else Return (EncryptBlock b (firstn (BlockSize b) src) ++ skipn (BlockSize b) dst).

Definition Block_Decrypt (b : Block) (dst src : list Z) : outcome (list Z) :=
  if (length src <? BlockSize b)%nat || (length dst <? BlockSize b)%nat then Panic
  else Return (DecryptBlock b (firstn (BlockSize b) src) ++ skipn (BlockSize b) dst).

(** ** XTS *)

Definition blockSize : nat := 16.

Record Cipher := MkCipher { k1 : Block; k2 : Block }.

(** [cipherFunc] returns [None] for an error, and so does [NewCipher]. *)
Definition NewCipher (cipherFunc : list Z -> option Block) (key : list Z) : option Cipher :=
  match cipherFunc (firstn (length key / 2) key) with
  | None => None
  | Some k1 =>
      let k2 := cipherFunc (skipn (length key / 2) key) in
      if negb (BlockSize k1 =? blockSize)%nat then None
      else match k2 with
           | None => None
           | Some k2 => Some (MkCipher k1 k2)
           end
  end.

(** The loop of [mul2] over the bytes, and the reduction. *)
Fixpoint shiftBytes (carryIn : Z) (tweak : list Z) : list Z * Z :=
  match tweak with
  | [] => ([], carryIn)
  | t :: tweak =>
      let carryOut := Z.shiftr t 7 in
      let t := uint8 (uint8 (Z.shiftl t 1) + carryIn) in
      let (rest, carry) := shiftBytes carryOut tweak in
      (t :: rest, carry)
  end.

Definition mul2 (tweak : list Z) : list Z :=
  let (tweak, carryIn) := shiftBytes 0 tweak in
  if negb (carryIn =? 0) then
    set_nth 0 (Z.lxor (nth 0 tweak 0)
                 (Z.lor (Z.lor (Z.lor (Z.shiftl 1 7) (Z.shiftl 1 2)) (Z.shiftl 1 1)) 1)) tweak
  else tweak.

(** [tweak[i] = byte(sectorNum); sectorNum >>= 8], eight times. *)
Fixpoint sectorBytes (n : nat) (sectorNum : Z) : list Z :=
  match n with
  | O => []
  | S n => uint8 sectorNum :: sectorBytes n (Z.shiftr sectorNum 8)
  end.

Definition startTweak (c : Cipher) (sectorNum : Z) : outcome (list Z) :=
  let tweak := sectorBytes 8 sectorNum ++ repeat 0 8%nat in
  Block_Encrypt (k2 c) tweak tweak.

(** [for j := 0; j < blockSize; j++ { x[j] ^= y[j] }]. *)
Definition xorBytes (x y : list Z) : list Z := map (fun p => Z.lxor (fst p) (snd p)) (combine x y).

(** One iteration at the front of both slices: [op] is [k1.Encrypt] or [k1.Decrypt] on
    [dst[i:]]. *)
Definition xtsBlock (op : list Z -> list Z -> outcome (list Z)) (dst src tweak : list Z) :
    outcome (list Z) :=
  if (length src <? blockSize)%nat || (length dst <? blockSize)%nat then Panic
  else
    let dst := xorBytes (firstn blockSize src) tweak ++ skipn blockSize dst in
    dst <- op dst dst;;
    Return (xorBytes (firstn blockSize dst) tweak ++ skipn blockSize dst).

(** The loop, for [n] more iterations. *)
Fixpoint xtsLoop (op : list Z -> list Z -> outcome (list Z)) (n : nat) (dst src tweak : list Z) :
    outcome (list Z) :=
  match n with
  | O => Return dst
  | S n =>
      dst <- xtsBlock op dst src tweak;;
      rest <- xtsLoop op n (skipn blockSize dst) (skipn blockSize src) (mul2 tweak);;
      Return (firstn blockSize dst ++ rest)
  end.

(** The iterations of [for i := 0; i < l; i += blockSize]. *)
Definition iterations (l : nat) : nat := (l + (blockSize - 1)) / blockSize.

Definition Encrypt (c : Cipher) (ciphertext plaintext : list Z) (sectorNum : Z) :
    outcome (list Z) :=
  if (length ciphertext <? length plaintext)%nat then Panic
  else if negb (length plaintext mod blockSize =? 0)%nat then Panic
  else
    tweak <- startTweak c sectorNum;;
    xtsLoop (Block_Encrypt (k1 c)) (iterations (length plaintext)) ciphertext plaintext tweak.

(** The loop of [Decrypt] runs over the length of [plaintext], the destination. *)
Definition Decrypt (c : Cipher) (plaintext ciphertext : list Z) (sectorNum : Z) :
    outcome (list Z) :=
  if (length plaintext <? length ciphertext)%nat then Panic
  else if negb (length ciphertext mod blockSize =? 0)%nat then Panic
  else
    tweak <- startTweak c sectorNum;;
    xtsLoop (Block_Decrypt (k1 c)) (iterations (length plaintext)) plaintext ciphertext tweak.

(** ** Blocks *)

Lemma xorBytes_length x y : length x = length y -> length (xorBytes x y) = length x.
Proof. intros L. unfold xorBytes. rewrite length_map, length_combine. lia. Qed.

Lemma xorBytes_ok x : forall y, bytes_ok x -> bytes_ok y -> bytes_ok (xorBytes x y).
Proof.
  unfold xorBytes. induction x as [| a x IH]; intros [| b y] Hx Hy; cbn [combine map];
    try constructor.
  - apply Forall_inv in Hx, Hy. now apply lxor_byte.
  - apply Forall_inv_tail in Hx, Hy. now apply IH.
Qed.

Lemma xorBytes_involutive x : forall y, length x = length y -> xorBytes (xorBytes x y) y = x.
Proof.
  unfold xorBytes. induction x as [| a x IH]; intros [| b y] L; try discriminate L; [reflexivity |].
  injection L as L. cbn [combine map fst snd]. rewrite (IH _ L). f_equal.
  now rewrite Z.lxor_assoc, Z.lxor_nilpotent, Z.lxor_0_r.
Qed.

Lemma xorBytes_block n x y : block_ok n x -> block_ok n y -> block_ok n (xorBytes x y).
Proof.
  intros [Lx Ox] [Ly Oy]. split; [rewrite xorBytes_length; congruence | now apply xorBytes_ok].
Qed.

(** ** The tweak *)

Lemma shiftBytes_spec tweak : forall carry,
  bytes_ok tweak -> carry = 0 \/ carry = 1 ->
  let (t, c) := shiftBytes carry tweak in
  length t = length tweak /\ bytes_ok t /\ (c = 0 \/ c = 1) /\
  le_val t + 256 ^ Z.of_nat (length tweak) * c = 2 * le_val tweak + carry.
Proof.
  induction tweak as [| b tweak IH]; intros carry Ok Hc; cbn [shiftBytes].
  - split; [reflexivity |]. split; [constructor |]. split; [exact Hc |].
    cbn [length le_val]. change (256 ^ Z.of_nat 0) with 1. lia.
  - apply Forall_cons_iff in Ok as [Hb Ok]. unfold byte_ok in Hb.
    rewrite Z.shiftr_div_pow2 by lia. change (2 ^ 7) with 128.
    assert (b / 128 = 0 \/ b / 128 = 1) as Hd by (Z.div_mod_to_equations; lia).
    specialize (IH (b / 128) Ok Hd). destruct (shiftBytes _ _) as [t c].
    destruct IH as (L & Ot & Hc' & V). cbn [length le_val].
    assert (uint8 (uint8 (Z.shiftl b 1) + carry) = 2 * b + carry - 256 * (b / 128)) as E.
    { rewrite !uint8_mod, Z.shiftl_mul_pow2 by lia. change (2 ^ 1) with 2. change (2 ^ 8) with 256.
      Z.div_mod_to_equations. lia. }
    rewrite E. split; [now rewrite L |].
    split; [constructor; [rewrite <- E; apply uint8_range | exact Ot] |]. split; [exact Hc' |].
    rewrite Nat2Z.inj_succ, Z.pow_succ_r by lia. lia.
Qed.

(** [mul2] multiplies by [x] in GF(2)[x] modulo [x^128 + x^7 + x^2 + x + 1]. *)
Lemma mul2_spec tweak :
  block_ok 16 tweak ->
  block_ok 16 (mul2 tweak) /\
  le_val (mul2 tweak) =
  (let d := 2 * le_val tweak in if d <? 2 ^ 128 then d else Z.lxor (d - 2 ^ 128) 135).
Proof.
  intros [L Ok]. unfold mul2. pose proof (shiftBytes_spec tweak 0 Ok (or_introl eq_refl)) as S.
  destruct (shiftBytes 0 tweak) as [t c]. destruct S as (Lt & Ot & Hc & V).
  rewrite L in V. change (256 ^ Z.of_nat 16) with (2 ^ 128) in V.
  pose proof (le_val_bounds t Ot) as B. rewrite Lt, L in B. change (256 ^ Z.of_nat 16) with (2 ^ 128) in B.
  cbv zeta. destruct Hc as [-> | ->]; cbn [Z.eqb negb].
  - split; [split; [now rewrite Lt | exact Ot] |].
    destruct (Z.ltb_spec (2 * le_val tweak) (2 ^ 128)); lia.
  - change (Z.lor (Z.lor (Z.lor (Z.shiftl 1 7) (Z.shiftl 1 2)) (Z.shiftl 1 1)) 1) with 135.
    split; [split; [now rewrite length_set_nth, Lt |] |].
    + apply bytes_ok_set_nth; [exact Ot |].
      apply lxor_byte; [now apply nth_byte | unfold byte_ok; lia].
    + destruct (Z.ltb_spec (2 * le_val tweak) (2 ^ 128)); [lia |].
      replace (2 * le_val tweak - 2 ^ 128) with (le_val t) by lia.
      destruct t as [| b t]; [rewrite L in Lt; discriminate Lt |].
      apply Forall_cons_iff in Ot as [Hb Ot]. cbn [set_nth nth le_val].
      assert (forall z, byte_ok z -> z + 256 * le_val t = Z.lor z (Z.shiftl (le_val t) 8)) as S.
      { intros z Hz. unfold byte_ok in Hz. rewrite lor_shiftl_add by lia. lia. }
      rewrite (S b Hb), (S (Z.lxor b 135)) by (apply lxor_byte; [exact Hb | unfold byte_ok; lia]).
      unfold byte_ok in Hb. apply Z.bits_inj'. intros i Hi.
      rewrite Z.lor_spec, !Z.lxor_spec, Z.lor_spec.
      destruct (Z.ltb_spec i 8) as [H8 | H8].
      * rewrite Z.shiftl_spec, (Z.testbit_neg_r (le_val t)) by lia. now rewrite !orb_false_r.
      * assert (forall z, 0 <= z < 256 -> Z.testbit z i = false) as Hz.
        { intros z Hz. rewrite <- (Z.mod_small z (2 ^ 8)) by lia. apply Z.mod_pow2_bits_high. lia. }
        rewrite (Hz b), (Hz 135) by lia. now destruct (Z.testbit (Z.shiftl _ _) i).
Qed.

Lemma sectorBytes_spec n : forall s, sectorBytes n s = le_bytes n s.
Proof.
  induction n as [| n IH]; intros s; cbn [sectorBytes le_bytes]; [reflexivity |].
  now rewrite IH, uint8_mod, Z.shiftr_div_pow2.
Qed.

Lemma startTweak_spec c s :
  BlockSize (k2 c) = 16%nat -> BlockLaws (k2 c) ->
  exists t, startTweak c s = Return t /\ block_ok 16 t /\
    t = EncryptBlock (k2 c) (le_bytes 8 s ++ repeat 0 8%nat).
Proof.
  intros B Laws. unfold startTweak, Block_Encrypt. rewrite B, sectorBytes_spec.
  set (x := le_bytes 8 s ++ repeat 0 8%nat).
  assert (block_ok 16 x) as Hx
    by (split; [unfold x; now rewrite length_app, length_le_bytes | unfold x; auto with bytes]).
  destruct Hx as [Lx Ox]. rewrite Lx. cbn [Nat.ltb Nat.leb orb].
  rewrite firstn_all2, skipn_all2, app_nil_r by lia.
  exists (EncryptBlock (k2 c) x). split; [reflexivity |]. split; [| reflexivity].
  rewrite <- B. apply encrypt_block. rewrite B. now split.
Qed.

(** ** Sectors

    What a call does to the first [n] blocks, as a function of blocks and tweaks. *)

Definition opOn (f : list Z -> list Z) (dst src : list Z) : outcome (list Z) :=
  if (length src <? 16)%nat || (length dst <? 16)%nat then Panic
  else Return (f (firstn 16 src) ++ skipn 16 dst).

Fixpoint xtsMap (f : list Z -> list Z) (n : nat) (src tweak : list Z) : list Z :=
  match n with
  | O => []
  | S n => xorBytes (f (xorBytes (firstn 16 src) tweak)) tweak ++
           xtsMap f n (skipn 16 src) (mul2 tweak)
  end.

Definition keeps_blocks (f : list Z -> list Z) : Prop := forall x, block_ok 16 x -> block_ok 16 (f x).

Lemma block_firstn n src : bytes_ok src -> (n <= length src)%nat -> block_ok n (firstn n src).
Proof. intros Ok L. split; [rewrite length_firstn; lia | auto with bytes]. Qed.

Lemma xtsBlock_spec f dst src tweak :
  keeps_blocks f -> bytes_ok src -> block_ok 16 tweak ->
  (16 <= length src)%nat -> (16 <= length dst)%nat ->
  xtsBlock (opOn f) dst src tweak =
  Return (xorBytes (f (xorBytes (firstn 16 src) tweak)) tweak ++ skipn 16 dst).
Proof.
  intros Hf Os Ht Ls Ld. unfold xtsBlock. change blockSize with 16%nat.
  destruct (Nat.ltb_spec (length src) 16); [lia |]. destruct (Nat.ltb_spec (length dst) 16); [lia |].
  cbn [orb]. set (x := xorBytes (firstn 16 src) tweak).
  assert (block_ok 16 x) as Hx by (apply xorBytes_block; [now apply block_firstn | exact Ht]).
  destruct (Hf x Hx) as [Lf Of]. destruct Hx as [Lx Ox]. unfold opOn.
  rewrite length_app, Lx. destruct (Nat.ltb_spec (16 + length (skipn 16 dst)) 16); [lia |].
  cbn [orb obind]. rewrite !(firstn_app_exact 16 x), !(skipn_app_exact 16 x) by exact Lx.
  now rewrite (firstn_app_exact 16), (skipn_app_exact 16) by exact Lf.
Qed.

Lemma xtsLoop_spec f n : forall dst src tweak,
  keeps_blocks f -> bytes_ok src -> block_ok 16 tweak ->
  (16 * n <= length src)%nat -> (16 * n <= length dst)%nat ->
  xtsLoop (opOn f) n dst src tweak = Return (xtsMap f n src tweak ++ skipn (16 * n) dst).
Proof.
  induction n as [| n IH]; intros dst src tweak Hf Os Ht Ls Ld; [reflexivity |].
  cbn [xtsLoop xtsMap]. rewrite xtsBlock_spec by (assumption || lia). cbn [obind].
  set (y := xorBytes _ tweak). change blockSize with 16%nat.
  assert (length y = 16%nat) as Ly.
  { apply (proj1 (xorBytes_block 16 _ _ (Hf _ (xorBytes_block 16 _ _ (block_firstn 16 src Os ltac:(lia)) Ht)) Ht)). }
  rewrite (skipn_app_exact 16), (firstn_app_exact 16) by exact Ly.
  rewrite IH by (assumption || (rewrite length_skipn; lia) || auto with bytes || (apply mul2_spec; exact Ht)).
  cbn [obind]. rewrite skipn_skipn, <- app_assoc.
  now replace (16 * S n)%nat with (16 * n + 16)%nat by lia.
Qed.

Lemma xtsLoop_short f n : forall dst src tweak,
  keeps_blocks f -> bytes_ok src -> block_ok 16 tweak -> (length src < 16 * n)%nat ->
  xtsLoop (opOn f) n dst src tweak = Panic.
Proof.
  induction n as [| n IH]; intros dst src tweak Hf Os Ht Ls; [lia |]. cbn [xtsLoop].
  destruct (Nat.lt_ge_cases (length src) 16) as [H | H].
  { unfold xtsBlock. now replace (length src <? blockSize)%nat with true by (symmetry; now apply Nat.ltb_lt). }
  destruct (Nat.lt_ge_cases (length dst) 16) as [Hd | Hd].
  { unfold xtsBlock. replace (length dst <? blockSize)%nat with true by (symmetry; now apply Nat.ltb_lt).
    now rewrite orb_true_r. }
  rewrite xtsBlock_spec by assumption. cbn [obind]. change blockSize with 16%nat.
  rewrite IH; [reflexivity | assumption | auto with bytes | now apply mul2_spec |].
  rewrite length_skipn. lia.
Qed.

Lemma xtsMap_block f n : forall src tweak,
  keeps_blocks f -> bytes_ok src -> block_ok 16 tweak -> (16 * n <= length src)%nat ->
  block_ok (16 * n) (xtsMap f n src tweak).
Proof.
  induction n as [| n IH]; intros src tweak Hf Os Ht Ls; [split; [reflexivity | constructor] |].
  cbn [xtsMap].
  destruct (xorBytes_block 16 _ _ (Hf _ (xorBytes_block 16 _ _ (block_firstn 16 src Os ltac:(lia)) Ht)) Ht)
    as [L1 O1].
  destruct (IH (skipn 16 src) (mul2 tweak)) as [L2 O2];
    [assumption | auto with bytes | now apply mul2_spec | rewrite length_skipn; lia |].
  split; [rewrite length_app, L1, L2; lia | now apply bytes_ok_app].
Qed.

(** Inverse functions on blocks give inverse functions on sectors. *)
Lemma xtsMap_inverse f g n : forall src tweak,
  keeps_blocks f -> keeps_blocks g -> (forall x, block_ok 16 x -> g (f x) = x) ->
  bytes_ok src -> block_ok 16 tweak -> length src = (16 * n)%nat ->
  xtsMap g n (xtsMap f n src tweak) tweak = src.
Proof.
  induction n as [| n IH]; intros src tweak Hf Hg E Os Ht L.
  { destruct src; [reflexivity | discriminate L]. }
  cbn [xtsMap]. set (x := firstn 16 src).
  assert (block_ok 16 x) as Hx by (apply block_firstn; [exact Os | lia]).
  pose proof (xorBytes_block 16 _ _ Hx Ht) as H1. pose proof (Hf _ H1) as H2.
  pose proof (xorBytes_block 16 _ _ H2 Ht) as [L3 O3].
  rewrite (firstn_app_exact 16), (skipn_app_exact 16) by exact L3.
  rewrite IH; [| assumption .. | auto with bytes | now apply mul2_spec | rewrite length_skipn; lia].
  rewrite (xorBytes_involutive (f _)) by (destruct H2, Ht; congruence).
  rewrite E by exact H1. rewrite xorBytes_involutive by (destruct Hx, Ht; congruence).
  apply firstn_skipn.
Qed.

Section sectors.
Context (c : Cipher).
Context (B1 : BlockSize (k1 c) = 16%nat) (B2 : BlockSize (k2 c) = 16%nat).
Context {L1 : BlockLaws (k1 c)} {L2 : BlockLaws (k2 c)}.

Definition firstTweak (s : Z) : list Z := EncryptBlock (k2 c) (le_bytes 8 s ++ repeat 0 8%nat).

Lemma Block_Encrypt_op : Block_Encrypt (k1 c) = opOn (EncryptBlock (k1 c)).
Proof. unfold Block_Encrypt, opOn. now rewrite B1. Qed.

Lemma Block_Decrypt_op : Block_Decrypt (k1 c) = opOn (DecryptBlock (k1 c)).
Proof. unfold Block_Decrypt, opOn. now rewrite B1. Qed.

Lemma encrypt_keeps : keeps_blocks (EncryptBlock (k1 c)).
Proof. intros x Hx. rewrite <- B1 in *. now apply encrypt_block. Qed.

Lemma decrypt_keeps : keeps_blocks (DecryptBlock (k1 c)).
Proof. intros x Hx. rewrite <- B1 in *. now apply decrypt_block. Qed.

Lemma iterations_mul n : iterations (16 * n) = n.
Proof.
  unfold iterations. change (blockSize - 1)%nat with 15%nat. change blockSize with 16%nat.
  rewrite Nat.mul_comm, Nat.div_add_l, Nat.div_small by lia. lia.
Qed.

Lemma Encrypt_spec dst src s n :
  bytes_ok src -> length src = (16 * n)%nat -> (length src <= length dst)%nat ->
  Encrypt c dst src s =
  Return (xtsMap (EncryptBlock (k1 c)) n src (firstTweak s) ++ skipn (length src) dst).
Proof.
  intros Os Ls Ld. unfold Encrypt. destruct (Nat.ltb_spec (length dst) (length src)); [lia |].
  destruct (startTweak_spec c s B2 L2) as (t & Et & Ht & Eq). rewrite Et, Ls, iterations_mul.
  change blockSize with 16%nat. rewrite Nat.mul_comm, Nat.Div0.mod_mul. cbn [Nat.eqb negb obind].
  rewrite Block_Encrypt_op, Eq, xtsLoop_spec; try lia; auto using encrypt_keeps.
  - f_equal. f_equal. f_equal. lia.
  - now rewrite <- Eq.
Qed.

Lemma Decrypt_spec dst src s n :
  bytes_ok src -> length src = (16 * n)%nat -> length dst = length src ->
  Decrypt c dst src s = Return (xtsMap (DecryptBlock (k1 c)) n src (firstTweak s)).
Proof.
  intros Os Ls Ld. unfold Decrypt. rewrite Ld, Nat.ltb_irrefl.
  destruct (startTweak_spec c s B2 L2) as (t & Et & Ht & Eq). rewrite Et, Ls, iterations_mul.
  change blockSize with 16%nat. rewrite Nat.mul_comm, Nat.Div0.mod_mul. cbn [Nat.eqb negb obind].
  rewrite Block_Decrypt_op, Eq, xtsLoop_spec; try lia; auto using decrypt_keeps.
  - rewrite skipn_all2, app_nil_r by lia. reflexivity.
  - now rewrite <- Eq.
Qed.

(** A destination that is longer than the ciphertext passes the guards of [Decrypt], and
    the loop then reads past the end of the ciphertext. *)
Lemma Decrypt_longer dst src s :
  bytes_ok src -> (length src < length dst)%nat -> Decrypt c dst src s = Panic.
Proof.
  intros Os Ld. unfold Decrypt. destruct (Nat.ltb_spec (length dst) (length src)); [lia |].
  destruct (Nat.eqb_spec (length src mod blockSize) 0) as [M | M]; [cbn [negb] | reflexivity].
  destruct (startTweak_spec c s B2 L2) as (t & -> & Ht & _). cbn [obind].
  rewrite Block_Decrypt_op. apply xtsLoop_short; auto using decrypt_keeps.
  unfold iterations. change blockSize with 16%nat in *. change (16 - 1)%nat with 15%nat.
  pose proof (Nat.div_mod_eq (length src) 16). pose proof (Nat.div_mod_eq (length dst + 15) 16).
  pose proof (Nat.mod_upper_bound (length dst + 15) 16). lia.
Qed.
End sectors.

(** ** Ciphers on two big-endian words

    Four of the ciphers read a block of eight bytes as two 32-bit words; an invertible
    function on the words gives a block cipher. *)

(** [uint32(b[i])<<24 | uint32(b[i+1])<<16 | uint32(b[i+2])<<8 | uint32(b[i+3])]. *)
Definition loadBE (b : list Z) (i : nat) : Z :=
  (nth i b 0 << 24 .| nth (i + 1) b 0 << 16 .| nth (i + 2) b 0 << 8 .| nth (i + 3) b 0)%u32.

(** The four bytes of a word. *)
Definition storeBE (x : Z) : list Z :=
  [uint8 (x >> 24)%u32; uint8 (x >> 16)%u32; uint8 (x >> 8)%u32; uint8 x].

Definition word_ok (x : Z) : Prop := 0 <= x < 2 ^ 32.

Lemma uint32_ok x : word_ok (uint32 x).
Proof. unfold word_ok. rewrite uint32_mod. apply Z.mod_pos_bound. lia. Qed.

Lemma uint32_id x : word_ok x -> uint32 x = x.
Proof. unfold word_ok. intros H. rewrite uint32_mod. now apply Z.mod_small. Qed.

Lemma lxor_ok x y : word_ok x -> word_ok y -> word_ok (Z.lxor x y).
Proof.
  intros Hx Hy. assert (uint32 (Z.lxor x y) = Z.lxor x y) as <-; [| apply uint32_ok].
  unfold uint32. rewrite land_lxor_l. fold (uint32 x). fold (uint32 y). now rewrite !uint32_id.
Qed.

(** Wrapping additions and subtractions cancel. *)
Lemma sub_add32 v x : word_ok v -> uint32 (uint32 (v + x) - x) = v.
Proof.
  intros Hv. rewrite !uint32_mod, Zminus_mod_idemp_l.
  replace (v + x - x) with v by ring. now apply Z.mod_small.
Qed.

Lemma add_sub32 v x : word_ok v -> uint32 (uint32 (v - x) + x) = v.
Proof.
  intros Hv. rewrite !uint32_mod, Zplus_mod_idemp_l.
  replace (v - x + x) with v by ring. now apply Z.mod_small.
Qed.

Lemma lxor_cancel x y : Z.lxor (Z.lxor x y) y = x.
Proof. now rewrite Z.lxor_assoc, Z.lxor_nilpotent, Z.lxor_0_r. Qed.

Lemma lor_high x y k : 0 <= k -> 0 <= y < 2 ^ k -> Z.lor (2 ^ k * x) y = 2 ^ k * x + y.
Proof.
  intros Hk Hy. rewrite Z.lor_comm, (Z.mul_comm _ x), <- Z.shiftl_mul_pow2 by lia.
  rewrite lor_shiftl_add, Z.shiftl_mul_pow2 by lia. lia.
Qed.

Lemma loadBE_bytes a0 a1 a2 a3 :
  byte_ok a0 -> byte_ok a1 -> byte_ok a2 -> byte_ok a3 ->
  Z.lor (Z.lor (Z.lor (uint32 (Z.shiftl a0 24)) (uint32 (Z.shiftl a1 16)))
           (uint32 (Z.shiftl a2 8))) a3 = le_val [a3; a2; a1; a0].
Proof.
  unfold byte_ok. intros H0 H1 H2 H3. cbn [le_val].
  rewrite !uint32_mod, !Z.shiftl_mul_pow2, !Z.mod_small by lia.
  rewrite (Z.mul_comm a0), (lor_high a0 _ 24) by lia.
  replace (2 ^ 24 * a0 + a1 * 2 ^ 16) with (2 ^ 16 * (2 ^ 8 * a0 + a1)) by ring.
  rewrite (lor_high _ _ 16) by lia.
  replace (2 ^ 16 * (2 ^ 8 * a0 + a1) + a2 * 2 ^ 8) with (2 ^ 8 * (2 ^ 16 * a0 + 2 ^ 8 * a1 + a2)) by ring.
  rewrite (lor_high _ _ 8) by lia. lia.
Qed.

Lemma storeBE_spec x : storeBE x = rev (le_bytes 4 x).
Proof.
  unfold storeBE. cbn [le_bytes rev app].
  rewrite !uint8_mod, !Z.shiftr_div_pow2, !Z.div_div by lia. reflexivity.
Qed.

Lemma loadBE_spec b i :
  bytes_ok b -> (i + 4 <= length b)%nat ->
  loadBE b i = le_val (rev (firstn 4 (skipn i b))).
Proof.
  intros Ok L. rewrite (firstn_four b i L). cbn [rev app].
  apply loadBE_bytes; now apply nth_byte.
Qed.

Lemma bytes_ok_rev l : bytes_ok l -> bytes_ok (rev l).
Proof. apply Forall_rev. Qed.

#[export] Hint Resolve bytes_ok_rev : bytes.

Lemma loadBE_ok b i : bytes_ok b -> (i + 4 <= length b)%nat -> word_ok (loadBE b i).
Proof.
  intros Ok L. rewrite loadBE_spec by assumption. unfold word_ok.
  assert (bytes_ok (rev (firstn 4 (skipn i b)))) as O by auto with bytes.
  pose proof (le_val_bounds _ O) as B. rewrite length_rev, length_firstn, length_skipn in B.
  replace (Nat.min 4 (length b - i)) with 4%nat in B by lia. exact B.
Qed.

Lemma le_val_store x : word_ok x -> le_val (le_bytes 4 x) = x.
Proof. intros H. rewrite le_val_le_bytes. now apply Z.mod_small. Qed.

Lemma storeBE_length x : length (storeBE x) = 4%nat.
Proof. reflexivity. Qed.

Lemma storeBE_ok x : bytes_ok (storeBE x).
Proof. rewrite storeBE_spec. auto with bytes. Qed.

#[export] Hint Resolve storeBE_ok uint32_ok lxor_ok : bytes.

Lemma load_store l r : word_ok l -> word_ok r ->
  loadBE (storeBE l ++ storeBE r) 0 = l /\ loadBE (storeBE l ++ storeBE r) 4 = r.
Proof.
  intros Hl Hr. assert (bytes_ok (storeBE l ++ storeBE r)) as Ok by auto with bytes.
  rewrite !loadBE_spec by (exact Ok || (cbn; lia)).
  rewrite (skipn_app_exact 4), skipn_O, !(firstn_app_exact 4) by reflexivity.
  rewrite firstn_all2 by (rewrite storeBE_length; lia).
  rewrite !storeBE_spec, !rev_involutive, !le_val_store by assumption. auto.
Qed.

Lemma store_load x : block_ok 8 x -> storeBE (loadBE x 0) ++ storeBE (loadBE x 4) = x.
Proof.
  intros [L Ok]. rewrite !loadBE_spec, !storeBE_spec by (exact Ok || lia).
  assert (forall y, length y = 4%nat -> bytes_ok y -> rev (le_bytes 4 (le_val (rev y))) = y) as R.
  { intros y Ly Oy. assert (length (rev y) = 4%nat) as Lr by now rewrite length_rev.
    rewrite <- Lr, le_bytes_le_val by auto with bytes. apply rev_involutive. }
  rewrite (R (firstn 4 (skipn 0 x))), (R (firstn 4 (skipn 4 x)));
    [| rewrite length_firstn, length_skipn; lia | auto with bytes
     | rewrite length_firstn, length_skipn; lia | auto with bytes].
  rewrite skipn_O, (firstn_all2 (skipn 4 x)) by (rewrite length_skipn; lia). apply firstn_skipn.
Qed.

(** A cipher that works on the two words of a block. *)
Definition wordBlock (enc dec : Z -> Z -> Z * Z) : Block :=
  MkBlock 8
    (fun src => let (l, r) := enc (loadBE src 0) (loadBE src 4) in storeBE l ++ storeBE r)
    (fun src => let (l, r) := dec (loadBE src 0) (loadBE src 4) in storeBE l ++ storeBE r).

Definition inverse_words (f g : Z -> Z -> Z * Z) : Prop :=
  forall l r, word_ok l -> word_ok r ->
    word_ok (fst (f l r)) /\ word_ok (snd (f l r)) /\ g (fst (f l r)) (snd (f l r)) = (l, r).

Lemma words_inverse f g x :
  inverse_words f g -> block_ok 8 x ->
  let y := let (l, r) := f (loadBE x 0) (loadBE x 4) in storeBE l ++ storeBE r in
  block_ok 8 y /\ (let (l, r) := g (loadBE y 0) (loadBE y 4) in storeBE l ++ storeBE r) = x.
Proof.
  intros H Hx. pose proof Hx as [L Ok].
  destruct (H (loadBE x 0) (loadBE x 4)) as (H1 & H2 & H3); [apply loadBE_ok; auto; lia .. |].
  destruct (f _ _) as [l r]. cbn [fst snd] in *. split; [split; [reflexivity | auto with bytes] |].
  destruct (load_store l r H1 H2) as [-> ->]. rewrite H3. now apply store_load.
Qed.

Lemma wordBlock_laws enc dec :
  inverse_words enc dec -> inverse_words dec enc -> BlockLaws (wordBlock enc dec).
Proof.
  intros E D. split; cbn [BlockSize EncryptBlock DecryptBlock wordBlock]; intros x Hx.
  - exact (proj1 (words_inverse enc dec x E Hx)).
  - exact (proj1 (words_inverse dec enc x D Hx)).
  - exact (proj2 (words_inverse enc dec x E Hx)).
  - exact (proj2 (words_inverse dec enc x D Hx)).
Qed.

(** Repeated and successive steps are undone in the opposite order. *)
Lemma iter_inverse {A} (ok : A -> Prop) (f g : A -> A) n :
  (forall s, ok s -> ok (f s)) -> (forall s, ok s -> g (f s) = s) ->
  forall s, ok s -> ok (Nat.iter n f s) /\ Nat.iter n g (Nat.iter n f s) = s.
Proof.
  intros Hf Hg. induction n as [| n IH]; intros s Hs; [auto |].
  destruct (IH s Hs) as [Ho E]. rewrite (Nat.iter_succ_r n _ g), (Nat.iter_succ n _ f).
  rewrite Hg by exact Ho. auto.
Qed.

Lemma fold_inverse {A B} (ok : A -> Prop) (f g : A -> B -> A) l :
  (forall s i, ok s -> ok (f s i)) -> (forall s i, ok s -> g (f s i) i = s) ->
  forall s, ok s -> ok (fold_left f l s) /\ fold_left g (rev l) (fold_left f l s) = s.
Proof.
  intros Hf Hg. induction l as [| i l IH]; intros s Hs; [auto |].
  cbn [fold_left rev]. rewrite fold_left_app. cbn [fold_left].
  destruct (IH (f s i) (Hf s i Hs)) as [Ho ->]. auto.
Qed.

(** ** Tables of words *)

Definition table_ok (n : nat) (t : list Z) : Prop := length t = n /\ Forall word_ok t.

Lemma table_check n t :
  (length t =? n)%nat && forallb (fun x => (0 <=? x) && (x <? 2 ^ 32)) t = true -> table_ok n t.
Proof.
  intros [L A]%andb_prop. apply Nat.eqb_eq in L. split; [exact L |].
  apply Forall_forall. intros x Hx. rewrite forallb_forall in A. specialize (A x Hx).
  unfold word_ok. lia.
Qed.

Lemma word_0 : word_ok 0.
Proof. unfold word_ok. lia. Qed.

#[export] Hint Resolve word_0 : bytes.

Lemma nth_word t i : Forall word_ok t -> word_ok (nth i t 0).
Proof.
  intros H. destruct (Nat.lt_ge_cases i (length t)) as [Hi | Hi].
  - rewrite Forall_forall in H. apply H. apply nth_In. exact Hi.
  - rewrite nth_overflow by exact Hi. auto with bytes.
Qed.

Lemma set_nth_words i v t : Forall word_ok t -> word_ok v -> Forall word_ok (set_nth i v t).
Proof.
  intros H Hv. revert i. induction H as [| x t Hx Ht IH]; intros [| i]; cbn; auto.
Qed.

Lemma table_set n i v t : table_ok n t -> word_ok v -> table_ok n (set_nth i v t).
Proof. intros [L H] Hv. split; [now rewrite length_set_nth | now apply set_nth_words]. Qed.

(** ** Feistel networks *)

Definition pair_ok (s : Z * Z) : Prop := word_ok (fst s) /\ word_ok (snd s).

Definition swap (s : Z * Z) : Z * Z := (snd s, fst s).

Lemma swap_pair_ok s : pair_ok s -> pair_ok (swap s).
Proof. intros [H1 H2]. now split. Qed.

#[export] Hint Resolve swap_pair_ok : bytes.

(** A step for a round function that may depend on the number of the round.  Two passes, the
    second with the rounds in the opposite order and the halves swapped, cancel. *)
Definition feistel (F : nat -> Z -> Z) (s : Z * Z) (i : nat) : Z * Z :=
  let (a, b) := s in (Z.lxor b (F i a), a).

Section feistel_networks.
Variable F : nat -> Z -> Z.
Hypothesis F_word : forall i a, word_ok (F i a).

Lemma feistel_ok s i : pair_ok s -> pair_ok (feistel F s i).
Proof.
  destruct s as [a b]. intros [Ha Hb]. cbn in Ha, Hb.
  split; cbn [fst snd feistel]; [| exact Ha]. pose proof (F_word i a). auto with bytes.
Qed.

Lemma feistel_undo s i : swap (feistel F (swap (feistel F s i)) i) = s.
Proof. destruct s as [a b]. cbn. now rewrite lxor_cancel. Qed.

Lemma fold_swap keys : forall s,
  fold_left (fun s i => swap (feistel F (swap s) i)) keys s =
  swap (fold_left (feistel F) keys (swap s)).
Proof.
  induction keys as [| i keys IH]; intros s; cbn [fold_left]; [now destruct s |].
  rewrite IH. now destruct (feistel F (swap s) i).
Qed.

Lemma fold_feistel_inverse keys s : pair_ok s ->
  pair_ok (fold_left (feistel F) keys s) /\
  fold_left (feistel F) (rev keys) (swap (fold_left (feistel F) keys s)) = swap s.
Proof.
  intros Hs.
  destruct (fold_inverse pair_ok (feistel F) (fun s i => swap (feistel F (swap s) i)) keys
    feistel_ok (fun s i _ => feistel_undo s i) s Hs) as [Ho E].
  split; [exact Ho |]. rewrite fold_swap in E. rewrite <- E at 2.
  now destruct (fold_left (feistel F) (rev keys) _).
Qed.
End feistel_networks.
