(* ===== verification/Tea.v ===== *)
(** * TEA and XTEA

    Models of [src/golang-x-crypto/tea/cipher.go] and of [src/golang-x-crypto/xtea]
    ([block.go], [cipher.go]) as implementations of the interface of [BlockCipher]. *)

From S2P Require Import Prelude BlockCipher.

(** [0x9e3779b9], the constant of both key schedules. *)
Definition delta : Z := 2654435769.

(** ** TEA *)

Module Tea.

Definition numRounds : Z := 64.

Record tea := MkTea { key : list Z; rounds : Z }.

(** Errors are [None]. *)
Definition NewCipherWithRounds (key : list Z) (rounds : Z) : option tea :=
  if negb (length key =? 16)%nat then None
  else if negb (Z.land rounds 1 =? 0) then None
  else Some (MkTea (copy (repeat 0 16%nat) key) rounds).

Definition NewCipher (key : list Z) : option tea := NewCipherWithRounds key numRounds.

(** The bodies of the loops, on [sum], [v0] and [v1]. *)
Definition encryptRound (k0 k1 k2 k3 : Z) (s : Z * Z * Z) : Z * Z * Z :=
  let '(sum, v0, v1) := s in
  let sum := (sum + delta)%u32 in
  let v0 := (v0 + (((v1 << 4) + k0) .^ (v1 + sum) .^ ((v1 >> 5) + k1)))%u32 in
  let v1 := (v1 + (((v0 << 4) + k2) .^ (v0 + sum) .^ ((v0 >> 5) + k3)))%u32 in
  (sum, v0, v1).

Definition decryptRound (k0 k1 k2 k3 : Z) (s : Z * Z * Z) : Z * Z * Z :=
  let '(sum, v0, v1) := s in
  let v1 := (v1 - (((v0 << 4) + k2) .^ (v0 + sum) .^ ((v0 >> 5) + k3)))%u32 in
  let v0 := (v0 - (((v1 << 4) + k0) .^ (v1 + sum) .^ ((v1 >> 5) + k1)))%u32 in
  let sum := (sum - delta)%u32 in
  (sum, v0, v1).

(** The iterations of [for i := 0; i < t.rounds/2; i++]. *)
Definition iterations (t : tea) : nat := Z.to_nat (Z.quot (rounds t) 2).

Definition encryptWords (t : tea) (v0 v1 : Z) : Z * Z :=
  let k0 := loadBE (key t) 0 in
  let k1 := loadBE (key t) 4 in
  let k2 := loadBE (key t) 8 in
  let k3 := loadBE (key t) 12 in
  let '(_, v0, v1) := Nat.iter (iterations t) (encryptRound k0 k1 k2 k3) (0, v0, v1) in
  (v0, v1).

Definition decryptWords (t : tea) (v0 v1 : Z) : Z * Z :=
  let k0 := loadBE (key t) 0 in
  let k1 := loadBE (key t) 4 in
  let k2 := loadBE (key t) 8 in
  let k3 := loadBE (key t) 12 in
  let sum := uint32 (delta * uint32 (Z.quot (rounds t) 2)) in
  let '(_, v0, v1) := Nat.iter (iterations t) (decryptRound k0 k1 k2 k3) (sum, v0, v1) in
  (v0, v1).

Definition Encrypt (t : tea) (src : list Z) : list Z :=
  let (v0, v1) := encryptWords t (loadBE src 0) (loadBE src 4) in
  storeBE v0 ++ storeBE v1.

Definition Decrypt (t : tea) (src : list Z) : list Z :=
  let (v0, v1) := decryptWords t (loadBE src 0) (loadBE src 4) in
  storeBE v0 ++ storeBE v1.

Definition block (t : tea) : Block := MkBlock 8 (Encrypt t) (Decrypt t).

(** *** Correctness *)

Definition state_ok (s : Z * Z * Z) : Prop :=
  word_ok (fst (fst s)) /\ word_ok (snd (fst s)) /\ word_ok (snd s).

Lemma tea_encryptRound_ok k0 k1 k2 k3 s : state_ok (encryptRound k0 k1 k2 k3 s).
Proof. destruct s as [[sum v0] v1]. repeat split; apply uint32_ok. Qed.

Lemma tea_decryptRound_ok k0 k1 k2 k3 s : state_ok (decryptRound k0 k1 k2 k3 s).
Proof. destruct s as [[sum v0] v1]. repeat split; apply uint32_ok. Qed.

Lemma tea_decrypt_encrypt k0 k1 k2 k3 s :
  state_ok s -> decryptRound k0 k1 k2 k3 (encryptRound k0 k1 k2 k3 s) = s.
Proof.
  destruct s as [[sum v0] v1]. intros (H0 & H1 & H2). cbn [fst snd] in *.
  unfold encryptRound, decryptRound. now rewrite !sub_add32.
Qed.

Lemma tea_encrypt_decrypt k0 k1 k2 k3 s :
  state_ok s -> encryptRound k0 k1 k2 k3 (decryptRound k0 k1 k2 k3 s) = s.
Proof.
  destruct s as [[sum v0] v1]. intros (H0 & H1 & H2). cbn [fst snd] in *.
  unfold encryptRound, decryptRound. now rewrite !add_sub32.
Qed.

(** The running sum after [n] rounds. *)
Lemma encrypt_sum k0 k1 k2 k3 n s :
  word_ok (fst (fst s)) ->
  fst (fst (Nat.iter n (encryptRound k0 k1 k2 k3) s)) =
  uint32 (fst (fst s) + delta * Z.of_nat n).
Proof.
  intros Hs. induction n as [| n IH].
  - rewrite Z.mul_0_r, Z.add_0_r. symmetry. now apply uint32_id.
  - rewrite Nat.iter_succ. destruct (Nat.iter n _ s) as [[sum v0] v1].
    cbn [fst snd encryptRound] in *. rewrite IH, !uint32_mod, Zplus_mod_idemp_l. f_equal. lia.
Qed.

Lemma decrypt_sum k0 k1 k2 k3 n s :
  word_ok (fst (fst s)) ->
  fst (fst (Nat.iter n (decryptRound k0 k1 k2 k3) s)) =
  uint32 (fst (fst s) - delta * Z.of_nat n).
Proof.
  intros Hs. induction n as [| n IH].
  - rewrite Z.mul_0_r, Z.sub_0_r. symmetry. now apply uint32_id.
  - rewrite Nat.iter_succ. destruct (Nat.iter n _ s) as [[sum v0] v1].
    cbn [fst snd decryptRound] in *. rewrite IH, !uint32_mod, Zminus_mod_idemp_l. f_equal. lia.
Qed.

(** A negative number of rounds makes no iterations. *)
Lemma start_sum t : 0 <= rounds t ->
  uint32 (delta * uint32 (Z.quot (rounds t) 2)) = uint32 (delta * Z.of_nat (iterations t)).
Proof.
  intros H. unfold iterations. rewrite Z2Nat.id by (apply Z.quot_pos; lia).
  rewrite !uint32_mod. apply Zmult_mod_idemp_r.
Qed.

Lemma no_iterations t : rounds t < 0 -> iterations t = 0%nat.
Proof.
  intros H. unfold iterations. assert (Z.quot (rounds t) 2 <= 0); [| lia].
  Z.to_euclidean_division_equations. lia.
Qed.

Lemma tea_encrypt_inverse t : inverse_words (encryptWords t) (decryptWords t).
Proof.
  intros v0 v1 H0 H1. unfold encryptWords, decryptWords. cbv zeta.
  generalize (loadBE (key t) 0), (loadBE (key t) 4), (loadBE (key t) 8), (loadBE (key t) 12).
  intros k0 k1 k2 k3. destruct (Z.lt_ge_cases (rounds t) 0) as [N | P].
  { rewrite no_iterations by exact N. auto. }
  assert (state_ok (0, v0, v1)) as S
    by (split; [unfold word_ok; cbn; lia | split; assumption]).
  destruct (iter_inverse state_ok (encryptRound k0 k1 k2 k3) (decryptRound k0 k1 k2 k3)
              (iterations t)) with (s := (0, v0, v1)) as [Ho E];
    auto using tea_encryptRound_ok, tea_decrypt_encrypt.
  pose proof (encrypt_sum k0 k1 k2 k3 (iterations t) (0, v0, v1) (proj1 S)) as Es.
  rewrite start_sum by exact P. destruct (Nat.iter _ _ (0, v0, v1)) as [[sum a] b].
  destruct Ho as (_ & Ha & Hb). cbn [fst snd] in *. rewrite Z.add_0_l in Es.
  split; [exact Ha |]. split; [exact Hb |]. now rewrite <- Es, E.
Qed.

Lemma tea_decrypt_inverse t : inverse_words (decryptWords t) (encryptWords t).
Proof.
  intros v0 v1 H0 H1. unfold encryptWords, decryptWords. cbv zeta.
  generalize (loadBE (key t) 0), (loadBE (key t) 4), (loadBE (key t) 8), (loadBE (key t) 12).
  intros k0 k1 k2 k3. destruct (Z.lt_ge_cases (rounds t) 0) as [N | P].
  { rewrite no_iterations by exact N. auto. }
  rewrite start_sum by exact P. set (n := iterations t). set (sum0 := uint32 (delta * Z.of_nat n)).
  assert (state_ok (sum0, v0, v1)) as S
    by (split; [apply uint32_ok | split; assumption]).
  destruct (iter_inverse state_ok (decryptRound k0 k1 k2 k3) (encryptRound k0 k1 k2 k3) n)
    with (s := (sum0, v0, v1)) as [Ho E]; auto using tea_decryptRound_ok, tea_encrypt_decrypt.
  pose proof (decrypt_sum k0 k1 k2 k3 n (sum0, v0, v1) (proj1 S)) as Es.
  destruct (Nat.iter _ _ (sum0, v0, v1)) as [[sum a] b].
  destruct Ho as (_ & Ha & Hb). cbn [fst snd] in *.
  assert (sum = 0) as ->.
  { rewrite Es. unfold sum0. rewrite !uint32_mod, Zminus_mod_idemp_l, Z.sub_diag. reflexivity. }
  split; [exact Ha |]. split; [exact Hb |]. now rewrite E.
Qed.

#[export] Instance tea_block_laws t : BlockLaws (block t).
Proof. exact (wordBlock_laws _ _ (tea_encrypt_inverse t) (tea_decrypt_inverse t)). Qed.
End Tea.

(** ** XTEA *)

Module Xtea.

Definition numRounds : nat := 64.

Record Cipher := MkCipher { table : list Z }.

Definition blockToUint32 (src : list Z) : Z * Z := (loadBE src 0, loadBE src 4).

Definition uint32ToBlock (v0 v1 : Z) : list Z := storeBE v0 ++ storeBE v1.

(** The two rounds of one iteration, at the even index [i]. *)
Definition encryptRounds (c : Cipher) (v : Z * Z) (i : nat) : Z * Z :=
  let (v0, v1) := v in
  let v0 := (v0 + (((v1 << 4 .^ v1 >> 5) + v1) .^ nth i (table c) 0))%u32 in
  let v1 := (v1 + (((v0 << 4 .^ v0 >> 5) + v0) .^ nth (i + 1) (table c) 0))%u32 in
  (v0, v1).

Definition decryptRounds (c : Cipher) (v : Z * Z) (i : nat) : Z * Z :=
  let (v0, v1) := v in
  let v1 := (v1 - (((v0 << 4 .^ v0 >> 5) + v0) .^ nth (i + 1) (table c) 0))%u32 in
  let v0 := (v0 - (((v1 << 4 .^ v1 >> 5) + v1) .^ nth i (table c) 0))%u32 in
  (v0, v1).

(** The even indices below [numRounds]. *)
Definition indices : list nat := map (fun i => 2 * i)%nat (seq 0 (numRounds / 2)).

Definition encryptBlock (c : Cipher) (src : list Z) : list Z :=
  let (v0, v1) := fold_left (encryptRounds c) indices (blockToUint32 src) in
  uint32ToBlock v0 v1.

Definition decryptBlock (c : Cipher) (src : list Z) : list Z :=
  let (v0, v1) := fold_left (decryptRounds c) (rev indices) (blockToUint32 src) in
  uint32ToBlock v0 v1.

(** The entries that [n] iterations of the loop of [initCipher] fill in. *)
Fixpoint tableFrom (k : list Z) (n : nat) (sum : Z) : list Z :=
  match n with
  | O => []
  | S n =>
      let t0 := (sum + nth (Z.to_nat (Z.land sum 3)) k 0)%u32 in
      let sum := (sum + delta)%u32 in
      let t1 := (sum + nth (Z.to_nat (Z.land (sum >> 11) 3)) k 0)%u32 in
      t0 :: t1 :: tableFrom k n sum
  end.

Definition initCipher (key : list Z) : Cipher :=
  let k := [loadBE key 0; loadBE key 4; loadBE key 8; loadBE key 12] in
  MkCipher (tableFrom k (numRounds / 2) 0).

(** Another key size is a [KeySizeError]. *)
Definition NewCipher (key : list Z) : option Cipher :=
  if (length key =? 16)%nat then Some (initCipher key) else None.

Definition block (c : Cipher) : Block := MkBlock 8 (encryptBlock c) (decryptBlock c).

(** *** Correctness *)

Definition words_ok (v : Z * Z) : Prop := word_ok (fst v) /\ word_ok (snd v).

Lemma encryptRounds_ok c v i : words_ok (encryptRounds c v i).
Proof. destruct v. split; apply uint32_ok. Qed.

Lemma decryptRounds_ok c v i : words_ok (decryptRounds c v i).
Proof. destruct v. split; apply uint32_ok. Qed.

Lemma decrypt_encrypt_rounds c v i :
  words_ok v -> decryptRounds c (encryptRounds c v i) i = v.
Proof.
  destruct v as [v0 v1]. intros [H0 H1]. cbn [fst snd] in *.
  unfold encryptRounds, decryptRounds. now rewrite !sub_add32.
Qed.

Lemma encrypt_decrypt_rounds c v i :
  words_ok v -> encryptRounds c (decryptRounds c v i) i = v.
Proof.
  destruct v as [v0 v1]. intros [H0 H1]. cbn [fst snd] in *.
  unfold encryptRounds, decryptRounds. now rewrite !add_sub32.
Qed.

Definition encryptWords (c : Cipher) (v0 v1 : Z) : Z * Z :=
  fold_left (encryptRounds c) indices (v0, v1).

Definition decryptWords (c : Cipher) (v0 v1 : Z) : Z * Z :=
  fold_left (decryptRounds c) (rev indices) (v0, v1).

Lemma xtea_encrypt_inverse c : inverse_words (encryptWords c) (decryptWords c).
Proof.
  intros v0 v1 H0 H1. unfold encryptWords, decryptWords. generalize indices. intros l.
  destruct (fold_inverse words_ok (encryptRounds c) (decryptRounds c) l
    (fun v i _ => encryptRounds_ok c v i) (decrypt_encrypt_rounds c) (v0, v1) (conj H0 H1))
    as [[Ha Hb] E].
  rewrite <- surjective_pairing. auto.
Qed.

Lemma xtea_decrypt_inverse c : inverse_words (decryptWords c) (encryptWords c).
Proof.
  intros v0 v1 H0 H1. unfold encryptWords, decryptWords. generalize indices. intros l.
  destruct (fold_inverse words_ok (decryptRounds c) (encryptRounds c) (rev l)
    (fun v i _ => decryptRounds_ok c v i) (encrypt_decrypt_rounds c) (v0, v1) (conj H0 H1))
    as [[Ha Hb] E].
  rewrite rev_involutive in E. rewrite <- surjective_pairing. auto.
Qed.

Lemma block_words c : block c = wordBlock (encryptWords c) (decryptWords c).
Proof.
  unfold block, wordBlock, encryptBlock, decryptBlock, encryptWords, decryptWords,
    blockToUint32, uint32ToBlock.
  generalize indices. reflexivity.
Qed.

#[export] Instance xtea_block_laws c : BlockLaws (block c).
Proof.
  rewrite block_words.
  exact (wordBlock_laws _ _ (xtea_encrypt_inverse c) (xtea_decrypt_inverse c)).
Qed.
End Xtea.
