(* ===== verification/Twofish.v ===== *)
(** * Twofish

    Model of [src/golang-x-crypto/twofish/twofish.go] as an implementation of the interface of
    [BlockCipher].  The tables are compared with the generator that the test of the package
    describes, the branchless multiplication with multiplication of polynomials over the field
    of two elements, and decryption is the inverse of encryption. *)

From S2P Require Import Prelude BlockCipher Salsa20.

(** ** The code *)

Definition mdsPolynomial : Z := 0x169.

Definition rsPolynomial : Z := 0x14d.

(** [s0] to [s3] are the rows of [s]. *)
Record Cipher := MkCipher { s0 : list Z; s1 : list Z; s2 : list Z; s3 : list Z; k : list Z }.

Definition store32l (src : Z) : list Z :=
  [uint8 src; uint8 (Z.shiftr src 8); uint8 (Z.shiftr src 16); uint8 (Z.shiftr src 24)].

Definition load32l (src : list Z) (i : nat) : Z :=
  (nth i src 0 .| nth (i + 1) src 0 << 8 .| nth (i + 2) src 0 << 16 .| nth (i + 3) src 0 << 24)%u32.

Definition rol (x y : Z) : Z := (x << Z.land y 31 .| x >> (32 - Z.land y 31))%u32.

Definition ror (x y : Z) : Z := (x >> Z.land y 31 .| x << (32 - Z.land y 31))%u32.

Definition rs : list (list Z) :=
  [[0x01; 0xa4; 0x55; 0x87; 0x5a; 0x58; 0xdb; 0x9e];
   [0xa4; 0x56; 0x82; 0xf3; 0x1e; 0xc6; 0x68; 0xe5];
   [0x02; 0xa1; 0xfc; 0xc1; 0x47; 0xae; 0x3d; 0x19];
   [0xa4; 0x55; 0x87; 0x5a; 0x58; 0xdb; 0x9e; 0x03]].

Definition sbox : list (list Z) :=
  [[0xa9; 0x67; 0xb3; 0xe8; 0x04; 0xfd; 0xa3; 0x76; 0x9a; 0x92; 0x80; 0x78; 0xe4; 0xdd; 0xd1; 0x38;
    0x0d; 0xc6; 0x35; 0x98; 0x18; 0xf7; 0xec; 0x6c; 0x43; 0x75; 0x37; 0x26; 0xfa; 0x13; 0x94; 0x48;
    0xf2; 0xd0; 0x8b; 0x30; 0x84; 0x54; 0xdf; 0x23; 0x19; 0x5b; 0x3d; 0x59; 0xf3; 0xae; 0xa2; 0x82;
    0x63; 0x01; 0x83; 0x2e; 0xd9; 0x51; 0x9b; 0x7c; 0xa6; 0xeb; 0xa5; 0xbe; 0x16; 0x0c; 0xe3; 0x61;
    0xc0; 0x8c; 0x3a; 0xf5; 0x73; 0x2c; 0x25; 0x0b; 0xbb; 0x4e; 0x89; 0x6b; 0x53; 0x6a; 0xb4; 0xf1;
    0xe1; 0xe6; 0xbd; 0x45; 0xe2; 0xf4; 0xb6; 0x66; 0xcc; 0x95; 0x03; 0x56; 0xd4; 0x1c; 0x1e; 0xd7;
    0xfb; 0xc3; 0x8e; 0xb5; 0xe9; 0xcf; 0xbf; 0xba; 0xea; 0x77; 0x39; 0xaf; 0x33; 0xc9; 0x62; 0x71;
    0x81; 0x79; 0x09; 0xad; 0x24; 0xcd; 0xf9; 0xd8; 0xe5; 0xc5; 0xb9; 0x4d; 0x44; 0x08; 0x86; 0xe7;
    0xa1; 0x1d; 0xaa; 0xed; 0x06; 0x70; 0xb2; 0xd2; 0x41; 0x7b; 0xa0; 0x11; 0x31; 0xc2; 0x27; 0x90;
    0x20; 0xf6; 0x60; 0xff; 0x96; 0x5c; 0xb1; 0xab; 0x9e; 0x9c; 0x52; 0x1b; 0x5f; 0x93; 0x0a; 0xef;
    0x91; 0x85; 0x49; 0xee; 0x2d; 0x4f; 0x8f; 0x3b; 0x47; 0x87; 0x6d; 0x46; 0xd6; 0x3e; 0x69; 0x64;
    0x2a; 0xce; 0xcb; 0x2f; 0xfc; 0x97; 0x05; 0x7a; 0xac; 0x7f; 0xd5; 0x1a; 0x4b; 0x0e; 0xa7; 0x5a;
    0x28; 0x14; 0x3f; 0x29; 0x88; 0x3c; 0x4c; 0x02; 0xb8; 0xda; 0xb0; 0x17; 0x55; 0x1f; 0x8a; 0x7d;
    0x57; 0xc7; 0x8d; 0x74; 0xb7; 0xc4; 0x9f; 0x72; 0x7e; 0x15; 0x22; 0x12; 0x58; 0x07; 0x99; 0x34;
    0x6e; 0x50; 0xde; 0x68; 0x65; 0xbc; 0xdb; 0xf8; 0xc8; 0xa8; 0x2b; 0x40; 0xdc; 0xfe; 0x32; 0xa4;
    0xca; 0x10; 0x21; 0xf0; 0xd3; 0x5d; 0x0f; 0x00; 0x6f; 0x9d; 0x36; 0x42; 0x4a; 0x5e; 0xc1; 0xe0];
   [0x75; 0xf3; 0xc6; 0xf4; 0xdb; 0x7b; 0xfb; 0xc8; 0x4a; 0xd3; 0xe6; 0x6b; 0x45; 0x7d; 0xe8; 0x4b;
    0xd6; 0x32; 0xd8; 0xfd; 0x37; 0x71; 0xf1; 0xe1; 0x30; 0x0f; 0xf8; 0x1b; 0x87; 0xfa; 0x06; 0x3f;
    0x5e; 0xba; 0xae; 0x5b; 0x8a; 0x00; 0xbc; 0x9d; 0x6d; 0xc1; 0xb1; 0x0e; 0x80; 0x5d; 0xd2; 0xd5;
    0xa0; 0x84; 0x07; 0x14; 0xb5; 0x90; 0x2c; 0xa3; 0xb2; 0x73; 0x4c; 0x54; 0x92; 0x74; 0x36; 0x51;
    0x38; 0xb0; 0xbd; 0x5a; 0xfc; 0x60; 0x62; 0x96; 0x6c; 0x42; 0xf7; 0x10; 0x7c; 0x28; 0x27; 0x8c;
    0x13; 0x95; 0x9c; 0xc7; 0x24; 0x46; 0x3b; 0x70; 0xca; 0xe3; 0x85; 0xcb; 0x11; 0xd0; 0x93; 0xb8;
    0xa6; 0x83; 0x20; 0xff; 0x9f; 0x77; 0xc3; 0xcc; 0x03; 0x6f; 0x08; 0xbf; 0x40; 0xe7; 0x2b; 0xe2;
    0x79; 0x0c; 0xaa; 0x82; 0x41; 0x3a; 0xea; 0xb9; 0xe4; 0x9a; 0xa4; 0x97; 0x7e; 0xda; 0x7a; 0x17;
    0x66; 0x94; 0xa1; 0x1d; 0x3d; 0xf0; 0xde; 0xb3; 0x0b; 0x72; 0xa7; 0x1c; 0xef; 0xd1; 0x53; 0x3e;
    0x8f; 0x33; 0x26; 0x5f; 0xec; 0x76; 0x2a; 0x49; 0x81; 0x88; 0xee; 0x21; 0xc4; 0x1a; 0xeb; 0xd9;
    0xc5; 0x39; 0x99; 0xcd; 0xad; 0x31; 0x8b; 0x01; 0x18; 0x23; 0xdd; 0x1f; 0x4e; 0x2d; 0xf9; 0x48;
    0x4f; 0xf2; 0x65; 0x8e; 0x78; 0x5c; 0x58; 0x19; 0x8d; 0xe5; 0x98; 0x57; 0x67; 0x7f; 0x05; 0x64;
    0xaf; 0x63; 0xb6; 0xfe; 0xf5; 0xb7; 0x3c; 0xa5; 0xce; 0xe9; 0x68; 0x44; 0xe0; 0x4d; 0x43; 0x69;
    0x29; 0x2e; 0xac; 0x15; 0x59; 0xa8; 0x0a; 0x9e; 0x6e; 0x47; 0xdf; 0x34; 0x35; 0x6a; 0xcf; 0xdc;
    0x22; 0xc9; 0xc0; 0x9b; 0x89; 0xd4; 0xed; 0xab; 0x12; 0xa2; 0x0d; 0x52; 0xbb; 0x02; 0x2f; 0xa9;
    0xd7; 0x61; 0x1e; 0xb4; 0x50; 0x04; 0xf6; 0xc2; 0x16; 0x25; 0x86; 0x56; 0x55; 0x09; 0xbe; 0x91]].

Definition sboxAt (q : nat) (x : Z) : Z := nth (Z.to_nat x) (nth q sbox []) 0.

(** One turn of the loop of [gfMult], on [result], [a] and [B[1]].  The index [B[1]>>7] is 0
    or 1, see [gfStep_index]. *)
Definition gfStep (p : Z) (s : Z * Z * Z) : Z * Z * Z :=
  let '(result, a, B1) := s in
  let result := Z.lxor result (nth (Z.to_nat (Z.land a 1)) [0; B1] 0) in
  let a := Z.shiftr a 1 in
  let B1 := (nth (Z.to_nat (B1 >> 7)) [0; p] 0 .^ (B1 << 1))%u32 in
  (result, a, B1).

Definition gfMult (a b p : Z) : Z :=
  let '(result, a, B1) := Nat.iter 7 (gfStep p) (0, a, b) in
  uint8 (Z.lxor result (nth (Z.to_nat (Z.land a 1)) [0; B1] 0)).

(** The values of the parameter [col]: any other one panics as unreachable. *)
Inductive column := Col0 | Col1 | Col2 | Col3.

Definition mdsColumnMult (input : Z) (col : column) : Z :=
  let mul01 := input in
  let mul5B := gfMult input 0x5b mdsPolynomial in
  let mulEF := gfMult input 0xef mdsPolynomial in
  match col with
  | Col0 => (mul01 .| mul5B << 8 .| mulEF << 16 .| mulEF << 24)%u32
  | Col1 => (mulEF .| mulEF << 8 .| mul5B << 16 .| mul01 << 24)%u32
  | Col2 => (mul5B .| mulEF << 8 .| mul01 << 16 .| mulEF << 24)%u32
  | Col3 => (mul5B .| mul01 << 8 .| mulEF << 16 .| mul5B << 24)%u32
  end.

(** The statements of the cases 4, 3 and 2 of [h] on the bytes [y]. *)
Definition h4 (key : list Z) (offset : nat) (y : Z * Z * Z * Z) : Z * Z * Z * Z :=
  let '(y0, y1, y2, y3) := y in
  let K j := nth (4 * (6 + offset) + j) key 0 in
  (Z.lxor (sboxAt 1 y0) (K 0%nat), Z.lxor (sboxAt 0 y1) (K 1%nat),
   Z.lxor (sboxAt 0 y2) (K 2%nat), Z.lxor (sboxAt 1 y3) (K 3%nat)).

Definition h3 (key : list Z) (offset : nat) (y : Z * Z * Z * Z) : Z * Z * Z * Z :=
  let '(y0, y1, y2, y3) := y in
  let K j := nth (4 * (4 + offset) + j) key 0 in
  (Z.lxor (sboxAt 1 y0) (K 0%nat), Z.lxor (sboxAt 1 y1) (K 1%nat),
   Z.lxor (sboxAt 0 y2) (K 2%nat), Z.lxor (sboxAt 0 y3) (K 3%nat)).

Definition h2 (key : list Z) (offset : nat) (y : Z * Z * Z * Z) : Z * Z * Z * Z :=
  let '(y0, y1, y2, y3) := y in
  let K j := nth (4 * (2 + offset) + j) key 0 in
  let L j := nth (4 * (0 + offset) + j) key 0 in
  (sboxAt 1 (Z.lxor (sboxAt 0 (Z.lxor (sboxAt 0 y0) (K 0%nat))) (L 0%nat)),
   sboxAt 0 (Z.lxor (sboxAt 0 (Z.lxor (sboxAt 1 y1) (K 1%nat))) (L 1%nat)),
   sboxAt 1 (Z.lxor (sboxAt 1 (Z.lxor (sboxAt 0 y2) (K 2%nat))) (L 2%nat)),
   sboxAt 0 (Z.lxor (sboxAt 1 (Z.lxor (sboxAt 1 y3) (K 3%nat))) (L 3%nat))).

(** [input] is the byte that all entries of [tmp] hold. *)
Definition h (input : Z) (key : list Z) (offset : nat) : Z :=
  let y := (input, input, input, input) in
  let y :=
    match (length key / 8)%nat with
    | 4%nat => h2 key offset (h3 key offset (h4 key offset y))
    | 3%nat => h2 key offset (h3 key offset y)
    | 2%nat => h2 key offset y
    | _ => y
    end in
  let '(y0, y1, y2, y3) := y in
  (0 .^ mdsColumnMult y0 Col0 .^ mdsColumnMult y1 Col1 .^ mdsColumnMult y2 Col2
     .^ mdsColumnMult y3 Col3)%u32.

(** [S[4*i+j]], which the two inner loops accumulate. *)
Definition rsByte (key : list Z) (i j : nat) : Z :=
  fold_left (fun s k => Z.lxor s (gfMult (nth (8 * i + k) key 0) (nth k (nth j rs []) 0) rsPolynomial))
    (seq 0 8) 0.

Definition rsBytes (key : list Z) : list Z :=
  flat_map (fun i => map (rsByte key i) (seq 0 4)) (seq 0 (length key / 8)).

(** [c.k[2*i], c.k[2*i+1]]. *)
Definition subkeys (key : list Z) (i : nat) : list Z :=
  let A := h (2 * Z.of_nat i) key 0 in
  let B := h (2 * Z.of_nat i + 1) key 1 in
  let B := rol B 8 in
  [(A + B)%u32; rol (uint32 (uint32 (2 * B) + A)) 9].

(** [c.s[0][i]] to [c.s[3][i]] for the three key sizes. *)
Definition sboxes2 (S : nat -> Z) (i : Z) : Z * Z * Z * Z :=
  let q := sboxAt in
  (mdsColumnMult (q 1 (Z.lxor (q 0 (Z.lxor (q 0 i) (S 0))) (S 4)))%nat Col0,
   mdsColumnMult (q 0 (Z.lxor (q 0 (Z.lxor (q 1 i) (S 1))) (S 5)))%nat Col1,
   mdsColumnMult (q 1 (Z.lxor (q 1 (Z.lxor (q 0 i) (S 2))) (S 6)))%nat Col2,
   mdsColumnMult (q 0 (Z.lxor (q 1 (Z.lxor (q 1 i) (S 3))) (S 7)))%nat Col3).

Definition sboxes3 (S : nat -> Z) (i : Z) : Z * Z * Z * Z :=
  let q := sboxAt in
  (mdsColumnMult (q 1 (Z.lxor (q 0 (Z.lxor (q 0 (Z.lxor (q 1 i) (S 0))) (S 4))) (S 8)))%nat Col0,
   mdsColumnMult (q 0 (Z.lxor (q 0 (Z.lxor (q 1 (Z.lxor (q 1 i) (S 1))) (S 5))) (S 9)))%nat Col1,
   mdsColumnMult (q 1 (Z.lxor (q 1 (Z.lxor (q 0 (Z.lxor (q 0 i) (S 2))) (S 6))) (S 10)))%nat Col2,
   mdsColumnMult (q 0 (Z.lxor (q 1 (Z.lxor (q 1 (Z.lxor (q 0 i) (S 3))) (S 7))) (S 11)))%nat Col3).

Definition sboxes4 (S : nat -> Z) (i : Z) : Z * Z * Z * Z :=
  let q := sboxAt in
  (mdsColumnMult
     (q 1 (Z.lxor (q 0 (Z.lxor (q 0 (Z.lxor (q 1 (Z.lxor (q 1 i) (S 0))) (S 4))) (S 8))) (S 12)))%nat Col0,
   mdsColumnMult
     (q 0 (Z.lxor (q 0 (Z.lxor (q 1 (Z.lxor (q 1 (Z.lxor (q 0 i) (S 1))) (S 5))) (S 9))) (S 13)))%nat Col1,
   mdsColumnMult
     (q 1 (Z.lxor (q 1 (Z.lxor (q 0 (Z.lxor (q 0 (Z.lxor (q 0 i) (S 2))) (S 6))) (S 10))) (S 14)))%nat Col2,
   mdsColumnMult
     (q 0 (Z.lxor (q 1 (Z.lxor (q 1 (Z.lxor (q 0 (Z.lxor (q 1 i) (S 3))) (S 7))) (S 11))) (S 15)))%nat Col3).

(** A [KeySizeError] is [None]. *)
Definition NewCipher (key : list Z) : option Cipher :=
  let keylen := length key in
  if negb (keylen =? 16)%nat && negb (keylen =? 24)%nat && negb (keylen =? 32)%nat then None
  else
    let kw := (keylen / 8)%nat in
    let rsb := rsBytes key in
    let S i := nth i rsb 0 in
    let ks := flat_map (subkeys key) (seq 0 20) in
    let box := match kw with
               | 2%nat => sboxes2 S
               | 3%nat => sboxes3 S
               | _ => sboxes4 S
               end in
    let rows := map (fun i => box (Z.of_nat i)) (seq 0 256) in
    Some (MkCipher (map (fun r => fst (fst (fst r))) rows) (map (fun r => snd (fst (fst r))) rows)
            (map (fun r => snd (fst r)) rows) (map snd rows) ks).

Definition at8 (t : list Z) (x : Z) : Z := nth (Z.to_nat (uint8 x)) t 0.

(** The values [t2] and [t1] of a half round. *)
Definition t2Of (c : Cipher) (x : Z) : Z :=
  (at8 (s1 c) x .^ at8 (s2 c) (x >> 8) .^ at8 (s3 c) (x >> 16) .^ at8 (s0 c) (x >> 24))%u32.

Definition t1Of (c : Cipher) (x t2 : Z) : Z :=
  ((at8 (s0 c) x .^ at8 (s1 c) (x >> 8) .^ at8 (s2 c) (x >> 16) .^ at8 (s3 c) (x >> 24)) + t2)%u32.

Definition encryptRound (c : Cipher) (v : Z * Z * Z * Z) (i : nat) : Z * Z * Z * Z :=
  let '(ia, ib, ic, id) := v in
  let K j := nth (8 + i * 4 + j) (k c) 0 in
  let t2 := t2Of c ib in
  let t1 := t1Of c ia t2 in
  let ic := ror (ic .^ (t1 + K 0%nat))%u32 1 in
  let id := (rol id 1 .^ (t2 + t1 + K 1%nat))%u32 in
  let t2 := t2Of c id in
  let t1 := t1Of c ic t2 in
  let ia := ror (ia .^ (t1 + K 2%nat))%u32 1 in
  let ib := (rol ib 1 .^ (t2 + t1 + K 3%nat))%u32 in
  (ia, ib, ic, id).

(** The body of the loop of [Decrypt] at [i + 1]. *)
Definition decryptRound (c : Cipher) (v : Z * Z * Z * Z) (i : nat) : Z * Z * Z * Z :=
  let '(ia, ib, ic, id) := v in
  let K j := nth (4 + (i + 1) * 4 + j) (k c) 0 in
  let t2 := t2Of c id in
  let t1 := t1Of c ic t2 in
  let ia := (rol ia 1 .^ (t1 + K 2%nat))%u32 in
  let ib := ror (ib .^ (t2 + t1 + K 3%nat))%u32 1 in
  let t2 := t2Of c ib in
  let t1 := t1Of c ia t2 in
  let ic := (rol ic 1 .^ (t1 + K 0%nat))%u32 in
  let id := ror (id .^ (t2 + t1 + K 1%nat))%u32 1 in
  (ia, ib, ic, id).

Definition subkey (c : Cipher) (i : nat) : Z := nth i (k c) 0.

Definition Encrypt (c : Cipher) (src : list Z) : list Z :=
  let ia := load32l src 0 in
  let ib := load32l src 4 in
  let ic := load32l src 8 in
  let id := load32l src 12 in
  let ia := Z.lxor ia (subkey c 0) in
  let ib := Z.lxor ib (subkey c 1) in
  let ic := Z.lxor ic (subkey c 2) in
  let id := Z.lxor id (subkey c 3) in
  let '(ia, ib, ic, id) := fold_left (encryptRound c) (seq 0 8) (ia, ib, ic, id) in
  let ta := Z.lxor ic (subkey c 4) in
  let tb := Z.lxor id (subkey c 5) in
  let tc := Z.lxor ia (subkey c 6) in
  let td := Z.lxor ib (subkey c 7) in
  store32l ta ++ store32l tb ++ store32l tc ++ store32l td.

Definition Decrypt (c : Cipher) (src : list Z) : list Z :=
  let ta := load32l src 0 in
  let tb := load32l src 4 in
  let tc := load32l src 8 in
  let td := load32l src 12 in
  let ia := Z.lxor tc (subkey c 6) in
  let ib := Z.lxor td (subkey c 7) in
  let ic := Z.lxor ta (subkey c 4) in
  let id := Z.lxor tb (subkey c 5) in
  let '(ia, ib, ic, id) := fold_left (decryptRound c) (rev (seq 0 8)) (ia, ib, ic, id) in
  let ia := Z.lxor ia (subkey c 0) in
  let ib := Z.lxor ib (subkey c 1) in
  let ic := Z.lxor ic (subkey c 2) in
  let id := Z.lxor id (subkey c 3) in
  store32l ia ++ store32l ib ++ store32l ic ++ store32l id.

Definition block (c : Cipher) : Block := MkBlock 16 (Encrypt c) (Decrypt c).

(** ** The tables and the field arithmetic *)

(** The generator of the test of the package. *)
Definition qbox : list (list (list Z)) :=
  [[[0x8; 0x1; 0x7; 0xd; 0x6; 0xf; 0x3; 0x2; 0x0; 0xb; 0x5; 0x9; 0xe; 0xc; 0xa; 0x4];
    [0xe; 0xc; 0xb; 0x8; 0x1; 0x2; 0x3; 0x5; 0xf; 0x4; 0xa; 0x6; 0x7; 0x0; 0x9; 0xd];
    [0xb; 0xa; 0x5; 0xe; 0x6; 0xd; 0x9; 0x0; 0xc; 0x8; 0xf; 0x3; 0x2; 0x4; 0x7; 0x1];
    [0xd; 0x7; 0xf; 0x4; 0x1; 0x2; 0x6; 0xe; 0x9; 0xb; 0x3; 0x0; 0x8; 0x5; 0xc; 0xa]];
   [[0x2; 0x8; 0xb; 0xd; 0xf; 0x7; 0x6; 0xe; 0x3; 0x1; 0x9; 0x4; 0x0; 0xa; 0xc; 0x5];
    [0x1; 0xe; 0x2; 0xb; 0x4; 0xc; 0x3; 0x7; 0x6; 0xd; 0xa; 0x5; 0xf; 0x9; 0x0; 0x8];
    [0x4; 0xc; 0x7; 0x5; 0x1; 0x6; 0x9; 0xa; 0x0; 0xe; 0xd; 0x8; 0x2; 0xb; 0x3; 0xf];
    [0xb; 0x9; 0x5; 0x1; 0xc; 0x3; 0xd; 0xe; 0x6; 0x4; 0x7; 0xf; 0x2; 0x0; 0x8; 0xa]]].

Definition genRound (qi : nat) (s : Z * Z) (i : nat) : Z * Z :=
  let (a0, b0) := s in
  let a1 := Z.lxor a0 b0 in
  let b1 := Z.land (Z.lxor (Z.lxor a0 (Z.lor (Z.shiftl b0 3) (Z.shiftr b0 1))) (Z.shiftl a0 3)) 15 in
  let q j := nth j (nth qi qbox []) [] in
  (nth (Z.to_nat a1) (q (2 * i)%nat) 0, nth (Z.to_nat b1) (q (2 * i + 1)%nat) 0).

Definition genSbox (qi : nat) (x : Z) : Z :=
  let (a0, b0) := fold_left (genRound qi) [0; 1]%nat (x / 16, x mod 16) in b0 * 16 + a0.

Lemma sbox_generated :
  sbox = map (fun qi => map (fun x => genSbox qi (Z.of_nat x)) (seq 0 256)) [0; 1]%nat.
Proof. vm_compute. reflexivity. Qed.

(** Multiplication of polynomials over the field of two elements: the product without
    carries, and the remainder modulo a polynomial of degree eight. *)
Definition clmul (a b : Z) : Z :=
  fold_left (fun r i => if Z.testbit a i then Z.lxor r (Z.shiftl b i) else r)
    [0; 1; 2; 3; 4; 5; 6; 7] 0.

Definition polyMod (p x : Z) : Z :=
  fold_left (fun r i => if Z.testbit r (i + 8) then Z.lxor r (Z.shiftl p i) else r)
    [7; 6; 5; 4; 3; 2; 1; 0] x.

Definition constants_ok (p : Z) (cs : list Z) : bool :=
  forallb (fun b => forallb (fun a => gfMult a b p =? polyMod p (clmul a b))
                      (map Z.of_nat (seq 0 256))) cs.

Lemma mds_constants : constants_ok mdsPolynomial [0x5b; 0xef] = true.
Proof. vm_compute. reflexivity. Qed.

Lemma rs_constants : constants_ok rsPolynomial (nodup Z.eq_dec (concat rs)) = true.
Proof. vm_compute. reflexivity. Qed.

Lemma gfMult_constants p cs a b :
  constants_ok p cs = true -> byte_ok a -> In b cs -> gfMult a b p = polyMod p (clmul a b).
Proof.
  intros C Ha Hb. unfold constants_ok in C. rewrite forallb_forall in C. specialize (C b Hb).
  rewrite forallb_forall in C. apply Z.eqb_eq, C. unfold byte_ok in Ha.
  rewrite <- (Z2Nat.id a) by lia. apply in_map, in_seq. lia.
Qed.

(** The index [B[1]>>7] stays in range. *)
Lemma gfStep_index p s : p = mdsPolynomial \/ p = rsPolynomial -> byte_ok (snd s) ->
  (Z.to_nat (Z.shiftr (snd s) 7) < 2)%nat /\ byte_ok (snd (gfStep p s)).
Proof.
  intros Hp Hb. destruct s as [[r a] B1]. cbn [snd] in Hb. unfold byte_ok in Hb. split.
  - cbn [snd]. rewrite Z.shiftr_div_pow2 by lia.
    assert (B1 / 2 ^ 7 < 2) by (apply Z.div_lt_upper_bound; lia). lia.
  - assert (forallb (fun B1 => (snd (gfStep p (0, 0, B1)) <? 256) && (0 <=? snd (gfStep p (0, 0, B1))))
              (map Z.of_nat (seq 0 256)) = true) as C
      by (destruct Hp as [-> | ->]; vm_compute; reflexivity).
    rewrite forallb_forall in C. assert (In B1 (map Z.of_nat (seq 0 256))) as I.
    { rewrite <- (Z2Nat.id B1) by lia. apply in_map, in_seq. lia. }
    specialize (C B1 I). cbn [gfStep snd] in *. unfold byte_ok. lia.
Qed.

(** ** Rotations by one bit *)

Lemma rol_1 x : word_ok x -> rol x 1 = 2 * (x mod 2 ^ 31) + x / 2 ^ 31.
Proof.
  intros H. unfold word_ok in H. unfold rol. change (Z.land 1 31) with 1. change (32 - 1) with 31.
  rewrite Z.shiftr_div_pow2, Z.shiftl_mul_pow2, uint32_mod by lia.
  replace ((x * 2 ^ 1) mod 2 ^ 32) with (2 ^ 1 * (x mod 2 ^ 31)).
  - apply lor_high; [lia |]. Z.to_euclidean_division_equations. lia.
  - Z.to_euclidean_division_equations. lia.
Qed.

Lemma ror_1 x : word_ok x -> ror x 1 = 2 ^ 31 * (x mod 2) + x / 2.
Proof.
  intros H. unfold word_ok in H. unfold ror. change (Z.land 1 31) with 1. change (32 - 1) with 31.
  rewrite Z.shiftr_div_pow2, Z.shiftl_mul_pow2, uint32_mod, Z.lor_comm by lia.
  replace ((x * 2 ^ 31) mod 2 ^ 32) with (2 ^ 31 * (x mod 2)).
  - apply lor_high; [lia |]. Z.to_euclidean_division_equations. lia.
  - Z.to_euclidean_division_equations. lia.
Qed.

Lemma rol_ok x : word_ok x -> word_ok (rol x 1).
Proof.
  intros H. rewrite rol_1 by exact H. unfold word_ok in *.
  Z.to_euclidean_division_equations. lia.
Qed.

Lemma ror_ok x : word_ok x -> word_ok (ror x 1).
Proof.
  intros H. rewrite ror_1 by exact H. unfold word_ok in *.
  Z.to_euclidean_division_equations. lia.
Qed.

Lemma rol_ror x : word_ok x -> rol (ror x 1) 1 = x.
Proof.
  intros H. rewrite rol_1 by now apply ror_ok. rewrite ror_1 by exact H. unfold word_ok in H.
  Z.to_euclidean_division_equations. lia.
Qed.

Lemma ror_rol x : word_ok x -> ror (rol x 1) 1 = x.
Proof.
  intros H. rewrite ror_1 by now apply rol_ok. rewrite rol_1 by exact H. unfold word_ok in H.
  Z.to_euclidean_division_equations. lia.
Qed.

#[local] Hint Resolve rol_ok ror_ok : bytes.

(** ** The rounds *)

Definition quad_ok (v : Z * Z * Z * Z) : Prop :=
  let '(a, b, c, d) := v in word_ok a /\ word_ok b /\ word_ok c /\ word_ok d.

Lemma encryptRound_ok c v i : quad_ok v -> quad_ok (encryptRound c v i).
Proof.
  destruct v as [[[ia ib] ic] id]. intros (Ha & Hb & Hc & Hd). unfold encryptRound. cbv zeta.
  split; [auto with bytes |]. split; [auto with bytes |]. split; auto with bytes.
Qed.

Lemma decryptRound_ok c v i : quad_ok v -> quad_ok (decryptRound c v i).
Proof.
  destruct v as [[[ia ib] ic] id]. intros (Ha & Hb & Hc & Hd). unfold decryptRound. cbv zeta.
  split; [auto with bytes |]. split; [auto with bytes |]. split; auto with bytes.
Qed.

Lemma round_key i j : (4 + (i + 1) * 4 + j = 8 + i * 4 + j)%nat.
Proof. lia. Qed.

(** Cancels the operations of a round against those of its inverse. *)
Ltac undo_round :=
  repeat first [rewrite lxor_cancel | rewrite rol_ror by auto with bytes
               | rewrite ror_rol by auto with bytes]; reflexivity.

Lemma decrypt_encrypt_round c v i : quad_ok v -> decryptRound c (encryptRound c v i) i = v.
Proof.
  destruct v as [[[ia ib] ic] id]. intros (Ha & Hb & Hc & Hd).
  unfold decryptRound, encryptRound. cbv zeta. rewrite !round_key.
  undo_round.
Qed.

Lemma encrypt_decrypt_round c v i : quad_ok v -> encryptRound c (decryptRound c v i) i = v.
Proof.
  destruct v as [[[ia ib] ic] id]. intros (Ha & Hb & Hc & Hd).
  unfold decryptRound, encryptRound. cbv zeta. rewrite !round_key.
  undo_round.
Qed.

(** ** The cipher *)

Definition quad (f : Z * Z * Z * Z -> Z * Z * Z * Z) (src : list Z) : list Z :=
  let '(a, b, c, d) := f (load32 src 0, load32 src 4, load32 src 8, load32 src 12) in
  store32 a ++ store32 b ++ store32 c ++ store32 d.

Lemma load_words src : block_ok 16 src ->
  quad_ok (load32 src 0, load32 src 4, load32 src 8, load32 src 12) /\
  store32 (load32 src 0) ++ store32 (load32 src 4) ++ store32 (load32 src 8) ++
    store32 (load32 src 12) = src.
Proof.
  intros [L Ok]. rewrite !load32_spec, !store32_spec by (exact Ok || lia).
  do 16 (destruct src as [| ? src]; [discriminate L |]). destruct src; [| discriminate L].
  cbn [firstn skipn]. repeat (apply Forall_cons_iff in Ok; destruct Ok as [? Ok]).
  assert (forall a b c d, byte_ok a -> byte_ok b -> byte_ok c -> byte_ok d ->
    word_ok (le_val [a; b; c; d]) /\ le_bytes 4 (le_val [a; b; c; d]) = [a; b; c; d]) as W.
  { intros a b c d Ha Hb Hc Hd.
    assert (bytes_ok [a; b; c; d]) as Q by (do 4 (apply Forall_cons; [assumption |]); apply Forall_nil).
    split; [exact (le_val_bounds _ Q) | exact (le_bytes_le_val _ Q)]. }
  destruct (W z z0 z1 z2) as [W0 ->]; [assumption .. |].
  destruct (W z3 z4 z5 z6) as [W1 ->]; [assumption .. |].
  destruct (W z7 z8 z9 z10) as [W2 ->]; [assumption .. |].
  destruct (W z11 z12 z13 z14) as [W3 ->]; [assumption .. |].
  split; [exact (conj W0 (conj W1 (conj W2 W3))) | reflexivity].
Qed.

Lemma store_words a b c d : quad_ok (a, b, c, d) ->
  let y := store32 a ++ store32 b ++ store32 c ++ store32 d in
  block_ok 16 y /\ (load32 y 0, load32 y 4, load32 y 8, load32 y 12) = (a, b, c, d).
Proof.
  intros (Ha & Hb & Hc & Hd) y. assert (block_ok 16 y) as [L Ok].
  { unfold y. rewrite !store32_spec. split; [reflexivity | auto with bytes]. }
  split; [now split |]. rewrite !load32_spec by (exact Ok || lia).
  assert (forall x, word_ok x -> le_val (le_bytes 4 x) = x) as V by exact le_val_store.
  unfold y. rewrite !store32_spec. cbn [skipn firstn le_bytes app].
  rewrite <- (V a Ha) at 5. rewrite <- (V b Hb) at 5. rewrite <- (V c Hc) at 5.
  rewrite <- (V d Hd) at 5. reflexivity.
Qed.

Lemma quad_inverse f g : (forall v, quad_ok v -> quad_ok (f v) /\ g (f v) = v) ->
  forall x, block_ok 16 x -> block_ok 16 (quad f x) /\ quad g (quad f x) = x.
Proof.
  intros H x Hx. destruct (load_words x Hx) as [Q E]. unfold quad at 1 3.
  destruct (H _ Q) as [Qf G]. destruct (f _) as [[[a b] c] d].
  destruct (store_words a b c d Qf) as [Bl El]. split; [exact Bl |].
  unfold quad. rewrite El, G. exact E.
Qed.

Definition whiten (c : Cipher) (i : nat) (v : Z * Z * Z * Z) : Z * Z * Z * Z :=
  let '(a0, a1, a2, a3) := v in
  (Z.lxor a0 (subkey c i), Z.lxor a1 (subkey c (i + 1)), Z.lxor a2 (subkey c (i + 2)),
   Z.lxor a3 (subkey c (i + 3))).

Definition swapHalves (v : Z * Z * Z * Z) : Z * Z * Z * Z :=
  let '(a, b, c, d) := v in (c, d, a, b).

Definition encWords (c : Cipher) (v : Z * Z * Z * Z) : Z * Z * Z * Z :=
  whiten c 4 (swapHalves (fold_left (encryptRound c) (seq 0 8) (whiten c 0 v))).

Definition decWords (c : Cipher) (v : Z * Z * Z * Z) : Z * Z * Z * Z :=
  whiten c 0 (fold_left (decryptRound c) (rev (seq 0 8)) (swapHalves (whiten c 4 v))).

Lemma Encrypt_quad c src : Encrypt c src = quad (encWords c) src.
Proof.
  unfold Encrypt, quad, encWords. generalize (seq 0 8). intros l. cbv zeta.
  change (whiten c 0 (load32 src 0, load32 src 4, load32 src 8, load32 src 12)) with
    (Z.lxor (load32l src 0) (subkey c 0), Z.lxor (load32l src 4) (subkey c 1),
     Z.lxor (load32l src 8) (subkey c 2), Z.lxor (load32l src 12) (subkey c 3)).
  destruct (fold_left _ l _) as [[[a b] x] d]. reflexivity.
Qed.

Lemma Decrypt_quad c src : Decrypt c src = quad (decWords c) src.
Proof.
  unfold Decrypt, quad, decWords. generalize (rev (seq 0 8)). intros l. cbv zeta.
  change (swapHalves (whiten c 4 (load32 src 0, load32 src 4, load32 src 8, load32 src 12))) with
    (Z.lxor (load32l src 8) (subkey c 6), Z.lxor (load32l src 12) (subkey c 7),
     Z.lxor (load32l src 0) (subkey c 4), Z.lxor (load32l src 4) (subkey c 5)).
  destruct (fold_left _ l _) as [[[a b] x] d]. reflexivity.
Qed.

(** The invariant of a cipher: its subkeys are 32-bit words. *)
Definition cipher_ok (c : Cipher) : Prop := Forall word_ok (k c).

Lemma subkey_ok c i : cipher_ok c -> word_ok (subkey c i).
Proof.
  intros H. unfold subkey. destruct (Nat.lt_ge_cases i (length (k c))) as [Hi | Hi].
  - unfold cipher_ok in H. rewrite Forall_forall in H. now apply H, nth_In.
  - rewrite nth_overflow by exact Hi. unfold word_ok. lia.
Qed.

Lemma whiten_ok c i v : cipher_ok c -> quad_ok v -> quad_ok (whiten c i v).
Proof.
  intros Hc. pose proof (fun j => subkey_ok c j Hc). destruct v as [[[a0 a1] a2] a3].
  intros (H0 & H1 & H2 & H3). split; [| split; [| split]]; auto with bytes.
Qed.

Lemma whiten_twice c i v : whiten c i (whiten c i v) = v.
Proof. destruct v as [[[a0 a1] a2] a3]. unfold whiten. now rewrite !lxor_cancel. Qed.

Lemma swap_ok v : quad_ok v -> quad_ok (swapHalves v).
Proof. destruct v as [[[a b] c] d]. intros (Ha & Hb & Hc & Hd). exact (conj Hc (conj Hd (conj Ha Hb))). Qed.

Lemma swap_twice v : swapHalves (swapHalves v) = v.
Proof. now destruct v as [[[a b] c] d]. Qed.

Lemma encWords_inverse c v : cipher_ok c -> quad_ok v ->
  quad_ok (encWords c v) /\ decWords c (encWords c v) = v.
Proof.
  intros Hc Hv. unfold decWords, encWords. generalize (seq 0 8). intros l.
  destruct (fold_inverse quad_ok (encryptRound c) (decryptRound c) l (encryptRound_ok c)
    (decrypt_encrypt_round c) (whiten c 0 v) (whiten_ok c 0 v Hc Hv)) as [Ho E].
  split; [now apply whiten_ok, swap_ok |].
  now rewrite whiten_twice, swap_twice, E, whiten_twice.
Qed.

Lemma decWords_inverse c v : cipher_ok c -> quad_ok v ->
  quad_ok (decWords c v) /\ encWords c (decWords c v) = v.
Proof.
  intros Hc Hv. unfold decWords, encWords. generalize (seq 0 8). intros l.
  destruct (fold_inverse quad_ok (decryptRound c) (encryptRound c) (rev l) (decryptRound_ok c)
    (encrypt_decrypt_round c) (swapHalves (whiten c 4 v))
    (swap_ok _ (whiten_ok c 4 v Hc Hv))) as [Ho E]. rewrite rev_involutive in E.
  split; [now apply whiten_ok |].
  now rewrite whiten_twice, E, swap_twice, whiten_twice.
Qed.

Lemma twofish_block_laws c : cipher_ok c -> BlockLaws (block c).
Proof.
  intros Hc. split; cbn [BlockSize EncryptBlock DecryptBlock block]; intros x Hx;
    rewrite ?Encrypt_quad, ?Decrypt_quad.
  - exact (proj1 (quad_inverse _ _ (fun v => encWords_inverse c v Hc) x Hx)).
  - exact (proj1 (quad_inverse _ _ (fun v => decWords_inverse c v Hc) x Hx)).
  - exact (proj2 (quad_inverse _ _ (fun v => encWords_inverse c v Hc) x Hx)).
  - exact (proj2 (quad_inverse _ _ (fun v => decWords_inverse c v Hc) x Hx)).
Qed.

(** ** The constructor *)

Lemma lor_ok x y : word_ok x -> word_ok y -> word_ok (Z.lor x y).
Proof.
  unfold word_ok. intros Hx Hy. split; [apply Z.lor_nonneg; lia |].
  destruct (Z.eq_dec (Z.lor x y) 0) as [-> | N]; [lia |].
  apply Z.log2_lt_pow2; [assert (0 <= Z.lor x y) by (apply Z.lor_nonneg; lia); lia |].
  rewrite Z.log2_lor by lia. apply Z.max_lub_lt.
  - destruct (Z.eq_dec x 0) as [-> | ]; [cbn; lia | apply Z.log2_lt_pow2; lia].
  - destruct (Z.eq_dec y 0) as [-> | ]; [cbn; lia | apply Z.log2_lt_pow2; lia].
Qed.

Lemma shiftr_ok x n : 0 <= n -> word_ok x -> word_ok (Z.shiftr x n).
Proof.
  intros Hn. unfold word_ok. intros H. rewrite Z.shiftr_div_pow2 by exact Hn.
  assert (0 < 2 ^ n) by (apply Z.pow_pos_nonneg; lia).
  split; [apply Z.div_pos; lia |]. apply Z.div_lt_upper_bound; [lia |]. nia.
Qed.

Lemma rol_word x y : word_ok x -> word_ok (rol x y).
Proof.
  intros H. unfold rol. apply lor_ok; [apply uint32_ok |]. apply shiftr_ok; [| exact H].
  change 31 with (Z.ones 5). rewrite Z.land_ones by lia.
  pose proof (Z.mod_pos_bound y (2 ^ 5)). lia.
Qed.

Lemma subkeys_ok key i : Forall word_ok (subkeys key i).
Proof.
  unfold subkeys. apply Forall_cons; [apply uint32_ok |].
  apply Forall_cons; [| apply Forall_nil]. apply rol_word, uint32_ok.
Qed.

Lemma NewCipher_twofish key :
  match NewCipher key with
  | Some c => (length key = 16 \/ length key = 24 \/ length key = 32)%nat /\ cipher_ok c /\
      length (k c) = 40%nat
  | None => ~ (length key = 16 \/ length key = 24 \/ length key = 32)%nat
  end.
Proof.
  unfold NewCipher. generalize (length key / 8)%nat. intros kw.
  destruct (Nat.eqb_spec (length key) 16), (Nat.eqb_spec (length key) 24),
    (Nat.eqb_spec (length key) 32); cbn [negb andb]; try tauto;
    (split; [tauto |]); cbn [k]; (split; [| reflexivity]);
    unfold cipher_ok; cbn [k]; rewrite flat_map_concat_map;
    apply Forall_concat, Forall_map, Forall_forall; intros i _; apply subkeys_ok.
Qed.

(** A vector of [twofish_test.go]. *)
Lemma twofish_vector :
  option_map (fun c => Encrypt c
    [0xd4; 0x91; 0xdb; 0x16; 0xe7; 0xb1; 0xc3; 0x9e; 0x86; 0xcb; 0x08; 0x6b; 0x78; 0x9f; 0x54; 0x19])
    (NewCipher
    [0x9f; 0x58; 0x9f; 0x5c; 0xf6; 0x12; 0x2c; 0x32; 0xb6; 0xbf; 0xec; 0x2f; 0x2a; 0xe8; 0xc3; 0x5a]) =
  Some [0x01; 0x9f; 0x98; 0x09; 0xde; 0x17; 0x11; 0x85; 0x8f; 0xaa; 0xc3; 0xa3; 0xba; 0x20; 0xfb; 0xc3].
Proof. vm_compute. reflexivity. Qed.

(** The branchless multiplication is the one of polynomials, for the constants of the code. *)
Lemma gfMult_spec a b p :
  byte_ok a ->
  p = mdsPolynomial /\ In b [0x5b; 0xef] \/ p = rsPolynomial /\ In b (concat rs) ->
  gfMult a b p = polyMod p (clmul a b).
Proof.
  intros Ha [[-> Hb] | [-> Hb]].
  - now apply (gfMult_constants _ _ _ _ mds_constants).
  - apply (gfMult_constants _ _ _ _ rs_constants); [exact Ha |]. now apply nodup_In.
Qed.
