(* ===== verification/Ciphers.v ===== *)
(** * The block ciphers together, and XTS over them

    The constructors of [Tea], [Blowfish], [Twofish] and [Cast5] make implementations of the interface
    that [BlockCipher] states, exactly for the key sizes they document; [xts.Cipher] is then
    correct over every implementation with blocks of sixteen bytes. *)

From S2P Require Import Prelude BlockCipher Tea Blowfish Twofish Cast5.

(** What the constructor of a cipher promises: an implementation of the interface for the
    key lengths of [sizes], an error for all others. *)
Definition constructs {C : Type} (block : C -> Block) (new : option C) (size : Prop) : Prop :=
  match new with
  | Some c => size /\ BlockLaws (block c)
  | None => ~ size
  end.

Lemma tea_constructs key rounds :
  constructs Tea.block (Tea.NewCipherWithRounds key rounds)
    (length key = 16%nat /\ Z.even rounds = true).
Proof.
  unfold Tea.NewCipherWithRounds, constructs.
  destruct (Nat.eqb_spec (length key) 16) as [L | L]; cbn [negb]; [| tauto].
  change 1 with (Z.ones 1). rewrite Z.land_ones by lia. change (2 ^ 1) with 2.
  rewrite (Zmod_even rounds). destruct (Z.even rounds); cbn [Z.eqb negb]; [| now intros [_ H]].
  split; [auto | apply Tea.tea_block_laws].
Qed.

Lemma xtea_constructs key :
  constructs Xtea.block (Xtea.NewCipher key) (length key = 16%nat).
Proof.
  unfold Xtea.NewCipher, constructs. destruct (Nat.eqb_spec (length key) 16) as [L | L]; [| exact L].
  split; [exact L | apply Xtea.xtea_block_laws].
Qed.

Lemma twofish_constructs key :
  constructs Twofish.block (Twofish.NewCipher key)
    (length key = 16 \/ length key = 24 \/ length key = 32)%nat.
Proof.
  pose proof (NewCipher_twofish key) as H. unfold constructs.
  destruct (Twofish.NewCipher key) as [c |]; [| exact H].
  split; [apply H | apply twofish_block_laws, H].
Qed.

Lemma cast5_constructs key :
  constructs Cast5.block (Cast5.NewCipher key) (length key = 16%nat).
Proof.
  unfold Cast5.NewCipher, constructs. change Cast5.KeySize with 16%nat.
  destruct (Nat.eqb_spec (length key) 16) as [L | L]; cbn [negb]; [| exact L].
  split; [exact L | apply Cast5.cast5_block_laws].
Qed.

Lemma cast5_wellformed key c : bytes_ok key -> Cast5.NewCipher key = Some c -> Cast5.cipher_ok c.
Proof.
  intros Ok. unfold Cast5.NewCipher. change Cast5.KeySize with 16%nat.
  destruct (Nat.eqb_spec (length key) 16) as [L | L]; cbn [negb]; [| discriminate].
  intros E. injection E as <-. now apply Cast5.keySchedule_ok.
Qed.

Lemma blowfish_constructs key : bytes_ok key ->
  exists r, Blowfish.NewCipher key = Return r /\
    constructs Blowfish.block r (1 <= length key <= 56)%nat.
Proof.
  intros Ok. destruct (Nat.le_gt_cases 1 (length key)), (Nat.le_gt_cases (length key) 56);
    [destruct (NewCipher_accepts key ltac:(lia) Ok) as (c & E & Hc); exists (Some c);
     split; [exact E |]; split; [lia | now apply blowfish_block_laws]
    | exists None; split; [apply NewCipher_rejects; lia | cbn; lia] ..].
Qed.

Lemma salted_constructs key salt : bytes_ok key -> bytes_ok salt -> (0 < length salt)%nat ->
  exists r, NewSaltedCipher key salt = Return r /\
    constructs Blowfish.block r (1 <= length key)%nat.
Proof.
  intros Ok Oks Ls. destruct key as [| b key].
  - exists None. unfold NewSaltedCipher. rewrite (proj2 (Nat.eqb_neq _ _)) by lia.
    split; [reflexivity | cbn; lia].
  - destruct (NewSaltedCipher_accepts (b :: key) salt) as (c & E & Hc);
      [cbn; lia | exact Ls | exact Ok | exact Oks |].
    exists (Some c). split; [exact E |]. split; [cbn; lia | now apply blowfish_block_laws].
Qed.

(** The tweak of the block at an index. *)
Definition tweakAt (c : BlockCipher.Cipher) (s : Z) (i : nat) : list Z :=
  Nat.iter i mul2 (firstTweak c s).

Lemma xtsMap_blocks f n : forall src tweak i, (i < n)%nat ->
  keeps_blocks f -> bytes_ok src -> block_ok 16 tweak -> (16 * n <= length src)%nat ->
  firstn 16 (skipn (16 * i) (xtsMap f n src tweak)) =
  xorBytes (f (xorBytes (firstn 16 (skipn (16 * i) src)) (Nat.iter i mul2 tweak)))
    (Nat.iter i mul2 tweak).
Proof.
  induction n as [| n IH]; intros src tweak i Hi Hf Os Ht Ls; [lia |].
  cbn [xtsMap]. destruct (block_firstn 16 src Os ltac:(lia)) as [Lb Ob].
  destruct (xorBytes_block 16 _ _ (Hf _ (xorBytes_block 16 _ _ (conj Lb Ob) Ht)) Ht) as [Lx _].
  destruct i as [| i].
  - rewrite Nat.mul_0_r, !skipn_O. now apply firstn_app_exact.
  - rewrite Nat.iter_succ_r. replace (16 * S i)%nat with (16 * i + 16)%nat by lia.
    rewrite <- !skipn_skipn, (skipn_app_exact 16) by exact Lx.
    apply IH; [lia | exact Hf | auto with bytes | now apply mul2_spec |].
    rewrite length_skipn. lia.
Qed.

Lemma xts_new cipherFunc key c :
  (forall b kb, cipherFunc kb = Some b -> BlockLaws b) ->
  BlockCipher.NewCipher cipherFunc key = Some c ->
  BlockSize (k1 c) = 16%nat /\ BlockLaws (k1 c) /\ BlockLaws (k2 c) /\
  cipherFunc (firstn (length key / 2) key) = Some (k1 c) /\
  cipherFunc (skipn (length key / 2) key) = Some (k2 c).
Proof.
  intros H. unfold BlockCipher.NewCipher.
  destruct (cipherFunc (firstn _ _)) as [b1 |] eqn:E1; [| discriminate]. cbv zeta.
  destruct (Nat.eqb_spec (BlockSize b1) blockSize) as [Hs | Hs]; [| discriminate]. cbn [negb].
  destruct (cipherFunc (skipn _ _)) as [b2 |] eqn:E2; [| discriminate].
  intros Ec. injection Ec as <-. cbn [k1 k2]. split; [exact Hs |].
  split; [exact (H _ _ E1) |]. split; [exact (H _ _ E2) | auto].
Qed.

(** ** Properties *)

(** C30: every constructor makes a cipher that satisfies the laws of the interface
    (blocks are mapped to blocks of the same size, and decryption and encryption are
    inverse to each other) exactly for the key sizes it documents, and reports an error
    for all others: TEA with any even number of rounds and 16 bytes, XTEA with 16 bytes,
    Twofish with 16, 24 or 32 bytes, CAST5 with 16 bytes (its key schedule makes sixteen
    words and sixteen rotation amounts below 32), Blowfish with 1 to 56 bytes, and with a
    salt for any key that is not empty. *)
Theorem block_ciphers key salt rounds :
  bytes_ok key -> bytes_ok salt ->
  constructs Tea.block (Tea.NewCipherWithRounds key rounds)
    (length key = 16%nat /\ Z.even rounds = true) /\
  constructs Tea.block (Tea.NewCipher key) (length key = 16%nat) /\
  constructs Xtea.block (Xtea.NewCipher key) (length key = 16%nat) /\
  constructs Twofish.block (Twofish.NewCipher key)
    (length key = 16 \/ length key = 24 \/ length key = 32)%nat /\
  constructs Cast5.block (Cast5.NewCipher key) (length key = 16%nat) /\
  (forall c, Cast5.NewCipher key = Some c -> Cast5.cipher_ok c) /\
  (exists r, Blowfish.NewCipher key = Return r /\
     constructs Blowfish.block r (1 <= length key <= 56)%nat) /\
  ((0 < length salt)%nat ->
   exists r, NewSaltedCipher key salt = Return r /\
     constructs Blowfish.block r (1 <= length key)%nat).
Proof.
  intros Ok Oks. split; [apply tea_constructs |]. split.
  { pose proof (tea_constructs key Tea.numRounds) as H. unfold constructs, Tea.NewCipher in *.
    destruct (Tea.NewCipherWithRounds key Tea.numRounds); tauto. }
  split; [apply xtea_constructs |]. split; [apply twofish_constructs |].
  split; [apply cast5_constructs |]. split; [intros c; now apply cast5_wellformed |].
  split; [now apply blowfish_constructs | now apply salted_constructs].
Qed.

Lemma block_ciphers_witness :
  constructs Tea.block (Tea.NewCipher (repeat 1 16)) (length (repeat 1 16) = 16%nat) /\
  exists r, Blowfish.NewCipher (repeat 1 16) = Return r /\
    constructs Blowfish.block r (1 <= length (repeat 1 16) <= 56)%nat.
Proof.
  destruct (block_ciphers (repeat 1 16) [] 64) as (_ & T & _ & _ & _ & _ & B & _);
    [apply Forall_forall; intros x ->%repeat_spec; unfold byte_ok; lia | apply Forall_nil |].
  exact (conj T B).
Defined.

(** C29: XTS over any cipher with blocks of sixteen bytes that satisfies the laws.
    Encryption of a sector of [n] blocks writes into a destination that is long enough,
    block [i] being E(P xor T) xor T for the tweak T, the encrypted sector number times
    2^i in the field of 2^128 elements; decryption into a destination of the same
    length returns the sector.  Both panic when the destination is too short or the
    length is no multiple of sixteen, and [Decrypt] also when the destination is
    longer than the ciphertext, because its loop runs over the destination. *)
Theorem xts_sector c s src dst :
  BlockSize (k1 c) = 16%nat -> BlockSize (k2 c) = 16%nat -> BlockLaws (k1 c) -> BlockLaws (k2 c) ->
  bytes_ok src ->
  (forall n, length src = (16 * n)%nat -> (length src <= length dst)%nat ->
   exists ct, BlockCipher.Encrypt c dst src s = Return (ct ++ skipn (length src) dst) /\
     length ct = length src /\
     (forall i, (i < n)%nat ->
        firstn 16 (skipn (16 * i) ct) =
        xorBytes (EncryptBlock (k1 c)
                    (xorBytes (firstn 16 (skipn (16 * i) src)) (tweakAt c s i))) (tweakAt c s i)) /\
     (forall dst', length dst' = length src -> BlockCipher.Decrypt c dst' ct s = Return src) /\
     (forall dst', (length src < length dst')%nat -> BlockCipher.Decrypt c dst' ct s = Panic)) /\
  (forall t, block_ok 16 t -> le_val (mul2 t) =
     if 2 * le_val t <? 2 ^ 128 then 2 * le_val t else Z.lxor (2 * le_val t - 2 ^ 128) 135) /\
  ((length dst < length src)%nat \/ (length src mod 16 <> 0)%nat ->
   BlockCipher.Encrypt c dst src s = Panic /\ BlockCipher.Decrypt c dst src s = Panic).
Proof.
  intros B1 B2 L1 L2 Os. pose proof (encrypt_keeps c B1 B2) as He. pose proof (decrypt_keeps c B1 B2) as Hd.
  destruct (startTweak_spec c s B2 L2) as (t & _ & Ht & Et). fold (firstTweak c s) in Et. subst t.
  split; [| split].
  - intros n Ln Ld. exists (xtsMap (EncryptBlock (k1 c)) n src (firstTweak c s)).
    destruct (xtsMap_block _ n src _ He Os Ht ltac:(lia)) as [Lc Oc].
    split; [now apply Encrypt_spec |]. split; [lia |].
    split; [intros i Hi; apply xtsMap_blocks; auto; lia |]. split; intros dst' Hl.
    + rewrite (Decrypt_spec c B1 B2 dst' _ s n Oc) by lia.
      rewrite xtsMap_inverse; auto. intros x Hx. apply decrypt_encrypt. now rewrite B1.
    + apply Decrypt_longer; auto. lia.
  - intros x Hx. exact (proj2 (mul2_spec x Hx)).
  - intros H. unfold BlockCipher.Encrypt, BlockCipher.Decrypt. change blockSize with 16%nat.
    destruct (Nat.ltb_spec (length dst) (length src)) as [| G]; [auto |].
    destruct (Nat.eqb_spec (length src mod 16) 0); [lia | auto].
Qed.

(** Twofish, whose keys are the two halves. *)
Definition twofishBlock (key : list Z) : option Block := option_map Twofish.block (Twofish.NewCipher key).

Lemma twofishBlock_laws b kb : twofishBlock kb = Some b -> BlockLaws b /\ BlockSize b = 16%nat.
Proof.
  unfold twofishBlock. pose proof (twofish_constructs kb) as H.
  destruct (Twofish.NewCipher kb) as [c |]; [| discriminate]. intros E. injection E as <-.
  split; [apply H | reflexivity].
Qed.

Lemma twofishBlock_accepts kb : length kb = 16%nat -> exists b, twofishBlock kb = Some b.
Proof.
  intros L. unfold twofishBlock. pose proof (twofish_constructs kb) as H.
  destruct (Twofish.NewCipher kb) as [c |]; [eexists; reflexivity |]. destruct H. now left.
Qed.

Lemma xts_twofish key : length key = 32%nat ->
  exists c, BlockCipher.NewCipher twofishBlock key = Some c.
Proof.
  intros L. unfold BlockCipher.NewCipher. rewrite L. change (32 / 2)%nat with 16%nat.
  destruct (twofishBlock_accepts (firstn 16 key)) as (b1 & E1); [rewrite length_firstn; lia |].
  destruct (twofishBlock_accepts (skipn 16 key)) as (b2 & E2); [rewrite length_skipn; lia |].
  rewrite E1, E2. cbv zeta. rewrite (proj2 (twofishBlock_laws _ _ E1)). eexists. reflexivity.
Qed.

Lemma xts_sector_witness :
  exists c ct, BlockCipher.NewCipher twofishBlock (repeat 3 32) = Some c /\
    BlockCipher.Encrypt c (repeat 0 32) (repeat 7 32) 1 = Return ct /\
    BlockCipher.Decrypt c (repeat 0 32) ct 1 = Return (repeat 7 32).
Proof.
  destruct (xts_twofish (repeat 3 32) eq_refl) as (c & E).
  destruct (xts_new twofishBlock _ c (fun b kb H => proj1 (twofishBlock_laws b kb H)) E)
    as (B1 & L1 & L2 & _ & E2).
  destruct (xts_sector c 1 (repeat 7 32) (repeat 0 32) B1 (proj2 (twofishBlock_laws _ _ E2)) L1 L2)
    as (S & _); [apply Forall_forall; intros x ->%repeat_spec; unfold byte_ok; lia |].
  destruct (S 2%nat eq_refl (le_n _)) as (ct & Ee & _ & _ & D & _).
  exists c, ct. split; [exact E |].
  split; [rewrite Ee; apply (f_equal Return), app_nil_r | exact (D (repeat 0 32) eq_refl)].
Defined.

(** C31: the key schedule of Blowfish and the tables of Twofish.  [ExpandKey] xors
    word [i] of the key, read circularly, into entry [i] of the permutation array before the
    tables are replaced; it never panics for a key that is not empty, keeps all tables in
    shape, and with a salt of zeros [expandKeyWithSalt] is the same function, so that
    [NewSaltedCipher] then makes the cipher of [NewCipher]; an empty key panics.  The two byte
    tables of Twofish are the ones that the test of the package generates from the four-bit
    permutations, [gfMult] multiplies polynomials modulo the polynomial of degree eight for
    every byte and every constant that the code multiplies by, its table index is in
    range, and the round functions of decryption undo those of encryption. *)
Theorem cipher_tables key c n :
  (0 < length key)%nat -> bytes_ok key -> Blowfish.cipher_ok c -> (0 < n)%nat ->
  ((exists ps, (forall i, (i < 18)%nat ->
      nth i ps 0 = Z.lxor (nth i (Blowfish.p c) 0) (wordAt key (4 * i))) /\
    ExpandKey key c = Return (snd (expandTables (0, 0, with_p c ps)))) /\
   (exists c', ExpandKey key c = Return c' /\ Blowfish.cipher_ok c') /\
   expandKeyWithSalt key (repeat 0 n) c = ExpandKey key c /\
   ((length key <= 56)%nat -> NewSaltedCipher key (repeat 0 n) = Blowfish.NewCipher key) /\
   ExpandKey [] c = Panic) /\
  (sbox = map (fun qi => map (fun x => genSbox qi (Z.of_nat x)) (seq 0 256)) [0; 1]%nat /\
   forall p, p = mdsPolynomial \/ p = rsPolynomial ->
    (forall a b, byte_ok a ->
       p = mdsPolynomial /\ In b [0x5b; 0xef] \/ p = rsPolynomial /\ In b (concat rs) ->
       gfMult a b p = polyMod p (clmul a b)) /\
    (forall s, byte_ok (snd s) ->
       (Z.to_nat (Z.shiftr (snd s) 7) < 2)%nat /\ byte_ok (snd (gfStep p s)))) /\
  (forall tc v i, quad_ok v ->
     Twofish.decryptRound tc (Twofish.encryptRound tc v i) i = v /\
     Twofish.encryptRound tc (Twofish.decryptRound tc v i) i = v).
Proof.
  intros L Ok Hc Hn. split; [split; [| split; [| split; [| split]]] |];
    [| | | | reflexivity | split; [split; [exact sbox_generated |] |]].
  - destruct (ExpandKey_spec key c L Ok Hc) as (ps & _ & N & E). exists ps. auto.
  - now apply ExpandKey_ok.
  - apply expandKeyWithSalt_zero; [now rewrite repeat_length | apply zeros_ok |].
    intros j. apply wordAt_zeros.
  - intros L'. apply NewSaltedCipher_zero. lia.
  - intros p Hp. split; [intros a b Ha Hb; now apply gfMult_spec |]. intros s Hs. now apply gfStep_index.
  - intros tc v i Hv. split; [now apply decrypt_encrypt_round | now apply encrypt_decrypt_round].
Qed.

Lemma cipher_tables_witness :
  (exists c', ExpandKey [1; 2; 3] initCipher = Return c' /\ Blowfish.cipher_ok c') /\
  NewSaltedCipher [1; 2; 3] (repeat 0 16) = Blowfish.NewCipher [1; 2; 3] /\
  gfMult 0x83 0xef mdsPolynomial = polyMod mdsPolynomial (clmul 0x83 0xef).
Proof.
  destruct (cipher_tables [1; 2; 3] initCipher 16) as ((_ & H & _ & S & _) & (_ & T) & _);
    [cbn; lia | | exact initCipher_ok | lia |].
  - apply Forall_forall. cbn [In]. intros x [<- | [<- | [<- | []]]]; unfold byte_ok; lia.
  - split; [exact H |]. split; [apply S; cbn; lia |].
    apply (T mdsPolynomial (or_introl eq_refl)); [unfold byte_ok; lia |].
    left. split; [reflexivity | right; left; reflexivity].
Defined.
