(* ===== verification/BnPrime.v ===== *)
(** * The field of the pairing

    The prime and the order of [src/golang-x-crypto/bn256/constants.go] with their certificates
    of primality, by Pocklington's criterion as in [Primality], with the powers computed on
    the machine integers of Bignums, the field [Fp] of that order with its field
    structure, and the fact that -1 is not a square in it. *)

From Bignums Require Import BigZ.BigZ.
From Stdlib Require Export Zmod.
From Stdlib Require Import Field.
From S2P Require Import Prelude Primality.

(** ** The constants *)

Definition u : Z := 6518589491078791937.

Definition p : Z := 65000549695646603732796438742359905742825358107623003571877145026864184071783.

Definition Order : Z :=
  65000549695646603732796438742359905742570406053903786389881062969044166799969.

(** ** Primality *)

(** Modular powers on the machine integers of Bignums. *)
Fixpoint big_powmod (n a : bigZ) (e : positive) : bigZ :=
  match e with
  | xH => BigZ.modulo a n
  | xO e => let r := big_powmod n a e in BigZ.modulo (BigZ.mul r r) n
  | xI e =>
      let r := big_powmod n a e in
      BigZ.modulo (BigZ.mul (BigZ.modulo (BigZ.mul r r) n) a) n
  end.

Lemma big_powmod_spec n a e :
  BigZ.to_Z (big_powmod n a e) = powmod (fun x => x mod BigZ.to_Z n) (BigZ.to_Z a) e.
Proof.
  induction e as [e IH | e IH |]; cbn [big_powmod powmod]; cbv zeta;
    rewrite ?BigZ.spec_modulo, ?BigZ.spec_mul, ?BigZ.spec_modulo, ?BigZ.spec_mul, ?IH; reflexivity.
Qed.

Definition big_check (n a v : bigZ) (e1 q : positive) : bool :=
  let x := big_powmod n a e1 in
  BigZ.eqb (BigZ.modulo (big_powmod n x q) n) BigZ.one &&
  BigZ.eqb (BigZ.modulo (BigZ.mul (BigZ.sub x BigZ.one) v) n) BigZ.one.

Lemma big_check_factor n a e1 q v :
  1 < n -> Z.prime q -> n - 1 = Zpos e1 * q ->
  big_check (BigZ.of_Z n) (BigZ.of_Z a) (BigZ.of_Z v) e1 (Z.to_pos q) = true ->
  pocklington_factor n q a v.
Proof.
  intros Hn Hq He H.
  apply (pocklington_check n (fun x => x mod n) a e1 q v Hn); [| exact Hq | exact He |].
  { intros x. apply Z.mod_mod. lia. }
  revert H. unfold big_check. cbv zeta.
  rewrite !BigZ.spec_eqb, !BigZ.spec_modulo, BigZ.spec_mul, BigZ.spec_sub, !big_powmod_spec,
    !BigZ.spec_of_Z. easy.
Qed.

(** One step of a certificate. *)
Ltac certify_factor e := apply (big_check_factor _ _ e); [reflexivity | | reflexivity | vm_compute; reflexivity].

Ltac small_prime := apply trial_division; [reflexivity | vm_compute; reflexivity].

Definition bn_q1 : Z := 1374947842730272154058024133.

Definition bn_q2 : Z := 81767558454161.

Definition bn_r1 : Z := 5332323573263718838033.

Definition bn_r2 : Z := 1145258499412310747.

Definition bn_r3 : Z := 572629249706155373.

Definition bn_r4 : Z := 13954314497177.

Lemma prime_bn_q2 : Z.prime bn_q2.
Proof.
  apply (pocklington2 _ 6743249 2 29235026026481 151573 2 4751098361481);
    [reflexivity | | | discriminate | reflexivity].
  - certify_factor 12125840%positive. small_prime.
  - certify_factor 539459920%positive. small_prime.
Qed.

Lemma prime_bn_q1 : Z.prime bn_q1.
Proof.
  apply (pocklington1 _ bn_q2 2 253698490805965105765649397); [reflexivity | | reflexivity].
  certify_factor 16815322222212%positive. exact prime_bn_q2.
Qed.

Lemma prime_bn_r4 : Z.prime bn_r4.
Proof.
  apply (pocklington1 _ 5745221 2 11548451157466); [reflexivity | | reflexivity].
  certify_factor 2428856%positive. small_prime.
Qed.

Lemma prime_bn_r3 : Z.prime bn_r3.
Proof.
  apply (pocklington1 _ bn_r4 2 238052757405690270); [reflexivity | | reflexivity].
  certify_factor 41036%positive. exact prime_bn_r4.
Qed.

Lemma prime_bn_r2 : Z.prime bn_r2.
Proof.
  apply (pocklington1 _ bn_r3 2 381752833137436916); [reflexivity | | reflexivity].
  certify_factor 2%positive. exact prime_bn_r3.
Qed.

Lemma prime_bn_r1 : Z.prime bn_r1.
Proof.
  apply (pocklington1 _ bn_r2 2 5196600700030526621946); [reflexivity | | reflexivity].
  certify_factor 4656%positive. exact prime_bn_r2.
Qed.

Lemma prime_bn : Z.prime p.
Proof.
  apply (pocklington2 _ bn_q1 2
           6559957366174531744100330721671194829968189362324421194774465227242417645574
           bn_r1 2
           55657952472330449391662159660211122130563418478594468867952090661548344883829);
    [reflexivity | | | discriminate | reflexivity].
  - certify_factor 47274920310121149922865824843116394470779299774254%positive. exact prime_bn_q1.
  - certify_factor 12189910983939438922789884151090653307563833468758146054%positive. exact prime_bn_r1.
Qed.

(** The order of the groups. *)
Definition order_q1 : Z := 491513138693455212421542731357.

Definition order_q2 : Z := 130979359433191.

Lemma prime_order_q2 : Z.prime order_q2.
Proof.
  apply (pocklington1 _ 4365978647773 2 99638539434048); [reflexivity | | reflexivity].
  certify_factor 30%positive.
  apply (pocklington1 _ 8074559 2 1058527483686); [reflexivity | | reflexivity].
  certify_factor 540708%positive. small_prime.
Qed.

Lemma prime_order_q1 : Z.prime order_q1.
Proof.
  apply (pocklington1 _ 31084817777223324843254663 2 389514859725950890121425977557);
    [reflexivity | | reflexivity].
  certify_factor 15812%positive.
  apply (pocklington1 _ 263430659129011227485209 2 14235330443261689662655119);
    [reflexivity | | reflexivity].
  certify_factor 118%positive.
  apply (pocklington1 _ 3658759154569600381739 2 145016499204970722833340);
    [reflexivity | | reflexivity].
  certify_factor 72%positive.
  apply (pocklington1 _ 71260195429 2 1507971918826629266678); [reflexivity | | reflexivity].
  certify_factor 51343658722%positive.
  apply (pocklington2 _ 6473 2 7460471410 977 2 58889809240);
    [reflexivity | | | discriminate | reflexivity].
  - certify_factor 11008836%positive. small_prime.
  - certify_factor 72937764%positive. small_prime.
Qed.

Lemma prime_Order : Z.prime Order.
Proof.
  apply (pocklington2 _ order_q1 2
           13003907005297399168181555841486995346031082448338449200287712112222990181305
           order_q2 2
           15432370996773579570431694899511939341229771875228953336065915069282557173592);
    [reflexivity | | | discriminate | reflexivity].
  - certify_factor 132245802967610730161264689798462768036411168224%positive. exact prime_order_q1.
  - certify_factor 496265594647388788350227321910596477547253894781477167372594848%positive.
    exact prime_order_q2.
Qed.

(** The polynomials that define the parameters.  The comments of the source write u cubed
    where the square is meant. *)
Lemma bn_parameters :
  u = 1868033 ^ 3 /\ p = 36 * u ^ 4 + 36 * u ^ 3 + 24 * u ^ 2 + 6 * u + 1 /\
  Order = 36 * u ^ 4 + 36 * u ^ 3 + 18 * u ^ 2 + 6 * u + 1.
Proof. repeat split. Qed.

(** ** The field *)

Abbreviation Fp := (Zmod p).

Declare Scope Fp_scope.
Delimit Scope Fp_scope with Fp.

Notation "0" := (@Zmod.zero p) : Fp_scope.
Notation "1" := (@Zmod.one p) : Fp_scope.
Notation "x + y" := (@Zmod.add p x y) : Fp_scope.
Notation "x - y" := (@Zmod.sub p x y) : Fp_scope.
Notation "x * y" := (@Zmod.mul p x y) : Fp_scope.
Notation "x / y" := (@Zmod.mdiv p x y) : Fp_scope.
Notation "- x" := (@Zmod.opp p x) : Fp_scope.
Notation "/ x" := (@Zmod.inv p x) : Fp_scope.

Definition fp (z : Z) : Fp := Zmod.of_Z p z.

Lemma Fp_field_theory :
  field_theory (R := Zmod p) Zmod.zero Zmod.one Zmod.add Zmod.mul Zmod.sub Zmod.opp Zmod.mdiv
    Zmod.inv eq.
Proof. exact (Zmod.field_theory _ prime_bn). Qed.

Add Field Fp_field : Fp_field_theory.

Lemma Fp_eq_dec (x y : Fp) : {x = y} + {x <> y}.
Proof.
  destruct (Z.eq_dec (Zmod.unsigned x) (Zmod.unsigned y)) as [E | E].
  - left. now apply Zmod.unsigned_inj.
  - right. congruence.
Defined.

Lemma Fp_mul_0 (x y : Fp) : (x * y = 0 -> x = 0 \/ y = 0)%Fp.
Proof. apply Zmod.mul_0_iff_prime, prime_bn. Qed.

Lemma Fp_one_neq_zero : (1 <> 0)%Fp.
Proof. apply Zmod.one_neq_zero. discriminate. Qed.

Lemma fp_add x y : fp (x + y) = (fp x + fp y)%Fp.
Proof. apply Zmod.of_Z_add. Qed.

Lemma fp_sub x y : fp (x - y) = (fp x - fp y)%Fp.
Proof. apply Zmod.of_Z_sub. Qed.

Lemma fp_mul x y : fp (x * y) = (fp x * fp y)%Fp.
Proof. apply Zmod.of_Z_mul. Qed.

Lemma fp_opp x : fp (- x) = (- fp x)%Fp.
Proof. apply Zmod.of_Z_opp. Qed.

Lemma fp_mod x : fp (x mod p) = fp x.
Proof. apply Zmod.of_Z_mod. Qed.

Lemma fp_double x : fp (Z.shiftl x 1) = (fp x + fp x)%Fp.
Proof. rewrite Z.shiftl_mul_pow2, <- fp_add by lia. f_equal. lia. Qed.

Lemma fp_0 : fp 0 = 0%Fp.
Proof. reflexivity. Qed.

Lemma fp_1 : fp 1 = 1%Fp.
Proof. reflexivity. Qed.

Lemma fp_zero_iff x : fp x = 0%Fp <-> x mod p = 0.
Proof. rewrite <- fp_0. unfold fp. rewrite Zmod.of_Z_inj. now rewrite Z.mod_0_l. Qed.

Create Rewrite HintDb fp.
#[export] Hint Rewrite fp_add fp_sub fp_mul fp_opp fp_mod fp_double fp_0 fp_1 : fp.

(** [big.Int.ModInverse(x, p)]: nil, and the receiver unchanged, when there is no inverse. *)
Definition ModInverse (x : Z) : option Z :=
  if Z.gcd x p =? 1 then Some (Z.invmod x p) else None.

Lemma gcd_p x : (Z.gcd x p =? 1) = negb (x mod p =? 0).
Proof.
  apply eq_true_iff_eq. rewrite negb_true_iff, Z.eqb_eq, Z.eqb_neq, Z.mod_divide by discriminate.
  split; intros H.
  - intros D. apply Z.divide_gcd_iff in D; [| discriminate].
    rewrite Z.gcd_comm, D in H. discriminate H.
  - rewrite Z.gcd_comm. apply Z.coprime_prime_l; [exact prime_bn | exact H].
Qed.

Lemma fp_invmod x : fp (Z.invmod x p) = (/ fp x)%Fp.
Proof.
  apply Zmod.unsigned_inj. unfold fp.
  rewrite Zmod.unsigned_inv, !Zmod.unsigned_of_Z, Z.invmod_mod_l. apply Z.mod_invmod.
Qed.

Local Open Scope Fp_scope.

Lemma Fp_inverse_r (x : Fp) : x <> 0 -> x * / x = 1.
Proof. intros Hx. field. exact Hx. Qed.

Lemma Fp_inv_0 : / 0 = (0 : Fp).
Proof. reflexivity. Qed.

(** Half of p-1 is odd, so that no square is -1. *)
Lemma Fp_opp_1_nonsquare (x : Fp) : x * x <> fp (-1).
Proof.
  intros E. assert (x <> 0) as Hx.
  { intros ->. assert (fp (-1) = 0) as C by (rewrite <- E; ring).
    apply (f_equal Zmod.unsigned) in C. vm_compute in C. discriminate C. }
  assert (Zmod.pow x (p - 1) = 1) as F
    by (rewrite Z.sub_1_r; apply Zmod.fermat_nz; [exact Hx | exact prime_bn]).
  assert (forall k, (0 <= k)%Z -> Zmod.pow x (2 * (2 * k + 1)) = fp (-1)) as P.
  { intros k Hk. rewrite Zmod.pow_mul_r_nonneg, Zmod.pow_2_r, E by lia.
    rewrite Zmod.pow_add_r_nonneg, Zmod.pow_mul_r_nonneg, Zmod.pow_2_r, Zmod.pow_1_r by lia.
    change (fp (-1) * fp (-1)) with (1 : Fp). rewrite Zmod.pow_1_l. ring. }
  change (p - 1)%Z with (2 * (2 * ((p - 3) / 4) + 1))%Z in F.
  rewrite P in F by (vm_compute; discriminate).
  apply (f_equal Zmod.unsigned) in F. vm_compute in F. discriminate F.
Qed.
