(* ===== verification/Tower.v ===== *)
(** * Towers of ring extensions

    The specification of the extension fields of the pairing: over any commutative ring, the
    quadratic extension by a root of [i^2 = n] and the cubic one by a root of [t^3 = n], with
    their ring structure, norms and the elements whose product with an element is its norm. *)

From Stdlib Require Export Ring Field.
From S2P Require Import Prelude.

(** A commutative ring. *)
Class CRing (R : Type) := {
  c0 : R;
  c1 : R;
  cadd : R -> R -> R;
  cmul : R -> R -> R;
  csub : R -> R -> R;
  copp : R -> R;
  cring : ring_theory c0 c1 cadd cmul csub copp eq }.

Declare Scope tower_scope.
Delimit Scope tower_scope with tower.

Notation "0" := c0 : tower_scope.
Notation "1" := c1 : tower_scope.
Notation "x + y" := (cadd x y) : tower_scope.
Notation "x - y" := (csub x y) : tower_scope.
Notation "x * y" := (cmul x y) : tower_scope.
Notation "- x" := (copp x) : tower_scope.

Local Open Scope tower_scope.

(** An element with an inverse, and powers. *)
Definition unit {R : Type} {CR : CRing R} (a : R) : Prop := exists b, a * b = 1.

Fixpoint pow_pos {R : Type} {CR : CRing R} (a : R) (e : positive) : R :=
  match e with
  | xH => a
  | xO e => let r := pow_pos a e in r * r
  | xI e => let r := pow_pos a e in r * r * a
  end.

Definition pow {R : Type} {CR : CRing R} (a : R) (e : Z) : R :=
  match e with
  | Zpos e => pow_pos a e
  | _ => 1
  end.

Fixpoint npow {R : Type} {CR : CRing R} (a : R) (n : nat) : R :=
  match n with
  | O => 1
  | S n => a * npow a n
  end.

(** The sum of [n] copies of an element. *)
Fixpoint times {R : Type} {CR : CRing R} (n : nat) (a : R) : R :=
  match n with
  | O => 0
  | S n => a + times n a
  end.

Section ring_facts.
Context {R : Type} {CR : CRing R}.

Add Ring R_ring : (cring (R := R)).

Lemma cmul_1_r (a : R) : a * 1 = a.
Proof. ring. Qed.

Lemma cmul_assoc (a b c : R) : a * (b * c) = a * b * c.
Proof. ring. Qed.

Lemma unit_mul_inv (a b c : R) : a * b = 1 -> a * c = 1 -> b = c.
Proof.
  intros Hb Hc. transitivity (b * (a * c)); [rewrite Hc; ring |].
  transitivity (a * b * c); [ring | rewrite Hb; ring].
Qed.

Lemma unit_cancel (a b c : R) : unit a -> a * b = a * c -> b = c.
Proof.
  intros [w Hw] E. transitivity (w * (a * b)); [| rewrite E]; rewrite !cmul_assoc;
    replace (w * a) with (a * w) by ring; rewrite Hw; ring.
Qed.

Lemma unit_mul (a b : R) : unit a -> unit b -> unit (a * b).
Proof.
  intros [v Hv] [w Hw]. exists (v * w).
  transitivity ((a * v) * (b * w)); [ring | rewrite Hv, Hw; ring].
Qed.

(** *** Powers *)

Lemma npow_add (a : R) m n : npow a (m + n) = npow a m * npow a n.
Proof. induction m as [| m IH]; cbn; [| rewrite IH]; ring. Qed.

Lemma npow_mul (a : R) m n : npow a (m * n) = npow (npow a m) n.
Proof.
  induction n as [| n IH]; [now rewrite Nat.mul_0_r |].
  rewrite Nat.mul_succ_r, Nat.add_comm, npow_add, IH. reflexivity.
Qed.

Lemma npow_mul_l (a b : R) n : npow (a * b) n = npow a n * npow b n.
Proof. induction n as [| n IH]; cbn; [| rewrite IH]; ring. Qed.

Lemma npow_1 n : npow (1 : R) n = 1.
Proof. induction n as [| n IH]; cbn; [| rewrite IH]; ring. Qed.

Lemma npow_0 n : (0 < n)%nat -> npow (0 : R) n = 0.
Proof. destruct n; [lia |]. cbn. intros _. ring. Qed.

Lemma pow_pos_npow (a : R) e : pow_pos a e = npow a (Pos.to_nat e).
Proof.
  induction e as [e IH | e IH |]; cbn [pow_pos].
  - rewrite IH, Pos2Nat.inj_xI. cbn [npow]. replace (2 * Pos.to_nat e)%nat with
      (Pos.to_nat e + Pos.to_nat e)%nat by lia. rewrite npow_add. ring.
  - rewrite IH, Pos2Nat.inj_xO. replace (2 * Pos.to_nat e)%nat with
      (Pos.to_nat e + Pos.to_nat e)%nat by lia. now rewrite npow_add.
  - change (Pos.to_nat 1) with 1%nat. cbn [npow]. ring.
Qed.

Lemma pow_npow (a : R) e : pow a e = npow a (Z.to_nat e).
Proof. destruct e as [| e | e]; [reflexivity | apply pow_pos_npow | reflexivity]. Qed.

Lemma pow_0_r (a : R) : pow a 0 = 1.
Proof. reflexivity. Qed.

Lemma pow_1_r (a : R) : pow a 1 = a.
Proof. reflexivity. Qed.

Lemma pow_add (a : R) m n : (0 <= m)%Z -> (0 <= n)%Z -> pow a (m + n) = pow a m * pow a n.
Proof. intros Hm Hn. rewrite !pow_npow, Z2Nat.inj_add by lia. apply npow_add. Qed.

Lemma pow_mul (a : R) m n : (0 <= m)%Z -> (0 <= n)%Z -> pow a (m * n) = pow (pow a m) n.
Proof. intros Hm Hn. rewrite !pow_npow, Z2Nat.inj_mul by lia. apply npow_mul. Qed.

Lemma pow_mul_l (a b : R) n : pow (a * b) n = pow a n * pow b n.
Proof. rewrite !pow_npow. apply npow_mul_l. Qed.

Lemma pow_1 n : pow (1 : R) n = 1.
Proof. rewrite pow_npow. apply npow_1. Qed.

Lemma unit_pow (a : R) n : unit a -> unit (pow a n).
Proof.
  intros [b Hb]. exists (pow b n). now rewrite <- pow_mul_l, Hb, pow_1.
Qed.

(** *** The p-th power is additive in characteristic p *)

Fixpoint binomial (n k : nat) : nat :=
  match n, k with
  | _, O => 1
  | O, S _ => 0
  | S n, S k => binomial n k + binomial n (S k)
  end.

Lemma binomial_gt n : forall k, (n < k)%nat -> binomial n k = 0%nat.
Proof.
  induction n as [| n IH]; intros [| k] H; try lia; cbn; [reflexivity |].
  now rewrite !IH by lia.
Qed.

Lemma binomial_nn n : binomial n n = 1%nat.
Proof. induction n as [| n IH]; [reflexivity |]. cbn. now rewrite IH, binomial_gt by lia. Qed.

Lemma binomial_0 n : binomial n 0 = 1%nat.
Proof. now destruct n. Qed.

Lemma binomial_absorb n : forall k, (S k * binomial (S n) (S k) = S n * binomial n k)%nat.
Proof.
  induction n as [| n IH]; intros k; [destruct k as [| k]; cbn; lia |].
  change (binomial (S (S n)) (S k)) with (binomial (S n) k + binomial (S n) (S k))%nat.
  rewrite Nat.mul_add_distr_l, IH. destruct k as [| k]; [rewrite !binomial_0; lia |].
  pose proof (IH k) as E. change (binomial (S n) (S k)) with
    (binomial n k + binomial n (S k))%nat in E |- *. nia.
Qed.

Lemma prime_divides_binomial q k :
  Z.prime (Z.of_nat q) -> (0 < k < q)%nat -> exists c, binomial q k = (q * c)%nat.
Proof.
  intros Hq Hk. destruct q as [| q], k as [| k]; try lia.
  pose proof (binomial_absorb q k) as E. apply (f_equal Z.of_nat) in E.
  rewrite !Nat2Z.inj_mul in E.
  assert (Z.of_nat (S q) | Z.of_nat (binomial (S q) (S k)))%Z as [c Hc].
  { apply Z.gauss with (Z.of_nat (S k)).
    - exists (Z.of_nat (binomial q k)). lia.
    - apply Z.coprime_prime_l; [exact Hq |]. intros D. apply Z.divide_pos_le in D; lia. }
  exists (Z.to_nat c). nia.
Qed.

Lemma times_add m n (a : R) : times (m + n) a = times m a + times n a.
Proof. induction m as [| m IH]; cbn; [| rewrite IH]; ring. Qed.

Lemma times_mul_r n (a b : R) : times n (a * b) = times n a * b.
Proof. induction n as [| n IH]; cbn; [| rewrite IH]; ring. Qed.

Lemma times_one n (a : R) : times n a = times n 1 * a.
Proof. rewrite <- times_mul_r. f_equal. ring. Qed.

Lemma times_times m n (a : R) : times (m * n) a = times n (times m a).
Proof.
  induction n as [| n IH]; [now rewrite Nat.mul_0_r |].
  rewrite Nat.mul_succ_r, Nat.add_comm, times_add, IH. reflexivity.
Qed.

Lemma times_plus n (a b : R) : times n (a + b) = times n a + times n b.
Proof. induction n as [| n IH]; cbn; [| rewrite IH]; ring. Qed.

(** The terms of the expansion of a power of a sum below the [k]-th. *)
Fixpoint expansion (a b : R) (n k : nat) : R :=
  match k with
  | O => 0
  | S k => expansion a b n k + times (binomial n k) (npow a k * npow b (n - k))
  end.

Lemma expansion_succ (a b : R) n k :
  (k <= n)%nat ->
  expansion a b (S n) (S k) =
    b * expansion a b n (S k) + a * expansion a b n k.
Proof.
  induction k as [| k IH]; intros H.
  - cbn [expansion]. rewrite !binomial_0, !Nat.sub_0_r. cbn. ring.
  - cbn [expansion] in IH |- *. rewrite IH by lia.
    change (binomial (S n) (S k)) with (binomial n k + binomial n (S k))%nat.
    rewrite times_add. replace (S n - S k)%nat with (n - k)%nat by lia.
    replace (n - k)%nat with (S (n - S k)) by lia. cbn [npow].
    rewrite !(times_one _ (_ * _)). ring.
Qed.

Lemma npow_plus (a b : R) n : npow (a + b) n = expansion a b n (S n).
Proof.
  induction n as [| n IH]; [cbn; ring |].
  change (npow (a + b) (S n)) with ((a + b) * npow (a + b) n). rewrite IH.
  change (expansion a b (S n) (S (S n))) with
    (expansion a b (S n) (S n) + times (binomial (S n) (S n)) (npow a (S n) * npow b (S n - S n))).
  rewrite expansion_succ by lia. cbn [expansion]. rewrite !binomial_nn, !Nat.sub_diag.
  cbn [times npow]. ring.
Qed.

Section characteristic.
Context (q : nat) (Hq : Z.prime (Z.of_nat q)) (char_q : times q (1 : R) = 0).

Lemma expansion_prime (a b : R) k : (0 < k <= q)%nat -> expansion a b q k = npow b q.
Proof.
  induction k as [| [| k] IH]; intros H; [lia | |].
  - cbn [expansion]. rewrite binomial_0, Nat.sub_0_r. cbn. ring.
  - change (expansion a b q (S (S k))) with
      (expansion a b q (S k) + times (binomial q (S k)) (npow a (S k) * npow b (q - S k))).
    rewrite IH by lia. destruct (prime_divides_binomial q (S k) Hq) as [c ->]; [lia |].
    rewrite times_one, times_times, char_q. rewrite (times_one c 0). ring.
Qed.

Lemma npow_plus_prime (a b : R) : npow (a + b) q = npow a q + npow b q.
Proof.
  rewrite npow_plus. pose proof (Z.prime_ge_2 _ Hq).
  change (expansion a b q (S q)) with
    (expansion a b q q + times (binomial q q) (npow a q * npow b (q - q))).
  rewrite expansion_prime by lia. rewrite binomial_nn, Nat.sub_diag. cbn. ring.
Qed.
End characteristic.
End ring_facts.

(** ** Fields *)

(** A field, with 0 for the inverse of 0. *)
Class CField (R : Type) {CR : CRing R} := {
  cinv : R -> R;
  cinv_r : forall a, a <> 0 -> a * cinv a = 1;
  cinv_0 : cinv 0 = 0;
  c1_neq_0 : 1 <> 0;
  c_eq_dec : forall a b : R, {a = b} + {a <> b} }.

Definition cdiv {R : Type} {CR : CRing R} {CF : CField R} (a b : R) : R := a * cinv b.

Notation "/ x" := (cinv x) : tower_scope.
Notation "x / y" := (cdiv x y) : tower_scope.

Section field_facts.
Context {R : Type} {CR : CRing R} {CF : CField R}.

Lemma cfield : field_theory (R := R) 0 1 cadd cmul csub copp cdiv cinv eq.
Proof.
  split; [exact cring | exact c1_neq_0 | reflexivity |].
  intros a Ha. rewrite (Rmul_comm cring). now apply cinv_r.
Qed.

Add Field R_field : cfield.

Lemma cmul_0 (a b : R) : a * b = 0 -> a = 0 \/ b = 0.
Proof.
  intros E. destruct (c_eq_dec a 0) as [Ha | Ha]; [now left | right].
  transitivity (a * b / a); [| rewrite E]; now field.
Qed.

Lemma cmul_nz (a b : R) : a <> 0 -> b <> 0 -> a * b <> 0.
Proof. intros Ha Hb E. now destruct (cmul_0 _ _ E). Qed.

Lemma unit_nz (a : R) : unit a <-> a <> 0.
Proof.
  split.
  - intros [b Hb] ->. apply c1_neq_0. rewrite <- Hb. ring.
  - intros Ha. exists (/ a). now apply cinv_r.
Qed.

Lemma cinv_unique (a b : R) : a * b = 1 -> / a = b.
Proof.
  intros E. apply (unit_mul_inv a); [| exact E]. apply cinv_r, unit_nz. now exists b.
Qed.

Lemma pow_nz (a : R) n : a <> 0 -> pow a n <> 0.
Proof. rewrite <- !unit_nz. apply unit_pow. Qed.

Lemma csub_0 (a b : R) : a - b = 0 -> a = b.
Proof. intros E. transitivity (a - b + b); [ring | rewrite E; ring]. Qed.

Lemma cinv_mul (a b : R) : / (a * b) = / a * / b.
Proof.
  destruct (c_eq_dec a 0) as [-> | Ha].
  { replace (0 * b) with (0 : R) by ring. rewrite cinv_0. ring. }
  destruct (c_eq_dec b 0) as [-> | Hb].
  { replace (a * 0) with (0 : R) by ring. rewrite cinv_0. ring. }
  now field.
Qed.

Lemma cdiv_1_r (a : R) : a / 1 = a.
Proof. field. exact c1_neq_0. Qed.
End field_facts.

(** ** Quadratic extensions *)

Record quad (R : Type) := Quad { qx : R; qy : R }.

Arguments Quad {R} _ _.
Arguments qx {R} _.
Arguments qy {R} _.

Section quadratic.
Context {R : Type} {CR : CRing R} (n : R).

Add Ring R_ring2 : (cring (R := R)).

Definition qmul (a b : quad R) : quad R :=
  Quad (qx a * qy b + qx b * qy a) (qy a * qy b + n * (qx a * qx b)).

Definition quad_ring : CRing (quad R).
Proof.
  refine {| c0 := Quad 0 0; c1 := Quad 0 1;
            cadd := fun a b => Quad (qx a + qx b) (qy a + qy b); cmul := qmul;
            csub := fun a b => Quad (qx a - qx b) (qy a - qy b);
            copp := fun a => Quad (- qx a) (- qy a) |}.
  split; intros; repeat match goal with a : quad R |- _ => destruct a end;
    unfold qmul; cbn [qx qy]; f_equal; ring.
Defined.

Definition qconj (a : quad R) : quad R := Quad (- qx a) (qy a).

Definition qnorm (a : quad R) : R := qy a * qy a - n * (qx a * qx a).

Definition qscale (a : quad R) (c : R) : quad R := Quad (qx a * c) (qy a * c).

Lemma qconj_mul a b : qconj (qmul a b) = qmul (qconj a) (qconj b).
Proof. destruct a, b. unfold qconj, qmul. cbn [qx qy]. f_equal; ring. Qed.

Lemma qnorm_mul a b : qnorm (qmul a b) = qnorm a * qnorm b.
Proof. destruct a, b. unfold qnorm, qmul. cbn [qx qy]. ring. Qed.

Lemma qnorm_one : qnorm (Quad 0 1) = 1.
Proof. unfold qnorm. cbn [qx qy]. ring. Qed.

(** The conjugate over the norm is the inverse. *)
Lemma quad_mul_inv a w : qnorm a * w = 1 -> qmul a (qscale (qconj a) w) = Quad 0 1.
Proof.
  intros H. unfold qmul, qscale, qconj. cbn [qx qy]. f_equal; [ring |].
  rewrite <- H. unfold qnorm. ring.
Qed.

Lemma qnorm_unit a b : qmul a b = Quad 0 1 -> unit (qnorm a).
Proof. intros H. exists (qnorm b). now rewrite <- qnorm_mul, H, qnorm_one. Qed.

(** The base ring inside, and the [q]-th power. *)
Lemma quad_base_mul x y : qmul (Quad 0 x) (Quad 0 y) = Quad 0 (x * y).
Proof. unfold qmul. cbn [qx qy]. f_equal; ring. Qed.

Lemma quad_base_npow x m : @npow _ quad_ring (Quad 0 x) m = Quad 0 (npow x m).
Proof.
  induction m as [| m IH]; [reflexivity |]. cbn [npow]. rewrite IH. apply quad_base_mul.
Qed.

Lemma quad_base_times m : @times _ quad_ring m (Quad 0 1) = Quad 0 (times m 1).
Proof.
  induction m as [| m IH]; [reflexivity |]. cbn [times]. rewrite IH. cbn. f_equal. ring.
Qed.

Lemma quad_char q : times q (1 : R) = 0 -> @times _ quad_ring q (Quad 0 1) = Quad 0 0.
Proof. intros H. now rewrite quad_base_times, H. Qed.

Lemma quad_frobenius q m x y :
  Z.prime (Z.of_nat q) -> times q (1 : R) = 0 -> q = (2 * m + 1)%nat ->
  @npow _ quad_ring (Quad x y) q = Quad (npow x q * npow n m) (npow y q).
Proof.
  intros Hq Hc Hm.
  assert (@npow _ quad_ring (Quad 1 0) q = Quad (npow n m) 0) as Ei.
  { rewrite Hm, (@npow_add _ quad_ring), (@npow_mul _ quad_ring).
    replace (@npow _ quad_ring (Quad 1 0) 2) with (Quad 0 n)
      by (cbn; unfold qmul; cbn [qx qy]; f_equal; ring).
    rewrite quad_base_npow. cbn. unfold qmul. cbn [qx qy]. f_equal; ring. }
  transitivity (@npow _ quad_ring (@cadd _ quad_ring (qmul (Quad 0 x) (Quad 1 0)) (Quad 0 y)) q).
  { f_equal. cbn. unfold qmul. cbn [qx qy]. f_equal; ring. }
  rewrite (@npow_plus_prime _ quad_ring q Hq (quad_char q Hc)).
  change (@npow _ quad_ring (qmul ?a ?b) q) with (@npow _ quad_ring (@cmul _ quad_ring a b) q).
  rewrite (@npow_mul_l _ quad_ring), Ei, !quad_base_npow. cbn. unfold qmul. cbn [qx qy].
  f_equal; ring.
Qed.

Section field.
Context {CF : CField R} (nonsquare : forall w, w * w <> n).

Add Field R_field2 : (cfield (R := R)).

Lemma qnorm_nz a : a <> Quad 0 0 -> qnorm a <> 0.
Proof.
  intros Ha E. destruct a as [x y]. unfold qnorm in E. cbn [qx qy] in E.
  destruct (c_eq_dec x 0) as [-> | Hx].
  - apply Ha. f_equal. destruct (cmul_0 y y) as [-> | ->]; [| reflexivity ..].
    rewrite <- E. ring.
  - apply (nonsquare (y / x)). apply csub_0 in E.
    transitivity (y * y / (x * x)); [field; assumption | rewrite E; field; assumption].
Qed.

Definition quad_inv (a : quad R) : quad R := qscale (qconj a) (/ qnorm a).

Definition quad_field : @CField (quad R) quad_ring.
Proof.
  refine (@Build_CField (quad R) quad_ring quad_inv _ _ _ _).
  - intros a Ha. apply quad_mul_inv, cinv_r, qnorm_nz, Ha.
  - unfold quad_inv, qscale, qconj. cbn. f_equal; ring.
  - cbn. intros E. injection E. apply c1_neq_0.
  - intros [x y] [z w]. destruct (c_eq_dec x z) as [-> | H]; [| right; congruence].
    destruct (c_eq_dec y w) as [-> | H]; [left; reflexivity | right; congruence].
Defined.
End field.
End quadratic.

(** ** Cubic extensions *)

Record cubic (R : Type) := Cubic { kx : R; ky : R; kz : R }.

Arguments Cubic {R} _ _ _.
Arguments kx {R} _.
Arguments ky {R} _.
Arguments kz {R} _.

Section cubic_extension.
Context {R : Type} {CR : CRing R} (n : R).

Add Ring R_ring3 : (cring (R := R)).

Definition kmul (a b : cubic R) : cubic R :=
  Cubic (kx a * kz b + ky a * ky b + kz a * kx b)
        (ky a * kz b + kz a * ky b + n * (kx a * kx b))
        (kz a * kz b + n * (kx a * ky b + ky a * kx b)).

Definition cubic_ring : CRing (cubic R).
Proof.
  refine {| c0 := Cubic 0 0 0; c1 := Cubic 0 0 1;
            cadd := fun a b => Cubic (kx a + kx b) (ky a + ky b) (kz a + kz b); cmul := kmul;
            csub := fun a b => Cubic (kx a - kx b) (ky a - ky b) (kz a - kz b);
            copp := fun a => Cubic (- kx a) (- ky a) (- kz a) |}.
  split; intros; repeat match goal with a : cubic R |- _ => destruct a end;
    unfold kmul; cbn [kx ky kz]; f_equal; ring.
Defined.

Definition kscale (a : cubic R) (c : R) : cubic R := Cubic (kx a * c) (ky a * c) (kz a * c).

(** The root of the extension times an element. *)
Definition kroot : cubic R := Cubic 0 1 0.

Lemma kroot_cube : kmul kroot (kmul kroot kroot) = Cubic 0 0 n.
Proof. unfold kmul, kroot. cbn [kx ky kz]. f_equal; ring. Qed.

Lemma kroot_mul a : kmul kroot a = Cubic (ky a) (kz a) (n * kx a).
Proof. destruct a. unfold kmul, kroot. cbn [kx ky kz]. f_equal; ring. Qed.

Lemma kscale_mul a c : kscale a c = kmul a (Cubic 0 0 c).
Proof. destruct a. unfold kscale, kmul. cbn [kx ky kz]. f_equal; ring. Qed.

Definition kadj (a : cubic R) : cubic R :=
  Cubic (ky a * ky a - kx a * kz a) (n * (kx a * kx a) - ky a * kz a)
        (kz a * kz a - n * (kx a * ky a)).

Definition knorm (a : cubic R) : R :=
  n * n * (kx a * kx a * kx a) + n * (ky a * ky a * ky a) + kz a * kz a * kz a -
  n * (kx a * ky a * kz a) - n * (kx a * ky a * kz a) - n * (kx a * ky a * kz a).

Lemma kadj_mul a : kmul a (kadj a) = Cubic 0 0 (knorm a).
Proof. destruct a. unfold kmul, kadj, knorm. cbn [kx ky kz]. f_equal; ring. Qed.

Lemma knorm_mul a b : knorm (kmul a b) = knorm a * knorm b.
Proof. destruct a, b. unfold knorm, kmul. cbn [kx ky kz]. ring. Qed.

Lemma knorm_one : knorm (Cubic 0 0 1) = 1.
Proof. unfold knorm. cbn [kx ky kz]. ring. Qed.

Lemma cubic_inverse a w : knorm a * w = 1 -> kmul a (kscale (kadj a) w) = Cubic 0 0 1.
Proof.
  intros H. transitivity (kmul (kmul a (kadj a)) (Cubic 0 0 w)).
  - destruct a. unfold kmul, kscale, kadj. cbn [kx ky kz]. f_equal; ring.
  - rewrite kadj_mul. unfold kmul. cbn [kx ky kz]. f_equal; [ring | ring |].
    rewrite <- H. ring.
Qed.

Lemma knorm_unit a b : kmul a b = Cubic 0 0 1 -> unit (knorm a).
Proof. intros H. exists (knorm b). now rewrite <- knorm_mul, H, knorm_one. Qed.

Lemma cubic_base_mul x y : kmul (Cubic 0 0 x) (Cubic 0 0 y) = Cubic 0 0 (x * y).
Proof. unfold kmul. cbn [kx ky kz]. f_equal; ring. Qed.

Lemma cubic_base_npow x m : @npow _ cubic_ring (Cubic 0 0 x) m = Cubic 0 0 (npow x m).
Proof.
  induction m as [| m IH]; [reflexivity |]. cbn [npow]. rewrite IH. apply cubic_base_mul.
Qed.

Lemma cubic_base_times m : @times _ cubic_ring m (Cubic 0 0 1) = Cubic 0 0 (times m 1).
Proof.
  induction m as [| m IH]; [reflexivity |]. cbn [times]. rewrite IH. cbn. f_equal; ring.
Qed.

Lemma cubic_char q : times q (1 : R) = 0 -> @times _ cubic_ring q (Cubic 0 0 1) = Cubic 0 0 0.
Proof. intros H. now rewrite cubic_base_times, H. Qed.

Lemma kroot_npow m : @npow _ cubic_ring kroot (3 * m) = Cubic 0 0 (npow n m).
Proof.
  rewrite (@npow_mul _ cubic_ring).
  replace (@npow _ cubic_ring kroot 3) with (Cubic 0 0 n); [apply cubic_base_npow |].
  cbn. unfold kmul, kroot. cbn [kx ky kz]. f_equal; ring.
Qed.

Lemma cubic_frobenius q m x y z :
  Z.prime (Z.of_nat q) -> times q (1 : R) = 0 -> q = (3 * m + 1)%nat ->
  @npow _ cubic_ring (Cubic x y z) q =
    Cubic (npow x q * (npow n m * npow n m)) (npow y q * npow n m) (npow z q).
Proof.
  intros Hq Hc Hm.
  assert (@npow _ cubic_ring kroot q = Cubic 0 (npow n m) 0) as Et.
  { rewrite Hm, (@npow_add _ cubic_ring), kroot_npow. cbn. unfold kmul, kroot. cbn [kx ky kz].
    f_equal; ring. }
  transitivity (@npow _ cubic_ring (@cadd _ cubic_ring (@cadd _ cubic_ring
    (kmul (Cubic 0 0 x) (kmul kroot kroot)) (kmul (Cubic 0 0 y) kroot)) (Cubic 0 0 z)) q).
  { f_equal. cbn. unfold kmul, kroot. cbn [kx ky kz]. f_equal; ring. }
  rewrite !(@npow_plus_prime _ cubic_ring q Hq (cubic_char q Hc)).
  change kmul with (@cmul _ cubic_ring).
  rewrite !(@npow_mul_l _ cubic_ring), Et, !cubic_base_npow. cbn. unfold kmul. cbn [kx ky kz].
  f_equal; ring.
Qed.

Section field.
Context {CF : CField R} (noncube : forall w, w * w * w <> n).

Add Field R_field3 : (cfield (R := R)).

Lemma knorm_linear_nz y z : knorm (Cubic 0 y z) = 0 -> y = 0 /\ z = 0.
Proof.
  unfold knorm. cbn [kx ky kz]. intros E.
  destruct (c_eq_dec y 0) as [-> | Hy].
  - split; [reflexivity |]. destruct (cmul_0 (z * z) z) as [H | H]; [rewrite <- E; ring | | exact H].
    now destruct (cmul_0 z z H).
  - exfalso. apply (noncube (- z / y)).
    assert (z * z * z = - (n * (y * y * y))) as C
      by (apply csub_0; rewrite <- E; ring).
    transitivity (- (z * z * z) / (y * y * y)); [field; assumption | rewrite C; field; assumption].
Qed.

(** The norm of the product with a linear factor that cancels the square of the root. *)
Lemma knorm_nz a : a <> Cubic 0 0 0 -> knorm a <> 0.
Proof.
  intros Ha E. destruct a as [x y z].
  destruct (c_eq_dec x 0) as [-> | Hx].
  { destruct (knorm_linear_nz y z E) as [-> ->]. now apply Ha. }
  assert (kmul (Cubic x y z) (Cubic 0 x (- y)) =
          Cubic 0 (x * z - y * y) (n * (x * x) - y * z)) as P
    by (unfold kmul; cbn [kx ky kz]; f_equal; ring).
  apply (f_equal knorm) in P. rewrite knorm_mul, E in P.
  destruct (knorm_linear_nz (x * z - y * y) (n * (x * x) - y * z)) as [H1 H2];
    [rewrite <- P; ring |].
  apply csub_0 in H1, H2. apply (noncube (y / x)).
  transitivity (y * (y * y) / (x * x * x)); [field; assumption |].
  rewrite <- H1. transitivity (x * (y * z) / (x * x * x)); [field; assumption |].
  rewrite <- H2. field. assumption.
Qed.

Definition cubic_inv (a : cubic R) : cubic R := kscale (kadj a) (/ knorm a).

Definition cubic_field : @CField (cubic R) cubic_ring.
Proof.
  refine (@Build_CField (cubic R) cubic_ring cubic_inv _ _ _ _).
  - intros a Ha. apply cubic_inverse, cinv_r, knorm_nz, Ha.
  - unfold cubic_inv, kscale, kadj. cbn. f_equal; ring.
  - cbn. intros E. injection E. apply c1_neq_0.
  - intros [x y z] [x' y' z']. destruct (c_eq_dec x x') as [-> | H]; [| right; congruence].
    destruct (c_eq_dec y y') as [-> | H]; [| right; congruence].
    destruct (c_eq_dec z z') as [-> | H]; [left; reflexivity | right; congruence].
Defined.
End field.
End cubic_extension.
