(* ===== verification/Weierstrass.v ===== *)
(** * The group of a curve y^2 = x^3 + b

    The specification of the two curves of the pairing, over any field of characteristic other
    than 2 and 3: the chord and tangent law on affine points and the point at infinity is an
    abelian group, with its multiples, and the Jacobian coordinates of
    [src/golang-x-crypto/bn256/curve.go] and [twist.go] compute it. *)

From S2P Require Import Prelude Tower.

Local Open Scope tower_scope.

(** ** Points and the law *)

Inductive point (R : Type) :=
  | Infinity
  | Affine (x y : R).

Arguments Infinity {R}.
Arguments Affine {R} _ _.

Definition two {R : Type} {CR : CRing R} : R := 1 + 1.

Definition three {R : Type} {CR : CRing R} : R := 1 + 1 + 1.

(** The coefficient of a curve, and what makes it one. *)
Class Curve (R : Type) {CR : CRing R} := {
  curve_b : R;
  curve_b_nz : curve_b <> 0;
  two_nz : (two : R) <> 0;
  three_nz : (three : R) <> 0 }.

Create HintDb curve.

Section curve.
Context {R : Type} {CR : CRing R} {CF : CField R} {CC : Curve R}.

Add Field R_weierstrass : (cfield (R := R)).

Definition on_curve (P : point R) : Prop :=
  match P with
  | Infinity => True
  | Affine x y => y * y = x * x * x + curve_b
  end.

Definition pneg (P : point R) : point R :=
  match P with
  | Infinity => Infinity
  | Affine x y => Affine x (- y)
  end.

(** The reflection of the third point of the line of slope [l] through [(x1, y1)] whose
    second point has the abscissa [x2]. *)
Definition third (l x1 y1 x2 : R) : point R :=
  let x := l * l - x1 - x2 in Affine x (l * (x1 - x) - y1).

Definition chord (x1 y1 x2 y2 : R) : R := (y2 - y1) / (x2 - x1).

Definition tangent (x y : R) : R := three * (x * x) / (two * y).

Definition pdouble (P : point R) : point R :=
  match P with
  | Infinity => Infinity
  | Affine x y => if c_eq_dec y 0 then Infinity else third (tangent x y) x y x
  end.

Definition padd (P Q : point R) : point R :=
  match P, Q with
  | Infinity, _ => Q
  | _, Infinity => P
  | Affine x1 y1, Affine x2 y2 =>
      if c_eq_dec x1 x2 then if c_eq_dec y1 y2 then pdouble P else Infinity
      else third (chord x1 y1 x2 y2) x1 y1 x2
  end.

(** The sum of [k] copies. *)
Fixpoint multiple (k : nat) (P : point R) : point R :=
  match k with
  | O => Infinity
  | S k => padd P (multiple k P)
  end.

(** ** The group *)

Lemma csub_nz (x y : R) : x <> y -> x - y <> 0.
Proof. intros N E. now apply N, csub_0. Qed.

Lemma double_0 (y : R) : y = - y -> y = 0.
Proof.
  intros E. destruct (cmul_0 two y) as [H | H]; [| now destruct (two_nz H) | exact H].
  unfold two. transitivity (y + y); [ring |]. rewrite E at 2. ring.
Qed.

Lemma point_eq_dec (P Q : point R) : {P = Q} + {P <> Q}.
Proof.
  destruct P as [| x y], Q as [| x' y']; try (right; discriminate); [left; reflexivity |].
  destruct (c_eq_dec x x') as [-> | N]; [| right; congruence].
  destruct (c_eq_dec y y') as [-> | N]; [left; reflexivity | right; congruence].
Qed.

Lemma pneg_involutive P : pneg (pneg P) = P.
Proof. destruct P as [| x y]; cbn; f_equal. ring. Qed.

Lemma on_curve_neg P : on_curve P -> on_curve (pneg P).
Proof. destruct P as [| x y]; cbn; [trivial |]. intros <-. ring. Qed.

(** Two points with the same abscissa are equal or opposite. *)
Lemma same_abscissa x y y' :
  on_curve (Affine x y) -> on_curve (Affine x y') -> y = y' \/ y = - y'.
Proof.
  cbn. intros H H'. destruct (cmul_0 (y - y') (y + y')) as [E | E].
  - transitivity (y * y - y' * y'); [ring | rewrite H, H'; ring].
  - left. now apply csub_0.
  - right. apply csub_0. rewrite <- E. ring.
Qed.

(** The three cases of an addition of affine points of the curve. *)
Inductive sum_case (x1 y1 x2 y2 : R) : point R -> Prop :=
  | sum_opposite : x2 = x1 -> y2 = - y1 -> sum_case x1 y1 x2 y2 Infinity
  | sum_tangent :
      x2 = x1 -> y2 = y1 -> y1 <> 0 -> sum_case x1 y1 x2 y2 (third (tangent x1 y1) x1 y1 x1)
  | sum_chord :
      x2 - x1 <> 0 -> sum_case x1 y1 x2 y2 (third (chord x1 y1 x2 y2) x1 y1 x2).

Lemma padd_case x1 y1 x2 y2 :
  on_curve (Affine x1 y1) -> on_curve (Affine x2 y2) ->
  sum_case x1 y1 x2 y2 (padd (Affine x1 y1) (Affine x2 y2)).
Proof.
  intros H1 H2. unfold padd, pdouble. destruct (c_eq_dec x1 x2) as [<- | N].
  - destruct (c_eq_dec y1 y2) as [<- | N'].
    + destruct (c_eq_dec y1 0) as [-> | Ny].
      * apply sum_opposite; [reflexivity | ring].
      * now apply sum_tangent.
    + destruct (same_abscissa x1 y2 y1 H2 H1) as [-> | ->]; [contradiction |].
      now apply sum_opposite.
  - apply sum_chord. now apply csub_nz, not_eq_sym.
Qed.

Lemma padd_infinity_r P : padd P Infinity = P.
Proof. now destruct P. Qed.

Lemma padd_chord x1 y1 x2 y2 :
  x2 - x1 <> 0 -> padd (Affine x1 y1) (Affine x2 y2) = third (chord x1 y1 x2 y2) x1 y1 x2.
Proof.
  intros N. unfold padd. destruct (c_eq_dec x1 x2) as [-> | _]; [| reflexivity].
  exfalso. apply N. ring.
Qed.

Lemma padd_tangent x y :
  y <> 0 -> padd (Affine x y) (Affine x y) = third (tangent x y) x y x.
Proof.
  intros N. unfold padd, pdouble. destruct (c_eq_dec x x) as [_ |]; [| contradiction].
  destruct (c_eq_dec y y) as [_ |]; [| contradiction].
  now destruct (c_eq_dec y 0) as [-> | _].
Qed.

Lemma padd_opposite P : padd P (pneg P) = Infinity.
Proof.
  destruct P as [| x y]; [reflexivity |]. unfold padd, pneg, pdouble.
  destruct (c_eq_dec x x) as [_ |]; [| contradiction].
  destruct (c_eq_dec y (- y)) as [E |]; [| reflexivity].
  apply double_0 in E. now destruct (c_eq_dec y 0).
Qed.

Lemma chords_comm P Q : on_curve P -> on_curve Q -> padd P Q = padd Q P.
Proof.
  destruct P as [| x1 y1]; [now destruct Q |]. destruct Q as [| x2 y2]; [reflexivity |].
  intros H1 H2. destruct (padd_case x1 y1 x2 y2 H1 H2) as [-> -> | -> -> N | N].
  - rewrite <- (padd_opposite (Affine x1 (- y1))). cbn [pneg]. do 3 f_equal. ring.
  - now rewrite padd_tangent.
  - assert (x1 - x2 <> 0) by (intros E; apply N; apply csub_0 in E; rewrite E; ring).
    rewrite padd_chord by assumption. unfold third, chord. cbv zeta. f_equal; field; now split.
Qed.

Lemma two_eq : (two : R) = 1 + 1.
Proof. reflexivity. Qed.

Lemma three_eq : (three : R) = 1 + 1 + 1.
Proof. reflexivity. Qed.

Lemma scaled_nz (e k d : R) : e <> 0 -> k <> 0 -> e * k = d \/ e * k = - d -> d <> 0.
Proof.
  intros He Hk E ->. apply (cmul_nz e k He Hk). destruct E as [E | E]; rewrite E; ring.
Qed.

(** Side conditions of [field]: a denominator is a hypothesis times one of two factors. *)
Ltac split_nonzero := repeat split; assumption || exact two_nz.

Ltac nonzero k k' :=
  repeat split; try assumption; try exact two_nz;
  match goal with
  | N : _ <> 0 |- _ =>
      (apply (scaled_nz _ k _ N) + apply (scaled_nz _ k' _ N));
      [repeat apply cmul_nz; assumption || exact two_nz
      | (left; field; split_nonzero) || (right; field; split_nonzero)]
  end.

Ltac unfold_law :=
  unfold third in *; cbv zeta in *; cbn [on_curve pneg] in *; unfold chord, tangent in *.

Lemma on_curve_add P Q : on_curve P -> on_curve Q -> on_curve (padd P Q).
Proof.
  destruct P as [| x1 y1]; [trivial |]. destruct Q as [| x2 y2]; [trivial |].
  intros H1 H2. destruct (padd_case x1 y1 x2 y2 H1 H2) as [_ _ | -> -> N | N];
    [exact I | |]; unfold_law.
  - field [H1 two_eq three_eq]. split_nonzero.
  - field [H1 H2]. exact N.
Qed.

Lemma copp_nz (y : R) : y <> 0 -> - y <> 0.
Proof. intros N E. apply N. transitivity (- - y); [ring | rewrite E; ring]. Qed.

Lemma padd_neg P Q : on_curve P -> on_curve Q -> padd (pneg P) (pneg Q) = pneg (padd P Q).
Proof.
  destruct P as [| x1 y1]; [now destruct Q |]. destruct Q as [| x2 y2]; [reflexivity |].
  intros H1 H2. destruct (padd_case x1 y1 x2 y2 H1 H2) as [-> -> | -> -> N | N]; cbn [pneg].
  - apply (padd_opposite (Affine x1 (- y1))).
  - rewrite padd_tangent by now apply copp_nz. unfold_law.
    f_equal; field; repeat split; auto using copp_nz, two_nz.
  - rewrite padd_chord by assumption. unfold_law. f_equal; field; assumption.
Qed.

(** The origin is not on the curve. *)
Lemma origin_off_curve : ~ on_curve (Affine 0 0).
Proof.
  cbn. intros H. apply curve_b_nz. transitivity (0 * 0 * 0 + curve_b); [ring | rewrite <- H; ring].
Qed.

(** A line through two points that meets the curve twice in the second is its tangent. *)
Lemma chord_is_tangent x1 y1 x2 y2 l :
  on_curve (Affine x1 y1) -> on_curve (Affine x2 y2) -> x2 - x1 <> 0 ->
  l * (x2 - x1) = y2 - y1 -> l * l - x1 - x2 = x2 -> two * y2 * l = three * (x2 * x2).
Proof.
  cbn. intros H1 H2 N El Hl. unfold two, three.
  assert (y1 = y2 - l * (x2 - x1)) as -> by (rewrite El; ring).
  assert (l * l = x1 + x2 + x2) as Hl' by (rewrite <- Hl at 2; ring).
  destruct (cmul_0 (x2 - x1) (l * (y2 + y2 - l * (x2 - x1)) - (x2 * x2 + x1 * x2 + x1 * x1)))
    as [E | E]; [| contradiction |].
  - transitivity (y2 * y2 - (y2 - l * (x2 - x1)) * (y2 - l * (x2 - x1)) -
                  (x2 * x2 * x2 - x1 * x1 * x1)); [ring | rewrite H1, H2; ring].
  - apply csub_0 in E. transitivity (l * (y2 + y2 - l * (x2 - x1)) + l * l * (x2 - x1)); [ring |].
    rewrite E, Hl'. ring.
Qed.

(** Subtraction undoes addition: the case of equal points. *)
Lemma padd_cancel_tangent x y :
  on_curve (Affine x y) -> y <> 0 ->
  padd (third (tangent x y) x y x) (Affine x (- y)) = Affine x y.
Proof.
  intros H N. pose proof (on_curve_add _ _ H H) as H3. rewrite padd_tangent in H3 by exact N.
  unfold third in *. cbv zeta in *. set (l := tangent x y) in *.
  destruct (padd_case _ _ x (- y) H3 (on_curve_neg (Affine x y) H)) as [Ex Ey | Ex Ey N' | N'].
  - exfalso. apply N, double_0. rewrite <- Ex in Ey. rewrite Ey. ring.
  - rewrite <- Ey, <- Ex.
    assert (tangent x (- y) = - l) as ->
      by (unfold l, tangent; field; auto using copp_nz, two_nz).
    assert (- l * - l - x - x = x) as E by (rewrite Ex at 3; ring).
    unfold third. cbv zeta. rewrite E. f_equal. ring.
  - unfold third, l in *. cbv zeta. unfold_law. f_equal; field [H two_eq three_eq]; nonzero (two * y * (two * y)) (two * y).
Qed.

Lemma padd_cancel_chord x1 y1 x2 y2 :
  on_curve (Affine x1 y1) -> on_curve (Affine x2 y2) -> x2 - x1 <> 0 ->
  padd (third (chord x1 y1 x2 y2) x1 y1 x2) (Affine x2 (- y2)) = Affine x1 y1.
Proof.
  intros H1 H2 N. pose proof (on_curve_add _ _ H1 H2) as H3. rewrite padd_chord in H3 by exact N.
  unfold third in *. cbv zeta in *.
  assert (chord x1 y1 x2 y2 * (x2 - x1) = y2 - y1) as El by (unfold chord; field; exact N).
  destruct (padd_case _ _ x2 (- y2) H3 (on_curve_neg (Affine x2 y2) H2)) as [Ex Ey | Ex Ey N' | N'].
  - exfalso. symmetry in Ex. pose proof (chord_is_tangent _ _ _ _ _ H1 H2 N El Ex) as T.
    rewrite Ex in Ey. assert (y2 = 0) as ->.
    { apply double_0. rewrite Ey. transitivity (y1 - (y1 - y2)); [ring |].
      transitivity (y1 + chord x1 y1 x2 y2 * (x2 - x1)); [rewrite El |]; ring. }
    destruct (c_eq_dec x2 0) as [-> | Nx].
    + exact (origin_off_curve H2).
    + apply (cmul_nz three (x2 * x2)); [exact three_nz | now apply cmul_nz |]. rewrite <- T. ring.
  - pose proof (chord_is_tangent _ _ _ _ _ H1 H2 N El (eq_sym Ex)) as T.
    rewrite <- Ey, <- Ex in *. set (l := chord x1 y1 x2 y2) in *.
    assert (y2 <> 0) by (intros E; apply N'; rewrite E; ring).
    assert (tangent x2 (- y2) = - l) as ->.
    { unfold tangent. rewrite <- T. field. auto using copp_nz, two_nz. }
    assert (- l * - l - x2 - x2 = x1) as Ex1 by (rewrite Ex at 2; ring).
    unfold third. cbv zeta. rewrite Ex1. f_equal.
    transitivity (y2 - l * (x2 - x1)); [ring | rewrite El; ring].
  - unfold_law. f_equal; field [H1 H2]; nonzero ((x2 - x1) * (x2 - x1)) (x2 - x1).
Qed.

Lemma padd_cancel P Q : on_curve P -> on_curve Q -> padd (padd P Q) (pneg Q) = P.
Proof.
  destruct P as [| x1 y1]; [intros _ _; apply padd_opposite |].
  destruct Q as [| x2 y2]; [reflexivity |]. intros H1 H2.
  destruct (padd_case x1 y1 x2 y2 H1 H2) as [-> -> | -> -> N | N].
  - cbn. f_equal. ring.
  - now apply padd_cancel_tangent.
  - now apply padd_cancel_chord.
Qed.

#[local] Hint Resolve on_curve_add on_curve_neg : curve.

Lemma chords_cancel_l P Q : on_curve P -> on_curve Q -> padd (padd Q P) (pneg Q) = P.
Proof. intros HP HQ. rewrite (chords_comm Q P) by assumption. now apply padd_cancel. Qed.

Lemma padd_inj P Q S :
  on_curve P -> on_curve Q -> on_curve S -> padd P S = padd Q S -> P = Q.
Proof.
  intros HP HQ HS E. rewrite <- (padd_cancel P S), E by assumption. now apply padd_cancel.
Qed.

Lemma psub_cancel P Q : on_curve P -> on_curve Q -> padd (padd P (pneg Q)) Q = P.
Proof.
  intros HP HQ. rewrite <- (pneg_involutive Q) at 2. auto using padd_cancel with curve.
Qed.

(** A point of the curve that is its own opposite. *)
Lemma self_opposite x y : Affine x y = pneg (Affine x y) -> y = 0.
Proof. cbn. intros [= E]. now apply double_0. Qed.

(** ** Twice a point as the sum of its sum and difference with another *)

Lemma double_chord x1 y1 x2 y2 :
  on_curve (Affine x1 y1) -> on_curve (Affine x2 y2) -> x2 - x1 <> 0 -> y1 <> 0 ->
  let d := chord x1 y1 x2 (- y2) in
  let s := chord x1 y1 x2 y2 in
  s * s - x1 - x2 - (d * d - x1 - x2) <> 0 ->
  third (tangent x1 y1) x1 y1 x1 = padd (third d x1 y1 x2) (third s x1 y1 x2).
Proof.
  intros H1 H2 N Ny d s Nx. unfold third. cbv zeta. rewrite padd_chord by exact Nx.
  subst d s. unfold third. cbv zeta. unfold_law.
  f_equal; field [H1 H2 two_eq three_eq]; nonzero ((x2 - x1) * (x2 - x1)) (x2 - x1).
Qed.

Lemma double_torsion x1 y1 x2 :
  on_curve (Affine x1 y1) -> on_curve (Affine x2 0) -> x2 - x1 <> 0 -> y1 <> 0 ->
  let s := chord x1 y1 x2 0 in
  s * (x1 - (s * s - x1 - x2)) - y1 <> 0 ->
  third (tangent x1 y1) x1 y1 x1 =
    padd (third s x1 y1 x2) (third s x1 y1 x2).
Proof.
  intros H1 H2 N Ny s Nx. unfold third. cbv zeta. rewrite padd_tangent by exact Nx.
  subst s. unfold third. cbv zeta. unfold_law.
  assert (curve_b = - (x2 * x2 * x2)) as Eb 
    by (apply csub_0; transitivity (x2 * x2 * x2 + curve_b); [ring | rewrite <- H2; ring]).
  f_equal; field [H1 Eb two_eq three_eq]; nonzero ((x2 - x1) * (x2 - x1) * (x2 - x1)) (x2 - x1).
Qed.

Lemma chords_generic x1 y1 x2 y2 x3 y3 :
  on_curve (Affine x1 y1) -> on_curve (Affine x2 y2) -> on_curve (Affine x3 y3) ->
  x2 - x1 <> 0 -> x3 - x2 <> 0 ->
  let l := chord x1 y1 x2 y2 in
  let r := chord x2 y2 x3 y3 in
  x3 - (l * l - x1 - x2) <> 0 -> r * r - x2 - x3 - x1 <> 0 ->
  padd (third l x1 y1 x2) (Affine x3 y3) = padd (Affine x1 y1) (third r x2 y2 x3).
Proof.
  intros H1 H2 H3 N1 N2 l r N3 N4. unfold third. cbv zeta. rewrite !padd_chord by assumption.
  subst l r. unfold third. cbv zeta. unfold_law.
  f_equal; field [H1 H2 H3]; nonzero ((x2 - x1) * (x2 - x1)) ((x3 - x2) * (x3 - x2)).
Qed.

Lemma chord_of x1 y1 x2 y2 :
  on_curve (Affine x1 y1) -> on_curve (Affine x2 y2) ->
  Affine x1 y1 <> Affine x2 y2 -> Affine x1 y1 <> pneg (Affine x2 y2) -> x2 - x1 <> 0.
Proof.
  intros H1 H2 N N' E. apply csub_0 in E. subst x2.
  destruct (same_abscissa x1 y1 y2 H1 H2) as [-> | ->]; [now apply N | now apply N'].
Qed.

Lemma sub_not_opposite S B :
  on_curve S -> on_curve B -> S <> pneg S -> padd S (pneg B) <> pneg (padd S B).
Proof.
  intros HS HB N E. apply N. rewrite <- padd_neg in E by assumption.
  apply (padd_inj _ _ (pneg B)); auto with curve.
Qed.

Lemma affine_add x1 y1 x2 y2 :
  x2 - x1 <> 0 -> exists x y, padd (Affine x1 y1) (Affine x2 y2) = Affine x y.
Proof. intros N. rewrite padd_chord by exact N. unfold third. eauto. Qed.

Lemma double_sum_difference S B :
  on_curve S -> on_curve B -> padd S S = padd (padd S (pneg B)) (padd S B).
Proof.
  intros HS HB. destruct (point_eq_dec S B) as [<- | N1].
  { now rewrite padd_opposite. }
  destruct (point_eq_dec S (pneg B)) as [E | N2].
  { rewrite <- E. replace B with (pneg S) by (rewrite E; apply pneg_involutive).
    now rewrite padd_opposite, padd_infinity_r. }
  destruct (point_eq_dec S (pneg S)) as [E | N3].
  { rewrite E at 2. rewrite padd_opposite. symmetry. rewrite E at 1.
    rewrite padd_neg, chords_comm by auto with curve. apply padd_opposite. }
  pose proof (sub_not_opposite S B HS HB N3) as N4.
  destruct B as [| x2 y2]; [cbn [pneg]; now rewrite !padd_infinity_r |].
  destruct S as [| x1 y1]; [now contradiction N3 |].
  pose proof (chord_of x1 y1 x2 y2 HS HB N1 N2) as N.
  assert (y1 <> 0) as Ny by (intros ->; apply N3; cbn; f_equal; ring).
  pose proof (on_curve_add _ _ HS (on_curve_neg _ HB)) as HD.
  pose proof (on_curve_add _ _ HS HB) as HA.
  rewrite padd_tangent by exact Ny. cbn [pneg] in *.
  destruct (point_eq_dec (padd (Affine x1 y1) (Affine x2 (- y2)))
                         (padd (Affine x1 y1) (Affine x2 y2))) as [E | N5].
  - rewrite E. assert (y2 = 0) as ->.
    { pose proof (on_curve_neg _ HB) as HN. cbn [pneg] in HN.
      rewrite (chords_comm _ (Affine x2 (- y2))), (chords_comm _ (Affine x2 y2)) in E by assumption.
      apply padd_inj in E; [| exact (on_curve_neg _ HB) | exact HB | exact HS].
      injection E as E. now apply double_0, eq_sym. }
    rewrite !padd_chord in * by exact N. apply double_torsion; try assumption.
    intros C. apply N4. rewrite E. unfold third. cbv zeta. cbn [pneg]. rewrite C. f_equal. ring.
  - rewrite !padd_chord in * by exact N. apply double_chord; try assumption.
    now apply (chord_of _ _ _ _ HD HA).
Qed.

Lemma padd_assoc_double A C :
  on_curve A -> on_curve C -> padd (padd A A) C = padd A (padd A C).
Proof.
  intros HA HC. set (T := padd A C). assert (on_curve T) as HT by now apply on_curve_add.
  assert (C = padd T (pneg A)) as EC by (symmetry; now apply chords_cancel_l).
  rewrite (double_sum_difference A T) by assumption.
  rewrite (chords_comm (padd A (pneg T))) by auto with curve.
  replace C with (pneg (padd A (pneg T))).
  - apply padd_cancel; auto with curve.
  - rewrite EC, <- padd_neg, pneg_involutive by auto with curve.
    apply chords_comm; auto with curve.
Qed.

Lemma padd_assoc_sum A B :
  on_curve A -> on_curve B -> padd (padd A B) (padd A B) = padd A (padd B (padd A B)).
Proof.
  intros HA HB. rewrite (double_sum_difference (padd A B) B), padd_cancel by auto with curve.
  f_equal. apply chords_comm; auto with curve.
Qed.

Lemma opposite_third A B C :
  on_curve A -> on_curve B -> on_curve C -> padd A B = pneg C -> padd B C = pneg A.
Proof.
  intros HA HB HC E. rewrite <- (chords_cancel_l B A), E by assumption.
  rewrite <- (pneg_involutive C) at 2. apply chords_cancel_l; auto with curve.
Qed.

Lemma chords_assoc A B C :
  on_curve A -> on_curve B -> on_curve C -> padd (padd A B) C = padd A (padd B C).
Proof.
  intros HA HB HC.
  destruct (point_eq_dec A (pneg B)) as [-> | N1].
  { rewrite (chords_comm _ B), padd_opposite by auto with curve. cbn [padd].
    rewrite chords_comm, chords_cancel_l by auto with curve. reflexivity. }
  destruct (point_eq_dec B (pneg C)) as [-> | N2].
  { rewrite psub_cancel, (chords_comm _ C), padd_opposite, padd_infinity_r by auto with curve.
    reflexivity. }
  destruct (point_eq_dec A B) as [<- | N3]; [now apply padd_assoc_double |].
  destruct (point_eq_dec B C) as [<- | N4].
  { rewrite (chords_comm (padd A B)), (chords_comm A B), <- padd_assoc_double, (chords_comm A)
      by auto with curve. reflexivity. }
  destruct (point_eq_dec (padd A B) C) as [<- | N5]; [now apply padd_assoc_sum |].
  destruct (point_eq_dec (padd B C) A) as [<- | N6].
  { rewrite (chords_comm B C), padd_assoc_sum, (chords_comm (padd C B) B), chords_comm
      by auto with curve. reflexivity. }
  destruct (point_eq_dec (padd A B) (pneg C)) as [E | N7].
  { rewrite (opposite_third A B C), E, (chords_comm _ C), !padd_opposite by auto with curve.
    reflexivity. }
  destruct (point_eq_dec (padd B C) (pneg A)) as [E | N8].
  { rewrite E, padd_opposite, (chords_comm A B), (opposite_third C B A), chords_comm, padd_opposite
      by (auto with curve; rewrite chords_comm; assumption). reflexivity. }
  destruct A as [| x1 y1]; [reflexivity |]. destruct B as [| x2 y2]; [reflexivity |].
  destruct C as [| x3 y3]; [apply padd_infinity_r |].
  pose proof (on_curve_add _ _ HA HB) as HS. pose proof (on_curve_add _ _ HB HC) as HT.
  pose proof (chord_of _ _ _ _ HA HB N3 N1) as D1. pose proof (chord_of _ _ _ _ HB HC N4 N2) as D2.
  rewrite !(padd_chord x1 y1 x2 y2), !(padd_chord x2 y2 x3 y3) in * by assumption.
  apply chords_generic; try assumption.
  - exact (chord_of _ _ _ _ HS HC N5 N7).
  - apply (scaled_nz (x1 - (chord x2 y2 x3 y3 * chord x2 y2 x3 y3 - x2 - x3)) 1);
      [exact (chord_of _ _ _ _ HT HA N6 N8) | exact c1_neq_0 | right; ring].
Qed.

(** ** Multiples *)

Lemma on_curve_multiple k P : on_curve P -> on_curve (multiple k P).
Proof. intros H. induction k as [| k IH]; [exact I |]. now apply on_curve_add. Qed.

#[local] Hint Resolve on_curve_multiple : curve.

Lemma multiple_add m n P :
  on_curve P -> multiple (m + n) P = padd (multiple m P) (multiple n P).
Proof.
  intros H. induction m as [| m IH]; [reflexivity |]. cbn [Nat.add multiple].
  rewrite IH. symmetry. apply chords_assoc; auto with curve.
Qed.

Lemma multiple_mul m n P : on_curve P -> multiple (m * n) P = multiple n (multiple m P).
Proof.
  intros H. induction n as [| n IH]; [now rewrite Nat.mul_0_r |].
  rewrite Nat.mul_succ_r, Nat.add_comm, multiple_add, IH by exact H. reflexivity.
Qed.

Lemma multiple_double k P :
  on_curve P -> multiple (2 * k) P = padd (multiple k P) (multiple k P).
Proof.
  intros H. replace (2 * k)%nat with (k + k)%nat by lia. now apply multiple_add.
Qed.

Lemma pdouble_add P : pdouble P = padd P P.
Proof.
  destruct P as [| x y]; [reflexivity |]. cbn.
  destruct (c_eq_dec x x) as [_ |]; [| contradiction].
  destruct (c_eq_dec y y) as [_ |]; [reflexivity | contradiction].
Qed.

(** ** Jacobian coordinates *)

Record jacobian := Jacobian { jx : R; jy : R; jz : R }.

(** The affine point. *)
Definition affine (c : jacobian) : point R :=
  if c_eq_dec (jz c) 0 then Infinity
  else Affine (jx c / (jz c * jz c)) (jy c / (jz c * jz c * jz c)).

Definition jdouble (a : jacobian) : jacobian :=
  let A := jx a * jx a in
  let B := jy a * jy a in
  let C := B * B in
  let d := two * ((jx a + B) * (jx a + B) - A - C) in
  let e := three * A in
  let x := e * e - two * d in
  Jacobian x (e * (d - x) - two * (two * (two * C))) (two * (jy a * jz a)).

Definition jadd (a b : jacobian) : jacobian :=
  let z1z1 := jz a * jz a in
  let z2z2 := jz b * jz b in
  let u1 := jx a * z2z2 in
  let u2 := jx b * z1z1 in
  let s1 := jy a * (jz b * z2z2) in
  let s2 := jy b * (jz a * z1z1) in
  let h := u2 - u1 in
  let i := two * h * (two * h) in
  let j := h * i in
  let r := two * (s2 - s1) in
  let v := u1 * i in
  let x := r * r - j - two * v in
  Jacobian x (r * (v - x) - two * (s1 * j))
    (((jz a + jz b) * (jz a + jz b) - z1z1 - z2z2) * h).

Lemma affine_double a : affine (jdouble a) = pdouble (affine a).
Proof.
  unfold affine, jdouble. destruct a as [x y z]. cbn [jx jy jz].
  destruct (c_eq_dec z 0) as [-> | Nz].
  { destruct (c_eq_dec (two * (y * 0)) 0) as [| N]; [reflexivity |]. exfalso. apply N. ring. }
  cbn [pdouble]. destruct (c_eq_dec y 0) as [-> | Ny].
  - destruct (c_eq_dec (two * (0 * z)) 0) as [_ | N]; [| exfalso; apply N; ring].
    destruct (c_eq_dec (0 / (z * z * z)) 0) as [_ | N]; [reflexivity |].
    exfalso. apply N. field. exact Nz.
  - destruct (c_eq_dec (two * (y * z)) 0) as [E | _].
    { exfalso. revert E. repeat apply cmul_nz; assumption || exact two_nz. }
    destruct (c_eq_dec (y / (z * z * z)) 0) as [E | _].
    { exfalso. apply Ny. transitivity (y / (z * z * z) * (z * z * z)); [field; exact Nz |].
      rewrite E. ring. }
    unfold third, tangent. cbv zeta. f_equal; field [two_eq three_eq]; split_nonzero.
Qed.

(** Equal affine coordinates, without denominators. *)
Lemma ratio_eq (x1 z1 x2 z2 : R) : z1 <> 0 -> z2 <> 0 -> (x1 / z1 = x2 / z2 <-> x2 * z1 = x1 * z2).
Proof.
  intros N1 N2. split; intros E.
  - transitivity (x2 / z2 * (z1 * z2)); [field; exact N2 |]. rewrite <- E. field. exact N1.
  - transitivity (x1 * z2 / (z1 * z2)); [field; now split |]. rewrite <- E. field. now split.
Qed.

Lemma affine_add_distinct a c :
  jz a <> 0 -> jz c <> 0 ->
  ~ (jx c * (jz a * jz a) = jx a * (jz c * jz c) /\
     jy c * (jz a * (jz a * jz a)) = jy a * (jz c * (jz c * jz c))) ->
  affine (jadd a c) = padd (affine a) (affine c).
Proof.
  destruct a as [x1 y1 z1], c as [x2 y2 z2]. cbn [jx jy jz]. intros N1 N2 Ne.
  unfold affine, jadd. cbn [jx jy jz].
  destruct (c_eq_dec z1 0) as [| _]; [contradiction |].
  destruct (c_eq_dec z2 0) as [| _]; [contradiction |]. unfold padd.
  destruct (c_eq_dec (x1 / (z1 * z1)) (x2 / (z2 * z2))) as [Ex | Nx];
    rewrite ratio_eq in * by now apply cmul_nz.
  - match goal with |- context [c_eq_dec ?z 0] => destruct (c_eq_dec z 0) as [_ | N] end;
      [| exfalso; apply N; rewrite Ex; ring].
    destruct (c_eq_dec (y1 / (z1 * z1 * z1)) (y2 / (z2 * z2 * z2))) as [Ey | Ny]; [| reflexivity].
    rewrite ratio_eq in Ey by (repeat apply cmul_nz; assumption).
    exfalso. apply Ne. split; [exact Ex |]. rewrite !cmul_assoc in *. exact Ey.
  - apply csub_nz in Nx.
    match goal with |- context [c_eq_dec ?z 0] => destruct (c_eq_dec z 0) as [E | _] end.
    { exfalso. assert (two * z1 * z2 * (x2 * (z1 * z1) - x1 * (z2 * z2)) = 0) as C
        by (rewrite <- E; rewrite two_eq; ring).
      revert C. repeat apply cmul_nz; assumption || exact two_nz. }
    unfold third, chord. cbv zeta. f_equal; field [two_eq]; repeat split; try assumption; try exact two_nz;
      first [ apply (scaled_nz _ 1 _ Nx c1_neq_0); ((left; ring) || (right; ring))
            | apply (scaled_nz (two * z1) z2); [apply cmul_nz; [exact two_nz | assumption] | assumption
              | left; rewrite two_eq; ring] ].
Qed.
End curve.

Arguments jacobian R : clear implicits.
Arguments Jacobian {R} _ _ _.
Arguments jx {R} _.
Arguments jy {R} _.
Arguments jz {R} _.

#[export] Hint Resolve on_curve_add on_curve_neg on_curve_multiple : curve.
