(* ===== verification/BnCompute.v ===== *)
(** * Computation in the fields of the pairing

    The first two levels of the tower as instances of [Tower], and a second representation of
    them on the machine integers of Bignums, with which the kernel checks facts on the
    constants of the package: powers of an element, and multiples of a point in
    Jacobian coordinates, in which no inverse is trusted. *)

From Bignums Require Import BigZ.BigZ.
From Stdlib Require Import Field.
From S2P Require Import Prelude BnPrime Tower Weierstrass.

(** ** The first two levels *)

#[export] Instance Fp_ring : CRing Fp := {
  c0 := Zmod.zero; c1 := Zmod.one; cadd := Zmod.add; cmul := Zmod.mul; csub := Zmod.sub;
  copp := Zmod.opp; cring := F_R Fp_field_theory }.

#[export] Instance Fp_CField : CField Fp := {
  cinv := Zmod.inv; cinv_r := Fp_inverse_r; cinv_0 := Fp_inv_0; c1_neq_0 := Fp_one_neq_zero;
  c_eq_dec := Fp_eq_dec }.

Abbreviation K2 := (quad Fp).

#[export] Instance K2_ring : CRing K2 := quad_ring (fp (-1)).

#[export] Instance K2_field : CField K2 := quad_field (fp (-1)) Fp_opp_1_nonsquare.

Add Ring K2_compute : (cring (R := K2)).

(** ** Machine integers *)

Definition bp : bigZ := Eval vm_compute in BigZ.of_Z p.

Lemma bp_val : BigZ.to_Z bp = p.
Proof. vm_compute. reflexivity. Qed.

Definition bmod (x : bigZ) : bigZ := BigZ.modulo x bp.

Definition bfp (x : bigZ) : Fp := fp (BigZ.to_Z x).

Lemma bfp_mod x : bfp (bmod x) = bfp x.
Proof. unfold bfp, bmod. rewrite BigZ.spec_modulo, bp_val. apply fp_mod. Qed.

Lemma bfp_add x y : bfp (BigZ.add x y) = (bfp x + bfp y)%Fp.
Proof. unfold bfp. rewrite BigZ.spec_add. apply fp_add. Qed.

Lemma bfp_sub x y : bfp (BigZ.sub x y) = (bfp x - bfp y)%Fp.
Proof. unfold bfp. rewrite BigZ.spec_sub. apply fp_sub. Qed.

Lemma bfp_mul x y : bfp (BigZ.mul x y) = (bfp x * bfp y)%Fp.
Proof. unfold bfp. rewrite BigZ.spec_mul. apply fp_mul. Qed.

Lemma bfp_eqb x y : BigZ.eqb x y = true -> bfp x = bfp y.
Proof. rewrite BigZ.spec_eqb, Z.eqb_eq. unfold bfp. now intros ->. Qed.

Create Rewrite HintDb bfp.
#[export] Hint Rewrite bfp_mod bfp_add bfp_sub bfp_mul : bfp.

(** ** Checked computation *)

(** Operations on a representation [T] of a field, of which the inverse is not trusted. *)
Class Arith (T R : Type) {CR : CRing R} := {
  tval : T -> R;
  tzero : T;
  tone : T;
  tadd : T -> T -> T;
  tsub : T -> T -> T;
  tmul : T -> T -> T;
  tinv : T -> T;
  teqb : T -> T -> bool;
  tval_zero : tval tzero = c0;
  tval_one : tval tone = c1;
  tval_add : forall a b, tval (tadd a b) = cadd (tval a) (tval b);
  tval_sub : forall a b, tval (tsub a b) = csub (tval a) (tval b);
  tval_mul : forall a b, tval (tmul a b) = cmul (tval a) (tval b);
  tval_eqb : forall a b, teqb a b = true -> tval a = tval b }.

Create Rewrite HintDb tval.
#[export] Hint Rewrite @tval_zero @tval_one @tval_add @tval_sub @tval_mul : tval.

Local Open Scope tower_scope.

Section computation.
Context {T R : Type} {CR : CRing R} {CF : CField R} {A : Arith T R}.

Add Ring R_computation : (cring (R := R)).
Add Field R_quotients : (cfield (R := R)).

Fixpoint tpow (a : T) (e : positive) : T :=
  match e with
  | xH => a
  | xO e => let r := tpow a e in tmul r r
  | xI e => let r := tpow a e in tmul (tmul r r) a
  end.

Lemma tval_pow a e : tval (tpow a e) = pow (tval a) (Zpos e).
Proof.
  cbn [pow]. induction e as [e IH | e IH |]; cbn [tpow pow_pos]; rewrite ?tval_mul, ?IH; reflexivity.
Qed.

(** A number with an inverse is not zero, however the inverse was found. *)
Definition invertible (a : T) : bool := teqb (tmul a (tinv a)) tone.

Lemma invertible_spec a : invertible a = true -> tval a <> 0.
Proof.
  intros E%tval_eqb. rewrite tval_mul, tval_one in E. apply unit_nz. now exists (tval (tinv a)).
Qed.

(** *** Points, in Jacobian coordinates *)

Definition tpoint : Type := T * T.

Definition pval (P : tpoint) : point R := Affine (tval (fst P)) (tval (snd P)).

Definition jval (a : T * T * T) : jacobian R :=
  let '(x, y, z) := a in Jacobian (tval x) (tval y) (tval z).

Definition tjdouble (a : T * T * T) : T * T * T :=
  let '(x, y, z) := a in
  let A := tmul x x in
  let B := tmul y y in
  let C := tmul B B in
  let xB := tadd x B in
  let d := tsub (tsub (tmul xB xB) A) C in
  let d := tadd d d in
  let e := tadd (tadd A A) A in
  let x3 := tsub (tmul e e) (tadd d d) in
  let C2 := tadd C C in
  let C4 := tadd C2 C2 in
  let yz := tmul y z in
  (x3, tsub (tmul e (tsub d x3)) (tadd C4 C4), tadd yz yz).

Definition tjadd (a b : T * T * T) : T * T * T :=
  let '(x, y, z) := a in
  let '(x', y', z') := b in
  let z1z1 := tmul z z in
  let z2z2 := tmul z' z' in
  let u1 := tmul x z2z2 in
  let s1 := tmul y (tmul z' z2z2) in
  let h := tsub (tmul x' z1z1) u1 in
  let i := tmul (tadd h h) (tadd h h) in
  let j := tmul h i in
  let r := tsub (tmul y' (tmul z z1z1)) s1 in
  let r := tadd r r in
  let v := tmul u1 i in
  let x3 := tsub (tsub (tmul r r) j) (tadd v v) in
  let sj := tmul s1 j in
  let zz := tadd z z' in
  (x3, tsub (tmul r (tsub v x3)) (tadd sj sj), tmul (tsub (tsub (tmul zz zz) z1z1) z2z2) h).

Fixpoint tmultiple (a : T * T * T) (e : positive) : T * T * T :=
  match e with
  | xH => a
  | xO e => tjdouble (tmultiple a e)
  | xI e => tjadd (tjdouble (tmultiple a e)) a
  end.

Lemma jval_double a : jval (tjdouble a) = jdouble (jval a).
Proof.
  destruct a as [[x y] z]. unfold tjdouble, jval, jdouble. cbv zeta. cbn [jx jy jz].
  rewrite ?tval_mul, ?tval_sub, ?tval_add. autorewrite with tval. unfold three, two.
  f_equal; ring.
Qed.

Lemma jval_add a b : jval (tjadd a b) = jadd (jval a) (jval b).
Proof.
  destruct a as [[x y] z], b as [[x' y'] z']. unfold tjadd, jval, jadd. cbv zeta. cbn [jx jy jz].
  autorewrite with tval. unfold two. f_equal; ring.
Qed.

Lemma factor_nz (a b : R) : a * b <> 0 -> a <> 0 /\ b <> 0.
Proof. intros N. split; intros E; apply N; rewrite E; ring. Qed.

(** Doubling and adding give a z of zero when an operand has, or when the operands have
    one x: a z that is not zero at the end was not zero before. *)
Lemma jz_double a : jz (jdouble a) <> 0 -> jz a <> 0.
Proof. cbn [jdouble jz]. intros N. apply factor_nz in N. now destruct (factor_nz _ _ (proj2 N)). Qed.

Lemma jz_add (a b : jacobian R) :
  jz (jadd a b) <> 0 ->
  jz a <> 0 /\ jz b <> 0 /\ jx b * (jz a * jz a) - jx a * (jz b * jz b) <> 0.
Proof.
  cbn [jadd jz]. intros N. apply factor_nz in N. destruct N as [N Nh].
  split; [| split; [| exact Nh]]; intros E; apply N; rewrite E; ring.
Qed.

Context {CC : Curve R}.

Lemma tmultiple_spec a e : on_curve (affine (jval a)) ->
  jz (jval (tmultiple a e)) <> 0 ->
  affine (jval (tmultiple a e)) = multiple (Pos.to_nat e) (affine (jval a)).
Proof.
  intros Ha. induction e as [e IH | e IH |]; cbn [tmultiple].
  - rewrite jval_add. intros N. destruct (jz_add _ _ N) as (N1 & N2 & Nx).
    rewrite affine_add_distinct by (assumption || (intros [C _]; apply Nx; rewrite C; ring)).
    rewrite jval_double in *. rewrite affine_double, pdouble_add, IH by now apply jz_double.
    rewrite Pos2Nat.inj_xI. cbn [multiple]. rewrite multiple_double by exact Ha.
    apply chords_comm; auto with curve.
  - rewrite jval_double. intros N. rewrite affine_double, pdouble_add, IH by now apply jz_double.
    now rewrite Pos2Nat.inj_xO, multiple_double.
  - intros _. change (Pos.to_nat 1) with 1%nat. symmetry. apply padd_infinity_r.
Qed.

(** A multiple is a given point. *)
Definition reaches (P : tpoint) (e : positive) (Q : tpoint) : bool :=
  let '(x, y, z) := tmultiple (fst P, snd P, tone) e in
  let zz := tmul z z in
  invertible z && teqb (tmul (fst Q) zz) x && teqb (tmul (snd Q) (tmul zz z)) y.

Lemma reaches_spec P e Q :
  on_curve (pval P) -> reaches P e Q = true -> multiple (Pos.to_nat e) (pval P) = pval Q.
Proof.
  intros HP. unfold reaches.
  assert (affine (jval (fst P, snd P, tone)) = pval P) as EP.
  { unfold affine, jval, pval. cbn [jx jy jz]. rewrite tval_one.
    destruct (c_eq_dec (1 : R) 0) as [C | _]; [now destruct (c1_neq_0 C) |].
    now rewrite !cmul_1_r, !cdiv_1_r. }
  destruct (tmultiple _ e) as [[x y] z] eqn:E.
  rewrite !andb_true_iff. intros [[N%invertible_spec Ex%tval_eqb] Ey%tval_eqb].
  pose proof (tmultiple_spec (fst P, snd P, tone) e) as M. rewrite EP, E in M.
  cbn [jval jz] in M. rewrite <- (M HP N).
  unfold affine, pval. cbn [jx jy jz]. destruct (c_eq_dec (tval z) 0) as [| _]; [contradiction |].
  autorewrite with tval in Ex, Ey. rewrite <- Ex, <- Ey. f_equal; field; exact N.
Qed.

(** The last step before infinity: the multiple is the opposite of the point. *)
Definition tneg (P : tpoint) : tpoint := (fst P, tsub tzero (snd P)).

Lemma pval_neg P : pval (tneg P) = pneg (pval P).
Proof.
  unfold pval, tneg. cbn [fst snd pneg]. rewrite tval_sub, tval_zero.
  apply (f_equal (Affine _)). ring.
Qed.

Definition annihilates (P : tpoint) (e : positive) : bool := reaches P e (tneg P).

Lemma annihilates_spec P e :
  on_curve (pval P) -> annihilates P e = true -> multiple (S (Pos.to_nat e)) (pval P) = Infinity.
Proof.
  intros HP E. cbn [multiple]. rewrite (reaches_spec P e (tneg P) HP E), pval_neg.
  apply padd_opposite.
Qed.
End computation.

(** *** The two fields *)

Fixpoint bpow (a : bigZ) (e : positive) : bigZ :=
  match e with
  | xH => a
  | xO e => let r := bpow a e in bmod (BigZ.mul r r)
  | xI e => let r := bpow a e in bmod (BigZ.mul (bmod (BigZ.mul r r)) a)
  end.

#[export] Instance big_arith : Arith bigZ Fp.
Proof.
  refine {|
  tval := bfp; tzero := BigZ.zero; tone := BigZ.one;
  tadd a b := bmod (BigZ.add a b); tsub a b := bmod (BigZ.sub a b); tmul a b := bmod (BigZ.mul a b);
  tinv a := bpow a (Z.to_pos (p - 2)); teqb := BigZ.eqb |}.
  - reflexivity.
  - reflexivity.
  - intros a b. now rewrite bfp_mod, bfp_add.
  - intros a b. now rewrite bfp_mod, bfp_sub.
  - intros a b. now rewrite bfp_mod, bfp_mul.
  - exact bfp_eqb.
Defined.

Definition bval (a : bigZ * bigZ) : K2 := Quad (bfp (fst a)) (bfp (snd a)).

#[export] Instance big2_arith : Arith (bigZ * bigZ) K2.
Proof.
  refine {|
  tval := bval; tzero := (BigZ.zero, BigZ.zero); tone := (BigZ.zero, BigZ.one);
  tadd a b := (bmod (BigZ.add (fst a) (fst b)), bmod (BigZ.add (snd a) (snd b)));
  tsub a b := (bmod (BigZ.sub (fst a) (fst b)), bmod (BigZ.sub (snd a) (snd b)));
  tmul a b := (bmod (BigZ.add (BigZ.mul (fst a) (snd b)) (BigZ.mul (fst b) (snd a))),
               bmod (BigZ.sub (BigZ.mul (snd a) (snd b)) (BigZ.mul (fst a) (fst b))));
  tinv a :=
    let n := bmod (BigZ.add (BigZ.mul (fst a) (fst a)) (BigZ.mul (snd a) (snd a))) in
    let i := bpow n (Z.to_pos (p - 2)) in
    (bmod (BigZ.mul (BigZ.sub BigZ.zero (fst a)) i), bmod (BigZ.mul (snd a) i));
  teqb a b := BigZ.eqb (fst a) (fst b) && BigZ.eqb (snd a) (snd b) |}.
  - reflexivity.
  - reflexivity.
  - intros a b. unfold bval. cbn [fst snd]. now autorewrite with bfp.
  - intros a b. unfold bval. cbn [fst snd]. now autorewrite with bfp.
  - intros a b. unfold bval. cbn [fst snd]. autorewrite with bfp.
    cbn [cmul K2_ring quad_ring]. unfold qmul. cbn [qx qy cadd cmul Fp_ring].
    change (fp (-1)) with (@Zmod.opp p Zmod.one). f_equal; ring.
  - intros a b. unfold bval. rewrite andb_true_iff. intros [Hx Hy].
    now rewrite (bfp_eqb _ _ Hx), (bfp_eqb _ _ Hy).
Defined.
