(* ===== verification/Bn256Field.v ===== *)
(** * The extension fields of the pairing

    Model of [gfp2.go], [gfp6.go], [gfp12.go] and of the constants of [constants.go] in
    [src/golang-x-crypto/bn256].  The code computes on integers that it reduces now and then;
    [val2], [val6] and [val12] map them to the rings of [Tower] over the field of [BnPrime],
    and every operation is the ring operation there.  A method [e.M(a, b)] is the function
    that returns the new value of [e]; the pool of integers is left out. *)

From Bignums Require Import BigZ.BigZ.
From Stdlib Require Import Field.
From S2P Require Import Prelude BnPrime Tower BnCompute.

(** ** gfp2.go *)

Record gfP2 := GfP2 { x2 : Z; y2 : Z }.

Definition gfP2_SetZero : gfP2 := GfP2 0 0.

Definition gfP2_SetOne : gfP2 := GfP2 0 1.

(** [if x.Sign() < 0 || x.Cmp(p) >= 0 { x.Mod(x, p) }] *)
Definition reduce (x : Z) : Z := if (x <? 0) || (p <=? x) then x mod p else x.

Definition gfP2_Minimal (e : gfP2) : gfP2 := GfP2 (reduce (x2 e)) (reduce (y2 e)).

Definition gfP2_IsZero (e : gfP2) : bool := (x2 e =? 0) && (y2 e =? 0).

(** [Bits] returns the absolute value. *)
Definition gfP2_IsOne (e : gfP2) : bool := if negb (x2 e =? 0) then false else Z.abs (y2 e) =? 1.

Definition gfP2_Conjugate (a : gfP2) : gfP2 := GfP2 (- x2 a) (y2 a).

Definition gfP2_Negative (a : gfP2) : gfP2 := GfP2 (- x2 a) (- y2 a).

Definition gfP2_Add (a b : gfP2) : gfP2 := GfP2 (x2 a + x2 b) (y2 a + y2 b).

Definition gfP2_Sub (a b : gfP2) : gfP2 := GfP2 (x2 a - x2 b) (y2 a - y2 b).

Definition gfP2_Double (a : gfP2) : gfP2 := GfP2 (Z.shiftl (x2 a) 1) (Z.shiftl (y2 a) 1).

Definition gfP2_Mul (a b : gfP2) : gfP2 :=
  let tx := x2 a * y2 b in
  let t := x2 b * y2 a in
  let tx := tx + t in
  let tx := tx mod p in
  let ty := y2 a * y2 b in
  let t := x2 a * x2 b in
  let ty := ty - t in
  GfP2 tx (ty mod p).

Definition gfP2_MulScalar (a : gfP2) (b : Z) : gfP2 := GfP2 (x2 a * b) (y2 a * b).

Definition gfP2_MulXi (a : gfP2) : gfP2 :=
  let tx := Z.shiftl (x2 a) 1 in
  let tx := tx + x2 a in
  let tx := tx + y2 a in
  let ty := Z.shiftl (y2 a) 1 in
  let ty := ty + y2 a in
  let ty := ty - x2 a in
  GfP2 tx ty.

Definition gfP2_Square (a : gfP2) : gfP2 :=
  let t1 := y2 a - x2 a in
  let t2 := x2 a + y2 a in
  let ty := t1 * t2 in
  let ty := ty mod p in
  let t1 := x2 a * y2 a in
  let t1 := Z.shiftl t1 1 in
  GfP2 (t1 mod p) ty.

(** [inv] holds [leftover], what the pool gave for it, when there is no inverse. *)
Definition gfP2_InvertFrom (leftover : Z) (a : gfP2) : gfP2 :=
  let t := y2 a * y2 a in
  let t2 := x2 a * x2 a in
  let t := t + t2 in
  let inv := match ModInverse t with Some v => v | None => leftover end in
  let ex := - x2 a in
  let ex := ex * inv in
  GfP2 (ex mod p) ((y2 a * inv) mod p).

Definition gfP2_Invert (a : gfP2) : gfP2 := gfP2_InvertFrom 0 a.

(** The loop of the two [Exp] functions, from bit [i] of [power] down. *)
Fixpoint expLoop {T : Type} (square : T -> T) (mul : T -> T -> T) (a : T) (power : Z) (i : nat) (sum : T) : T :=
  match i with
  | O => sum
  | S i =>
      let t := square sum in
      let sum := if Z.testbit power (Z.of_nat i) then mul t a else t in
      expLoop square mul a power i sum
  end.

(** [x.BitLen()] *)
Definition BitLen (x : Z) : nat := Z.to_nat (if x =? 0 then 0 else Z.log2 (Z.abs x) + 1).

Definition gfP2_Exp (a : gfP2) (power : Z) : gfP2 :=
  expLoop gfP2_Square gfP2_Mul a power (BitLen power) gfP2_SetOne.

(** ** constants.go *)

Definition xiToPMinus1Over6 : gfP2 := GfP2
  8669379979083712429711189836753509758585994370025260553045152614783263110636
  19998038925833620163537568958541907098007303196759855091367510456613536016040.

Definition xiToPMinus1Over3 : gfP2 := GfP2
  26098034838977895781559542626833399156321265654106457577426020397262786167059
  15931493369629630809226283458085260090334794394361662678240713231519278691715.

Definition xiToPMinus1Over2 : gfP2 := GfP2
  50997318142241922852281555961173165965672272825141804376761836765206060036244
  38665955945962842195025998234511023902832543644254935982879660597356748036009.

Definition xiToPSquaredMinus1Over3 : Z :=
  65000549695646603727810655408050771481677621702948236658134783353303381437752.

Definition xiTo2PSquaredMinus2Over3 : Z := 4985783334309134261147736404674766913742361673560802634030.

Definition xiToPSquaredMinus1Over6 : Z :=
  65000549695646603727810655408050771481677621702948236658134783353303381437753.

Definition xiTo2PMinus2Over3 : gfP2 := GfP2
  19885131339612776214803633203834694332692106372356013117629940868870585019582
  21645619881471562101905880913352894726728173167203616652430647841922248593627.

(** ** gfp6.go *)

Record gfP6 := GfP6 { x6 : gfP2; y6 : gfP2; z6 : gfP2 }.

Definition gfP6_SetZero : gfP6 := GfP6 gfP2_SetZero gfP2_SetZero gfP2_SetZero.

Definition gfP6_SetOne : gfP6 := GfP6 gfP2_SetZero gfP2_SetZero gfP2_SetOne.

Definition gfP6_Minimal (e : gfP6) : gfP6 :=
  GfP6 (gfP2_Minimal (x6 e)) (gfP2_Minimal (y6 e)) (gfP2_Minimal (z6 e)).

Definition gfP6_IsZero (e : gfP6) : bool := gfP2_IsZero (x6 e) && gfP2_IsZero (y6 e) && gfP2_IsZero (z6 e).

Definition gfP6_IsOne (e : gfP6) : bool := gfP2_IsZero (x6 e) && gfP2_IsZero (y6 e) && gfP2_IsOne (z6 e).

Definition gfP6_Negative (a : gfP6) : gfP6 :=
  GfP6 (gfP2_Negative (x6 a)) (gfP2_Negative (y6 a)) (gfP2_Negative (z6 a)).

Definition gfP6_Frobenius (a : gfP6) : gfP6 :=
  let ex := gfP2_Conjugate (x6 a) in
  let ey := gfP2_Conjugate (y6 a) in
  let ez := gfP2_Conjugate (z6 a) in
  let ex := gfP2_Mul ex xiTo2PMinus2Over3 in
  let ey := gfP2_Mul ey xiToPMinus1Over3 in
  GfP6 ex ey ez.

Definition gfP6_FrobeniusP2 (a : gfP6) : gfP6 :=
  GfP6 (gfP2_MulScalar (x6 a) xiTo2PSquaredMinus2Over3)
       (gfP2_MulScalar (y6 a) xiToPSquaredMinus1Over3) (z6 a).

Definition gfP6_Add (a b : gfP6) : gfP6 :=
  GfP6 (gfP2_Add (x6 a) (x6 b)) (gfP2_Add (y6 a) (y6 b)) (gfP2_Add (z6 a) (z6 b)).

Definition gfP6_Sub (a b : gfP6) : gfP6 :=
  GfP6 (gfP2_Sub (x6 a) (x6 b)) (gfP2_Sub (y6 a) (y6 b)) (gfP2_Sub (z6 a) (z6 b)).

Definition gfP6_Double (a : gfP6) : gfP6 :=
  GfP6 (gfP2_Double (x6 a)) (gfP2_Double (y6 a)) (gfP2_Double (z6 a)).

Definition gfP6_Mul (a b : gfP6) : gfP6 :=
  let v0 := gfP2_Mul (z6 a) (z6 b) in
  let v1 := gfP2_Mul (y6 a) (y6 b) in
  let v2 := gfP2_Mul (x6 a) (x6 b) in
  let t0 := gfP2_Add (x6 a) (y6 a) in
  let t1 := gfP2_Add (x6 b) (y6 b) in
  let tz := gfP2_Mul t0 t1 in
  let tz := gfP2_Sub tz v1 in
  let tz := gfP2_Sub tz v2 in
  let tz := gfP2_MulXi tz in
  let tz := gfP2_Add tz v0 in
  let t0 := gfP2_Add (y6 a) (z6 a) in
  let t1 := gfP2_Add (y6 b) (z6 b) in
  let ty := gfP2_Mul t0 t1 in
  let ty := gfP2_Sub ty v0 in
  let ty := gfP2_Sub ty v1 in
  let t0 := gfP2_MulXi v2 in
  let ty := gfP2_Add ty t0 in
  let t0 := gfP2_Add (x6 a) (z6 a) in
  let t1 := gfP2_Add (x6 b) (z6 b) in
  let tx := gfP2_Mul t0 t1 in
  let tx := gfP2_Sub tx v0 in
  let tx := gfP2_Add tx v1 in
  let tx := gfP2_Sub tx v2 in
  GfP6 tx ty tz.

Definition gfP6_MulScalar (a : gfP6) (b : gfP2) : gfP6 :=
  GfP6 (gfP2_Mul (x6 a) b) (gfP2_Mul (y6 a) b) (gfP2_Mul (z6 a) b).

Definition gfP6_MulGFP (a : gfP6) (b : Z) : gfP6 :=
  GfP6 (gfP2_MulScalar (x6 a) b) (gfP2_MulScalar (y6 a) b) (gfP2_MulScalar (z6 a) b).

Definition gfP6_MulTau (a : gfP6) : gfP6 :=
  let tz := gfP2_MulXi (x6 a) in
  let ty := y6 a in
  GfP6 ty (z6 a) tz.

Definition gfP6_Square (a : gfP6) : gfP6 :=
  let v0 := gfP2_Square (z6 a) in
  let v1 := gfP2_Square (y6 a) in
  let v2 := gfP2_Square (x6 a) in
  let c0 := gfP2_Add (x6 a) (y6 a) in
  let c0 := gfP2_Square c0 in
  let c0 := gfP2_Sub c0 v1 in
  let c0 := gfP2_Sub c0 v2 in
  let c0 := gfP2_MulXi c0 in
  let c0 := gfP2_Add c0 v0 in
  let c1 := gfP2_Add (y6 a) (z6 a) in
  let c1 := gfP2_Square c1 in
  let c1 := gfP2_Sub c1 v0 in
  let c1 := gfP2_Sub c1 v1 in
  let xiV2 := gfP2_MulXi v2 in
  let c1 := gfP2_Add c1 xiV2 in
  let c2 := gfP2_Add (x6 a) (z6 a) in
  let c2 := gfP2_Square c2 in
  let c2 := gfP2_Sub c2 v0 in
  let c2 := gfP2_Add c2 v1 in
  let c2 := gfP2_Sub c2 v2 in
  GfP6 c2 c1 c0.

Definition gfP6_Invert (a : gfP6) : gfP6 :=
  let A := gfP2_Square (z6 a) in
  let t1 := gfP2_Mul (x6 a) (y6 a) in
  let t1 := gfP2_MulXi t1 in
  let A := gfP2_Sub A t1 in
  let B := gfP2_Square (x6 a) in
  let B := gfP2_MulXi B in
  let t1 := gfP2_Mul (y6 a) (z6 a) in
  let B := gfP2_Sub B t1 in
  let C := gfP2_Square (y6 a) in
  let t1 := gfP2_Mul (x6 a) (z6 a) in
  let C := gfP2_Sub C t1 in
  let F := gfP2_Mul C (y6 a) in
  let F := gfP2_MulXi F in
  let t1 := gfP2_Mul A (z6 a) in
  let F := gfP2_Add F t1 in
  let t1 := gfP2_Mul B (x6 a) in
  let t1 := gfP2_MulXi t1 in
  let F := gfP2_Add F t1 in
  let F := gfP2_Invert F in
  GfP6 (gfP2_Mul C F) (gfP2_Mul B F) (gfP2_Mul A F).

(** ** gfp12.go *)

Record gfP12 := GfP12 { x12 : gfP6; y12 : gfP6 }.

Definition gfP12_SetZero : gfP12 := GfP12 gfP6_SetZero gfP6_SetZero.

Definition gfP12_SetOne : gfP12 := GfP12 gfP6_SetZero gfP6_SetOne.

Definition gfP12_Minimal (e : gfP12) : gfP12 := GfP12 (gfP6_Minimal (x12 e)) (gfP6_Minimal (y12 e)).

(** The test, and the receiver, which is reduced. *)
Definition gfP12_IsZero (e : gfP12) : bool * gfP12 :=
  let e := gfP12_Minimal e in (gfP6_IsZero (x12 e) && gfP6_IsZero (y12 e), e).

Definition gfP12_IsOne (e : gfP12) : bool * gfP12 :=
  let e := gfP12_Minimal e in (gfP6_IsZero (x12 e) && gfP6_IsOne (y12 e), e).

(** The new value of the receiver, and the value that is returned, the argument. *)
Definition gfP12_Conjugate (a : gfP12) : gfP12 * gfP12 :=
  (GfP12 (gfP6_Negative (x12 a)) (y12 a), a).

Definition gfP12_Negative (a : gfP12) : gfP12 :=
  GfP12 (gfP6_Negative (x12 a)) (gfP6_Negative (y12 a)).

Definition gfP12_Frobenius (a : gfP12) : gfP12 :=
  let ex := gfP6_Frobenius (x12 a) in
  let ey := gfP6_Frobenius (y12 a) in
  let ex := gfP6_MulScalar ex xiToPMinus1Over6 in
  GfP12 ex ey.

Definition gfP12_FrobeniusP2 (a : gfP12) : gfP12 :=
  let ex := gfP6_FrobeniusP2 (x12 a) in
  let ex := gfP6_MulGFP ex xiToPSquaredMinus1Over6 in
  let ey := gfP6_FrobeniusP2 (y12 a) in
  GfP12 ex ey.

Definition gfP12_Add (a b : gfP12) : gfP12 := GfP12 (gfP6_Add (x12 a) (x12 b)) (gfP6_Add (y12 a) (y12 b)).

Definition gfP12_Sub (a b : gfP12) : gfP12 := GfP12 (gfP6_Sub (x12 a) (x12 b)) (gfP6_Sub (y12 a) (y12 b)).

Definition gfP12_Mul (a b : gfP12) : gfP12 :=
  let tx := gfP6_Mul (x12 a) (y12 b) in
  let t := gfP6_Mul (x12 b) (y12 a) in
  let tx := gfP6_Add tx t in
  let ty := gfP6_Mul (y12 a) (y12 b) in
  let t := gfP6_Mul (x12 a) (x12 b) in
  let t := gfP6_MulTau t in
  GfP12 tx (gfP6_Add ty t).

(** The operands are those of the receiver [e]: the argument [a] is not used. *)
Definition gfP12_MulScalar (e a : gfP12) (b : gfP6) : gfP12 :=
  GfP12 (gfP6_Mul (x12 e) b) (gfP6_Mul (y12 e) b).

Definition gfP12_Square (a : gfP12) : gfP12 :=
  let v0 := gfP6_Mul (x12 a) (y12 a) in
  let t := gfP6_MulTau (x12 a) in
  let t := gfP6_Add (y12 a) t in
  let ty := gfP6_Add (x12 a) (y12 a) in
  let ty := gfP6_Mul ty t in
  let ty := gfP6_Sub ty v0 in
  let t := gfP6_MulTau v0 in
  let ty := gfP6_Sub ty t in
  GfP12 (gfP6_Double v0) ty.

Definition gfP12_Exp (a : gfP12) (power : Z) : gfP12 :=
  expLoop gfP12_Square gfP12_Mul a power (BitLen power) gfP12_SetOne.

Definition gfP12_Invert (a : gfP12) : gfP12 :=
  let t1 := gfP6_Square (x12 a) in
  let t2 := gfP6_Square (y12 a) in
  let t1 := gfP6_MulTau t1 in
  let t1 := gfP6_Sub t2 t1 in
  let t2 := gfP6_Invert t1 in
  let e := GfP12 (gfP6_Negative (x12 a)) (y12 a) in
  gfP12_MulScalar e e t2.

(** ** The rings *)

(** The element i+3 that the cubic extension adjoins a root of. *)
Definition xi : K2 := Quad 1%Fp (fp 3).

Abbreviation K6 := (cubic K2).

#[export] Instance K6_ring : CRing K6 := cubic_ring xi.

(** The root, which the last extension adjoins a square root of. *)
Definition tau : K6 := kroot.

Abbreviation K12 := (quad K6).

#[export] Instance K12_ring : CRing K12 := quad_ring tau.

Add Ring K2_tower : (cring (R := K2)).
Add Ring K6_tower : (cring (R := K6)).
Add Ring K12_tower : (cring (R := K12)).

Definition val2 (a : gfP2) : K2 := Quad (fp (x2 a)) (fp (y2 a)).

Definition val6 (a : gfP6) : K6 := Cubic (val2 (x6 a)) (val2 (y6 a)) (val2 (z6 a)).

Definition val12 (a : gfP12) : K12 := Quad (val6 (x12 a)) (val6 (y12 a)).

Local Open Scope tower_scope.

(** *** The first level *)

Ltac level2 :=
  intros; repeat match goal with a : gfP2 |- _ => destruct a end;
  unfold val2, gfP2_Add, gfP2_Sub, gfP2_Double, gfP2_Negative, gfP2_Conjugate, gfP2_Mul,
    gfP2_MulScalar, gfP2_MulXi, gfP2_Square; cbn [x2 y2 qx qy cadd cmul csub copp c0 c1 K2_ring quad_ring qmul Fp_ring];
  unfold qmul; cbn [qx qy cadd cmul Fp_ring];
  f_equal; autorewrite with fp; change (fp (-1)) with (@Zmod.opp p Zmod.one); ring.

Lemma val2_Add a b : val2 (gfP2_Add a b) = val2 a + val2 b.
Proof. level2. Qed.

Lemma val2_Sub a b : val2 (gfP2_Sub a b) = val2 a - val2 b.
Proof. level2. Qed.

Lemma val2_Double a : val2 (gfP2_Double a) = val2 a + val2 a.
Proof. level2. Qed.

Lemma val2_Negative a : val2 (gfP2_Negative a) = - val2 a.
Proof. level2. Qed.

Lemma val2_Conjugate a : val2 (gfP2_Conjugate a) = qconj (val2 a).
Proof. unfold qconj. level2. Qed.

Lemma val2_Mul a b : val2 (gfP2_Mul a b) = val2 a * val2 b.
Proof. level2. Qed.

Lemma val2_MulScalar a b : val2 (gfP2_MulScalar a b) = val2 a * Quad 0 (fp b).
Proof. level2. Qed.

Lemma val2_MulXi a : val2 (gfP2_MulXi a) = xi * val2 a.
Proof.
  unfold xi. change (fp 3) with (@Zmod.add p (Zmod.add Zmod.one Zmod.one) Zmod.one). level2.
Qed.

Lemma val2_Square a : val2 (gfP2_Square a) = val2 a * val2 a.
Proof. level2. Qed.

Create Rewrite HintDb val2.
#[export] Hint Rewrite val2_Add val2_Sub val2_Double val2_Negative val2_Conjugate val2_Mul
  val2_MulScalar val2_MulXi val2_Square : val2.

Lemma val2_zero : val2 gfP2_SetZero = 0.
Proof. reflexivity. Qed.

Lemma val2_one : val2 gfP2_SetOne = 1.
Proof. reflexivity. Qed.

Lemma fp_reduce x : fp (reduce x) = fp x.
Proof. unfold reduce. destruct ((x <? 0) || (p <=? x)); [apply fp_mod | reflexivity]. Qed.

Lemma reduce_range x : (0 <= reduce x < p)%Z.
Proof.
  unfold reduce. destruct (x <? 0)%Z eqn:E1; cbn [orb]; [apply Z.mod_pos_bound; reflexivity |].
  destruct (p <=? x)%Z eqn:E2; [apply Z.mod_pos_bound; reflexivity | lia].
Qed.

Lemma val2_Minimal a : val2 (gfP2_Minimal a) = val2 a.
Proof. unfold val2, gfP2_Minimal. cbn [x2 y2]. now rewrite !fp_reduce. Qed.

(** A reduced integer is zero in the field only when it is zero. *)
Lemma fp_0_range x : (- p < x < p)%Z -> fp x = 0%Fp -> x = 0%Z.
Proof.
  intros Hx E. apply fp_zero_iff, Z.mod_divide in E; [| discriminate].
  destruct E as [k ->]. assert (k = 0)%Z as -> by nia. reflexivity.
Qed.

(** The inverse: the leftover of the pool does not matter. *)
Lemma val2_InvertFrom l a : val2 (gfP2_InvertFrom l a) = / val2 a.
Proof.
  destruct a as [x y]. unfold val2. cbn [cinv K2_field quad_field]. 
  unfold quad_inv, qscale, qconj, qnorm, gfP2_InvertFrom. cbn [x2 y2 qx qy cinv Fp_CField].
  assert (fp (y * y + x * x) = fp y * fp y - fp (-1) * (fp x * fp x)) as En.
  { autorewrite with fp. change (fp (-1)) with (@Zmod.opp p Zmod.one). cbn [cadd cmul csub Fp_ring]. ring. }
  rewrite <- En. unfold ModInverse. rewrite gcd_p.
  destruct (Z.eqb_spec ((y * y + x * x) mod p) 0) as [H | H]; cbn [negb].
  - rewrite <- fp_zero_iff in H. rewrite H, Fp_inv_0. rewrite H in En.
    assert (Quad (fp x) (fp y) = 0 :> K2) as E0.
    { destruct (c_eq_dec (Quad (fp x) (fp y)) (0 : K2)) as [C | C]; [exact C |].
      apply (qnorm_nz (CR := Fp_ring) (fp (-1)) Fp_opp_1_nonsquare) in C.
      contradiction C. symmetry. exact En. }
    pose proof (f_equal qx E0 : fp x = 0%Fp) as Hx. pose proof (f_equal qy E0 : fp y = 0%Fp) as Hy.
    autorewrite with fp. rewrite Hx, Hy. cbn [c0 Fp_ring cmul copp].
    f_equal; ring.
  - rewrite !fp_mod, !fp_mul, !fp_opp, fp_invmod. reflexivity.
Qed.

Lemma val2_Invert a : val2 (gfP2_Invert a) = / val2 a.
Proof. apply val2_InvertFrom. Qed.

Lemma gfP2_InvertFrom_leftover l a : gfP2_InvertFrom l a = gfP2_Invert a.
Proof.
  pose proof (val2_InvertFrom l a) as E. rewrite <- val2_Invert in E. revert E.
  unfold gfP2_Invert, gfP2_InvertFrom, val2. intros E.
  pose proof (f_equal qx E) as Ex. pose proof (f_equal qy E) as Ey. revert Ex Ey. cbn [qx qy x2 y2].
  unfold fp. rewrite !Zmod.of_Z_inj, !Z.mod_mod by discriminate. cbn [x2 y2]. congruence.
Qed.

(** *** The p-th power of the first level *)

Lemma Fp_pow (x : Fp) : npow x (Z.to_nat p) = x.
Proof.
  assert (forall n, npow x n = Zmod.pow x (Z.of_nat n)) as E.
  { induction n as [| n IH]; [symmetry; apply Zmod.pow_0_r |].
    rewrite Nat2Z.inj_succ, Zmod.pow_succ_nonneg_r by lia. cbn [npow]. now rewrite IH. }
  rewrite E, Z2Nat.id by discriminate. apply Zmod.fermat, prime_bn.
Qed.

Lemma prime_nat : Z.prime (Z.of_nat (Z.to_nat p)).
Proof. rewrite Z2Nat.id by discriminate. exact prime_bn. Qed.

(** *** Exponentiation *)

Section exponentiation.
Context {T R : Type} {CR : CRing R} (val : T -> R) (square : T -> T) (mul : T -> T -> T).
Hypothesis val_square : forall a, val (square a) = val a * val a.
Hypothesis val_mul : forall a b, val (mul a b) = val a * val b.

Add Ring R_exp : (cring (R := R)).

Lemma expLoop_val a power i : forall sum,
  val (expLoop square mul a power i sum) =
    pow (val sum) (2 ^ Z.of_nat i) * pow (val a) (power mod 2 ^ Z.of_nat i).
Proof using All.
  induction i as [| i IH]; intros sum; cbn [expLoop].
  { change (2 ^ Z.of_nat 0)%Z with 1%Z. rewrite Z.mod_1_r, pow_0_r, pow_1_r. ring. }
  assert (0 < 2 ^ Z.of_nat i)%Z by (apply Z.pow_pos_nonneg; lia).
  assert (0 <= power mod 2 ^ Z.of_nat i)%Z by (apply Z.mod_pos_bound; lia).
  rewrite IH, Nat2Z.inj_succ, Z.pow_succ_r, (Z.mul_comm 2), Z.rem_mul_r, <- Z.testbit_spec' by lia.
  assert (0 <= 2 ^ Z.of_nat i * Z.b2z (Z.testbit power (Z.of_nat i)))%Z by
    (apply Z.mul_nonneg_nonneg; [lia | now destruct (Z.testbit power (Z.of_nat i))]).
  rewrite (pow_add (val a)) by assumption.
  rewrite (Z.mul_comm _ 2), (pow_mul (val sum)) by lia.
  change (pow (val sum) 2) with (val sum * val sum).
  destruct (Z.testbit power (Z.of_nat i)); cbn [Z.b2z]; rewrite ?val_mul, val_square.
  - rewrite Z.mul_1_r, !pow_mul_l. ring.
  - rewrite Z.mul_0_r, pow_0_r. ring.
Qed.

Lemma BitLen_bound x : (0 <= x < 2 ^ Z.of_nat (BitLen x) \/ x < 0)%Z.
Proof.
  destruct (Z.lt_ge_cases x 0) as [H | H]; [now right | left]. split; [exact H |].
  unfold BitLen. destruct (Z.eqb_spec x 0) as [-> | Hx]; [reflexivity |].
  rewrite Z.abs_eq, Z2Nat.id by (try apply Z.add_nonneg_nonneg; try apply Z.log2_nonneg; lia).
  apply Z.log2_spec. lia.
Qed.

Lemma exp_val one a power :
  val one = 1 -> (0 <= power)%Z ->
  val (expLoop square mul a power (BitLen power) one) = pow (val a) power.
Proof using All.
  intros H1 Hp. rewrite expLoop_val, H1, pow_1, (Rmul_1_l cring). f_equal.
  apply Z.mod_small. destruct (BitLen_bound power); lia.
Qed.
End exponentiation.

Lemma val2_Exp a power : (0 <= power)%Z -> val2 (gfP2_Exp a power) = pow (val2 a) power.
Proof. apply exp_val; [apply val2_Square | apply val2_Mul | reflexivity]. Qed.

(** The first constant is the power of xi that its name says. *)
Definition xi_exponent : positive := Eval vm_compute in Z.to_pos ((p - 1) / 6).

Definition xi_computed : bigZ * bigZ :=
  tpow (A := big2_arith) (BigZ.one, BigZ.of_Z 3) xi_exponent.

Lemma xi_computed_eq :
  (BigZ.to_Z (fst xi_computed) = x2 xiToPMinus1Over6 /\
   BigZ.to_Z (snd xi_computed) = y2 xiToPMinus1Over6)%Z.
Proof. vm_compute. split; reflexivity. Qed.

Lemma xi_power : pow xi ((p - 1) / 6) = val2 xiToPMinus1Over6.
Proof.
  replace ((p - 1) / 6)%Z with (Zpos xi_exponent) by (vm_compute; reflexivity).
  transitivity (bval xi_computed).
  - symmetry. exact (tval_pow (A := big2_arith) (BigZ.one, BigZ.of_Z 3) xi_exponent).
  - destruct xi_computed_eq as [Ex Ey]. unfold bval, bfp, val2. now rewrite Ex, Ey.
Qed.

(** *** The p-th power *)

Lemma Fp_char : times (Z.to_nat p) (1 : Fp) = 0.
Proof.
  assert (forall n, times n (1 : Fp) = fp (Z.of_nat n)) as E.
  { induction n as [| n IH]; [reflexivity |].
    rewrite Nat2Z.inj_succ. cbn [times]. rewrite IH, <- Z.add_1_l, fp_add. reflexivity. }
  rewrite E, Z2Nat.id by discriminate. reflexivity.
Qed.

Lemma p_nat k : (0 < k)%Z -> ((p - 1) mod k = 0)%Z ->
  Z.to_nat p = (Z.to_nat k * Z.to_nat ((p - 1) / k) + 1)%nat.
Proof.
  intros Hk Hm. assert (0 <= (p - 1) / k)%Z by (apply Z.div_pos; [discriminate | exact Hk]).
  pose proof (Z.div_mod (p - 1) k). nia.
Qed.

Lemma sign_power : npow (fp (-1)) (Z.to_nat ((p - 1) / 2)) = fp (-1).
Proof.
  change ((p - 1) / 2)%Z with (1 + 2 * ((p - 3) / 4))%Z.
  rewrite Z2Nat.inj_add, Z2Nat.inj_mul, npow_add, npow_mul by (vm_compute; discriminate).
  change (npow (fp (-1)) (Z.to_nat 2)) with (1 : Fp). rewrite npow_1. reflexivity.
Qed.

(** The p-th power of the first level is the conjugate. *)
Lemma K2_pow_p (a : K2) : pow a p = qconj a.
Proof.
  destruct a as [x y]. rewrite pow_npow.
  etransitivity; [exact (quad_frobenius (fp (-1)) _ (Z.to_nat ((p - 1) / 2)) x y prime_nat Fp_char
    (p_nat 2 eq_refl eq_refl)) |].
  unfold qconj. cbn [qx qy]. apply f_equal2; [| apply Fp_pow].
  transitivity (x * fp (-1)); [apply f_equal2; [apply Fp_pow | apply sign_power] |].
  change (fp (-1)) with (@Zmod.opp p Zmod.one). cbn [cmul copp Fp_ring]. ring.
Qed.

Lemma K2_pow_order (w : K2) : w <> 0 -> pow w (p * p - 1) = 1.
Proof.
  intros Hw. apply (unit_cancel w); [now apply unit_nz |].
  transitivity (pow w (1 + (p * p - 1))).
  - rewrite pow_add by (vm_compute; discriminate). now rewrite pow_1_r.
  - replace (1 + (p * p - 1))%Z with (p * p)%Z by ring.
    rewrite pow_mul, !K2_pow_p by (vm_compute; discriminate).
    destruct w as [x y]. unfold qconj. cbn [qx qy c1 K2_ring quad_ring cmul copp Fp_ring].
    unfold qmul. cbn [qx qy cadd cmul c1 c0 Fp_ring]. f_equal; ring.
Qed.

Abbreviation g := (val2 xiToPMinus1Over6).

Lemma xi_power_norm k : (0 <= k)%Z -> pow xi ((p - 1) / 6 * ((p + 1) * k)) = pow (qconj g * g) k.
Proof.
  intros Hk. assert (0 <= (p + 1) * k)%Z by (apply Z.mul_nonneg_nonneg; [discriminate | exact Hk]).
  rewrite pow_mul by (assumption || (vm_compute; discriminate)).
  rewrite xi_power, pow_mul by (assumption || discriminate).
  rewrite pow_add, pow_1_r, K2_pow_p by discriminate.
  reflexivity.
Qed.

Ltac compute_distinct C :=
  apply (f_equal (fun a : K2 => Zmod.unsigned (qy a))) in C; vm_compute in C; discriminate C.

Lemma xi_noncube (w : K2) : w * w * w <> xi.
Proof.
  intros E. assert (w <> 0) as Hw.
  { intros ->. assert (xi = 0) as C by (rewrite <- E; ring). compute_distinct C. }
  pose proof (K2_pow_order w Hw) as H1.
  change (p * p - 1)%Z with (3 * ((p - 1) / 6 * ((p + 1) * 2)))%Z in H1.
  rewrite pow_mul in H1 by (vm_compute; discriminate).
  replace (pow w 3) with xi in H1 by (rewrite <- E; reflexivity).
  rewrite xi_power_norm in H1 by lia. compute_distinct H1.
Qed.

#[export] Instance K6_field : CField K6 := cubic_field xi xi_noncube.

Lemma xi_nonsquare (w : K2) : w * w <> xi.
Proof.
  intros E. assert (w <> 0) as Hw.
  { intros ->. assert (xi = 0) as C by (rewrite <- E; ring). compute_distinct C. }
  pose proof (K2_pow_order w Hw) as H1.
  change (p * p - 1)%Z with (2 * ((p - 1) / 6 * ((p + 1) * 3)))%Z in H1.
  rewrite pow_mul in H1 by (vm_compute; discriminate).
  replace (pow w 2) with xi in H1 by (rewrite <- E; reflexivity).
  rewrite xi_power_norm in H1 by lia. compute_distinct H1.
Qed.

Lemma tau_nonsquare (w : K6) : w * w <> tau.
Proof.
  intros E. apply (xi_nonsquare (knorm xi w)). rewrite <- knorm_mul.
  change (kmul xi w w) with (w * w). rewrite E. unfold knorm, tau, kroot. cbn [kx ky kz]. ring.
Qed.

#[export] Instance K12_field : CField K12 := quad_field tau tau_nonsquare.

(** *** The second level *)

Ltac level6 :=
  intros; unfold val6, gfP6_Add, gfP6_Sub, gfP6_Double, gfP6_Negative, gfP6_Mul, gfP6_MulScalar,
    gfP6_MulGFP, gfP6_MulTau, gfP6_Square; cbn [x6 y6 z6]; autorewrite with val2;
  cbn [cadd cmul csub copp K6_ring cubic_ring]; unfold kmul; cbn [kx ky kz]; f_equal; ring.

Lemma val6_zero : val6 gfP6_SetZero = 0.
Proof. reflexivity. Qed.

Lemma val6_one : val6 gfP6_SetOne = 1.
Proof. reflexivity. Qed.

Lemma val6_Add a b : val6 (gfP6_Add a b) = val6 a + val6 b.
Proof. level6. Qed.

Lemma val6_Sub a b : val6 (gfP6_Sub a b) = val6 a - val6 b.
Proof. level6. Qed.

Lemma val6_Double a : val6 (gfP6_Double a) = val6 a + val6 a.
Proof. level6. Qed.

Lemma val6_Negative a : val6 (gfP6_Negative a) = - val6 a.
Proof. level6. Qed.

Lemma val6_Mul a b : val6 (gfP6_Mul a b) = val6 a * val6 b.
Proof. level6. Qed.

Lemma val6_MulScalar a b : val6 (gfP6_MulScalar a b) = val6 a * Cubic 0 0 (val2 b).
Proof. level6. Qed.

Lemma val6_MulGFP a b : val6 (gfP6_MulGFP a b) = val6 a * Cubic 0 0 (Quad 0 (fp b)).
Proof. level6. Qed.

Lemma val6_MulTau a : val6 (gfP6_MulTau a) = tau * val6 a.
Proof. unfold tau, kroot. level6. Qed.

Lemma val6_Square a : val6 (gfP6_Square a) = val6 a * val6 a.
Proof. level6. Qed.

Create Rewrite HintDb val6.
#[export] Hint Rewrite val6_Add val6_Sub val6_Double val6_Negative val6_Mul val6_MulScalar
  val6_MulGFP val6_MulTau val6_Square : val6.

Lemma val6_Minimal a : val6 (gfP6_Minimal a) = val6 a.
Proof. unfold val6, gfP6_Minimal. cbn [x6 y6 z6]. now rewrite !val2_Minimal. Qed.

Lemma val6_Invert a : val6 (gfP6_Invert a) = / val6 a.
Proof.
  unfold gfP6_Invert, val6. cbn [x6 y6 z6]. autorewrite with val2. rewrite !val2_Invert.
  autorewrite with val2. cbn [cinv K6_field cubic_field]. unfold cubic_inv, kscale, kadj.
  cbn [kx ky kz]. match goal with |- context [/ ?n] =>
    replace n with (knorm xi (Cubic (val2 (x6 a)) (val2 (y6 a)) (val2 (z6 a))))
      by (unfold knorm; cbn [kx ky kz]; ring) end.
  f_equal; f_equal; ring.
Qed.

(** *** The last level *)

Ltac level12 :=
  intros; unfold val12, gfP12_Add, gfP12_Sub, gfP12_Negative, gfP12_Mul, gfP12_Square,
    gfP12_MulScalar; cbn [x12 y12]; autorewrite with val6;
  cbn [cadd cmul csub copp K12_ring quad_ring]; unfold qmul; cbn [qx qy]; f_equal; ring.

Lemma val12_one : val12 gfP12_SetOne = 1.
Proof. reflexivity. Qed.

Lemma val12_Add a b : val12 (gfP12_Add a b) = val12 a + val12 b.
Proof. level12. Qed.

Lemma val12_Sub a b : val12 (gfP12_Sub a b) = val12 a - val12 b.
Proof. level12. Qed.

Lemma val12_Negative a : val12 (gfP12_Negative a) = - val12 a.
Proof. level12. Qed.

Lemma val12_Mul a b : val12 (gfP12_Mul a b) = val12 a * val12 b.
Proof. level12. Qed.

Lemma val12_MulScalar e a b : val12 (gfP12_MulScalar e a b) = val12 e * Quad 0 (val6 b).
Proof. level12. Qed.

Lemma val12_Square a : val12 (gfP12_Square a) = val12 a * val12 a.
Proof. level12. Qed.

Lemma val12_Minimal a : val12 (gfP12_Minimal a) = val12 a.
Proof. unfold val12, gfP12_Minimal. cbn [x12 y12]. now rewrite !val6_Minimal. Qed.

Lemma val12_Conjugate a : val12 (fst (gfP12_Conjugate a)) = qconj (val12 a).
Proof. unfold val12, gfP12_Conjugate, qconj. cbn [fst x12 y12 qx qy]. now rewrite val6_Negative. Qed.

Lemma val12_Invert a : val12 (gfP12_Invert a) = / val12 a.
Proof.
  unfold gfP12_Invert. rewrite val12_MulScalar, val6_Invert.
  unfold val12. cbn [x12 y12]. autorewrite with val6.
  cbn [cmul cinv K12_ring K12_field quad_ring quad_field]. unfold quad_inv, qscale, qconj, qmul.
  cbn [qx qy]. match goal with |- context [/ ?n] =>
    replace n with (qnorm tau (Quad (val6 (x12 a)) (val6 (y12 a))))
      by (unfold qnorm; cbn [qx qy]; ring) end.
  f_equal; ring.
Qed.

Lemma val12_Exp a power : (0 <= power)%Z -> val12 (gfP12_Exp a power) = pow (val12 a) power.
Proof. apply exp_val; [apply val12_Square | apply val12_Mul | reflexivity]. Qed.

(** *** The Frobenius endomorphisms are powers *)

Lemma val2_code a b c : gfP2_Mul a b = c -> val2 c = val2 a * val2 b.
Proof. intros <-. apply val2_Mul. Qed.

Lemma const_third : val2 xiToPMinus1Over3 = g * g.
Proof. apply val2_code. vm_compute. reflexivity. Qed.

Lemma const_half : val2 xiToPMinus1Over2 = g * g * g.
Proof. rewrite <- const_third. apply val2_code. vm_compute. reflexivity. Qed.

Lemma const_two_thirds : val2 xiTo2PMinus2Over3 = g * g * (g * g).
Proof. rewrite <- const_third. apply val2_code. vm_compute. reflexivity. Qed.

(** The norm of [g], a number. *)
Definition gnorm : K2 := Quad 0 (fp xiToPSquaredMinus1Over6).

Lemma gnorm_eq : qconj g * g = gnorm.
Proof.
  unfold gnorm. change 0 with (fp 0).
  change (Quad (fp 0) (fp xiToPSquaredMinus1Over6)) with (val2 (GfP2 0 xiToPSquaredMinus1Over6)).
  rewrite <- val2_Conjugate. symmetry. apply val2_code. vm_compute. reflexivity.
Qed.

Lemma gnorm_square : gnorm * gnorm = Quad 0 (fp xiToPSquaredMinus1Over3).
Proof.
  symmetry. exact (val2_code (GfP2 0 xiToPSquaredMinus1Over6) (GfP2 0 xiToPSquaredMinus1Over6)
    (GfP2 0 xiToPSquaredMinus1Over3) ltac:(vm_compute; reflexivity)).
Qed.

Lemma gnorm_fourth : gnorm * gnorm * (gnorm * gnorm) = Quad 0 (fp xiTo2PSquaredMinus2Over3).
Proof.
  rewrite gnorm_square. symmetry.
  exact (val2_code (GfP2 0 xiToPSquaredMinus1Over3) (GfP2 0 xiToPSquaredMinus1Over3)
    (GfP2 0 xiTo2PSquaredMinus2Over3) ltac:(vm_compute; reflexivity)).
Qed.

Lemma gnorm_cube : gnorm * gnorm * gnorm = - (1).
Proof.
  rewrite gnorm_square. symmetry. change (- (1) : K2) with (val2 (GfP2 0 (p - 1))).
  exact (val2_code (GfP2 0 xiToPSquaredMinus1Over3) (GfP2 0 xiToPSquaredMinus1Over6)
    (GfP2 0 (p - 1)) ltac:(vm_compute; reflexivity)).
Qed.

Lemma xi_third : npow xi (Z.to_nat ((p - 1) / 3)) = g * g.
Proof.
  change ((p - 1) / 3)%Z with ((p - 1) / 6 * 2)%Z.
  rewrite <- pow_npow, pow_mul, xi_power by (vm_compute; discriminate). reflexivity.
Qed.

Lemma K2_char : times (Z.to_nat p) (1 : K2) = 0.
Proof. exact (quad_char (fp (-1)) _ Fp_char). Qed.

Lemma K6_char : times (Z.to_nat p) (1 : K6) = 0.
Proof. exact (cubic_char xi _ K2_char). Qed.

Lemma K6_pow_p (x y z : K2) :
  pow (Cubic x y z : K6) p = Cubic (qconj x * (g * g * (g * g))) (qconj y * (g * g)) (qconj z).
Proof.
  rewrite pow_npow.
  etransitivity; [exact (cubic_frobenius xi _ (Z.to_nat ((p - 1) / 3)) x y z prime_nat K2_char
    (p_nat 3 eq_refl eq_refl)) |].
  rewrite <- (K2_pow_p x), <- (K2_pow_p y), <- (K2_pow_p z), (pow_npow x), (pow_npow y),
    (pow_npow z), xi_third. reflexivity.
Qed.

Lemma tau_half : npow tau (Z.to_nat ((p - 1) / 2)) = Cubic 0 0 g.
Proof.
  replace (Z.to_nat ((p - 1) / 2)) with (3 * Z.to_nat ((p - 1) / 6))%nat.
  - etransitivity; [exact (kroot_npow xi (Z.to_nat ((p - 1) / 6))) |].
    now rewrite <- pow_npow, xi_power.
  - change ((p - 1) / 2)%Z with (3 * ((p - 1) / 6))%Z.
    rewrite Z2Nat.inj_mul by (vm_compute; discriminate). reflexivity.
Qed.

Lemma K12_pow_p (x y : K6) : pow (Quad x y : K12) p = Quad (pow x p * Cubic 0 0 g) (pow y p).
Proof.
  rewrite pow_npow.
  etransitivity; [exact (quad_frobenius tau _ (Z.to_nat ((p - 1) / 2)) x y prime_nat K6_char
    (p_nat 2 eq_refl eq_refl)) |].
  rewrite (pow_npow x), (pow_npow y), tau_half. reflexivity.
Qed.

Lemma val6_Frobenius a : val6 (gfP6_Frobenius a) = pow (val6 a) p.
Proof.
  unfold val6. rewrite K6_pow_p. unfold gfP6_Frobenius. cbn [x6 y6 z6].
  autorewrite with val2. now rewrite const_third, const_two_thirds.
Qed.

Lemma val12_Frobenius a : val12 (gfP12_Frobenius a) = pow (val12 a) p.
Proof.
  unfold val12. rewrite K12_pow_p. unfold gfP12_Frobenius. cbn [x12 y12].
  now rewrite val6_MulScalar, !val6_Frobenius.
Qed.

Lemma qconj_involutive (x : K2) : qconj (qconj x) = x.
Proof. destruct x as [a b]. unfold qconj. cbn [qx qy copp Fp_ring]. f_equal. ring. Qed.

Lemma K2_conj_mul (x y : K2) : qconj (x * y) = qconj x * qconj y.
Proof. apply qconj_mul. Qed.

Lemma K6_pow_p2 (x y z : K2) :
  pow (Cubic x y z : K6) (p * p) =
    Cubic (x * (gnorm * gnorm * (gnorm * gnorm))) (y * (gnorm * gnorm)) z.
Proof.
  rewrite pow_mul by discriminate. rewrite !K6_pow_p, !K2_conj_mul, !qconj_involutive, <- !gnorm_eq.
  generalize g. intros h. f_equal; ring.
Qed.

Lemma K6_base_pow_p (x : K2) : pow (Cubic 0 0 x : K6) p = Cubic 0 0 (qconj x).
Proof.
  rewrite K6_pow_p. replace (qconj (0 : K2)) with (0 : K2) by reflexivity.
  generalize g. intros h. f_equal; ring.
Qed.

Lemma K12_pow_p2 (x y : K6) :
  pow (Quad x y : K12) (p * p) = Quad (pow x (p * p) * Cubic 0 0 gnorm) (pow y (p * p)).
Proof.
  rewrite !pow_mul by discriminate. rewrite !K12_pow_p, pow_mul_l, K6_base_pow_p, <- gnorm_eq.
  apply (f_equal2 Quad); [| reflexivity]. rewrite <- cmul_assoc.
  apply (f_equal (cmul (pow (pow x p) p))). apply cubic_base_mul.
Qed.

Lemma val6_FrobeniusP2 a : val6 (gfP6_FrobeniusP2 a) = pow (val6 a) (p * p).
Proof.
  unfold val6. rewrite K6_pow_p2, gnorm_fourth, gnorm_square. unfold gfP6_FrobeniusP2.
  cbn [x6 y6 z6]. now rewrite !val2_MulScalar.
Qed.

Lemma val12_FrobeniusP2 a : val12 (gfP12_FrobeniusP2 a) = pow (val12 a) (p * p).
Proof.
  unfold val12. rewrite K12_pow_p2. unfold gfP12_FrobeniusP2. cbn [x12 y12].
  now rewrite val6_MulGFP, !val6_FrobeniusP2.
Qed.

(** The sixth power of the Frobenius endomorphism is the conjugation. *)
Lemma K6_pow_p6 (a : K6) : pow a (p * p * (p * p) * (p * p)) = a.
Proof.
  destruct a as [x y z]. rewrite pow_mul, (pow_mul _ (p * p) (p * p)), !K6_pow_p2 by discriminate.
  pose proof gnorm_cube as E.
  assert (gnorm * gnorm * (gnorm * gnorm * gnorm) * gnorm = 1) as E6.
  { rewrite E. transitivity (- (gnorm * gnorm * gnorm)); [ring | rewrite E; ring]. }
  f_equal.
  - transitivity (x * (gnorm * gnorm * (gnorm * gnorm * gnorm) * gnorm *
                      (gnorm * gnorm * (gnorm * gnorm * gnorm) * gnorm))); [ring | rewrite E6; ring].
  - transitivity (y * (gnorm * gnorm * (gnorm * gnorm * gnorm) * gnorm)); [ring | rewrite E6; ring].
Qed.

Lemma K12_pow_p6 (a : K12) : pow a (p * p * (p * p) * (p * p)) = qconj a.
Proof.
  destruct a as [x y]. rewrite pow_mul, (pow_mul _ (p * p) (p * p)), !K12_pow_p2 by discriminate.
  rewrite !pow_mul_l.
  assert (pow (Cubic 0 0 gnorm : K6) (p * p) = Cubic 0 0 gnorm) as ->
    by (rewrite K6_pow_p2; f_equal; ring).
  assert (pow (Cubic 0 0 gnorm : K6) (p * p) = Cubic 0 0 gnorm) as ->
    by (rewrite K6_pow_p2; f_equal; ring).
  rewrite <- !pow_mul, !K6_pow_p6 by discriminate. unfold qconj. cbn [qx qy].
  apply (f_equal2 Quad); [| reflexivity]. rewrite <- !cmul_assoc.
  assert (Cubic 0 0 gnorm * (Cubic 0 0 gnorm * Cubic 0 0 gnorm) = - (1) :> K6) as ->; [| ring].
  etransitivity; [apply f_equal, cubic_base_mul |]. etransitivity; [apply cubic_base_mul |].
  rewrite cmul_assoc, gnorm_cube. reflexivity.
Qed.

(** *** The tests *)

Lemma reduce_zero x : (reduce x =? 0)%Z = true <-> fp x = 0.
Proof.
  rewrite Z.eqb_eq, <- fp_reduce. pose proof (reduce_range x). split.
  - intros ->. reflexivity.
  - apply fp_0_range. lia.
Qed.

Lemma reduce_one x : (Z.abs (reduce x) =? 1)%Z = true <-> fp x = 1.
Proof.
  pose proof (reduce_range x). rewrite Z.abs_eq, Z.eqb_eq, <- fp_reduce by lia. split.
  - intros ->. reflexivity.
  - intros E. assert (1 < p)%Z by reflexivity. apply Z.sub_move_0_r, fp_0_range; [lia |]. rewrite fp_sub, E.
    cbn [c1 Fp_ring]. rewrite fp_1. ring.
Qed.

Lemma gfP2_IsZero_spec e : gfP2_IsZero (gfP2_Minimal e) = true <-> val2 e = 0.
Proof.
  unfold gfP2_IsZero, gfP2_Minimal, val2. cbn [x2 y2]. rewrite andb_true_iff, !reduce_zero. split.
  - intros [-> ->]. reflexivity.
  - intros E. split; [exact (f_equal qx E) | exact (f_equal qy E)].
Qed.

Lemma gfP2_IsOne_spec e : gfP2_IsOne (gfP2_Minimal e) = true <-> val2 e = 1.
Proof.
  unfold gfP2_IsOne, gfP2_Minimal, val2. cbn [x2 y2].
  transitivity ((reduce (x2 e) =? 0)%Z = true /\ (Z.abs (reduce (y2 e)) =? 1)%Z = true).
  { destruct (reduce (x2 e) =? 0)%Z; cbn [negb]; [tauto | intuition discriminate]. }
  rewrite reduce_zero, reduce_one. split.
  - intros [-> ->]. reflexivity.
  - intros E. split; [exact (f_equal qx E) | exact (f_equal qy E)].
Qed.

Lemma gfP6_IsZero_spec e : gfP6_IsZero (gfP6_Minimal e) = true <-> val6 e = 0.
Proof.
  unfold gfP6_IsZero, gfP6_Minimal, val6. cbn [x6 y6 z6].
  rewrite !andb_true_iff, !gfP2_IsZero_spec. split.
  - intros [[-> ->] ->]. reflexivity.
  - intros E. repeat split; [exact (f_equal kx E) | exact (f_equal ky E) | exact (f_equal kz E)].
Qed.

Lemma gfP6_IsOne_spec e : gfP6_IsOne (gfP6_Minimal e) = true <-> val6 e = 1.
Proof.
  unfold gfP6_IsOne, gfP6_Minimal, val6. cbn [x6 y6 z6].
  rewrite !andb_true_iff, !gfP2_IsZero_spec, gfP2_IsOne_spec. split.
  - intros [[-> ->] ->]. reflexivity.
  - intros E. repeat split; [exact (f_equal kx E) | exact (f_equal ky E) | exact (f_equal kz E)].
Qed.

Lemma gfP12_IsZero_spec e : fst (gfP12_IsZero e) = true <-> val12 e = 0.
Proof.
  unfold gfP12_IsZero, gfP12_Minimal, val12. cbn [fst x12 y12].
  rewrite andb_true_iff, !gfP6_IsZero_spec. split.
  - intros [-> ->]. reflexivity.
  - intros E. split; [exact (f_equal qx E) | exact (f_equal qy E)].
Qed.

Lemma gfP12_IsOne_spec e : fst (gfP12_IsOne e) = true <-> val12 e = 1.
Proof.
  unfold gfP12_IsOne, gfP12_Minimal, val12. cbn [fst x12 y12].
  rewrite andb_true_iff, gfP6_IsZero_spec, gfP6_IsOne_spec. split.
  - intros [-> ->]. reflexivity.
  - intros E. split; [exact (f_equal qx E) | exact (f_equal qy E)].
Qed.

(** Every element of the last level but zero has the order of its group of units. *)
Lemma K12_pow_p12 (a : K12) :
  a <> 0 -> pow a (p * p * (p * p) * (p * p) * (p * p * (p * p) * (p * p)) - 1) = 1.
Proof.
  intros Ha. apply (unit_cancel a); [now apply unit_nz |].
  transitivity (pow a (1 + (p * p * (p * p) * (p * p) * (p * p * (p * p) * (p * p)) - 1))).
  - rewrite pow_add by (vm_compute; discriminate). now rewrite pow_1_r.
  - rewrite Z.add_sub_assoc, Z.add_simpl_l, pow_mul, !K12_pow_p6 by discriminate.
    destruct a as [x y]. unfold qconj. cbn [qx qy]. rewrite cmul_1_r.
    apply (f_equal2 Quad); [ring | reflexivity].
Qed.

(** ** Properties *)

(** C34: the tower of fields of the pairing.  The prime is prime and -1, xi and tau
    have no roots below, so that the three levels are fields, and the operations on
    twelve integers are those of the last: Karatsuba products, squares, differences,
    the inverse, with zero for the inverse of zero whatever the pool left in its
    integer, powers by square and multiply, and the tests, which reduce first;
    [Frobenius] is the p-th power and [FrobeniusP2] its square, because the constants
    are the powers of xi that their names say. *)
Theorem bn_field a b k l :
  (0 <= k)%Z ->
  Z.prime p /\ pow xi ((p - 1) / 6) = val2 xiToPMinus1Over6 /\
  val12 (gfP12_Add a b) = val12 a + val12 b /\ val12 (gfP12_Sub a b) = val12 a - val12 b /\
  val12 (gfP12_Negative a) = - val12 a /\
  val12 (gfP12_Mul a b) = val12 a * val12 b /\ val12 (gfP12_Square a) = val12 a * val12 a /\
  (val12 a <> 0 -> val12 a * val12 (gfP12_Invert a) = 1) /\
  (val12 a = 0 -> val12 (gfP12_Invert a) = 0) /\
  gfP2_InvertFrom l (x6 (x12 a)) = gfP2_Invert (x6 (x12 a)) /\
  val12 (gfP12_Exp a k) = pow (val12 a) k /\
  val12 (gfP12_Frobenius a) = pow (val12 a) p /\
  val12 (gfP12_FrobeniusP2 a) = pow (val12 a) (p * p) /\
  val12 (fst (gfP12_Conjugate a)) = pow (val12 a) (p * p * (p * p) * (p * p)) /\
  (fst (gfP12_IsZero a) = true <-> val12 a = 0) /\ (fst (gfP12_IsOne a) = true <-> val12 a = 1).
Proof.
  intros Hk.
  repeat match goal with |- _ /\ _ => split end.
  - exact prime_bn.
  - exact xi_power.
  - apply val12_Add.
  - apply val12_Sub.
  - apply val12_Negative.
  - apply val12_Mul.
  - apply val12_Square.
  - intros N. rewrite val12_Invert. now apply cinv_r.
  - intros E. rewrite val12_Invert, E. apply cinv_0.
  - apply gfP2_InvertFrom_leftover.
  - now apply val12_Exp.
  - apply val12_Frobenius.
  - apply val12_FrobeniusP2.
  - rewrite K12_pow_p6. apply val12_Conjugate.
  - apply gfP12_IsZero_spec.
  - apply gfP12_IsOne_spec.
Qed.

Lemma bn_field_witness :
  val12 (gfP12_Exp gfP12_SetOne 5) = pow (val12 gfP12_SetOne) 5 /\
  val12 gfP12_SetOne * val12 (gfP12_Invert gfP12_SetOne) = 1.
Proof.
  destruct (bn_field gfP12_SetOne gfP12_SetOne 5 0) as (_ & _ & _ & _ & _ & _ & _ & I & _ & _ & E & _);
    [lia |].
  split; [exact E |]. apply I. exact (c1_neq_0 (R := K12)).
Defined.
