(* ===== verification/Bn256Curve.v ===== *)
(** * The two curves of the pairing

    Model of [src/golang-x-crypto/bn256/curve.go] and [twist.go]: the points of y^2 = x^3 + 3
    over the prime field and of y^2 = x^3 + 3/xi over its quadratic extension, in Jacobian
    coordinates on integers that are reduced now and then.  [curve_point] and [twist_point]
    map them to the points of [Weierstrass], and the operations are those of its group.

    A method [c.M(a)] takes the old value of its receiver, whose field [t] most methods keep,
    and returns the new one.  [same] tells whether the receiver and the argument are the same
    object: [Double] reads a coordinate of its argument after it has written the receiver. *)

From Bignums Require Import BigZ.BigZ.
From S2P Require Import Prelude BnPrime Tower Weierstrass BnCompute Bn256Field.

(** ** curve.go *)

Record curvePoint := CurvePoint { cx : Z; cy : Z; cz : Z; ct : Z }.

Definition curveB : Z := 3.

Definition curveGen : curvePoint := CurvePoint 1 (-2) 1 1.

Definition newCurvePoint : curvePoint := CurvePoint 0 0 0 0.

Definition curvePoint_IsOnCurve (c : curvePoint) : bool :=
  let yy := cy c * cy c in
  let xxx := cx c * cx c in
  let xxx := xxx * cx c in
  let yy := yy - xxx in
  let yy := yy - curveB in
  let yy := reduce yy in
  yy =? 0.

Definition curvePoint_SetInfinity (c : curvePoint) : curvePoint := CurvePoint (cx c) (cy c) 0 (ct c).

Definition curvePoint_IsInfinity (c : curvePoint) : bool := cz c =? 0.

Definition curvePoint_Double (same : bool) (c a : curvePoint) : curvePoint :=
  let A := (cx a * cx a) mod p in
  let B := (cy a * cy a) mod p in
  let C := (B * B) mod p in
  let t := cx a + B in
  let t2 := (t * t) mod p in
  let t := t2 - A in
  let t2 := t - C in
  let d := t2 + t2 in
  let t := A + A in
  let e := t + A in
  let f := (e * e) mod p in
  let t := d + d in
  let cx' := f - t in
  let t := C + C in
  let t2 := t + t in
  let t := t2 + t2 in
  let cy' := d - cx' in
  let t2 := (e * cy') mod p in
  let cy' := t2 - t in
  let ay := if same then cy' else cy a in
  let t := (ay * cz a) mod p in
  CurvePoint cx' cy' (t + t) (ct c).

Definition curvePoint_Add (same : bool) (c a b : curvePoint) : curvePoint :=
  if curvePoint_IsInfinity a then b
  else if curvePoint_IsInfinity b then a
  else
    let z1z1 := (cz a * cz a) mod p in
    let z2z2 := (cz b * cz b) mod p in
    let u1 := (cx a * z2z2) mod p in
    let u2 := (cx b * z1z1) mod p in
    let t := (cz b * z2z2) mod p in
    let s1 := (cy a * t) mod p in
    let t := (cz a * z1z1) mod p in
    let s2 := (cy b * t) mod p in
    let h := u2 - u1 in
    let xEqual := h =? 0 in
    let t := h + h in
    let i := (t * t) mod p in
    let j := (h * i) mod p in
    let t := s2 - s1 in
    let yEqual := t =? 0 in
    if xEqual && yEqual then curvePoint_Double same c a
    else
      let r := t + t in
      let v := (u1 * i) mod p in
      let t4 := (r * r) mod p in
      let t := v + v in
      let t6 := t4 - j in
      let cx' := t6 - t in
      let t := v - cx' in
      let t4 := (s1 * j) mod p in
      let t6 := t4 + t4 in
      let t4 := (r * t) mod p in
      let cy' := t4 - t6 in
      let t := cz a + cz b in
      let t4 := (t * t) mod p in
      let t := t4 - z1z1 in
      let t4 := t - z2z2 in
      CurvePoint cx' cy' ((t4 * h) mod p) (ct c).

(** The loop of the two [Mul] functions, from bit [i-1] of [scalar] down. *)
Fixpoint mulLoop {T : Type} (double : T -> T -> T) (add : T -> T -> T -> T) (a : T) (scalar : Z)
    (i : nat) (sum t : T) : T :=
  match i with
  | O => sum
  | S i =>
      let t := double t sum in
      let sum := if Z.testbit scalar (Z.of_nat i) then add sum t a else t in
      mulLoop double add a scalar i sum t
  end.

Definition curvePoint_Mul (a : curvePoint) (scalar : Z) : curvePoint :=
  mulLoop (curvePoint_Double false) (curvePoint_Add false) a scalar (S (BitLen scalar))
    (curvePoint_SetInfinity newCurvePoint) newCurvePoint.

(** [None] is the panic on the nil that [ModInverse] returns when there is no inverse. *)
Definition curvePoint_MakeAffine (c : curvePoint) : option curvePoint :=
  if Z.abs (cz c) =? 1 then Some c
  else
    match ModInverse (cz c) with
    | None => None
    | Some zInv =>
        let t := (cy c * zInv) mod p in
        let zInv2 := (zInv * zInv) mod p in
        let cy' := (t * zInv2) mod p in
        let t := (cx c * zInv2) mod p in
        Some (CurvePoint t cy' 1 1)
    end.

Definition curvePoint_Negative (a : curvePoint) : curvePoint :=
  CurvePoint (cx a) (- cy a) (cz a) 0.

(** ** twist.go *)

Record twistPoint := TwistPoint { tx : gfP2; ty : gfP2; tz : gfP2; tt : gfP2 }.

Definition twistB : gfP2 := GfP2
  6500054969564660373279643874235990574282535810762300357187714502686418407178
  45500384786952622612957507119651934019977750675336102500314001518804928850249.

Definition twistGen : twistPoint := TwistPoint
  (GfP2 21167961636542580255011770066570541300993051739349375019639421053990175267184
        64746500191241794695844075326670126197795977525365406531717464316923369116492)
  (GfP2 20666913350058776956210519119118544732556678129809273996262322366050359951122
        17778617556404439934652658462602675281523610326338642107814333856843981424549)
  (GfP2 0 1) (GfP2 0 1).

Definition newTwistPoint : twistPoint :=
  TwistPoint (GfP2 0 0) (GfP2 0 0) (GfP2 0 0) (GfP2 0 0).

Definition twistPoint_IsOnCurve (c : twistPoint) : bool :=
  let yy := gfP2_Square (ty c) in
  let xxx := gfP2_Square (tx c) in
  let xxx := gfP2_Mul xxx (tx c) in
  let yy := gfP2_Sub yy xxx in
  let yy := gfP2_Sub yy twistB in
  let yy := gfP2_Minimal yy in
  (x2 yy =? 0) && (y2 yy =? 0).

Definition twistPoint_SetInfinity (c : twistPoint) : twistPoint :=
  TwistPoint (tx c) (ty c) gfP2_SetZero (tt c).

Definition twistPoint_IsInfinity (c : twistPoint) : bool := gfP2_IsZero (tz c).

Definition twistPoint_Double (same : bool) (c a : twistPoint) : twistPoint :=
  let A := gfP2_Square (tx a) in
  let B := gfP2_Square (ty a) in
  let C := gfP2_Square B in
  let t := gfP2_Add (tx a) B in
  let t2 := gfP2_Square t in
  let t := gfP2_Sub t2 A in
  let t2 := gfP2_Sub t C in
  let d := gfP2_Add t2 t2 in
  let t := gfP2_Add A A in
  let e := gfP2_Add t A in
  let f := gfP2_Square e in
  let t := gfP2_Add d d in
  let cx' := gfP2_Sub f t in
  let t := gfP2_Add C C in
  let t2 := gfP2_Add t t in
  let t := gfP2_Add t2 t2 in
  let cy' := gfP2_Sub d cx' in
  let t2 := gfP2_Mul e cy' in
  let cy' := gfP2_Sub t2 t in
  let ay := if same then cy' else ty a in
  let t := gfP2_Mul ay (tz a) in
  TwistPoint cx' cy' (gfP2_Add t t) (tt c).

Definition twistPoint_Add (same : bool) (c a b : twistPoint) : twistPoint :=
  if twistPoint_IsInfinity a then b
  else if twistPoint_IsInfinity b then a
  else
    let z1z1 := gfP2_Square (tz a) in
    let z2z2 := gfP2_Square (tz b) in
    let u1 := gfP2_Mul (tx a) z2z2 in
    let u2 := gfP2_Mul (tx b) z1z1 in
    let t := gfP2_Mul (tz b) z2z2 in
    let s1 := gfP2_Mul (ty a) t in
    let t := gfP2_Mul (tz a) z1z1 in
    let s2 := gfP2_Mul (ty b) t in
    let h := gfP2_Sub u2 u1 in
    let xEqual := gfP2_IsZero h in
    let t := gfP2_Add h h in
    let i := gfP2_Square t in
    let j := gfP2_Mul h i in
    let t := gfP2_Sub s2 s1 in
    let yEqual := gfP2_IsZero t in
    if xEqual && yEqual then twistPoint_Double same c a
    else
      let r := gfP2_Add t t in
      let v := gfP2_Mul u1 i in
      let t4 := gfP2_Square r in
      let t := gfP2_Add v v in
      let t6 := gfP2_Sub t4 j in
      let cx' := gfP2_Sub t6 t in
      let t := gfP2_Sub v cx' in
      let t4 := gfP2_Mul s1 j in
      let t6 := gfP2_Add t4 t4 in
      let t4 := gfP2_Mul r t in
      let cy' := gfP2_Sub t4 t6 in
      let t := gfP2_Add (tz a) (tz b) in
      let t4 := gfP2_Square t in
      let t := gfP2_Sub t4 z1z1 in
      let t4 := gfP2_Sub t z2z2 in
      TwistPoint cx' cy' (gfP2_Mul t4 h) (tt c).

Definition twistPoint_Mul (a : twistPoint) (scalar : Z) : twistPoint :=
  mulLoop (twistPoint_Double false) (twistPoint_Add false) a scalar (S (BitLen scalar))
    (twistPoint_SetInfinity newTwistPoint) newTwistPoint.

Definition twistPoint_MakeAffine (c : twistPoint) : twistPoint :=
  if gfP2_IsOne (tz c) then c
  else
    let zInv := gfP2_Invert (tz c) in
    let t := gfP2_Mul (ty c) zInv in
    let zInv2 := gfP2_Square zInv in
    let cy' := gfP2_Mul t zInv2 in
    let t := gfP2_Mul (tx c) zInv2 in
    TwistPoint t cy' gfP2_SetOne gfP2_SetOne.

Definition twistPoint_Negative (a : twistPoint) : twistPoint :=
  TwistPoint (tx a) (gfP2_Sub gfP2_SetZero (ty a)) (tz a) gfP2_SetZero.

(** ** The points they stand for *)

#[export] Instance G1_curve : Curve Fp.
Proof.
  refine {| curve_b := fp curveB |};
    intros E; apply (f_equal Zmod.unsigned) in E; vm_compute in E; discriminate E.
Defined.

#[export] Instance G2_curve : Curve K2.
Proof.
  refine {| curve_b := val2 twistB |};
    intros E; apply (f_equal (fun a => Zmod.unsigned (qy a))) in E; vm_compute in E; discriminate E.
Defined.

Definition jac1 (c : curvePoint) : jacobian Fp := Jacobian (fp (cx c)) (fp (cy c)) (fp (cz c)).

Definition jac2 (c : twistPoint) : jacobian K2 := Jacobian (val2 (tx c)) (val2 (ty c)) (val2 (tz c)).

Definition curve_point (c : curvePoint) : point Fp := affine (jac1 c).

Definition twist_point (c : twistPoint) : point K2 := affine (jac2 c).

(** What the operations keep: z is not negative, and at infinity it is the integer zero, not
    only a multiple of [p]. *)
Definition wf1 (c : curvePoint) : Prop := 0 <= cz c /\ (fp (cz c) = 0%Fp -> cz c = 0).

Definition wf2 (c : twistPoint) : Prop :=
  0 <= y2 (tz c) /\ (val2 (tz c) = c0 -> gfP2_IsZero (tz c) = true).

(** ** The operations are those of the group *)

Local Open Scope tower_scope.

Lemma double_zero (t : Z) : (0 <= t < p)%Z -> fp (t + t) = 0 -> (t + t)%Z = 0%Z.
Proof.
  intros Ht E. enough (t = 0)%Z by lia. apply fp_0_range; [lia |].
  destruct (cmul_0 (two : Fp) (fp t)) as [H | H]; [| now destruct (two_nz H) | exact H].
  rewrite <- E, fp_add. unfold two. cbn [cadd cmul c1 Fp_ring]. ring.
Qed.

Lemma mod_p_range x : (0 <= x mod p < p)%Z.
Proof. now apply Z.mod_pos_bound. Qed.

Ltac jac1_tac :=
  cbv zeta; unfold jac1; cbn [cx cy cz jx jy jz]; f_equal; autorewrite with fp; unfold two, three;
  cbn [cadd cmul csub copp c0 c1 Fp_ring]; ring.

Lemma jac1_Double c a : jac1 (curvePoint_Double false c a) = jdouble (jac1 a).
Proof. unfold curvePoint_Double, jdouble. jac1_tac. Qed.

Lemma wf1_Double same c a : wf1 (curvePoint_Double same c a).
Proof.
  unfold wf1, curvePoint_Double. cbv zeta. cbn [cz].
  match goal with |- context [((?t mod p) + _)%Z] => pose proof (mod_p_range t) end.
  split; [lia | now apply double_zero].
Qed.

Lemma curve_point_Double c a :
  curve_point (curvePoint_Double false c a) = pdouble (curve_point a).
Proof. unfold curve_point. rewrite jac1_Double. apply affine_double. Qed.

Lemma IsInfinity1 c : wf1 c -> curvePoint_IsInfinity c = true <-> fp (cz c) = 0.
Proof.
  intros H. unfold curvePoint_IsInfinity. rewrite Z.eqb_eq. split; [intros ->; reflexivity | apply H].
Qed.

Lemma curve_point_infinity c : curve_point c = Infinity <-> fp (cz c) = 0.
Proof.
  unfold curve_point, affine, jac1. cbn [jz]. destruct (c_eq_dec (fp (cz c)) 0); split; easy.
Qed.

Lemma mod_eq (x y : Z) : (x mod p - y mod p =? 0)%Z = true <-> fp x = fp y.
Proof.
  rewrite Z.eqb_eq. pose proof (mod_p_range x). pose proof (mod_p_range y). split; intros E.
  - rewrite <- (fp_mod x), <- (fp_mod y). f_equal. lia.
  - apply fp_0_range; [lia |]. rewrite fp_sub, !fp_mod, E. ring.
Qed.

Lemma curve_point_Add c a b :
  wf1 a -> wf1 b ->
  curve_point (curvePoint_Add false c a b) = padd (curve_point a) (curve_point b) /\
  wf1 (curvePoint_Add false c a b).
Proof.
  intros Ha Hb. unfold curvePoint_Add.
  destruct (curvePoint_IsInfinity a) eqn:Ia.
  { apply IsInfinity1, curve_point_infinity in Ia; [| exact Ha]. now rewrite Ia. }
  destruct (curvePoint_IsInfinity b) eqn:Ib.
  { apply IsInfinity1, curve_point_infinity in Ib; [| exact Hb].
    now rewrite Ib, padd_infinity_r. }
  rewrite <- not_true_iff_false, IsInfinity1 in Ia, Ib by assumption. cbv zeta.
  match goal with |- context [if ?e && ?f then _ else _] => destruct (e && f) eqn:E end.
  - rewrite andb_true_iff, !mod_eq in E. autorewrite with fp in E. destruct E as [Ex Ey].
    split; [| apply wf1_Double]. rewrite curve_point_Double, pdouble_add. f_equal.
    unfold curve_point, affine, jac1. cbn [jx jy jz].
    destruct (c_eq_dec (fp (cz a)) 0) as [| _]; [contradiction |].
    destruct (c_eq_dec (fp (cz b)) 0) as [| _]; [contradiction |].
    f_equal; (apply ratio_eq; [repeat apply cmul_nz; assumption .. |]); [exact Ex |].
    rewrite <- !cmul_assoc. exact Ey.
  - split.
    + unfold curve_point. rewrite <- affine_add_distinct; [| exact Ia | exact Ib |].
      * f_equal. unfold jadd. jac1_tac.
      * intros [Ex Ey]. apply not_true_iff_false in E. apply E.
        rewrite andb_true_iff, !mod_eq. autorewrite with fp. split; [exact Ex | exact Ey].
    + unfold wf1. cbn [cz].
      match goal with |- context [(?e mod p)%Z] => pose proof (mod_p_range e) end.
      split; [lia | apply fp_0_range; lia].
Qed.

(** *** Multiplication by a scalar *)

Section scalar_multiplication.
Context {T R : Type} {CR : CRing R} {CF : CField R} {CC : Curve R}.
Context (val : T -> point R) (wf : T -> Prop).
Context (double : T -> T -> T) (add : T -> T -> T -> T).
Hypothesis double_spec : forall c a, val (double c a) = pdouble (val a) /\ wf (double c a).
Hypothesis add_spec : forall c a b,
  wf a -> wf b -> val (add c a b) = padd (val a) (val b) /\ wf (add c a b).

Lemma mod_pow2_succ (k : Z) (i : nat) :
  (k mod 2 ^ Z.of_nat (S i) =
     Z.b2z (Z.testbit k (Z.of_nat i)) * 2 ^ Z.of_nat i + k mod 2 ^ Z.of_nat i)%Z.
Proof.
  assert (0 < 2 ^ Z.of_nat i)%Z by (apply Z.pow_pos_nonneg; lia).
  rewrite Nat2Z.inj_succ, Z.pow_succ_r, (Z.mul_comm 2), Z.rem_mul_r, <- Z.testbit_spec' by lia. lia.
Qed.

Lemma mulLoop_spec a scalar (Ha : on_curve (val a)) (Wa : wf a) i : forall sum t n,
  (0 <= n)%Z -> val sum = multiple (Z.to_nat n) (val a) -> wf sum ->
  val (mulLoop double add a scalar i sum t) =
    multiple (Z.to_nat (n * 2 ^ Z.of_nat i + scalar mod 2 ^ Z.of_nat i)) (val a) /\
  wf (mulLoop double add a scalar i sum t).
Proof using All.
  induction i as [| i IH]; intros sum t n Hn Hs Ws; cbn [mulLoop].
  { split; [| exact Ws]. change (2 ^ Z.of_nat 0)%Z with 1%Z. rewrite Z.mod_1_r, Hs. do 2 f_equal. lia. }
  destruct (double_spec t sum) as [Ed Wd]. rewrite Hs, pdouble_add, <- multiple_double in Ed by exact Ha.
  rewrite mod_pow2_succ, Nat2Z.inj_succ, Z.pow_succ_r by lia.
  set (m := (2 ^ Z.of_nat i)%Z) in *.
  destruct (Z.testbit scalar (Z.of_nat i)) eqn:Eb; cbn [Z.b2z].
  - destruct (add_spec sum (double t sum) a Wd Wa) as [Es Wm].
    replace (n * (2 * m) + (1 * m + scalar mod m))%Z
      with ((2 * n + 1) * m + scalar mod m)%Z by ring.
    apply IH; [lia | | exact Wm]. rewrite Es, Ed, chords_comm by auto with curve.
    change (padd (val a) (multiple (2 * Z.to_nat n) (val a))) with
      (multiple (S (2 * Z.to_nat n)) (val a)). f_equal. lia.
  - replace (n * (2 * m) + (0 * m + scalar mod m))%Z with (2 * n * m + scalar mod m)%Z by ring.
    apply IH; [lia | | exact Wd]. rewrite Ed. f_equal. lia.
Qed.

Lemma mul_spec a scalar zero zero' :
  on_curve (val a) -> wf a -> val zero = Infinity -> wf zero -> (0 <= scalar)%Z ->
  val (mulLoop double add a scalar (S (BitLen scalar)) zero zero') =
    multiple (Z.to_nat scalar) (val a) /\
  wf (mulLoop double add a scalar (S (BitLen scalar)) zero zero').
Proof using All.
  intros Ha Wa Hz Wz Hs.
  destruct (mulLoop_spec a scalar Ha Wa (S (BitLen scalar)) zero zero' 0 (Z.le_refl 0) Hz Wz)
    as [E W]. split; [| exact W]. rewrite E. f_equal. f_equal. cbn [Z.mul Z.add].
  apply Z.mod_small. destruct (BitLen_bound scalar) as [H | H]; [| lia].
  rewrite Nat2Z.inj_succ, Z.pow_succ_r by lia. lia.
Qed.
End scalar_multiplication.

Lemma curve_point_Mul a scalar :
  on_curve (curve_point a) -> wf1 a -> (0 <= scalar)%Z ->
  curve_point (curvePoint_Mul a scalar) = multiple (Z.to_nat scalar) (curve_point a) /\
  wf1 (curvePoint_Mul a scalar).
Proof.
  intros Ha Wa Hs. unfold curvePoint_Mul.
  apply mul_spec; try assumption.
  - split; [apply curve_point_Double | apply wf1_Double].
  - intros. now apply curve_point_Add.
  - reflexivity.
  - split; [apply Z.le_refl | reflexivity].
Qed.

(** *** The affine form *)

Lemma MakeAffine1_None c : curvePoint_MakeAffine c = None <-> fp (cz c) = 0.
Proof.
  unfold curvePoint_MakeAffine, ModInverse. rewrite gcd_p, fp_zero_iff.
  destruct (Z.eqb_spec (Z.abs (cz c)) 1) as [E | E].
  - split; [discriminate |]. assert (cz c = 1 \/ cz c = -1)%Z as [-> | ->] by lia; discriminate.
  - destruct (Z.eqb_spec (cz c mod p) 0) as [H | H]; cbn [negb]; split; easy.
Qed.

Lemma curve_point_MakeAffine c c' :
  wf1 c -> curvePoint_MakeAffine c = Some c' ->
  curve_point c = Affine (fp (cx c')) (fp (cy c')) /\ cz c' = 1%Z.
Proof.
  intros [Hz _] E. assert (fp (cz c) <> 0) as N.
  { intros C. apply MakeAffine1_None in C. congruence. }
  unfold curve_point, affine, jac1. cbn [jx jy jz].
  destruct (c_eq_dec (fp (cz c)) 0) as [| _]; [contradiction |].
  unfold curvePoint_MakeAffine, ModInverse in E. rewrite gcd_p in E.
  destruct (Z.eqb_spec (Z.abs (cz c)) 1) as [Ez | Ez].
  - injection E as <-. assert (cz c = 1)%Z as Ec by lia. rewrite Ec. split; [| reflexivity].
    unfold cdiv. cbn [cinv cmul Fp_CField Fp_ring]. rewrite fp_1. f_equal; field; exact Fp_one_neq_zero.
  - rewrite fp_zero_iff in N. destruct (Z.eqb_spec (cz c mod p) 0) as [| _]; [contradiction |].
    cbn [negb] in E. injection E as <-. cbn [cx cy cz]. split; [| reflexivity].
    autorewrite with fp. rewrite fp_invmod. rewrite <- fp_zero_iff in N.
    unfold cdiv. cbn [cinv cmul Fp_CField Fp_ring]. f_equal; field; exact N.
Qed.

Lemma IsOnCurve1 c : curvePoint_IsOnCurve c = true <-> on_curve (Affine (fp (cx c)) (fp (cy c))).
Proof.
  unfold curvePoint_IsOnCurve. cbv zeta. rewrite reduce_zero. autorewrite with fp.
  cbn [on_curve curve_b G1_curve]. cbn [cadd cmul c0 Fp_ring].
  split; intros E.
  - transitivity (fp (cy c) * fp (cy c) - fp (cx c) * fp (cx c) * fp (cx c) - fp curveB +
                  (fp (cx c) * fp (cx c) * fp (cx c) + fp curveB))%Fp; [ring |].
    rewrite E. ring.
  - rewrite E. ring.
Qed.

Lemma curve_point_Negative a :
  curve_point (curvePoint_Negative a) = pneg (curve_point a) /\
  (wf1 a -> wf1 (curvePoint_Negative a)).
Proof.
  split; [| easy]. unfold curve_point, affine, jac1, curvePoint_Negative. cbn [cx cy cz jx jy jz].
  destruct (c_eq_dec (fp (cz a)) 0) as [| N]; [reflexivity |]. cbn [pneg]. f_equal.
  autorewrite with fp. unfold cdiv. cbn [cmul copp Fp_ring]. ring.
Qed.

(** *** The twist *)

Ltac jac2_tac :=
  cbv zeta; unfold jac2; cbn [tx ty tz jx jy jz]; autorewrite with val2; unfold two, three;
  f_equal; ring.

Lemma jac2_Double c a : jac2 (twistPoint_Double false c a) = jdouble (jac2 a).
Proof. unfold twistPoint_Double, jdouble. jac2_tac. Qed.

(** The coordinates of a product are reduced. *)
Definition reduced2 (a : gfP2) : Prop := (0 <= x2 a < p /\ 0 <= y2 a < p)%Z.

Lemma reduced2_Mul a b : reduced2 (gfP2_Mul a b).
Proof. split; apply mod_p_range. Qed.

Lemma reduced2_Square a : reduced2 (gfP2_Square a).
Proof. split; apply mod_p_range. Qed.

Lemma difference_zero a b :
  reduced2 a -> reduced2 b -> gfP2_IsZero (gfP2_Sub a b) = true <-> val2 a = val2 b.
Proof.
  intros [Ha Ha'] [Hb Hb']. unfold gfP2_IsZero, gfP2_Sub, val2. cbn [x2 y2].
  rewrite andb_true_iff, !Z.eqb_eq. split.
  - intros [Ex Ey]. do 2 f_equal; lia.
  - intros E. pose proof (f_equal qx E) as Ex. pose proof (f_equal qy E) as Ey. cbn [qx qy] in Ex, Ey.
    split; (apply fp_0_range; [lia |]); rewrite fp_sub, ?Ex, ?Ey; ring.
Qed.

Lemma reduced_zero a : reduced2 a -> val2 a = 0 -> gfP2_IsZero a = true.
Proof.
  intros [Hx Hy] E. unfold gfP2_IsZero. rewrite andb_true_iff, !Z.eqb_eq.
  split; (apply fp_0_range; [lia |]); [exact (f_equal qx E) | exact (f_equal qy E)].
Qed.

Lemma wf2_Double same c a : wf2 (twistPoint_Double same c a).
Proof.
  unfold wf2, twistPoint_Double. cbv zeta. cbn [tz].
  match goal with |- context [gfP2_Add ?t _] =>
    assert (reduced2 t) as [Hx Hy] by apply reduced2_Mul; revert Hx Hy; generalize t end.
  intros [x y]. cbn [x2 y2]. intros Hx Hy. unfold gfP2_Add, gfP2_IsZero, val2. cbn [x2 y2].
  split; [lia |]. intros E. rewrite andb_true_iff, !Z.eqb_eq.
  split; (apply double_zero; [assumption |]); [exact (f_equal qx E) | exact (f_equal qy E)].
Qed.

Lemma twist_point_Double c a :
  twist_point (twistPoint_Double false c a) = pdouble (twist_point a).
Proof. unfold twist_point. rewrite jac2_Double. apply affine_double. Qed.

Lemma IsInfinity2 c : wf2 c -> twistPoint_IsInfinity c = true <-> val2 (tz c) = 0.
Proof.
  intros [_ H]. unfold twistPoint_IsInfinity. split; [| exact H].
  unfold gfP2_IsZero, val2. rewrite andb_true_iff, !Z.eqb_eq. intros [-> ->]. reflexivity.
Qed.

Lemma twist_point_infinity c : twist_point c = Infinity <-> val2 (tz c) = 0.
Proof.
  unfold twist_point, affine, jac2. cbn [jz]. destruct (c_eq_dec (val2 (tz c)) 0); split; easy.
Qed.

Lemma twist_point_Add c a b :
  wf2 a -> wf2 b ->
  twist_point (twistPoint_Add false c a b) = padd (twist_point a) (twist_point b) /\
  wf2 (twistPoint_Add false c a b).
Proof.
  intros Ha Hb. unfold twistPoint_Add.
  destruct (twistPoint_IsInfinity a) eqn:Ia.
  { apply IsInfinity2, twist_point_infinity in Ia; [| exact Ha]. now rewrite Ia. }
  destruct (twistPoint_IsInfinity b) eqn:Ib.
  { apply IsInfinity2, twist_point_infinity in Ib; [| exact Hb].
    now rewrite Ib, padd_infinity_r. }
  rewrite <- not_true_iff_false, IsInfinity2 in Ia, Ib by assumption. cbv zeta.
  match goal with |- context [if ?e && ?f then _ else _] => destruct (e && f) eqn:E end.
  - rewrite andb_true_iff, !difference_zero in E by apply reduced2_Mul.
    autorewrite with val2 in E. destruct E as [Ex Ey].
    split; [| apply wf2_Double]. rewrite twist_point_Double, pdouble_add. f_equal.
    unfold twist_point, affine, jac2. cbn [jx jy jz].
    destruct (c_eq_dec (val2 (tz a)) 0) as [| _]; [contradiction |].
    destruct (c_eq_dec (val2 (tz b)) 0) as [| _]; [contradiction |].
    f_equal; (apply ratio_eq; [repeat apply cmul_nz; assumption .. |]); [exact Ex |].
    rewrite <- !cmul_assoc. exact Ey.
  - split.
    + unfold twist_point. rewrite <- affine_add_distinct; [| exact Ia | exact Ib |].
      * f_equal. unfold jadd. jac2_tac.
      * intros [Ex Ey]. apply not_true_iff_false in E. apply E.
        rewrite andb_true_iff, !difference_zero by apply reduced2_Mul.
        autorewrite with val2. split; [exact Ex | exact Ey].
    + unfold wf2. cbn [tz].
      match goal with |- context [gfP2_Mul ?x ?y] =>
        pose proof (reduced2_Mul x y) as Hr; revert Hr; generalize (gfP2_Mul x y) end.
      intros z Hz. split; [apply Hz | now apply reduced_zero].
Qed.

Lemma twist_point_Mul a scalar :
  on_curve (twist_point a) -> wf2 a -> (0 <= scalar)%Z ->
  twist_point (twistPoint_Mul a scalar) = multiple (Z.to_nat scalar) (twist_point a) /\
  wf2 (twistPoint_Mul a scalar).
Proof.
  intros Ha Wa Hs. unfold twistPoint_Mul.
  apply mul_spec; try assumption.
  - split; [apply twist_point_Double | apply wf2_Double].
  - intros. now apply twist_point_Add.
  - reflexivity.
  - split; [apply Z.le_refl | reflexivity].
Qed.

Lemma IsOnCurve2 c : twistPoint_IsOnCurve c = true <-> on_curve (Affine (val2 (tx c)) (val2 (ty c))).
Proof.
  unfold twistPoint_IsOnCurve. cbv zeta.
  match goal with |- context [gfP2_Minimal ?e] =>
    change ((x2 (gfP2_Minimal e) =? 0)%Z && (y2 (gfP2_Minimal e) =? 0)%Z) with
      (gfP2_IsZero (gfP2_Minimal e)) end.
  rewrite gfP2_IsZero_spec. autorewrite with val2. cbn [on_curve curve_b G2_curve]. split; intros E.
  - apply csub_0. rewrite <- E. ring.
  - rewrite E. ring.
Qed.

Lemma K2_IsOne z : (0 <= y2 z)%Z -> gfP2_IsOne z = true -> val2 z = 1.
Proof.
  unfold gfP2_IsOne. destruct z as [x y]. cbn [x2 y2]. intros Hy.
  destruct (Z.eqb_spec x 0) as [-> |]; cbn [negb]; [| discriminate].
  rewrite Z.eqb_eq. intros E. assert (y = 1)%Z as -> by lia. reflexivity.
Qed.

Add Field K2_twist : (cfield (R := K2)).

(** At infinity the affine form is (0, 0), which is not on the curve. *)
Lemma twist_point_MakeAffine c :
  wf2 c ->
  let c' := twistPoint_MakeAffine c in
  (val2 (tz c) <> 0 -> twist_point c = Affine (val2 (tx c')) (val2 (ty c'))) /\
  (val2 (tz c) = 0 -> val2 (tx c') = 0 /\ val2 (ty c') = 0) /\
  val2 (tz c') = 1 /\ gfP2_IsOne (tz c') = true.
Proof.
  intros [Hz _]. cbv zeta. unfold twistPoint_MakeAffine.
  destruct (gfP2_IsOne (tz c)) eqn:E1.
  - apply K2_IsOne in E1 as Ez; [| exact Hz]. rewrite Ez.
    split; [| split; [intros E; now destruct (c1_neq_0 E) | now split]].
    intros _. unfold twist_point, affine, jac2. cbn [jx jy jz].
    rewrite Ez. destruct (c_eq_dec (1 : K2) 0) as [E | _]; [now destruct (c1_neq_0 E) |].
    now rewrite !cmul_1_r, !cdiv_1_r.
  - cbn [tx ty tz]. autorewrite with val2. rewrite val2_Invert.
    split; [| split; [intros ->; rewrite cinv_0; split; ring | now split]].
    intros N. unfold twist_point, affine, jac2. cbn [jx jy jz].
    destruct (c_eq_dec (val2 (tz c)) 0) as [| _]; [contradiction |].
    f_equal; field; exact N.
Qed.

Lemma twist_point_Negative a :
  twist_point (twistPoint_Negative a) = pneg (twist_point a) /\
  (wf2 a -> wf2 (twistPoint_Negative a)).
Proof.
  split; [| easy]. unfold twist_point, affine, jac2, twistPoint_Negative. cbn [tx ty tz jx jy jz].
  destruct (c_eq_dec (val2 (tz a)) 0) as [| N]; [reflexivity |]. cbn [pneg]. f_equal.
  autorewrite with val2. change (val2 gfP2_SetZero) with (0 : K2). unfold cdiv. ring.
Qed.

(** *** The generators *)

Lemma curveGen_on_curve : on_curve (curve_point curveGen) /\ wf1 curveGen.
Proof.
  split; [| split; [discriminate | vm_compute; discriminate]].
  replace (curve_point curveGen) with (Affine (fp (cx curveGen)) (fp (cy curveGen))).
  - apply IsOnCurve1. vm_compute. reflexivity.
  - symmetry. apply (curve_point_MakeAffine curveGen curveGen); [| reflexivity].
    split; [discriminate | vm_compute; discriminate].
Qed.

Lemma twistGen_on_curve : on_curve (twist_point twistGen) /\ wf2 twistGen.
Proof.
  assert (val2 (tz twistGen) = 1) as E1 by reflexivity.
  assert (wf2 twistGen) as W.
  { split; [discriminate |]. rewrite E1. intros E. now destruct (c1_neq_0 E). }
  split; [| exact W]. destruct (twist_point_MakeAffine twistGen W) as [E _].
  rewrite E by (rewrite E1; exact c1_neq_0). apply IsOnCurve2. vm_compute. reflexivity.
Qed.

(** The generators are annihilated by the order that the package says, by computation. *)
Definition order_pred : positive := Eval vm_compute in Z.to_pos (Order - 1).

Lemma order_pred_eq : S (Pos.to_nat order_pred) = Z.to_nat Order.
Proof.
  apply Nat2Z.inj. rewrite Nat2Z.inj_succ, positive_nat_Z, Z2Nat.id by discriminate.
  vm_compute. reflexivity.
Qed.

Definition big_gfP2 (a : gfP2) : bigZ * bigZ := (BigZ.of_Z (x2 a), BigZ.of_Z (y2 a)).

Lemma bval_big a : bval (big_gfP2 a) = val2 a.
Proof. unfold bval, bfp, val2, big_gfP2. cbn [fst snd]. now rewrite !BigZ.spec_of_Z. Qed.

Definition big_curveGen : bigZ * bigZ := (BigZ.of_Z (cx curveGen), BigZ.of_Z (cy curveGen)).

Definition big_twistGen : (bigZ * bigZ) * (bigZ * bigZ) :=
  (big_gfP2 (tx twistGen), big_gfP2 (ty twistGen)).

Lemma curveGen_affine : curve_point curveGen = pval (A := big_arith) big_curveGen.
Proof.
  etransitivity; [apply (curve_point_MakeAffine curveGen curveGen); [apply curveGen_on_curve | reflexivity] |].
  unfold pval, big_curveGen. cbn [fst snd tval big_arith]. unfold bfp. now rewrite !BigZ.spec_of_Z.
Qed.

Lemma twistGen_affine : twist_point twistGen = pval (A := big2_arith) big_twistGen.
Proof.
  destruct (twist_point_MakeAffine twistGen (proj2 twistGen_on_curve)) as [E _].
  rewrite E by exact (c1_neq_0 (R := K2)).
  unfold pval, big_twistGen. cbn [fst snd tval big2_arith]. now rewrite !bval_big.
Qed.

Lemma curveGen_order : multiple (Z.to_nat Order) (curve_point curveGen) = Infinity.
Proof.
  rewrite <- order_pred_eq, curveGen_affine. apply annihilates_spec.
  - rewrite <- curveGen_affine. apply curveGen_on_curve.
  - vm_compute. reflexivity.
Qed.

Lemma twistGen_order : multiple (Z.to_nat Order) (twist_point twistGen) = Infinity.
Proof.
  rewrite <- order_pred_eq, twistGen_affine. apply annihilates_spec.
  - rewrite <- twistGen_affine. apply twistGen_on_curve.
  - vm_compute. reflexivity.
Qed.

(** Adding a point to itself in place: the result is not even on the curve. *)
Lemma curvePoint_Add_in_place :
  exists c, curvePoint_MakeAffine (curvePoint_Add true curveGen curveGen curveGen) = Some c /\
    curvePoint_IsOnCurve c = false.
Proof. eexists. split; [vm_compute; reflexivity | vm_compute; reflexivity]. Qed.

(** ** Properties *)

(** C33: the Jacobian coordinates of the two curves compute the abelian group of
    chords and tangents on them, on every operand: [Add] with equal, opposite and
    infinite points, [Double], [Negative], and [Mul], which is the sum of as many
    copies as the scalar says.  They keep z an integer that is zero at infinity only.
    [MakeAffine] gives the affine coordinates and panics at infinity on the first
    curve; [IsOnCurve] decides the equation.  The number [Order]
    annihilates both generators.  [Add] of a point to itself in place
    leaves the curve. *)
Theorem bn_curves a b a' b' k :
  wf1 a -> wf1 b -> on_curve (curve_point a) -> on_curve (curve_point b) ->
  wf2 a' -> wf2 b' -> on_curve (twist_point a') -> on_curve (twist_point b') -> (0 <= k)%Z ->
  (on_curve (padd (curve_point a) (curve_point b)) /\
   padd (curve_point a) (curve_point b) = padd (curve_point b) (curve_point a) /\
   forall S, on_curve S -> padd (padd (curve_point a) (curve_point b)) S =
                          padd (curve_point a) (padd (curve_point b) S)) /\
  (forall c, curve_point (curvePoint_Add false c a b) = padd (curve_point a) (curve_point b) /\
             wf1 (curvePoint_Add false c a b) /\
             curve_point (curvePoint_Double false c a) = padd (curve_point a) (curve_point a) /\
             wf1 (curvePoint_Double false c a)) /\
  (curve_point (curvePoint_Mul a k) = multiple (Z.to_nat k) (curve_point a) /\
   wf1 (curvePoint_Mul a k) /\
   curve_point (curvePoint_Negative a) = pneg (curve_point a)) /\
  (curvePoint_MakeAffine a = None <-> curve_point a = Infinity) /\
  (forall a1, curvePoint_MakeAffine a = Some a1 ->
     curve_point a = Affine (fp (cx a1)) (fp (cy a1)) /\ curvePoint_IsOnCurve a1 = true) /\
  (forall c, twist_point (twistPoint_Add false c a' b') = padd (twist_point a') (twist_point b') /\
             wf2 (twistPoint_Add false c a' b') /\
             twist_point (twistPoint_Double false c a') = padd (twist_point a') (twist_point a') /\
             wf2 (twistPoint_Double false c a')) /\
  (twist_point (twistPoint_Mul a' k) = multiple (Z.to_nat k) (twist_point a') /\
   wf2 (twistPoint_Mul a' k) /\
   twist_point (twistPoint_Negative a') = pneg (twist_point a')) /\
  (multiple (Z.to_nat Order) (curve_point curveGen) = Infinity /\
   multiple (Z.to_nat Order) (twist_point twistGen) = Infinity) /\
  (exists c, curvePoint_MakeAffine (curvePoint_Add true curveGen curveGen curveGen) = Some c /\
             curvePoint_IsOnCurve c = false).
Proof.
  intros Wa Wb Ha Hb Wa' Wb' Ha' Hb' Hk.
  split. { split; [auto with curve |]. split; [now apply chords_comm |].
           intros S HS. now apply chords_assoc. }
  split. { intros c. destruct (curve_point_Add c a b Wa Wb) as [E W].
           rewrite curve_point_Double, pdouble_add. auto using wf1_Double. }
  split. { destruct (curve_point_Mul a k Ha Wa Hk) as [E W].
           split; [exact E |]. split; [exact W | apply curve_point_Negative]. }
  split. { rewrite curve_point_infinity. apply MakeAffine1_None. }
  split. { intros a1 E. destruct (curve_point_MakeAffine a a1 Wa E) as [EP _].
           split; [exact EP |]. apply IsOnCurve1. now rewrite <- EP. }
  split. { intros c. destruct (twist_point_Add c a' b' Wa' Wb') as [E W].
           rewrite twist_point_Double, pdouble_add. auto using wf2_Double. }
  split. { destruct (twist_point_Mul a' k Ha' Wa' Hk) as [E W].
           split; [exact E |]. split; [exact W | apply twist_point_Negative]. }
  split; [exact (conj curveGen_order twistGen_order) | exact curvePoint_Add_in_place].
Qed.

Lemma bn_curves_witness :
  curve_point (curvePoint_Mul curveGen 3) = multiple 3 (curve_point curveGen) /\
  twist_point (twistPoint_Mul twistGen 3) = multiple 3 (twist_point twistGen).
Proof.
  destruct curveGen_on_curve as [H W], twistGen_on_curve as [H' W'].
  destruct (bn_curves curveGen curveGen twistGen twistGen 3 W W H H W' W' H' H')
    as (_ & _ & (M & _) & _ & _ & _ & (M' & _) & _); [lia |].
  split; [exact M | exact M'].
Defined.
