(* ===== verification/Bn256Pair.v ===== *)
(** * The pairing

    Model of [src/golang-x-crypto/bn256/optate.go]: the line functions, the Miller loop and the
    final exponentiation.  The loop computes the textbook optimal ate pairing on affine points,
    up to factors that the final exponentiation removes. *)

From S2P Require Import Prelude BnPrime Tower Weierstrass BnCompute Bn256Field Bn256Curve.

(** ** optate.go *)

(** The three coefficients of a line and the new point. *)
Record line := Line { la : gfP2; lb : gfP2; lc : gfP2; lout : twistPoint }.

Definition lineFunctionAdd (r p : twistPoint) (q : curvePoint) (r2 : gfP2) : line :=
  let B := gfP2_Mul (tx p) (tt r) in
  let D := gfP2_Add (ty p) (tz r) in
  let D := gfP2_Square D in
  let D := gfP2_Sub D r2 in
  let D := gfP2_Sub D (tt r) in
  let D := gfP2_Mul D (tt r) in
  let H := gfP2_Sub B (tx r) in
  let I := gfP2_Square H in
  let E := gfP2_Add I I in
  let E := gfP2_Add E E in
  let J := gfP2_Mul H E in
  let L1 := gfP2_Sub D (ty r) in
  let L1 := gfP2_Sub L1 (ty r) in
  let V := gfP2_Mul (tx r) E in
  let rx := gfP2_Square L1 in
  let rx := gfP2_Sub rx J in
  let rx := gfP2_Sub rx V in
  let rx := gfP2_Sub rx V in
  let rz := gfP2_Add (tz r) H in
  let rz := gfP2_Square rz in
  let rz := gfP2_Sub rz (tt r) in
  let rz := gfP2_Sub rz I in
  let t := gfP2_Sub V rx in
  let t := gfP2_Mul t L1 in
  let t2 := gfP2_Mul (ty r) J in
  let t2 := gfP2_Add t2 t2 in
  let ry := gfP2_Sub t t2 in
  let rt := gfP2_Square rz in
  let t := gfP2_Add (ty p) rz in
  let t := gfP2_Square t in
  let t := gfP2_Sub t r2 in
  let t := gfP2_Sub t rt in
  let t2 := gfP2_Mul L1 (tx p) in
  let t2 := gfP2_Add t2 t2 in
  let a := gfP2_Sub t2 t in
  let c := gfP2_MulScalar rz (cy q) in
  let c := gfP2_Add c c in
  let b := gfP2_SetZero in
  let b := gfP2_Sub b L1 in
  let b := gfP2_MulScalar b (cx q) in
  let b := gfP2_Add b b in
  Line a b c (TwistPoint rx ry rz rt).

Definition lineFunctionDouble (r : twistPoint) (q : curvePoint) : line :=
  let A := gfP2_Square (tx r) in
  let B := gfP2_Square (ty r) in
  let C := gfP2_Square B in
  let D := gfP2_Add (tx r) B in
  let D := gfP2_Square D in
  let D := gfP2_Sub D A in
  let D := gfP2_Sub D C in
  let D := gfP2_Add D D in
  let E := gfP2_Add A A in
  let E := gfP2_Add E A in
  let G := gfP2_Square E in
  let rx := gfP2_Sub G D in
  let rx := gfP2_Sub rx D in
  let rz := gfP2_Add (ty r) (tz r) in
  let rz := gfP2_Square rz in
  let rz := gfP2_Sub rz B in
  let rz := gfP2_Sub rz (tt r) in
  let ry := gfP2_Sub D rx in
  let ry := gfP2_Mul ry E in
  let t := gfP2_Add C C in
  let t := gfP2_Add t t in
  let t := gfP2_Add t t in
  let ry := gfP2_Sub ry t in
  let rt := gfP2_Square rz in
  let t := gfP2_Mul E (tt r) in
  let t := gfP2_Add t t in
  let b := gfP2_SetZero in
  let b := gfP2_Sub b t in
  let b := gfP2_MulScalar b (cx q) in
  let a := gfP2_Add (tx r) E in
  let a := gfP2_Square a in
  let a := gfP2_Sub a A in
  let a := gfP2_Sub a G in
  let t := gfP2_Add B B in
  let t := gfP2_Add t t in
  let a := gfP2_Sub a t in
  let c := gfP2_Mul rz (tt r) in
  let c := gfP2_Add c c in
  let c := gfP2_MulScalar c (cy q) in
  Line a b c (TwistPoint rx ry rz rt).

Definition mulLine (ret : gfP12) (a b c : gfP2) : gfP12 :=
  let a2 := GfP6 gfP2_SetZero a b in
  let a2 := gfP6_Mul a2 (x12 ret) in
  let t3 := gfP6_MulScalar (y12 ret) c in
  let t := gfP2_Add b c in
  let t2 := GfP6 gfP2_SetZero a t in
  let rx := gfP6_Add (x12 ret) (y12 ret) in
  let ry := t3 in
  let rx := gfP6_Mul rx t2 in
  let rx := gfP6_Sub rx a2 in
  let rx := gfP6_Sub rx ry in
  let a2 := gfP6_MulTau a2 in
  GfP12 rx (gfP6_Add ry a2).

Definition sixuPlus2NAF : list Z :=
  [0; 0; 0; 1; 0; 0; 0; 0; 0; 1; 0; 0; 1; 0; 0; 0; -1; 0; 1; 0; 1; 0; 0; 0; 0; 1; 0; 1; 0; 0; 0;
   -1; 0; 1; 0; 0; 0; 1; 0; -1; 0; 0; 0; -1; 0; 1; 0; 0; 0; 0; 0; 1; 0; 0; -1; 0; -1; 0; 0; 0; 0;
   1; 0; 0; 0; 1].

(** The loop of [miller] from [i] down to 1; [start] is the first value of [i]. *)
Fixpoint millerLoop (start : nat) (aAffine minusA : twistPoint) (bAffine : curvePoint) (r2 : gfP2)
    (i : nat) (ret : gfP12) (r : twistPoint) : gfP12 * twistPoint :=
  match i with
  | O => (ret, r)
  | S i' =>
      let l := lineFunctionDouble r bAffine in
      let ret := if negb (i =? start)%nat then gfP12_Square ret else ret in
      let ret := mulLine ret (la l) (lb l) (lc l) in
      let r := lout l in
      let d := nth i' sixuPlus2NAF 0 in
      if d =? 1 then
        let l := lineFunctionAdd r aAffine bAffine r2 in
        millerLoop start aAffine minusA bAffine r2 i' (mulLine ret (la l) (lb l) (lc l)) (lout l)
      else if d =? -1 then
        let l := lineFunctionAdd r minusA bAffine r2 in
        millerLoop start aAffine minusA bAffine r2 i' (mulLine ret (la l) (lb l) (lc l)) (lout l)
      else millerLoop start aAffine minusA bAffine r2 i' ret r
  end.

(** The last two lines, from the loop's result. *)
Definition millerTail (aAffine : twistPoint) (bAffine : curvePoint) (ret : gfP12) (r : twistPoint) :
    gfP12 * twistPoint :=
  let q1 := TwistPoint (gfP2_Mul (gfP2_Conjugate (tx aAffine)) xiToPMinus1Over3)
                       (gfP2_Mul (gfP2_Conjugate (ty aAffine)) xiToPMinus1Over2)
                       gfP2_SetOne gfP2_SetOne in
  let minusQ2 := TwistPoint (gfP2_MulScalar (tx aAffine) xiToPSquaredMinus1Over3) (ty aAffine)
                            gfP2_SetOne gfP2_SetOne in
  let r2 := gfP2_Square (ty q1) in
  let l := lineFunctionAdd r q1 bAffine r2 in
  let ret := mulLine ret (la l) (lb l) (lc l) in
  let r := lout l in
  let r2 := gfP2_Square (ty minusQ2) in
  let l := lineFunctionAdd r minusQ2 bAffine r2 in
  let ret := mulLine ret (la l) (lb l) (lc l) in
  (ret, lout l).

(** The result and the last point; [None] is the panic of [MakeAffine]. *)
Definition miller (q : twistPoint) (p : curvePoint) : option (gfP12 * twistPoint) :=
  let aAffine := twistPoint_MakeAffine q in
  match curvePoint_MakeAffine p with
  | None => None
  | Some bAffine =>
      let minusA := twistPoint_Negative aAffine in
      let r2 := gfP2_Square (ty aAffine) in
      let start := (length sixuPlus2NAF - 1)%nat in
      let '(ret, r) := millerLoop start aAffine minusA bAffine r2 start gfP12_SetOne aAffine in
      Some (millerTail aAffine bAffine ret r)
  end.

Definition finalExponentiation (inp : gfP12) : gfP12 :=
  let t1 := GfP12 (gfP6_Negative (x12 inp)) (y12 inp) in
  let inv := gfP12_Invert inp in
  let t1 := gfP12_Mul t1 inv in
  let t2 := gfP12_FrobeniusP2 t1 in
  let t1 := gfP12_Mul t1 t2 in
  let fp := gfP12_Frobenius t1 in
  let fp2 := gfP12_FrobeniusP2 t1 in
  let fp3 := gfP12_Frobenius fp2 in
  let fu := gfP12_Exp t1 u in
  let fu2 := gfP12_Exp fu u in
  let fu3 := gfP12_Exp fu2 u in
  let y3 := gfP12_Frobenius fu in
  let fu2p := gfP12_Frobenius fu2 in
  let fu3p := gfP12_Frobenius fu3 in
  let y2 := gfP12_FrobeniusP2 fu2 in
  let y0 := gfP12_Mul fp fp2 in
  let y0 := gfP12_Mul y0 fp3 in
  let y1 := fst (gfP12_Conjugate t1) in
  let y5 := fst (gfP12_Conjugate fu2) in
  let y3 := fst (gfP12_Conjugate y3) in
  let y4 := gfP12_Mul fu fu2p in
  let y4 := fst (gfP12_Conjugate y4) in
  let y6 := gfP12_Mul fu3 fu3p in
  let y6 := fst (gfP12_Conjugate y6) in
  let t0 := gfP12_Square y6 in
  let t0 := gfP12_Mul t0 y4 in
  let t0 := gfP12_Mul t0 y5 in
  let t1 := gfP12_Mul y3 y5 in
  let t1 := gfP12_Mul t1 t0 in
  let t0 := gfP12_Mul t0 y2 in
  let t1 := gfP12_Square t1 in
  let t1 := gfP12_Mul t1 t0 in
  let t1 := gfP12_Square t1 in
  let t0 := gfP12_Mul t1 y1 in
  let t1 := gfP12_Mul t1 y0 in
  let t0 := gfP12_Square t0 in
  gfP12_Mul t0 t1.

Definition optimalAte (a : twistPoint) (b : curvePoint) : option gfP12 :=
  match miller a b with
  | None => None
  | Some (e, _) =>
      let ret := finalExponentiation e in
      Some (if twistPoint_IsInfinity a || curvePoint_IsInfinity b then gfP12_SetOne else ret)
  end.

(** ** The final exponentiation *)

Local Open Scope tower_scope.

Abbreviation p2 := (p * p)%Z.
Abbreviation p6 := (p * p * (p * p) * (p * p))%Z.

Lemma K12_conj_pow (w : K12) e : (0 <= e)%Z -> qconj (pow w e) = pow (qconj w) e.
Proof.
  intros He. rewrite <- !K12_pow_p6, <- !pow_mul by (assumption || discriminate).
  apply (f_equal (pow w)), Z.mul_comm.
Qed.

Lemma K12_conj_mul (a b : K12) : qconj (a * b) = qconj a * qconj b.
Proof. apply qconj_mul. Qed.

Lemma pow_cancel (w v : K12) e e' :
  w * v = 1 -> (0 <= e)%Z -> (0 <= e')%Z -> pow w (e + e') * pow v e' = pow w e.
Proof.
  intros Hwv He He'. rewrite pow_add, <- cmul_assoc, <- pow_mul_l, Hwv, pow_1 by assumption.
  apply cmul_1_r.
Qed.

(** The product that the code computes from seven powers. *)
Definition hard_product (y0 y1 y2 y3 y4 y5 y6 : K12) : K12 :=
  y0 * pow y1 2 * pow y2 6 * pow y3 12 * pow y4 18 * pow y5 30 * pow y6 36.

Lemma hard_exponents (w v : K12) (e0 e2 e3 e4 e5 e6 : Z) :
  (0 <= e0)%Z -> (0 <= e2)%Z -> (0 <= e3)%Z -> (0 <= e4)%Z -> (0 <= e5)%Z -> (0 <= e6)%Z ->
  hard_product (pow w e0) v (pow w e2) (pow v e3) (pow v e4) (pow v e5) (pow v e6) =
    pow w (e0 + e2 * 6) * pow v (2 + e3 * 12 + e4 * 18 + e5 * 30 + e6 * 36).
Proof.
  intros. unfold hard_product. rewrite <- !pow_mul, !pow_add by lia.
  repeat match goal with |- context [pow ?a ?e] => generalize (pow a e); intro end. ring.
Qed.

Definition hard_exponent : Z :=
  p2 * p + (6 * u * u + 1) * p2 - (36 * u * u * u + 18 * u * u + 12 * u - 1) * p -
  (36 * u * u * u + 30 * u * u + 18 * u + 2).

Lemma hard_part (w v : K12) :
  w * v = 1 ->
  hard_product (pow w (p + p2 + p2 * p)) v (pow w (u * u * p2)) (pow v (u * p))
    (pow v (u + u * u * p)) (pow v (u * u)) (pow v (u * u * u + u * u * u * p)) =
    pow w hard_exponent.
Proof.
  intros Hwv. rewrite hard_exponents by (vm_compute; discriminate).
  assert (p + p2 + p2 * p + u * u * p2 * 6 = hard_exponent +
    (2 + u * p * 12 + (u + u * u * p) * 18 + u * u * 30 + (u * u * u + u * u * u * p) * 36))%Z as ->
    by (unfold hard_exponent; generalize p u; intros; ring).
  apply pow_cancel; [exact Hwv | vm_compute; discriminate | vm_compute; discriminate].
Qed.

Lemma K12_conj_square (w : K12) : qconj (qconj w) = w.
Proof.
  destruct w as [x y]. unfold qconj. cbn [qx qy]. f_equal. ring.
Qed.

Lemma K12_conj_1 : qconj (1 : K12) = 1.
Proof. now rewrite <- K12_pow_p6, pow_1. Qed.

Add Field K12_pairing : (cfield (R := K12)).

Lemma pow_pred (f : K12) e : (1 <= e)%Z -> f <> 0 -> pow f e * / f = pow f (e - 1).
Proof.
  intros He Hf. replace (pow f e) with (pow f (e - 1) * f).
  - rewrite <- cmul_assoc, (cinv_r f Hf). apply cmul_1_r.
  - rewrite <- (pow_1_r f) at 2. rewrite <- pow_add by lia. f_equal. lia.
Qed.

Lemma pow_succ (m : K12) e : (0 <= e)%Z -> m * pow m e = pow m (e + 1).
Proof.
  intros He. rewrite Z.add_comm, pow_add, pow_1_r by lia. reflexivity.
Qed.

(** The easy part: an element whose conjugate is its inverse. *)
Lemma easy_power (f : K12) : f <> 0 -> qconj f * / f = pow f (p6 - 1).
Proof. intros Hf. rewrite <- K12_pow_p6. apply pow_pred; [discriminate | exact Hf]. Qed.

Lemma unitary_quotient (f : K12) : f <> 0 -> qconj f * / f * qconj (qconj f * / f) = 1.
Proof.
  intros Hf. rewrite K12_conj_mul, K12_conj_square.
  transitivity (f * / f * (qconj f * qconj (/ f))); [ring |].
  rewrite <- K12_conj_mul, (cinv_r f Hf), K12_conj_1. apply cmul_1_r.
Qed.

Lemma unitary_pow (m : K12) e : m * qconj m = 1 -> (0 <= e)%Z -> pow m e * qconj (pow m e) = 1.
Proof. intros Hm He. rewrite K12_conj_pow, <- pow_mul_l, Hm by exact He. apply pow_1. Qed.

Definition final_exponent : Z := (p6 - 1) * (p2 + 1) * hard_exponent.

Lemma hard_exponent_pos : (0 < hard_exponent)%Z.
Proof. vm_compute. reflexivity. Qed.

Lemma hard_exponent_nonneg : (0 <= hard_exponent)%Z.
Proof. apply Z.lt_le_incl, hard_exponent_pos. Qed.

Lemma hard_order : (hard_exponent * Order = p2 * p2 - p2 + 1)%Z.
Proof. vm_compute. reflexivity. Qed.

Lemma final_exponent_pos : (0 < final_exponent)%Z.
Proof.
  unfold final_exponent. apply Z.mul_pos_pos; [reflexivity | exact hard_exponent_pos].
Qed.

(** It is the quotient of the order of the group of units by the order of the curve. *)
Lemma final_order : (final_exponent * Order = p6 * p6 - 1)%Z.
Proof.
  unfold final_exponent. rewrite <- Z.mul_assoc, hard_order. generalize p. intros. ring.
Qed.

Lemma pow_zero e : (0 < e)%Z -> pow (0 : K12) e = 0.
Proof. intros He. rewrite pow_npow. apply npow_0. lia. Qed.

Lemma final_exponent_split (f : K12) :
  pow f final_exponent = pow (pow (pow f (p6 - 1)) (p2 + 1)) hard_exponent.
Proof.
  unfold final_exponent. generalize hard_exponent hard_exponent_nonneg. intros e He.
  rewrite (pow_mul f ((p6 - 1) * (p2 + 1)) e) by (discriminate || exact He).
  rewrite (pow_mul f (p6 - 1) (p2 + 1)) by discriminate. reflexivity.
Qed.

Lemma val12_Exp_u a : val12 (gfP12_Exp a u) = pow (val12 a) u.
Proof. apply val12_Exp. discriminate. Qed.

Create Rewrite HintDb val12.
#[export] Hint Rewrite val12_Add val12_Sub val12_Negative val12_Mul val12_MulScalar val12_Square
  val12_Conjugate val12_Invert val12_Frobenius val12_FrobeniusP2 val12_Exp_u : val12.

Definition final_tail (w : K12) : K12 :=
  hard_product (pow w p * pow w p2 * pow (pow w p2) p) (qconj w) (pow (pow (pow w u) u) p2)
    (qconj (pow (pow w u) p)) (qconj (pow w u * pow (pow (pow w u) u) p))
    (qconj (pow (pow w u) u)) (qconj (pow (pow (pow w u) u) u * pow (pow (pow (pow w u) u) u) p)).

Lemma final_chain (y0 y1 y2 y3 y4 y5 y6 : gfP12) :
  val12 (
    let t0 := gfP12_Square y6 in
    let t0 := gfP12_Mul t0 y4 in
    let t0 := gfP12_Mul t0 y5 in
    let t1 := gfP12_Mul y3 y5 in
    let t1 := gfP12_Mul t1 t0 in
    let t0 := gfP12_Mul t0 y2 in
    let t1 := gfP12_Square t1 in
    let t1 := gfP12_Mul t1 t0 in
    let t1 := gfP12_Square t1 in
    let t0 := gfP12_Mul t1 y1 in
    let t1 := gfP12_Mul t1 y0 in
    let t0 := gfP12_Square t0 in
    gfP12_Mul t0 t1) =
  hard_product (val12 y0) (val12 y1) (val12 y2) (val12 y3) (val12 y4) (val12 y5) (val12 y6).
Proof.
  cbv zeta. rewrite !val12_Mul, !val12_Square, !val12_Mul, !val12_Square, !val12_Mul, !val12_Square,
    !val12_Mul, !val12_Square.
  unfold hard_product. cbn [pow pow_pos].
  generalize (val12 y0) (val12 y1) (val12 y2) (val12 y3) (val12 y4) (val12 y5) (val12 y6). intros.
  ring.
Qed.

Lemma finalExponentiation_tail inp :
  let m := qconj (val12 inp) * / val12 inp in
  val12 (finalExponentiation inp) = final_tail (m * pow m p2).
Proof.
  unfold finalExponentiation.
  change (GfP12 (gfP6_Negative (x12 inp)) (y12 inp)) with (fst (gfP12_Conjugate inp)).
  etransitivity; [exact (final_chain _ _ _ _ _ _ _) |]. cbv zeta.
  autorewrite with val12. reflexivity.
Qed.

Lemma final_tail_spec (w : K12) : w * qconj w = 1 -> final_tail w = pow w hard_exponent.
Proof.
  intros Hw. rewrite <- (hard_part w (qconj w) Hw). unfold final_tail.
  rewrite <- !pow_mul, <- !pow_add, !K12_conj_pow by (vm_compute; discriminate). reflexivity.
Qed.

Lemma hard_product_0 (y y' y0 y1 y2 y3 y4 y5 y6 : K12) :
  y0 = 0 -> hard_product (y0 * y * y') y1 y2 y3 y4 y5 y6 = 0.
Proof. intros ->. unfold hard_product. cbn [pow pow_pos]. ring. Qed.

#[local] Opaque pow.

Lemma final_tail_0 (w : K12) : w = 0 -> final_tail w = 0.
Proof. intros Hw. unfold final_tail. apply hard_product_0. rewrite Hw. apply pow_zero. reflexivity. Qed.

(** The code raises to the quotient of the order of the units of the last field by the order of the curve. *)
Lemma finalExponentiation_spec inp :
  val12 (finalExponentiation inp) = pow (val12 inp) final_exponent.
Proof.
  rewrite finalExponentiation_tail. cbv zeta.
  destruct (c_eq_dec (val12 inp) 0) as [E | N].
  - transitivity (0 : K12).
    + apply final_tail_0.
      generalize (pow (qconj (val12 inp) * / val12 inp) p2). intros z. rewrite E, cinv_0. ring.
    + rewrite E. symmetry. apply pow_zero, final_exponent_pos.
  - rewrite (easy_power _ N), pow_succ by discriminate.
    rewrite final_tail_spec.
    + symmetry. apply final_exponent_split.
    + apply unitary_pow; [| discriminate]. rewrite <- (easy_power _ N). now apply unitary_quotient.
Qed.

(** ** Lines *)

(** The embedding of the first level in the last. *)
Definition emb (k : K2) : K12 := Quad 0 (Cubic 0 0 k).

(** The line of slope [l] through [(x, y)] of the twist at the point [(qx, qy)] of the curve,
    after the isomorphism that maps the twist to the curve over the last field. *)
Definition line_value (l x y : K2) (qx qy : Fp) : K12 :=
  Quad (Cubic 0 (l * x - y) (- (l * Quad 0 qx))) (Cubic 0 0 (Quad 0 qy)).

Definition line_of (l : line) : K12 :=
  Quad (Cubic 0 (val2 (la l)) (val2 (lb l))) (Cubic 0 0 (val2 (lc l))).

Lemma mulLine_spec ret l : val12 (mulLine ret (la l) (lb l) (lc l)) = val12 ret * line_of l.
Proof.
  unfold val12, mulLine, line_of. cbn [x12 y12]. autorewrite with val6. unfold val6.
  cbn [x6 y6 z6]. autorewrite with val2. change (val2 gfP2_SetZero) with (0 : K2).
  assert (Cubic 0 (val2 (la l)) (val2 (lb l) + val2 (lc l)) =
          Cubic 0 (val2 (la l)) (val2 (lb l)) + Cubic 0 0 (val2 (lc l)) :> K6) as ->
    by (cbn [cadd K6_ring cubic_ring kx ky kz]; f_equal; ring).
  cbn [cmul K12_ring quad_ring]. unfold qmul. cbn [qx qy].
  generalize (Cubic 0 (val2 (la l)) (val2 (lb l)) : K6) (Cubic 0 0 (val2 (lc l)) : K6)
    (Cubic (val2 (x6 (x12 ret))) (val2 (y6 (x12 ret))) (val2 (z6 (x12 ret))) : K6)
    (Cubic (val2 (x6 (y12 ret))) (val2 (y6 (y12 ret))) (val2 (z6 (y12 ret))) : K6).
  intros. f_equal; ring.
Qed.

(** What the fields of a point keep through the loop. *)
Definition square_t (r : twistPoint) : Prop := val2 (tt r) = val2 (tz r) * val2 (tz r).

Lemma emb_line k a b c :
  emb k * Quad (Cubic 0 a b) (Cubic 0 0 c) = Quad (Cubic 0 (k * a) (k * b)) (Cubic 0 0 (k * c)).
Proof.
  unfold emb. cbn [cmul K12_ring quad_ring]. unfold qmul. cbn [qx qy].
  cbn [cadd cmul c0 K6_ring cubic_ring]. unfold kmul. cbn [kx ky kz]. f_equal; f_equal; ring.
Qed.

(** The coefficients of the lines in Jacobian coordinates, over any field. *)
Section line_algebra.
Context {R : Type} {CR : CRing R} {CF : CField R} {CC : Curve R}.

Add Field R_lines : (cfield (R := R)).

Lemma affine_inv (c : jacobian R) x y :
  affine c = Affine x y ->
  jz c <> 0 /\ x = jx c / (jz c * jz c) /\ y = jy c / (jz c * jz c * jz c).
Proof.
  unfold affine. destruct (c_eq_dec (jz c) 0) as [| N]; [discriminate |].
  intros [= <- <-]. auto.
Qed.

Lemma double_line (c : jacobian R) x y :
  affine c = Affine x y -> y <> 0 ->
  let k := two * two * jy c * (jz c * jz c * jz c) in
  let E := three * (jx c * jx c) in
  k <> 0 /\
  two * (jx c * E) - two * two * (jy c * jy c) = k * (tangent x y * x - y) /\
  two * E * (jz c * jz c) = k * tangent x y.
Proof.
  intros Ea Ny k E. destruct (affine_inv c x y Ea) as [Nz [-> ->]].
  assert (jy c <> 0) as N by (intros C; apply Ny; rewrite C; field; exact Nz).
  subst k E. unfold tangent. repeat split.
  - repeat apply cmul_nz; assumption || exact two_nz.
  - field. repeat split; assumption || exact two_nz.
  - field. repeat split; assumption || exact two_nz.
Qed.

(** The mixed addition of an affine point. *)
Definition jmixed (c : jacobian R) (px py : R) : jacobian R :=
  let z3 := jz c * (jz c * jz c) in
  let H := px * (jz c * jz c) - jx c in
  let E := two * two * (H * H) in
  let J := H * E in
  let L := two * (py * z3) - two * jy c in
  let V := jx c * E in
  let x := L * L - J - two * V in
  Jacobian x ((V - x) * L - two * (jy c * J)) (two * (jz c * H)).

Lemma jmixed_spec (c : jacobian R) x y px py :
  affine c = Affine x y -> px - x <> 0 -> affine (jmixed c px py) = padd (affine c) (Affine px py).
Proof.
  intros Ea Nx. rewrite Ea, padd_chord by exact Nx.
  destruct (affine_inv c x y Ea) as [Nz [-> ->]]. destruct c as [cx cy cz]. cbn [jx jy jz] in *.
  assert (px * (cz * cz) - cx <> 0) as NH.
  { intros C. apply Nx. transitivity ((px * (cz * cz) - cx) / (cz * cz)); [field; exact Nz |].
    rewrite C. field. exact Nz. }
  unfold affine, jmixed. cbv zeta. cbn [jx jy jz].
  destruct (c_eq_dec (two * (cz * (px * (cz * cz) - cx))) 0) as [C | _].
  { exfalso. revert C. repeat apply cmul_nz; assumption || exact two_nz. }
  unfold third, chord. cbv zeta.
  f_equal; field [(two_eq (R := R))]; repeat split; assumption || exact two_nz.
Qed.

Lemma mixed_line (c : jacobian R) x y px py :
  affine c = Affine x y -> px - x <> 0 ->
  let k := two * jz (jmixed c px py) in
  let L := two * (py * (jz c * (jz c * jz c))) - two * jy c in
  k <> 0 /\ two * L = k * chord x y px py /\
  two * (L * px) - two * (py * jz (jmixed c px py)) = k * (chord x y px py * px - py).
Proof.
  intros Ea Nx k L. destruct (affine_inv c x y Ea) as [Nz [-> ->]].
  destruct c as [cx cy cz]. cbn [jx jy jz] in *.
  assert (px * (cz * cz) - cx <> 0) as NH.
  { intros C. apply Nx. transitivity ((px * (cz * cz) - cx) / (cz * cz)); [field; exact Nz |].
    rewrite C. field. exact Nz. }
  subst k L. unfold jmixed, chord. cbv zeta. cbn [jx jy jz]. repeat split.
  - repeat apply cmul_nz; assumption || exact two_nz.
  - field; repeat split; assumption || exact two_nz.
  - field; repeat split; assumption || exact two_nz.
Qed.
End line_algebra.

Lemma lineFunctionDouble_point r q :
  square_t r -> jac2 (lout (lineFunctionDouble r q)) = jdouble (jac2 r) /\
  square_t (lout (lineFunctionDouble r q)).
Proof.
  unfold square_t, lineFunctionDouble. cbv zeta. cbn [lout tt tz]. intros Et.
  split; [| apply val2_Square]. unfold jac2, jdouble. cbv zeta. cbn [tx ty tz jx jy jz].
  autorewrite with val2. rewrite Et. unfold two, three. f_equal; ring.
Qed.

Lemma lineFunctionDouble_line r q x y :
  square_t r -> twist_point r = Affine x y -> y <> 0 ->
  exists k, k <> 0 /\
    line_of (lineFunctionDouble r q) = emb k * line_value (tangent x y) x y (fp (cx q)) (fp (cy q)).
Proof.
  unfold square_t. intros Et Er Ny. destruct (double_line (jac2 r) x y Er Ny) as [Nk [Ea Eb]].
  revert Nk Ea Eb. set (k := two * two * jy (jac2 r) * _). intros Nk Ea Eb.
  exists k. split; [exact Nk |]. unfold line_of, line_value. rewrite emb_line.
  transitivity (Quad (Cubic 0 (k * (tangent x y * x - y)) (- (k * tangent x y * Quad c0 (fp (cx q)))))
    (Cubic 0 0 (k * Quad c0 (fp (cy q)))) : K12); [| f_equal; f_equal; ring].
  rewrite <- Ea, <- Eb. subst k. unfold lineFunctionDouble. cbv zeta. cbn [la lb lc].
  autorewrite with val2. change (val2 gfP2_SetZero) with (0 : K2). rewrite Et.
  unfold jac2, two, three. cbn [jx jy jz].
  generalize (Quad c0 (fp (cx q)) : K2) (Quad c0 (fp (cy q)) : K2) (val2 (tx r)) (val2 (ty r)) (val2 (tz r)).
  intros. f_equal; f_equal; ring.
Qed.

Lemma lineFunctionAdd_point r P q r2 :
  square_t r -> val2 r2 = val2 (ty P) * val2 (ty P) ->
  jac2 (lout (lineFunctionAdd r P q r2)) = jmixed (jac2 r) (val2 (tx P)) (val2 (ty P)) /\
  square_t (lout (lineFunctionAdd r P q r2)).
Proof.
  unfold square_t, lineFunctionAdd. cbv zeta. cbn [lout tt tz]. intros Et E2.
  split; [| apply val2_Square]. unfold jac2, jmixed. cbv zeta. cbn [tx ty tz jx jy jz].
  autorewrite with val2. rewrite Et, E2. unfold two. f_equal; ring.
Qed.

Lemma lineFunctionAdd_line r P q r2 x y :
  square_t r -> val2 r2 = val2 (ty P) * val2 (ty P) ->
  twist_point r = Affine x y -> val2 (tx P) - x <> 0 ->
  exists k, k <> 0 /\
    line_of (lineFunctionAdd r P q r2) =
      emb k * line_value (chord x y (val2 (tx P)) (val2 (ty P))) (val2 (tx P)) (val2 (ty P))
                (fp (cx q)) (fp (cy q)).
Proof.
  intros Et E2 Er Nx.
  destruct (lineFunctionAdd_point r P q r2 Et E2) as [Ep _].
  destruct (mixed_line (jac2 r) x y _ (val2 (ty P)) Er Nx) as [Nk [Eb Ea]].
  revert Nk Ea Eb. rewrite <- Ep. set (k := two * jz _). set (l := chord _ _ _ _).
  intros Nk Ea Eb. exists k. split; [exact Nk |]. unfold line_of, line_value. rewrite emb_line.
  transitivity (Quad (Cubic 0 (k * (l * val2 (tx P) - val2 (ty P))) (- (k * l * Quad c0 (fp (cx q)))))
    (Cubic 0 0 (k * Quad c0 (fp (cy q)))) : K12); [| f_equal; f_equal; ring].
  rewrite <- Ea, <- Eb. subst k. unfold lineFunctionAdd. cbv zeta. cbn [la lb lc lout].
  unfold jac2, two. cbn [jx jy jz tx ty tz].
  autorewrite with val2. change (val2 gfP2_SetZero) with (0 : K2). rewrite Et, E2.
  generalize (Quad c0 (fp (cx q)) : K2) (Quad c0 (fp (cy q)) : K2) (val2 (tx r)) (val2 (ty r)) (val2 (tz r))
    (val2 (tx P)) (val2 (ty P)).
  intros. f_equal; f_equal; ring.
Qed.

(** ** The textbook pairing *)

(** A step of Miller's algorithm on affine points, where its line is defined. *)
Definition ate_double (qx qy : Fp) (s : K12 * point K2) : option (K12 * point K2) :=
  match snd s with
  | Infinity => None
  | Affine x y =>
      if c_eq_dec y 0 then None
      else Some (fst s * fst s * line_value (tangent x y) x y qx qy, padd (snd s) (snd s))
  end.

Definition ate_add (qx qy : Fp) (Q : point K2) (s : K12 * point K2) : option (K12 * point K2) :=
  match snd s, Q with
  | Affine x y, Affine px py =>
      if c_eq_dec x px then None
      else Some (fst s * line_value (chord x y px py) px py qx qy, padd (snd s) Q)
  | _, _ => None
  end.

Definition bind {A B : Type} (o : option A) (f : A -> option B) : option B :=
  match o with Some a => f a | None => None end.

Lemma Some_inj {T : Type} (x y : T) : Some x = Some y -> x = y.
Proof. now intros [= ->]. Qed.

Definition ate_digit (qx qy : Fp) (Q : point K2) (d : Z) (s : K12 * point K2) :=
  if (d =? 1)%Z then ate_add qx qy Q s
  else if (d =? -1)%Z then ate_add qx qy (pneg Q) s
  else Some s.

Fixpoint ate_loop (qx qy : Fp) (Q : point K2) (digits : list Z) (s : K12 * point K2) :
    option (K12 * point K2) :=
  match digits with
  | [] => Some s
  | d :: digits =>
      bind (ate_double qx qy s) (fun s =>
      bind (ate_digit qx qy Q d s) (ate_loop qx qy Q digits))
  end.

(** The Frobenius endomorphism of the curve over the last field, on the twist. *)
Definition frobenius (Q : point K2) : point K2 :=
  match Q with
  | Infinity => Infinity
  | Affine x y => Affine (qconj x * pow xi ((p - 1) / 3)) (qconj y * pow xi ((p - 1) / 2))
  end.

Definition ate_miller (qx qy : Fp) (Q : point K2) : option (K12 * point K2) :=
  bind (ate_loop qx qy Q (tl (rev sixuPlus2NAF)) (1, Q)) (fun s =>
  bind (ate_add qx qy (frobenius Q) s)
       (ate_add qx qy (pneg (frobenius (frobenius Q))))).

Definition optimal_ate (Q : point K2) (P : point Fp) : option K12 :=
  match Q, P with
  | Affine _ _, Affine qx qy =>
      option_map (fun s => pow (fst s) final_exponent) (ate_miller qx qy Q)
  | _, _ => Some 1
  end.

(** The digits are those of 6u+2. *)
Lemma sixuPlus2NAF_value : fold_right (fun d v => d + 2 * v)%Z 0%Z sixuPlus2NAF = (6 * u + 2)%Z.
Proof. reflexivity. Qed.

(** The endomorphism is the p-th power of the coordinates over the last field. *)
Definition untwist_x (x : K2) : K12 := Quad 0 (Cubic 0 x 0).

Definition untwist_y (y : K2) : K12 := Quad (Cubic 0 y 0) 0.

Lemma xi_half : pow xi ((p - 1) / 2) = g * g * g.
Proof.
  replace ((p - 1) / 2)%Z with ((p - 1) / 6 * 3)%Z by (vm_compute; reflexivity).
  rewrite pow_mul, xi_power by (vm_compute; discriminate). generalize g. intros h.
  change (h * h * h = h * h * h). reflexivity.
Qed.

Lemma xi_third_pow : pow xi ((p - 1) / 3) = g * g.
Proof. rewrite pow_npow. exact xi_third. Qed.

Lemma K6_pow_p_middle (x : K2) : pow (Cubic 0 x 0 : K6) p = Cubic 0 (qconj x * (g * g)) 0.
Proof.
  rewrite K6_pow_p. replace (qconj (0 : K2)) with (0 : K2) by reflexivity.
  generalize g. intros h. f_equal; ring.
Qed.

Lemma K6_pow_p_0 : pow (0 : K6) p = 0.
Proof. rewrite pow_npow. apply npow_0. apply Nat2Z.inj_lt. rewrite Z2Nat.id; reflexivity || discriminate. Qed.

Lemma frobenius_untwist (x y : K2) :
  untwist_x (qconj x * pow xi ((p - 1) / 3)) = pow (untwist_x x) p /\
  untwist_y (qconj y * pow xi ((p - 1) / 2)) = pow (untwist_y y) p.
Proof.
  rewrite xi_half, xi_third_pow. unfold untwist_x, untwist_y.
  rewrite !K12_pow_p, K6_pow_p_0, !K6_pow_p_middle. generalize g. intros h. split; f_equal.
  - ring.
  - cbn [cmul K6_ring cubic_ring]. unfold kmul. cbn [kx ky kz]. f_equal; ring.
Qed.

(** The line over the last field. *)
Lemma line_value_untwist l x y sx sy :
  line_value l x y sx sy =
    emb (Quad c0 sy) - untwist_y y - Quad (Cubic 0 0 l) 0 * (emb (Quad c0 sx) - untwist_x x).
Proof.
  unfold line_value, emb, untwist_x, untwist_y. generalize (Quad c0 sx : K2) (Quad c0 sy : K2).
  intros a c. cbn [csub cmul K12_ring quad_ring]. unfold qmul. cbn [qx qy].
  cbn [cadd csub cmul c0 K6_ring cubic_ring]. unfold kmul. cbn [kx ky kz]. unfold tau, kroot.
  cbn [kx ky kz]. f_equal; f_equal; ring.
Qed.

(** ** The code computes it *)

(** A state of the code and one of the textbook: the values differ by a factor of the first
    level. *)
Definition related (c : gfP12 * twistPoint) (s : K12 * point K2) : Prop :=
  (exists k, k <> 0 /\ val12 (fst c) = emb k * fst s) /\
  twist_point (snd c) = snd s /\ square_t (snd c).

Lemma emb_mul k k' : emb k * emb k' = emb (k * k').
Proof.
  unfold emb. cbn [cmul K12_ring quad_ring]. unfold qmul. cbn [qx qy].
  cbn [cadd cmul c0 K6_ring cubic_ring]. unfold kmul. cbn [kx ky kz]. f_equal; f_equal; ring.
Qed.

Lemma emb_1 : emb 1 = 1.
Proof. reflexivity. Qed.

Section code_refines.
Context (q : curvePoint).

Abbreviation sx := (fp (cx q)).
Abbreviation sy := (fp (cy q)).

Lemma double_related ret r s s' :
  related (ret, r) s -> ate_double sx sy s = Some s' ->
  let l := lineFunctionDouble r q in
  related (mulLine (gfP12_Square ret) (la l) (lb l) (lc l), lout l) s'.
Proof.
  intros [[k [Nk Ef]] [Er Et]] E l. cbn [fst snd] in *. unfold ate_double in E. rewrite <- Er in E.
  destruct (twist_point r) as [| x y] eqn:Ep; [discriminate |].
  destruct (c_eq_dec y 0) as [| Ny]; [discriminate |].
  apply Some_inj in E. subst s'.
  destruct (lineFunctionDouble_line r q x y Et Ep Ny) as [k' [Nk' El]].
  destruct (lineFunctionDouble_point r q Et) as [Ej Et'].
  split; [| split]; cbn [fst snd].
  - exists (k * k * k'). split; [repeat apply cmul_nz; assumption |].
    rewrite mulLine_spec, val12_Square, Ef. fold l in El. rewrite El, <- !emb_mul.
    generalize (line_value (tangent x y) x y sx sy). intros v. ring.
  - unfold twist_point in *. fold l in Ej. rewrite Ej, affine_double, Ep, pdouble_add. reflexivity.
  - exact Et'.
Qed.

Lemma add_related ret r s s' P r2 :
  val2 r2 = val2 (ty P) * val2 (ty P) -> related (ret, r) s ->
  ate_add sx sy (Affine (val2 (tx P)) (val2 (ty P))) s = Some s' ->
  let l := lineFunctionAdd r P q r2 in
  related (mulLine ret (la l) (lb l) (lc l), lout l) s'.
Proof.
  intros E2 [[k [Nk Ef]] [Er Et]] E l. cbn [fst snd] in *. unfold ate_add in E. rewrite <- Er in E.
  destruct (twist_point r) as [| x y] eqn:Ep; [discriminate |].
  destruct (c_eq_dec x (val2 (tx P))) as [| Nx]; [discriminate |].
  apply Some_inj in E. subst s'.
  apply not_eq_sym, csub_nz in Nx.
  destruct (lineFunctionAdd_line r P q r2 x y Et E2 Ep Nx) as [k' [Nk' El]].
  destruct (lineFunctionAdd_point r P q r2 Et E2) as [Ej Et'].
  split; [| split]; cbn [fst snd].
  - exists (k * k'). split; [repeat apply cmul_nz; assumption |].
    rewrite mulLine_spec, Ef. fold l in El. rewrite El, <- !emb_mul.
    generalize (line_value (chord x y (val2 (tx P)) (val2 (ty P))) (val2 (tx P)) (val2 (ty P)) sx sy).
    intros v. ring.
  - unfold twist_point in *. fold l in Ej.
    rewrite Ej, (jmixed_spec _ x y) by assumption. rewrite Ep. reflexivity.
  - exact Et'.
Qed.

Lemma rev_firstn_S (digits : list Z) i :
  (i < length digits)%nat -> rev (firstn (S i) digits) = nth i digits 0%Z :: rev (firstn i digits).
Proof.
  revert i. induction digits as [| d digits IH]; intros i H; cbn [length] in H; [lia |].
  destruct i as [| i]; [reflexivity |].
  change (firstn (S (S i)) (d :: digits)) with (d :: firstn (S i) digits). cbn [rev].
  rewrite IH by lia. reflexivity.
Qed.

Lemma loop_related start A i : forall ret r s s',
  (i <= start)%nat -> (start < length sixuPlus2NAF)%nat ->
  (i = start -> val12 (gfP12_Square ret) = val12 ret) ->
  related (ret, r) s ->
  ate_loop sx sy (Affine (val2 (tx A)) (val2 (ty A))) (rev (firstn i sixuPlus2NAF)) s = Some s' ->
  related (millerLoop start A (twistPoint_Negative A) q (gfP2_Square (ty A)) i ret r) s'.
Proof.
  induction i as [| i IH]; intros ret r s s' Hi Hl H1 Hr E.
  { cbn in E. now injection E as <-. }
  rewrite rev_firstn_S in E by lia. cbn [ate_loop millerLoop] in E |- *.
  destruct (ate_double sx sy s) as [s1 |] eqn:Ed; [| discriminate E]. cbn [bind] in E.
  destruct (ate_digit sx sy _ _ s1) as [s2 |] eqn:Ea; [| discriminate E]. cbn [bind] in E.
  assert (related (mulLine (if negb (S i =? start)%nat then gfP12_Square ret else ret)
    (la (lineFunctionDouble r q)) (lb (lineFunctionDouble r q)) (lc (lineFunctionDouble r q)),
    lout (lineFunctionDouble r q)) s1) as R1.
  { pose proof (double_related ret r s s1 Hr Ed) as R. cbv zeta in R.
    destruct (Nat.eqb_spec (S i) start) as [Es | _]; cbn [negb]; [| exact R].
    destruct R as [[k [Nk Ef]] R]. split; [| exact R]. exists k. split; [exact Nk |].
    cbn [fst] in Ef |- *. rewrite <- Ef, !mulLine_spec, (H1 Es). reflexivity. }
  unfold ate_digit in Ea. set (d := nth i sixuPlus2NAF 0%Z) in *.
  destruct (d =? 1)%Z.
  - apply (IH _ _ s2); [lia | exact Hl | lia | | exact E].
    apply (add_related _ _ s1); [apply val2_Square | exact R1 | exact Ea].
  - destruct (d =? -1)%Z.
    + apply (IH _ _ s2); [lia | exact Hl | lia | | exact E].
      apply (add_related _ _ s1); [| exact R1 |].
      * cbn [ty twistPoint_Negative]. autorewrite with val2.
        change (val2 gfP2_SetZero) with (0 : K2). generalize (val2 (ty A)). intros h. ring.
      * rewrite <- Ea. f_equal. cbn [tx ty twistPoint_Negative pneg]. f_equal. autorewrite with val2.
        change (val2 gfP2_SetZero) with (0 : K2). generalize (val2 (ty A)). intros h. ring.
    + apply (IH _ _ s2); [lia | exact Hl | lia | | exact E].
      injection Ea as <-. exact R1.
Qed.
End code_refines.

(** *** The factors vanish *)

Lemma emb_npow k n : npow (emb k) n = emb (npow k n).
Proof.
  induction n as [| n IH]; [reflexivity |].
  change (npow (emb k) (S n)) with (emb k * npow (emb k) n). now rewrite IH, emb_mul.
Qed.

Definition final_cofactor : Z := (p * p * (p * p) + p * p + 1) * (p * p + 1) * hard_exponent.

Lemma final_cofactor_eq : ((p * p - 1) * final_cofactor = final_exponent)%Z.
Proof. unfold final_cofactor, final_exponent. generalize hard_exponent p. intros. ring. Qed.

Lemma final_cofactor_nonneg : (0 <= final_cofactor)%Z.
Proof. apply Z.mul_nonneg_nonneg; [discriminate | exact hard_exponent_nonneg]. Qed.

Lemma emb_final k : k <> 0 -> pow (emb k) final_exponent = 1.
Proof.
  intros Nk. rewrite <- final_cofactor_eq. generalize final_cofactor final_cofactor_nonneg.
  intros c Hc. rewrite pow_mul by (discriminate || exact Hc).
  rewrite (pow_npow (emb k)), emb_npow, <- pow_npow, K2_pow_order, emb_1 by exact Nk. apply pow_1.
Qed.

Lemma final_related c s :
  related c s -> val12 (finalExponentiation (fst c)) = pow (fst s) final_exponent.
Proof.
  intros [[k [Nk Ef]] _]. rewrite finalExponentiation_spec, Ef, pow_mul_l, (emb_final k Nk).
  apply (Rmul_1_l cring).
Qed.

(** The result is in the subgroup of the order of the curve. *)
Lemma finalExponentiation_order inp :
  val12 inp <> 0 -> pow (val12 (finalExponentiation inp)) Order = 1.
Proof.
  intros N. rewrite finalExponentiation_spec.
  rewrite <- pow_mul by (apply Z.lt_le_incl, final_exponent_pos || discriminate).
  rewrite final_order. apply (K12_pow_p12 _ N).
Qed.

(** *** The whole pairing *)

Lemma frobenius_code A :
  frobenius (Affine (val2 (tx A)) (val2 (ty A))) =
    Affine (val2 (gfP2_Mul (gfP2_Conjugate (tx A)) xiToPMinus1Over3))
           (val2 (gfP2_Mul (gfP2_Conjugate (ty A)) xiToPMinus1Over2)).
Proof.
  unfold frobenius. rewrite xi_half, xi_third_pow. rewrite !val2_Mul, !val2_Conjugate.
  rewrite const_third, const_half. reflexivity.
Qed.

Lemma K2_conj_opp (x : K2) : qconj (- x) = - qconj x.
Proof. destruct x as [a b]. reflexivity. Qed.

Lemma frobenius_twice A :
  pneg (frobenius (frobenius (Affine (val2 (tx A)) (val2 (ty A))))) =
    Affine (val2 (gfP2_MulScalar (tx A) xiToPSquaredMinus1Over3)) (val2 (ty A)).
Proof.
  unfold frobenius. rewrite xi_half, xi_third_pow. cbn [pneg].
  rewrite !K2_conj_mul, !qconj_involutive, val2_MulScalar, <- gnorm_square, <- gnorm_eq.
  pose proof gnorm_cube as E. rewrite <- gnorm_eq in E. revert E. generalize g. intros h E.
  f_equal; [ring |].
  transitivity (- (val2 (ty A) * (qconj h * h * (qconj h * h) * (qconj h * h)))); [ring |].
  rewrite E. ring.
Qed.

Lemma tail_related A B ret r s s' :
  related (ret, r) s ->
  bind (ate_add (fp (cx B)) (fp (cy B)) (frobenius (Affine (val2 (tx A)) (val2 (ty A)))) s)
    (ate_add (fp (cx B)) (fp (cy B))
       (pneg (frobenius (frobenius (Affine (val2 (tx A)) (val2 (ty A))))))) = Some s' ->
  related (millerTail A B ret r) s'.
Proof.
  intros R E. rewrite frobenius_twice, frobenius_code in E.
  destruct (ate_add _ _ _ s) as [s1 |] eqn:E1; [| discriminate E]. cbn [bind] in E.
  unfold millerTail. cbv zeta. cbn [tx ty].
  apply (add_related B _ _ s1); [apply val2_Square | | exact E].
  apply (add_related B _ _ s); [apply val2_Square | exact R | exact E1].
Qed.

Lemma digits_tail :
  rev (firstn (length sixuPlus2NAF - 1) sixuPlus2NAF) = tl (rev sixuPlus2NAF).
Proof. reflexivity. Qed.

Lemma val12_one_square : val12 (gfP12_Square gfP12_SetOne) = val12 gfP12_SetOne.
Proof. rewrite val12_Square, val12_one. apply cmul_1_r. Qed.

(** The field [t] of a point in affine form, which [MakeAffine] then leaves alone. *)
Definition valid_t (a : twistPoint) : Prop := gfP2_IsOne (tz a) = true -> val2 (tt a) = 1.

Lemma MakeAffine_t a : valid_t a -> val2 (tt (twistPoint_MakeAffine a)) = 1.
Proof.
  unfold valid_t, twistPoint_MakeAffine. destruct (gfP2_IsOne (tz a)); [auto | reflexivity].
Qed.

Lemma miller_related a B s' :
  wf2 a -> valid_t a -> val2 (tz a) <> 0 ->
  ate_miller (fp (cx B)) (fp (cy B)) (twist_point a) = Some s' ->
  let A := twistPoint_MakeAffine a in
  let '(ret, r) := millerLoop (length sixuPlus2NAF - 1) A (twistPoint_Negative A) B
                     (gfP2_Square (ty A)) (length sixuPlus2NAF - 1) gfP12_SetOne A in
  related (millerTail A B ret r) s'.
Proof.
  intros Wa Va Nz E. cbv zeta.
  destruct (twist_point_MakeAffine a Wa) as [EA [_ [Ez E1]]]. rewrite (EA Nz) in E.
  set (A := twistPoint_MakeAffine a) in *. unfold ate_miller in E.
  destruct (ate_loop _ _ _ _ _) as [s1 |] eqn:El; [| discriminate E]. cbn [bind] in E.
  rewrite <- digits_tail in El.
  assert (related (gfP12_SetOne, A) (1, Affine (val2 (tx A)) (val2 (ty A)))) as R0.
  { split; [| split]; cbn [fst snd].
    - exists 1. split; [exact c1_neq_0 |]. now rewrite val12_one, emb_1, cmul_1_r.
    - unfold twist_point, affine, jac2. cbn [jx jy jz]. rewrite Ez.
      destruct (c_eq_dec (1 : K2) 0) as [C | _]; [now destruct (c1_neq_0 C) |].
      now rewrite !cmul_1_r, !cdiv_1_r.
    - unfold square_t. rewrite Ez, cmul_1_r. now apply MakeAffine_t. }
  pose proof (loop_related B (length sixuPlus2NAF - 1) A (length sixuPlus2NAF - 1) gfP12_SetOne A
    _ s1 (Nat.le_refl _) ltac:(vm_compute; lia) (fun _ => val12_one_square) R0 El) as R.
  destruct (millerLoop _ _ _ _ _ _ _ _) as [ret r]. exact (tail_related A B ret r s1 s' R E).
Qed.

Lemma miller_None a b : miller a b = None <-> curve_point b = Infinity.
Proof.
  rewrite curve_point_infinity, <- MakeAffine1_None. unfold miller.
  destruct (curvePoint_MakeAffine b) as [B |]; [| easy].
  destruct (millerLoop _ _ _ _ _ _ _ _) as [ret r]. easy.
Qed.

(** The pairing at infinity: a panic for the first group, one for the second. *)
Lemma optimalAte_None a b : optimalAte a b = None <-> curve_point b = Infinity.
Proof.
  rewrite <- (miller_None a). unfold optimalAte. destruct (miller a b) as [[e r] |]; easy.
Qed.

Lemma optimalAte_spec a b v :
  wf2 a -> wf1 b -> valid_t a -> curve_point b <> Infinity ->
  optimal_ate (twist_point a) (curve_point b) = Some v ->
  exists e, optimalAte a b = Some e /\ val12 e = v.
Proof.
  intros Wa Wb Va Nb E.
  assert (curvePoint_IsInfinity b = false) as Ib.
  { apply not_true_iff_false. rewrite IsInfinity1, <- curve_point_infinity by exact Wb. exact Nb. }
  unfold optimalAte. destruct (miller a b) as [[e r] |] eqn:Em;
    [| now apply miller_None in Em]. rewrite Ib, orb_false_r.
  destruct (twistPoint_IsInfinity a) eqn:Ia.
  { apply IsInfinity2, twist_point_infinity in Ia; [| exact Wa]. rewrite Ia in E.
    exists gfP12_SetOne. split; [reflexivity |]. rewrite val12_one. now injection E. }
  apply not_true_iff_false in Ia. rewrite IsInfinity2 in Ia by exact Wa.
  eexists. split; [reflexivity |]. unfold miller in Em.
  destruct (curvePoint_MakeAffine b) as [B |] eqn:EB; [| discriminate Em].
  destruct (curve_point_MakeAffine b B Wb EB) as [Eb _]. rewrite Eb in E.
  destruct (twist_point a) as [| x y] eqn:Et; [now apply twist_point_infinity in Et |].
  unfold optimal_ate in E. destruct (ate_miller _ _ _) as [s |] eqn:Es; [| discriminate E].
  rewrite <- Et in Es. pose proof (miller_related a B s Wa Va Ia Es) as R. cbv zeta in R.
  destruct (millerLoop _ _ _ _ _ _ _ _) as [ret r']. apply Some_inj in Em. rewrite Em in R.
  apply final_related in R. cbn [option_map] in E.
  apply Some_inj in E. rewrite <- E. exact R.
Qed.
