(* ===== verification/Bn256Order.v ===== *)
(** * The groups of the pairing have prime order

    Points that the prime [Order] annihilates: their multiples by integers, which are
    infinite for multiples of the order only.  The Frobenius endomorphism multiplies the
    points that the generator of the second group generates by p.  Both show that Miller's
    algorithm meets no degenerate line on that group. *)

From Bignums Require Import BigZ.BigZ.
From S2P Require Import Prelude BnPrime Tower Weierstrass BnCompute Bn256Field Bn256Curve Bn256Pair.

Local Open Scope tower_scope.

(** ** Multiples of a point of prime order *)

Section order.
Context {R : Type} {CR : CRing R} {CF : CField R} {CC : Curve R}.
Context (Q : point R) (HQ : on_curve Q) (NQ : Q <> Infinity).
Context (OQ : multiple (Z.to_nat Order) Q = Infinity).

Add Ring R_order : (cring (R := R)).

Definition zmultiple (k : Z) : point R := multiple (Z.to_nat (k mod Order)) Q.

Lemma on_curve_zmultiple k : on_curve (zmultiple k).
Proof. now apply on_curve_multiple. Qed.

Lemma zmultiple_mod k : zmultiple (k mod Order) = zmultiple k.
Proof. unfold zmultiple. now rewrite Z.mod_mod by discriminate. Qed.

Lemma multiple_infinity k : multiple k (@Infinity R) = Infinity.
Proof. induction k as [| k IH]; [reflexivity |]. cbn [multiple padd]. exact IH. Qed.

Lemma multiple_zmultiple n : multiple n Q = zmultiple (Z.of_nat n).
Proof.
  unfold zmultiple. set (d := Z.to_nat (Z.of_nat n / Order)).
  assert (n = Z.to_nat Order * d + Z.to_nat (Z.of_nat n mod Order))%nat as E.
  { apply Nat2Z.inj. rewrite Nat2Z.inj_add, Nat2Z.inj_mul. unfold d.
    rewrite !Z2Nat.id by (discriminate || (apply Z.div_pos; lia || reflexivity)
                          || (apply Z.mod_pos_bound; reflexivity)).
    apply Z.div_mod. discriminate. }
  rewrite E at 1. rewrite multiple_add, multiple_mul, OQ, multiple_infinity by exact HQ. reflexivity.
Qed.

Lemma zmultiple_add a b : zmultiple (a + b) = padd (zmultiple a) (zmultiple b).
Proof.
  unfold zmultiple at 2 3. rewrite <- multiple_add, multiple_zmultiple by exact HQ.
  rewrite Nat2Z.inj_add, !Z2Nat.id by (apply Z.mod_pos_bound; reflexivity).
  rewrite <- zmultiple_mod, Z.add_mod, zmultiple_mod by discriminate. reflexivity.
Qed.

Lemma zmultiple_0 : zmultiple 0 = Infinity.
Proof. reflexivity. Qed.

Lemma zmultiple_1 : zmultiple 1 = Q.
Proof. apply padd_infinity_r. Qed.

Lemma zmultiple_opp a : zmultiple (- a) = pneg (zmultiple a).
Proof.
  rewrite <- (chords_cancel_l (zmultiple (- a)) (zmultiple a)), <- zmultiple_add
    by apply on_curve_zmultiple.
  now rewrite Z.add_opp_diag_r.
Qed.

Lemma zmultiple_mul a n : zmultiple (Z.of_nat n * a) = multiple n (zmultiple a).
Proof.
  induction n as [| n IH]; [reflexivity |]. cbn [multiple].
  rewrite Nat2Z.inj_succ, Z.mul_succ_l, Z.add_comm, zmultiple_add, IH. reflexivity.
Qed.

(** The order is prime, so that nothing below it annihilates the point. *)
Lemma zmultiple_infinity a : zmultiple a = Infinity <-> (a mod Order = 0)%Z.
Proof.
  split; intros E.
  - destruct (Z.eq_dec (a mod Order) 0) as [| N]; [assumption |]. exfalso. apply NQ.
    rewrite <- zmultiple_1. pose proof (Z.invmod_prime a Order prime_Order N) as I.
    rewrite <- I, zmultiple_mod.
    rewrite <- (Z2Nat.id (Z.invmod a Order))
      by (rewrite <- Z.mod_invmod; apply Z.mod_pos_bound; reflexivity).
    now rewrite zmultiple_mul, E, multiple_infinity.
  - now rewrite <- zmultiple_mod, E.
Qed.

Lemma zmultiple_inj a b : zmultiple a = zmultiple b -> ((a - b) mod Order = 0)%Z.
Proof.
  intros E. apply zmultiple_infinity.
  rewrite <- Z.add_opp_r, zmultiple_add, zmultiple_opp, E. apply padd_opposite.
Qed.

Lemma zmultiple_affine a : (a mod Order <> 0)%Z -> exists x y, zmultiple a = Affine x y.
Proof.
  intros N. destruct (zmultiple a) as [| x y] eqn:E; [| eauto].
  now apply zmultiple_infinity in E.
Qed.

Lemma zmultiple_abscissa a b x y x' y' :
  zmultiple a = Affine x y -> zmultiple b = Affine x' y' ->
  ((a - b) mod Order <> 0)%Z -> ((a + b) mod Order <> 0)%Z -> x <> x'.
Proof.
  intros Ea Eb N N' <-. pose proof (on_curve_zmultiple a) as Ha. pose proof (on_curve_zmultiple b) as Hb.
  rewrite Ea in Ha. rewrite Eb in Hb. destruct (same_abscissa x y y' Ha Hb) as [-> | ->].
  - apply N, zmultiple_inj. congruence.
  - apply N'. replace (a + b)%Z with (a - - b)%Z by ring. apply zmultiple_inj.
    now rewrite zmultiple_opp, Ea, Eb.
Qed.

Lemma zmultiple_ordinate a x y :
  zmultiple a = Affine x y -> ((2 * a) mod Order <> 0)%Z -> y <> 0.
Proof.
  intros Ea N ->. apply N. replace (2 * a)%Z with (a - - a)%Z by ring. apply zmultiple_inj.
  rewrite zmultiple_opp, Ea. cbn [pneg]. f_equal. ring.
Qed.
End order.

(** ** The Frobenius endomorphism *)

Add Ring K2_order : (cring (R := K2)).
Add Field K2_order_field : (cfield (R := K2)).

Lemma K2_conj_add (x y : K2) : qconj (x + y) = qconj x + qconj y.
Proof.
  destruct x as [a b], y as [c d]. cbn [cadd K2_ring quad_ring]. unfold qconj. cbn [qx qy].
  f_equal. cbn [cadd copp Fp_ring]. ring.
Qed.

Lemma K2_conj_sub (x y : K2) : qconj (x - y) = qconj x - qconj y.
Proof.
  replace (x - y) with (x + - y) by ring. rewrite K2_conj_add, K2_conj_opp. ring.
Qed.

Lemma K2_conj_0 : qconj (0 : K2) = 0.
Proof. reflexivity. Qed.

Lemma K2_conj_1 : qconj (1 : K2) = 1.
Proof. reflexivity. Qed.

Lemma K2_conj_inj (x y : K2) : qconj x = qconj y -> x = y.
Proof. intros E. now rewrite <- (qconj_involutive x), E, qconj_involutive. Qed.

Lemma K2_conj_div (x y : K2) : y <> 0 -> qconj (x / y) = qconj x / qconj y.
Proof.
  intros N. assert (qconj y <> 0) as N' by (intros E; apply N, K2_conj_inj; exact E).
  transitivity (qconj (x / y) * qconj y / qconj y); [field; exact N' |].
  rewrite <- K2_conj_mul. replace (x / y * y) with x by (field; exact N). reflexivity.
Qed.

(** The constants of the endomorphism are the square and the cube of one. *)
Lemma frobenius_affine x y :
  frobenius (Affine x y) = Affine (qconj x * (g * g)) (qconj y * (g * g * g)).
Proof. cbn [frobenius]. now rewrite xi_third_pow, xi_half. Qed.

Lemma g_nz : (g : K2) <> 0.
Proof.
  intros E. apply (f_equal (fun a => Zmod.unsigned (qy a))) in E. vm_compute in E. discriminate E.
Qed.

Section frobenius.
Context (h : K2) (Nh : h <> 0).

Definition twisted (P : point K2) : point K2 :=
  match P with
  | Infinity => Infinity
  | Affine x y => Affine (qconj x * (h * h)) (qconj y * (h * h * h))
  end.

Lemma scaled_inj (x y k : K2) : k <> 0 -> qconj x * k = qconj y * k -> x = y.
Proof.
  intros Nk E. apply K2_conj_inj. transitivity (qconj x * k / k); [field; exact Nk |].
  rewrite E. field. exact Nk.
Qed.

Lemma twisted_third l x1 y1 x2 :
  twisted (third l x1 y1 x2) =
    third (qconj l * h) (qconj x1 * (h * h)) (qconj y1 * (h * h * h)) (qconj x2 * (h * h)).
Proof.
  unfold third, twisted. cbv zeta. rewrite !K2_conj_sub, !K2_conj_mul, !K2_conj_sub, !K2_conj_mul.
  f_equal; ring.
Qed.

Lemma twisted_double P : twisted (pdouble P) = pdouble (twisted P).
Proof.
  destruct P as [| x y]; [reflexivity |]. cbn [pdouble twisted].
  assert (h * h * h <> 0) as N3 by (repeat apply cmul_nz; assumption).
  destruct (c_eq_dec y 0) as [-> | Ny], (c_eq_dec _ 0) as [E | N].
  - reflexivity.
  - exfalso. apply N. rewrite K2_conj_0. ring.
  - exfalso. apply Ny. apply (scaled_inj _ _ _ N3). rewrite E, K2_conj_0. ring.
  - rewrite twisted_third. f_equal. unfold tangent.
    assert ((two : K2) <> 0) as N2 by exact two_nz.
    rewrite K2_conj_div by (now apply cmul_nz). rewrite !K2_conj_mul.
    replace (qconj (three : K2)) with (three : K2) by reflexivity.
    replace (qconj (two : K2)) with (two : K2) by reflexivity.
    assert (qconj y <> 0) as Nc by (intros E; apply Ny, K2_conj_inj; exact E).
    field. repeat split; assumption.
Qed.

Lemma twisted_add P S : twisted (padd P S) = padd (twisted P) (twisted S).
Proof.
  destruct P as [| x y]; [reflexivity |]. destruct S as [| x' y']; [reflexivity |].
  assert (h * h <> 0) as N2 by now apply cmul_nz.
  assert (h * h * h <> 0) as N3 by (repeat apply cmul_nz; assumption).
  unfold padd at 1. cbn [twisted]. unfold padd.
  destruct (c_eq_dec x x') as [-> | Nx].
  - destruct (c_eq_dec (qconj x' * (h * h)) (qconj x' * (h * h))) as [_ |]; [| contradiction].
    destruct (c_eq_dec y y') as [-> | Ny].
    + destruct (c_eq_dec (qconj y' * (h * h * h)) (qconj y' * (h * h * h))) as [_ |]; [| contradiction].
      exact (twisted_double (Affine x' y')).
    + destruct (c_eq_dec (qconj y * (h * h * h)) (qconj y' * (h * h * h))) as [E |]; [| reflexivity].
      exfalso. now apply Ny, (scaled_inj _ _ _ N3).
  - destruct (c_eq_dec (qconj x * (h * h)) (qconj x' * (h * h))) as [E | _].
    { exfalso. now apply Nx, (scaled_inj _ _ _ N2). }
    rewrite twisted_third. f_equal. unfold chord.
    assert (x' - x <> 0) as Nd by (apply csub_nz; congruence).
    assert (qconj x' - qconj x <> 0) as Nc
      by (rewrite <- K2_conj_sub; intros E; apply Nd, K2_conj_inj; exact E).
    assert (qconj x' * (h * h) - qconj x * (h * h) <> 0) as Ns.
    { replace (qconj x' * (h * h) - qconj x * (h * h)) with ((qconj x' - qconj x) * (h * h)) by ring.
      now apply cmul_nz. }
    rewrite K2_conj_div, !K2_conj_sub by exact Nd. field. repeat split; assumption.
Qed.
End frobenius.

Lemma frobenius_twisted P : frobenius P = twisted g P.
Proof. destruct P as [| x y]; [reflexivity |]. apply frobenius_affine. Qed.

Lemma frobenius_add P S : frobenius (padd P S) = padd (frobenius P) (frobenius S).
Proof.
  pose proof (twisted_add g g_nz P S) as E.
  now rewrite (frobenius_twisted (padd P S)), (frobenius_twisted P), (frobenius_twisted S).
Qed.

Lemma frobenius_multiple k P : frobenius (multiple k P) = multiple k (frobenius P).
Proof.
  induction k as [| k IH]; [reflexivity |]. cbn [multiple]. now rewrite frobenius_add, IH.
Qed.

(** The generator of the second group: the endomorphism multiplies it by p. *)
Definition eigenvalue : positive := Eval vm_compute in Z.to_pos (p mod Order).

Lemma eigenvalue_eq : Zpos eigenvalue = (p mod Order)%Z.
Proof. vm_compute. reflexivity. Qed.

Definition big_frobenius (P : (bigZ * bigZ) * (bigZ * bigZ)) : (bigZ * bigZ) * (bigZ * bigZ) :=
  let conj a := (BigZ.sub BigZ.zero (fst a), snd a) in
  let bg := big_gfP2 xiToPMinus1Over6 in
  let bg2 := tmul (Arith := big2_arith) bg bg in
  (tmul (Arith := big2_arith) (conj (fst P)) bg2,
   tmul (Arith := big2_arith) (conj (snd P)) (tmul (Arith := big2_arith) bg2 bg)).

Lemma bval_conj a : bval (BigZ.sub BigZ.zero (fst a), snd a) = qconj (bval a).
Proof.
  unfold bval, qconj. cbn [fst snd qx qy]. f_equal. rewrite bfp_sub.
  assert (bfp BigZ.zero = @Zmod.zero p) as -> by reflexivity. cbn [copp Fp_ring]. apply Zmod.sub_0_l.
Qed.

Lemma pval_frobenius P :
  pval (A := big2_arith) (big_frobenius P) = frobenius (pval (A := big2_arith) P).
Proof.
  unfold pval, big_frobenius. cbv zeta. cbn [fst snd]. rewrite frobenius_affine.
  rewrite !(tval_mul (Arith := big2_arith)). cbn [tval big2_arith]. now rewrite !bval_conj, bval_big.
Qed.

Lemma frobenius_twistGen : frobenius (twist_point twistGen) = zmultiple (twist_point twistGen) p.
Proof.
  unfold zmultiple. rewrite <- eigenvalue_eq. change (Z.to_nat (Zpos eigenvalue)) with (Pos.to_nat eigenvalue).
  rewrite twistGen_affine, <- pval_frobenius. symmetry. apply reaches_spec.
  - rewrite <- twistGen_affine. apply twistGen_on_curve.
  - vm_compute. reflexivity.
Qed.

(** ** Miller's algorithm on the second group *)

Section regular.
Context (Q : point K2) (HQ : on_curve Q) (NQ : Q <> Infinity).
Context (OQ : multiple (Z.to_nat Order) Q = Infinity).
Context (sx sy : Fp).

Local Abbreviation zm := (zmultiple Q).

Lemma ate_double_zm f m :
  ((2 * m) mod Order <> 0)%Z -> exists f', ate_double sx sy (f, zm m) = Some (f', zm (2 * m)).
Proof.
  intros N. assert (m mod Order <> 0)%Z as N1.
  { intros E. apply N. rewrite Z.mul_mod, E by discriminate. reflexivity. }
  destruct (zmultiple_affine Q HQ NQ OQ m N1) as (x & y & E).
  pose proof (zmultiple_ordinate Q HQ NQ OQ m x y E N) as Ny.
  unfold ate_double. cbn [fst snd]. rewrite E. destruct (c_eq_dec y 0) as [| _]; [contradiction |].
  eexists. rewrite <- E, <- zmultiple_add by assumption. now rewrite <- Z.add_diag.
Qed.

Lemma ate_add_zm f m b :
  (m mod Order <> 0)%Z -> (b mod Order <> 0)%Z ->
  ((m - b) mod Order <> 0)%Z -> ((m + b) mod Order <> 0)%Z ->
  exists f', ate_add sx sy (zm b) (f, zm m) = Some (f', zm (m + b)).
Proof.
  intros Nm Nb N N'. rewrite zmultiple_add by assumption.
  destruct (zmultiple_affine Q HQ NQ OQ m Nm) as (x & y & Em).
  destruct (zmultiple_affine Q HQ NQ OQ b Nb) as (x' & y' & Eb).
  pose proof (zmultiple_abscissa Q HQ NQ OQ m b x y x' y' Em Eb N N') as Nx.
  unfold ate_add. cbn [fst snd]. rewrite Em, Eb.
  destruct (c_eq_dec x x') as [| _]; [contradiction | eauto].
Qed.

(** The multiples along the digits stay between one and the order. *)
Definition small_digit (m d : Z) : bool :=
  ((0 <? m) && (2 * m + 1 <? Order) && ((d =? 0) || (d =? 1) || (d =? -1)))%Z.

Fixpoint small_digits (m : Z) (digits : list Z) : option Z :=
  match digits with
  | [] => Some m
  | d :: digits => if small_digit m d then small_digits (2 * m + d)%Z digits else None
  end.

Lemma small_nz k : (0 < k < Order)%Z -> (k mod Order <> 0)%Z.
Proof. intros H. rewrite Z.mod_small by (split; [apply Z.lt_le_incl |]; apply H). lia. Qed.

Lemma ate_digit_zm f m d :
  small_digit m d = true ->
  exists f', ate_digit sx sy Q d (f, zm (2 * m)) = Some (f', zm (2 * m + d)).
Proof.
  unfold small_digit. rewrite !andb_true_iff, !orb_true_iff, !Z.eqb_eq, !Z.ltb_lt.
  unfold ate_digit. intros [[H0 H1] [[-> | ->] | ->]]; cbn [Z.eqb Pos.eqb].
  - rewrite Z.add_0_r. eauto.
  - destruct (ate_add_zm f (2 * m) 1) as [f' E]; try (apply small_nz; lia).
    rewrite zmultiple_1 in E. eauto.
  - destruct (ate_add_zm f (2 * m) (-1)) as [f' E]; try (apply small_nz; lia).
    { vm_compute. discriminate. }
    pose proof (zmultiple_opp Q HQ OQ 1) as O. rewrite zmultiple_1 in O.
    change (- (1))%Z with (-1)%Z in O. rewrite O in E. eauto.
Qed.

Lemma ate_loop_zm digits : forall f m k,
  small_digits m digits = Some k ->
  exists f', ate_loop sx sy Q digits (f, zm m) = Some (f', zm k).
Proof.
  induction digits as [| d digits IH]; intros f m k; cbn [small_digits ate_loop].
  - intros [= ->]. eauto.
  - destruct (small_digit m d) eqn:S; [| discriminate]. intros E.
    assert ((2 * m) mod Order <> 0)%Z as N.
    { revert S. unfold small_digit. rewrite !andb_true_iff, !Z.ltb_lt. intros [[H0 H1] _].
      apply small_nz. clear -H0 H1. generalize dependent Order. lia. }
    destruct (ate_double_zm f m N) as [f1 ->]. cbn [bind].
    destruct (ate_digit_zm f1 m d S) as [f2 ->]. cbn [bind]. now apply IH.
Qed.
End regular.

Lemma digits_small : small_digits 1 (tl (rev sixuPlus2NAF)) = Some (6 * u + 2)%Z.
Proof. vm_compute. reflexivity. Qed.

(** ** The pairing of the two groups *)

(** The points that the generator generates, infinity apart. *)
Definition generated (Q : point K2) : Prop :=
  exists k, Q = zmultiple (twist_point twistGen) k /\ (k mod Order <> 0)%Z.

Lemma twistGen_order_facts :
  on_curve (twist_point twistGen) /\ twist_point twistGen <> Infinity /\
  multiple (Z.to_nat Order) (twist_point twistGen) = Infinity.
Proof.
  split; [apply twistGen_on_curve |]. split; [| exact twistGen_order].
  rewrite twistGen_affine. discriminate.
Qed.

Lemma generated_facts Q :
  generated Q ->
  on_curve Q /\ Q <> Infinity /\ multiple (Z.to_nat Order) Q = Infinity /\
  frobenius Q = zmultiple Q p.
Proof.
  intros (k & -> & N). destruct twistGen_order_facts as (HG & NG & OG).
  split; [now apply on_curve_zmultiple |].
  split; [now rewrite (zmultiple_infinity _ HG NG OG) |]. split.
  - rewrite <- zmultiple_mul, Z2Nat.id by (assumption || discriminate).
    apply zmultiple_infinity; [assumption.. |]. rewrite Z.mul_comm.
    apply (Z.mod_mul k Order). discriminate.
  - unfold zmultiple at 1 2. rewrite frobenius_multiple, frobenius_twistGen.
    unfold zmultiple. rewrite <- !multiple_mul by exact HG. f_equal. apply Nat.mul_comm.
Qed.

Lemma optimal_ate_regular Q P :
  generated Q -> P <> Infinity -> exists v, optimal_ate Q P = Some v.
Proof.
  intros G NP. destruct (generated_facts Q G) as (HQ & NQ & OQ & F).
  assert (frobenius (frobenius Q) = zmultiple Q (p * p)) as F2.
  { rewrite F at 1. unfold zmultiple at 1. rewrite frobenius_multiple, F.
    rewrite <- zmultiple_mul, Z2Nat.id by (assumption || (apply Z.mod_pos_bound; reflexivity)).
    rewrite <- zmultiple_mod, Z.mul_mod_idemp_l, zmultiple_mod by discriminate. reflexivity. }
  destruct P as [| sx sy]; [contradiction |].
  destruct (ate_loop_zm Q HQ NQ OQ sx sy _ 1 1 _ digits_small) as [f1 E1].
  rewrite zmultiple_1 in E1. unfold optimal_ate, ate_miller.
  destruct Q as [| x y] eqn:EQ; [contradiction |]. rewrite <- EQ in *. rewrite E1. cbn [bind].
  rewrite F2, F, <- zmultiple_opp by assumption.
  destruct (ate_add_zm Q HQ NQ OQ sx sy f1 (6 * u + 2) p) as [f2 ->];
    [vm_compute; discriminate .. |]. cbn [bind].
  destruct (ate_add_zm Q HQ NQ OQ sx sy f2 (6 * u + 2 + p) (- (p * p))) as [f3 ->];
    [vm_compute; discriminate .. |]. cbn [option_map]. eauto.
Qed.

Lemma generated_Mul k :
  (0 <= k)%Z -> (k mod Order <> 0)%Z -> generated (twist_point (twistPoint_Mul twistGen k)).
Proof.
  intros Hk N. exists k. split; [| exact N]. destruct twistGen_order_facts as (HG & _ & OG).
  destruct (twist_point_Mul twistGen k HG (proj2 twistGen_on_curve) Hk) as [-> _].
  now rewrite multiple_zmultiple, Z2Nat.id.
Qed.

Lemma generated_twistGen : generated (twist_point twistGen).
Proof. exists 1%Z. split; [symmetry; apply zmultiple_1 | discriminate]. Qed.

Lemma optimalAte_generated a b :
  wf2 a -> wf1 b -> valid_t a -> curve_point b <> Infinity -> generated (twist_point a) ->
  exists v e, optimal_ate (twist_point a) (curve_point b) = Some v /\
    optimalAte a b = Some e /\ val12 e = v.
Proof.
  intros Wa Wb Va Nb G. destruct (optimal_ate_regular _ _ G Nb) as [v Ev].
  destruct (optimalAte_spec a b v Wa Wb Va Nb Ev) as [e [E1 E2]]. eauto.
Qed.

(** ** Properties *)

(** C32: the pairing.  The order of the groups is prime, and on the points that the
    generator of the second group generates, infinity apart, [optimalAte] returns the textbook
    optimal ate pairing: the product of the lines through the affine multiples of the
    point along the digits of 6u+2 and through its two Frobenius images, at the point of
    the first curve, to the power (p^12-1)/Order; the factors by which the lines of
    the code differ vanish in that power.  It does so on every point of the curve where
    Miller's algorithm meets no degenerate line.  The Frobenius map of the
    algorithm multiplies the points of the group by p.  [finalExponentiation] is that power on
    every argument, and its results are in the subgroup of order [Order].  At infinity of the
    second group the result is one; at infinity of the first group the call panics. *)
Theorem bn_pairing a b inp k :
  wf2 a -> wf1 b -> valid_t a -> (0 <= k)%Z ->
  Z.prime Order /\
  (curve_point b <> Infinity -> generated (twist_point a) ->
     exists v e, optimal_ate (twist_point a) (curve_point b) = Some v /\
       optimalAte a b = Some e /\ val12 e = v) /\
  ((k mod Order <> 0)%Z -> generated (twist_point (twistPoint_Mul twistGen k))) /\
  (generated (twist_point a) -> frobenius (twist_point a) = zmultiple (twist_point a) p) /\
  (curve_point b <> Infinity -> forall v,
     optimal_ate (twist_point a) (curve_point b) = Some v ->
     exists e, optimalAte a b = Some e /\ val12 e = v) /\
  (curve_point b <> Infinity -> twist_point a = Infinity -> optimalAte a b = Some gfP12_SetOne) /\
  (optimalAte a b = None <-> curve_point b = Infinity) /\
  val12 (finalExponentiation inp) = pow (val12 inp) final_exponent /\
  (final_exponent * Order = p6 * p6 - 1)%Z /\
  (val12 inp <> 0 -> pow (val12 (finalExponentiation inp)) Order = 1) /\
  fold_right (fun d v => d + 2 * v)%Z 0%Z sixuPlus2NAF = (6 * u + 2)%Z.
Proof.
  intros Wa Wb Va Hk. split; [exact prime_Order |].
  split; [intros Nb; now apply optimalAte_generated |]. split; [now apply generated_Mul |].
  split; [intros G; now apply generated_facts |].
  split; [intros Nb v; now apply optimalAte_spec |]. split.
  { intros Nb Ea. unfold optimalAte. destruct (miller a b) as [[e r] |] eqn:Em;
      [| now apply miller_None in Em].
    apply twist_point_infinity in Ea. apply (IsInfinity2 a Wa) in Ea. now rewrite Ea. }
  split; [apply optimalAte_None |]. split; [apply finalExponentiation_spec |].
  split; [exact final_order |]. split; [apply finalExponentiation_order | exact sixuPlus2NAF_value].
Qed.

Lemma bn_pairing_witness :
  (exists v e, optimal_ate (twist_point twistGen) (curve_point curveGen) = Some v /\
     optimalAte twistGen curveGen = Some e /\ val12 e = v) /\
  optimalAte (twistPoint_SetInfinity newTwistPoint) curveGen = Some gfP12_SetOne /\
  optimalAte twistGen (curvePoint_SetInfinity newCurvePoint) = None /\
  pow (val12 (finalExponentiation gfP12_SetOne)) Order = 1.
Proof.
  destruct curveGen_on_curve as [_ W], twistGen_on_curve as [_ W'].
  assert (curve_point curveGen <> Infinity) as NG
    by (rewrite curve_point_infinity; exact Fp_one_neq_zero).
  assert (wf2 (twistPoint_SetInfinity newTwistPoint)) as W0
    by (split; [apply Z.le_refl | intros _; reflexivity]).
  assert (wf1 (curvePoint_SetInfinity newCurvePoint)) as V0
    by (split; [apply Z.le_refl | intros _; reflexivity]).
  split; [| split; [| split]].
  - apply (bn_pairing twistGen curveGen gfP12_SetOne 1 W' W);
      [intros _; reflexivity | discriminate | exact NG | exact generated_twistGen].
  - apply (bn_pairing _ curveGen gfP12_SetOne 1 W0 W); [discriminate | discriminate | exact NG |].
    now apply twist_point_infinity.
  - apply (bn_pairing twistGen _ gfP12_SetOne 1 W' V0); [intros _; reflexivity | discriminate |].
    now apply curve_point_infinity.
  - apply (bn_pairing twistGen curveGen gfP12_SetOne 1 W' W); [intros _; reflexivity | discriminate |].
    exact (c1_neq_0 (R := K12)).
Defined.
