(* ===== verification/Bn256.v ===== *)
(** * The bilinear group

    Model of [src/golang-x-crypto/bn256/bn256.go]: the three groups that the package exports,
    their encodings and the pairing.  A nil pointer inside a fresh element is a new point, the
    panics are [None], and the pool of integers, a cache, is left out. *)

From S2P Require Import Prelude BnPrime Tower Weierstrass BnCompute Bn256Field Bn256Curve Bn256Pair.

(** ** math/big and slices *)

(** [x.Bytes()]: the absolute value, big-endian, without leading zeros. *)
Definition Bytes (x : Z) : list Z := rev (le_bytes ((BitLen x + 7) / 8) (Z.abs x)).

Definition SetBytes (l : list Z) : Z := fold_left (fun acc b => 256 * acc + b) l 0.

(** [copy(dst[off:], src)] *)
Definition copyAt (dst : list Z) (off : nat) (src : list Z) : list Z :=
  firstn off dst ++ copy (skipn off dst) src.

Definition slice (l : list Z) (lo hi : nat) : list Z := firstn (hi - lo) (skipn lo l).

Definition numBytes : nat := 32.

(** [copy(ret[i*numBytes-len(xBytes):], xBytes)] *)
Definition putWord (ret : list Z) (i : nat) (xBytes : list Z) : list Z :=
  copyAt ret (i * numBytes - length xBytes) xBytes.

(** [m[i*numBytes : (i+1)*numBytes]] as a number. *)
Definition getWord (m : list Z) (i : nat) : Z := SetBytes (slice m (i * numBytes) ((i + 1) * numBytes)).

(** ** G1 *)

(** The reads of [crypto/rand.Int]: a number below the bound, or an error. *)
Inductive random_result :=
  | Drawn (k : Z)
  | ReadError
  | MoreInput.

Fixpoint randomScalar (reads : list (option Z)) : random_result :=
  match reads with
  | [] => MoreInput
  | None :: _ => ReadError
  | Some k :: reads => if 0 <? k then Drawn k else randomScalar reads
  end.

Definition G1_ScalarBaseMult (k : Z) : curvePoint := curvePoint_Mul curveGen k.

Definition RandomG1 (reads : list (option Z)) : option (Z * curvePoint) :=
  match randomScalar reads with
  | Drawn k => Some (k, G1_ScalarBaseMult k)
  | _ => None
  end.

Definition G1_ScalarMult (a : curvePoint) (k : Z) : curvePoint := curvePoint_Mul a k.

(** [same]: the receiver is the first argument. *)
Definition G1_Add (same : bool) (e a b : curvePoint) : curvePoint := curvePoint_Add same e a b.

Definition G1_Neg (a : curvePoint) : curvePoint := curvePoint_Negative a.

(** The encoding and the receiver, which is now in affine form. *)
Definition G1_Marshal (n : curvePoint) : option (list Z * curvePoint) :=
  match curvePoint_MakeAffine n with
  | None => None
  | Some n =>
      let xBytes := Bytes (cx n mod p) in
      let yBytes := Bytes (cy n mod p) in
      let ret := repeat 0 (numBytes * 2) in
      let ret := putWord ret 1 xBytes in
      let ret := putWord ret 2 yBytes in
      Some (ret, n)
  end.

Definition G1_Unmarshal (m : list Z) : option curvePoint :=
  if negb (length m =? 2 * numBytes)%nat then None
  else
    let x := getWord m 0 in
    let y := getWord m 1 in
    if (x =? 0) && (y =? 0) then Some (CurvePoint x 1 0 0)
    else
      let e := CurvePoint x y 1 1 in
      if negb (curvePoint_IsOnCurve e) then None else Some e.

(** ** G2 *)

Definition G2_ScalarBaseMult (k : Z) : twistPoint := twistPoint_Mul twistGen k.

Definition RandomG2 (reads : list (option Z)) : option (Z * twistPoint) :=
  match randomScalar reads with
  | Drawn k => Some (k, G2_ScalarBaseMult k)
  | _ => None
  end.

Definition G2_ScalarMult (a : twistPoint) (k : Z) : twistPoint := twistPoint_Mul a k.

Definition G2_Add (same : bool) (e a b : twistPoint) : twistPoint := twistPoint_Add same e a b.

Definition G2_Marshal (n : twistPoint) : list Z * twistPoint :=
  let n := twistPoint_MakeAffine n in
  let xxBytes := Bytes (x2 (tx n) mod p) in
  let xyBytes := Bytes (y2 (tx n) mod p) in
  let yxBytes := Bytes (x2 (ty n) mod p) in
  let yyBytes := Bytes (y2 (ty n) mod p) in
  let ret := repeat 0 (numBytes * 4) in
  let ret := putWord ret 1 xxBytes in
  let ret := putWord ret 2 xyBytes in
  let ret := putWord ret 3 yxBytes in
  let ret := putWord ret 4 yyBytes in
  (ret, n).

Definition G2_Unmarshal (m : list Z) : option twistPoint :=
  if negb (length m =? 4 * numBytes)%nat then None
  else
    let xx := getWord m 0 in
    let xy := getWord m 1 in
    let yx := getWord m 2 in
    let yy := getWord m 3 in
    if (xx =? 0) && (xy =? 0) && (yx =? 0) && (yy =? 0) then
      Some (TwistPoint (GfP2 xx xy) gfP2_SetOne gfP2_SetZero gfP2_SetZero)
    else
      let e := TwistPoint (GfP2 xx xy) (GfP2 yx yy) gfP2_SetOne gfP2_SetOne in
      if negb (twistPoint_IsOnCurve e) then None else Some e.

(** ** GT *)

Definition GT_ScalarMult (a : gfP12) (k : Z) : gfP12 := gfP12_Exp a k.

Definition GT_Add (a b : gfP12) : gfP12 := gfP12_Mul a b.

Definition GT_Neg (a : gfP12) : gfP12 := gfP12_Invert a.

Definition GT_Marshal (n : gfP12) : list Z * gfP12 :=
  let n := gfP12_Minimal n in
  let xxxBytes := Bytes (x2 (x6 (x12 n))) in
  let xxyBytes := Bytes (y2 (x6 (x12 n))) in
  let xyxBytes := Bytes (x2 (y6 (x12 n))) in
  let xyyBytes := Bytes (y2 (y6 (x12 n))) in
  let xzxBytes := Bytes (x2 (z6 (x12 n))) in
  let xzyBytes := Bytes (y2 (z6 (x12 n))) in
  let yxxBytes := Bytes (x2 (x6 (y12 n))) in
  let yxyBytes := Bytes (y2 (x6 (y12 n))) in
  let yyxBytes := Bytes (x2 (y6 (y12 n))) in
  let yyyBytes := Bytes (y2 (y6 (y12 n))) in
  let yzxBytes := Bytes (x2 (z6 (y12 n))) in
  let yzyBytes := Bytes (y2 (z6 (y12 n))) in
  let ret := repeat 0 (numBytes * 12) in
  let ret := putWord ret 1 xxxBytes in
  let ret := putWord ret 2 xxyBytes in
  let ret := putWord ret 3 xyxBytes in
  let ret := putWord ret 4 xyyBytes in
  let ret := putWord ret 5 xzxBytes in
  let ret := putWord ret 6 xzyBytes in
  let ret := putWord ret 7 yxxBytes in
  let ret := putWord ret 8 yxyBytes in
  let ret := putWord ret 9 yyxBytes in
  let ret := putWord ret 10 yyyBytes in
  let ret := putWord ret 11 yzxBytes in
  let ret := putWord ret 12 yzyBytes in
  (ret, n).

Definition GT_Unmarshal (m : list Z) : option gfP12 :=
  if negb (length m =? 12 * numBytes)%nat then None
  else Some (GfP12
    (GfP6 (GfP2 (getWord m 0) (getWord m 1)) (GfP2 (getWord m 2) (getWord m 3))
          (GfP2 (getWord m 4) (getWord m 5)))
    (GfP6 (GfP2 (getWord m 6) (getWord m 7)) (GfP2 (getWord m 8) (getWord m 9))
          (GfP2 (getWord m 10) (getWord m 11)))).

Definition Pair (g1 : curvePoint) (g2 : twistPoint) : option gfP12 := optimalAte g2 g1.

(** ** Encodings *)

(** The 32-byte big-endian encoding. *)
Definition word (x : Z) : list Z := rev (le_bytes numBytes x).

Lemma SetBytes_app l l' : SetBytes (l ++ l') = SetBytes l * 256 ^ Z.of_nat (length l') + SetBytes l'.
Proof.
  unfold SetBytes. rewrite fold_left_app. generalize (fold_left (fun acc b => 256 * acc + b) l 0).
  induction l' as [| b l' IH] using rev_ind; intros v; [cbn; lia |].
  rewrite !fold_left_app, length_app, IH. cbn [fold_left length].
  rewrite Nat2Z.inj_add, Z.pow_add_r by lia. lia.
Qed.

Lemma SetBytes_rev l : SetBytes (rev l) = le_val l.
Proof.
  induction l as [| b l IH]; [reflexivity |]. cbn [rev le_val].
  rewrite SetBytes_app, IH. change (256 ^ Z.of_nat (length [b])) with 256.
  change (SetBytes [b]) with (256 * 0 + b). lia.
Qed.

Lemma SetBytes_word x : 0 <= x < p -> SetBytes (word x) = x.
Proof.
  intros H. unfold word. rewrite SetBytes_rev, le_val_le_bytes. apply Z.mod_small.
  assert (p < 256 ^ Z.of_nat numBytes) by reflexivity. lia.
Qed.

Lemma length_word x : length (word x) = numBytes.
Proof. unfold word. now rewrite length_rev, length_le_bytes. Qed.


Lemma le_bytes_zero n : le_bytes n 0 = repeat 0 n.
Proof. induction n as [| n IH]; [reflexivity |]. cbn. now rewrite IH. Qed.

Lemma le_bytes_app m n x :
  0 <= x < 256 ^ Z.of_nat m -> le_bytes (m + n) x = le_bytes m x ++ repeat 0 n.
Proof.
  revert x. induction m as [| m IH]; intros x H.
  - assert (x = 0) as -> by (cbn in H; lia). apply le_bytes_zero.
  - rewrite Nat2Z.inj_succ, Z.pow_succ_r in H by lia. cbn [Nat.add le_bytes app].
    rewrite IH; [reflexivity |]. split; [apply Z.div_pos; lia | apply Z.div_lt_upper_bound; lia].
Qed.

(** The bytes of a number below [p], padded on the left. *)
Lemma word_Bytes x :
  0 <= x < p ->
  (length (Bytes x) <= numBytes)%nat /\ word x = repeat 0 (numBytes - length (Bytes x)) ++ Bytes x.
Proof.
  intros H. unfold Bytes, word. rewrite length_rev, length_le_bytes, Z.abs_eq by lia.
  set (n := ((BitLen x + 7) / 8)%nat).
  assert (x < 256 ^ Z.of_nat n) as Hx.
  { destruct (BitLen_bound x) as [[_ B] |]; [| lia]. eapply Z.lt_le_trans; [exact B |].
    change 256 with (2 ^ 8). rewrite <- Z.pow_mul_r by lia. apply Z.pow_le_mono_r; [lia |].
    subst n. pose proof (Nat.div_mod (BitLen x + 7) 8). pose proof (Nat.mod_upper_bound (BitLen x + 7) 8). lia. }
  assert (n <= numBytes)%nat as Hn.
  { subst n. enough (BitLen x <= 256)%nat.
    { transitivity ((256 + 7) / 8)%nat; [| reflexivity]. apply Nat.Div0.div_le_mono. lia. }
    unfold BitLen. destruct (x =? 0) eqn:E0; [cbn; lia |].
    assert (Z.log2 (Z.abs x) < 256); [| lia]. apply Z.log2_lt_pow2; [lia |].
    assert (p < 2 ^ 256) by reflexivity. lia. }
  split; [exact Hn |]. replace numBytes with (n + (numBytes - n))%nat at 1 by lia.
  rewrite le_bytes_app, rev_app_distr by lia. f_equal.
  induction (numBytes - n)%nat as [| k IH]; [reflexivity |].
  cbn [repeat rev]. rewrite IH. symmetry. exact (repeat_cons k 0).
Qed.

(** Writing a word over zeros. *)
Lemma putWord_spec pre post i x :
  0 <= x < p -> length pre = (i * numBytes)%nat ->
  putWord (pre ++ repeat 0 numBytes ++ post) (S i) (Bytes x) = (pre ++ word x) ++ post.
Proof.
  intros Hx Hpre. destruct (word_Bytes x Hx) as [Hl Hw].
  unfold putWord, copyAt. set (m := length (Bytes x)) in *.
  replace (S i * numBytes - m)%nat with (length pre + (numBytes - m))%nat by (rewrite Hpre; lia).
  rewrite firstn_app_2, skipn_app, skipn_all2, Nat.add_comm, Nat.add_sub by lia.
  replace (repeat 0 numBytes) with (repeat 0 (numBytes - m) ++ repeat 0 m)
    by (rewrite <- repeat_app; f_equal; lia).
  rewrite <- !app_assoc, firstn_app, skipn_app, firstn_all2, skipn_all2, repeat_length,
    Nat.sub_diag by (rewrite repeat_length; lia).
  cbn [firstn skipn app]. rewrite app_nil_r. unfold copy. fold m.
  rewrite firstn_all2 by (rewrite length_app, repeat_length; fold m; lia).
  rewrite skipn_app, skipn_all2, repeat_length, Nat.sub_diag by (rewrite repeat_length; lia).
  rewrite Hw, <- !app_assoc. reflexivity.
Qed.

(** The words of a list of numbers. *)
Definition words (xs : list Z) : list Z := concat (map word xs).

Lemma length_words xs : length (words xs) = (length xs * numBytes)%nat.
Proof.
  unfold words. induction xs as [| x xs IH]; [reflexivity |].
  cbn [map concat]. rewrite length_app, length_word, IH. cbn [length]. lia.
Qed.

Lemma words_snoc xs x : words (xs ++ [x]) = words xs ++ word x.
Proof. unfold words. rewrite map_app, concat_app. cbn [map concat]. now rewrite app_nil_r. Qed.

Lemma putWord_words xs x k :
  0 <= x < p ->
  putWord (words xs ++ repeat 0 (S k * numBytes)) (S (length xs)) (Bytes x) =
    words (xs ++ [x]) ++ repeat 0 (k * numBytes).
Proof.
  intros Hx. rewrite words_snoc. replace (S k * numBytes)%nat with (numBytes + k * numBytes)%nat by lia.
  rewrite repeat_app. apply putWord_spec; [exact Hx | apply length_words].
Qed.

(** The last of the words written so far. *)
Lemma putWord_last l k ret i x :
  0 <= x < p -> l <> [] -> x = last l 0 -> i = length l ->
  ret = words (removelast l) ++ repeat 0 (S k * numBytes) ->
  putWord ret i (Bytes x) = words l ++ repeat 0 (k * numBytes).
Proof.
  intros Hx Nl -> -> ->. rewrite (app_removelast_last 0 Nl) at 2. rewrite length_app.
  cbn [length]. rewrite Nat.add_1_r, putWord_words by exact Hx.
  now rewrite <- (app_removelast_last 0 Nl).
Qed.

(** [words_tac] proves that successive writes give the words of a list. *)
Ltac words_tac range k :=
  apply (putWord_last _ k); [range | discriminate | reflexivity | reflexivity |];
  cbn [removelast].

Lemma getWord_words xs i : 0 <= nth i xs 0 < p -> (i < length xs)%nat -> getWord (words xs) i = nth i xs 0.
Proof.
  intros Hr Hi. rewrite <- (SetBytes_word (nth i xs 0) Hr) at 1. unfold getWord. f_equal. unfold slice.
  replace ((i + 1) * numBytes - i * numBytes)%nat with numBytes by lia.
  clear Hr. revert i Hi. induction xs as [| x xs IH]; intros i Hi; cbn [length] in Hi; [lia |].
  destruct i as [| i].
  - cbn [Nat.mul skipn nth]. unfold words. cbn [map concat].
    rewrite firstn_app, length_word, Nat.sub_diag, firstn_all2, app_nil_r by now rewrite length_word.
    reflexivity.
  - change (words (x :: xs)) with (word x ++ words xs). rewrite skipn_app, skipn_all2, length_word
      by (rewrite length_word; lia). replace (S i * numBytes - numBytes)%nat with (i * numBytes)%nat by lia.
    cbn [app nth]. apply IH. lia.
Qed.

(** ** G1 *)

(** The numbers that a point of the curve encodes. *)
Definition point_words (P : point Fp) : list Z :=
  match P with
  | Infinity => [0; 0]
  | Affine x y => [Zmod.unsigned x; Zmod.unsigned y]
  end.

Lemma fp_unsigned x : Zmod.unsigned (fp x) = x mod p.
Proof. apply Zmod.unsigned_of_Z. Qed.

Lemma fp_unsigned_id (x : Fp) : fp (Zmod.unsigned x) = x.
Proof. apply Zmod.of_Z_to_Z. Qed.

(** The encoding depends on the point alone, and at infinity there is none. *)
Lemma G1_Marshal_spec n :
  wf1 n ->
  match curve_point n with
  | Infinity => G1_Marshal n = None
  | P => exists n', G1_Marshal n = Some (words (point_words P), n') /\ curve_point n' = P
  end.
Proof.
  intros W. destruct (curvePoint_MakeAffine n) as [n' |] eqn:E.
  - destruct (curve_point_MakeAffine n n' W E) as [EP Ez]. rewrite EP. exists n'.
    unfold G1_Marshal. rewrite E. cbv zeta. split.
    + f_equal. f_equal. cbn [point_words]. rewrite !fp_unsigned.
      rewrite <- (app_nil_r (words _)). change [] with (repeat 0 (0 * numBytes)) at 2.
      words_tac ltac:(apply mod_p_range) 0%nat. words_tac ltac:(apply mod_p_range) 1%nat. reflexivity.
    + symmetry. unfold curve_point, affine, jac1. rewrite Ez. cbn [jx jy jz].
      change (fp 1) with (c1 : Fp).
      destruct (c_eq_dec (c1 : Fp) c0) as [C | _]; [now destruct (c1_neq_0 C) |].
      now rewrite !cmul_1_r, !cdiv_1_r.
  - pose proof (proj2 (curve_point_infinity n) (proj1 (MakeAffine1_None n) E)) as EI. rewrite EI.
    unfold G1_Marshal. now rewrite E.
Qed.

Lemma G1_Marshal_point n m n' :
  wf1 n -> G1_Marshal n = Some (m, n') -> curve_point n' = curve_point n.
Proof.
  intros W E. pose proof (G1_Marshal_spec n W) as M. destruct (curve_point n).
  - congruence.
  - destruct M as [n1 [E1 EP]]. congruence.
Qed.

Lemma affine_point1 x y t : curve_point (CurvePoint x y 1 t) = Affine (fp x) (fp y).
Proof.
  unfold curve_point, affine, jac1. cbn [jx jy jz cx cy cz]. change (fp 1) with (c1 : Fp).
  destruct (c_eq_dec (c1 : Fp) c0) as [C | _]; [now destruct (c1_neq_0 C) |].
  now rewrite !cmul_1_r, !cdiv_1_r.
Qed.

(** What is accepted is a point of the curve. *)
Lemma G1_Unmarshal_sound m e :
  G1_Unmarshal m = Some e ->
  length m = (2 * numBytes)%nat /\ wf1 e /\ on_curve (curve_point e).
Proof.
  unfold G1_Unmarshal. destruct (Nat.eqb_spec (length m) (2 * numBytes)) as [L |]; [| discriminate].
  cbn [negb]. cbv zeta.
  destruct ((getWord m 0 =? 0) && (getWord m 1 =? 0)); [intros [= <-] | ].
  - split; [exact L |]. split; [split; [cbn; lia | reflexivity] |].
    replace (curve_point _) with (@Infinity Fp); [exact I |]. symmetry. now apply curve_point_infinity.
  - destruct (curvePoint_IsOnCurve _) eqn:E; [| discriminate]. cbn [negb]. intros [= <-].
    split; [exact L |]. split; [split; [cbn; lia | intros C; now destruct (Fp_one_neq_zero C)] |].
    rewrite affine_point1. now apply IsOnCurve1 in E.
Qed.

Lemma unsigned_range (x : Fp) : 0 <= Zmod.unsigned x < p.
Proof. apply Zmod.unsigned_pos_bound. reflexivity. Qed.

Lemma unsigned_zero (x : Fp) : Zmod.unsigned x = 0 -> x = c0.
Proof. intros E. rewrite <- (fp_unsigned_id x), E. reflexivity. Qed.

Lemma G1_Unmarshal_words (x y : Fp) :
  on_curve (Affine x y) ->
  exists e, G1_Unmarshal (words [Zmod.unsigned x; Zmod.unsigned y]) = Some e /\
    curve_point e = Affine x y.
Proof.
  intros H. exists (CurvePoint (Zmod.unsigned x) (Zmod.unsigned y) 1 1). split.
  - unfold G1_Unmarshal. rewrite length_words. cbn [length Nat.mul Nat.eqb Nat.add negb].
    rewrite Nat.eqb_refl. cbn [negb]. cbv zeta.
    rewrite !getWord_words by (try (cbn [nth]; apply unsigned_range); cbn; lia). cbn [nth].
    destruct ((Zmod.unsigned x =? 0) && (Zmod.unsigned y =? 0)) eqn:E.
    + exfalso. apply andb_true_iff in E. rewrite !Z.eqb_eq in E. destruct E as [Ex Ey].
      apply unsigned_zero in Ex, Ey. subst x y. exact (origin_off_curve H).
    + replace (curvePoint_IsOnCurve _) with true; [reflexivity |]. symmetry. apply IsOnCurve1.
      cbn [cx cy]. now rewrite !fp_unsigned_id.
  - rewrite affine_point1. now rewrite !fp_unsigned_id.
Qed.

Lemma G1_round_trip n :
  wf1 n -> on_curve (curve_point n) -> curve_point n <> Infinity ->
  exists m n' e, G1_Marshal n = Some (m, n') /\ length m = (2 * numBytes)%nat /\
    G1_Unmarshal m = Some e /\ curve_point e = curve_point n.
Proof.
  intros W H N. pose proof (G1_Marshal_spec n W) as E.
  destruct (curve_point n) as [| x y] eqn:EP; [contradiction |]. destruct E as [n' [Em _]].
  destruct (G1_Unmarshal_words x y H) as [e [Eu Ee]].
  exists (words (point_words (Affine x y))), n', e. repeat split; assumption.
Qed.

(** Equal points have equal encodings. *)
Lemma G1_Marshal_canonical n n' :
  wf1 n -> wf1 n' -> curve_point n = curve_point n' ->
  option_map fst (G1_Marshal n) = option_map fst (G1_Marshal n').
Proof.
  intros W W' E. pose proof (G1_Marshal_spec n W) as M. pose proof (G1_Marshal_spec n' W') as M'.
  rewrite <- E in M'. destruct (curve_point n).
  - now rewrite M, M'.
  - destruct M as [? [-> _]], M' as [? [-> _]]. reflexivity.
Qed.

(** Two parties that multiply by their scalars in either order agree. *)
Lemma G1_agreement k l :
  0 <= k -> 0 <= l ->
  curve_point (G1_ScalarMult (G1_ScalarBaseMult k) l) =
    curve_point (G1_ScalarMult (G1_ScalarBaseMult l) k) /\
  option_map fst (G1_Marshal (G1_ScalarMult (G1_ScalarBaseMult k) l)) =
    option_map fst (G1_Marshal (G1_ScalarMult (G1_ScalarBaseMult l) k)).
Proof.
  intros Hk Hl. destruct curveGen_on_curve as [HG WG].
  assert (forall k l, 0 <= k -> 0 <= l ->
    curve_point (G1_ScalarMult (G1_ScalarBaseMult k) l) =
      multiple (Z.to_nat k * Z.to_nat l) (curve_point curveGen) /\
    wf1 (G1_ScalarMult (G1_ScalarBaseMult k) l)) as A.
  { intros i j Hi Hj. destruct (curve_point_Mul curveGen i HG WG Hi) as [E1 W1].
    unfold G1_ScalarMult, G1_ScalarBaseMult.
    assert (on_curve (curve_point (curvePoint_Mul curveGen i))) as H1
      by (rewrite E1; auto with curve).
    destruct (curve_point_Mul _ j H1 W1 Hj) as [E2 W2]. split; [| exact W2].
    rewrite E2, E1, multiple_mul by exact HG. reflexivity. }
  destruct (A k l Hk Hl) as [E1 W1], (A l k Hl Hk) as [E2 W2].
  assert (curve_point (G1_ScalarMult (G1_ScalarBaseMult k) l) =
          curve_point (G1_ScalarMult (G1_ScalarBaseMult l) k)) as E
    by (rewrite E1, E2, Nat.mul_comm; reflexivity).
  split; [exact E | now apply G1_Marshal_canonical].
Qed.

(** ** G2 *)

Definition twist_words (P : point K2) : list Z :=
  match P with
  | Infinity => [0; 0; 0; 0]
  | Affine x y =>
      [Zmod.unsigned (qx x); Zmod.unsigned (qy x); Zmod.unsigned (qx y); Zmod.unsigned (qy y)]
  end.

Lemma val2_qx a : qx (val2 a) = fp (x2 a).
Proof. reflexivity. Qed.

Lemma val2_qy a : qy (val2 a) = fp (y2 a).
Proof. reflexivity. Qed.

(** The encoding depends on the point alone; infinity has one. *)
Lemma G2_Marshal_spec n : wf2 n -> fst (G2_Marshal n) = words (twist_words (twist_point n)).
Proof.
  intros W. unfold G2_Marshal. cbv zeta. cbn [fst].
  destruct (twist_point_MakeAffine n W) as [E1 [E2 _]]. set (n' := twistPoint_MakeAffine n) in *.
  transitivity (words [x2 (tx n') mod p; y2 (tx n') mod p; x2 (ty n') mod p; y2 (ty n') mod p]).
  - rewrite <- (app_nil_r (words _)). change [] with (repeat 0 (0 * numBytes)) at 2.
    words_tac ltac:(apply mod_p_range) 0%nat. words_tac ltac:(apply mod_p_range) 1%nat.
    words_tac ltac:(apply mod_p_range) 2%nat. words_tac ltac:(apply mod_p_range) 3%nat. reflexivity.
  - f_equal. rewrite <- !fp_unsigned, <- !val2_qx, <- !val2_qy.
    destruct (c_eq_dec (val2 (tz n)) c0) as [Z | N].
    + destruct (E2 Z) as [-> ->]. apply twist_point_infinity in Z. now rewrite Z.
    + now rewrite (E1 N).
Qed.

Lemma affine_point2 x y t : twist_point (TwistPoint x y gfP2_SetOne t) = Affine (val2 x) (val2 y).
Proof.
  unfold twist_point, affine, jac2. cbn [jx jy jz tx ty tz].
  change (val2 gfP2_SetOne) with (c1 : K2).
  destruct (c_eq_dec (c1 : K2) c0) as [C | _]; [now destruct (c1_neq_0 C) |].
  now rewrite !cmul_1_r, !cdiv_1_r.
Qed.

Lemma wf2_one x y t : wf2 (TwistPoint x y gfP2_SetOne t).
Proof.
  split; [cbn; lia |]. intros C. exfalso. exact (c1_neq_0 (R := K2) C).
Qed.

Lemma G2_Unmarshal_sound m e :
  G2_Unmarshal m = Some e ->
  length m = (4 * numBytes)%nat /\ wf2 e /\ on_curve (twist_point e) /\ valid_t e.
Proof.
  unfold G2_Unmarshal. destruct (Nat.eqb_spec (length m) (4 * numBytes)) as [L |]; [| discriminate].
  cbn [negb]. cbv zeta. match goal with |- context [if ?b then _ else _] => destruct b end.
  - intros [= <-]. split; [exact L |]. split; [split; [cbn; lia | reflexivity] |].
    split; [| discriminate].
    replace (twist_point _) with (@Infinity K2); [exact I |]. symmetry. now apply twist_point_infinity.
  - destruct (twistPoint_IsOnCurve _) eqn:E; [| discriminate]. cbn [negb]. intros [= <-].
    split; [exact L |]. split; [apply wf2_one |]. split; [| intros _; reflexivity].
    rewrite affine_point2. now apply IsOnCurve2 in E.
Qed.

Lemma val2_unsigned (x : K2) : val2 (GfP2 (Zmod.unsigned (qx x)) (Zmod.unsigned (qy x))) = x.
Proof. destruct x as [a b]. unfold val2. cbn [x2 y2 qx qy]. now rewrite !fp_unsigned_id. Qed.

Lemma K2_zero (x : K2) : Zmod.unsigned (qx x) = 0 -> Zmod.unsigned (qy x) = 0 -> x = c0.
Proof.
  destruct x as [a b]. cbn [qx qy]. intros Ha Hb. apply unsigned_zero in Ha, Hb. now subst.
Qed.

Lemma G2_Unmarshal_words (P : point K2) :
  on_curve P -> exists e, G2_Unmarshal (words (twist_words P)) = Some e /\ twist_point e = P.
Proof.
  intros H. unfold G2_Unmarshal. rewrite length_words.
  assert (length (twist_words P) = 4%nat) as L by now destruct P.
  rewrite L, Nat.eqb_refl. cbn [negb]. cbv zeta.
  assert (forall i, 0 <= nth i (twist_words P) 0 < p) as R.
  { intros i. destruct P as [| x y]; cbn [twist_words];
      do 4 (destruct i as [| i]; [apply unsigned_range || (split; reflexivity || discriminate) |]);
      destruct i; split; reflexivity || discriminate. }
  rewrite !getWord_words by (apply R || (rewrite L; lia)).
  destruct P as [| x y]; cbn [twist_words nth].
  - eexists. split; [reflexivity |]. now apply twist_point_infinity.
  - match goal with |- context [if ?b then _ else _] => destruct b eqn:E end.
    + exfalso. rewrite !andb_true_iff, !Z.eqb_eq in E. destruct E as [[[E1 E2] E3] E4].
      rewrite (K2_zero x E1 E2), (K2_zero y E3 E4) in H. exact (origin_off_curve H).
    + match goal with |- context [twistPoint_IsOnCurve ?e] =>
        assert (twistPoint_IsOnCurve e = true) as ->
          by (apply IsOnCurve2; cbn [tx ty]; rewrite !val2_unsigned; exact H) end.
      cbn [negb]. eexists. split; [reflexivity |]. now rewrite affine_point2, !val2_unsigned.
Qed.

Lemma G2_round_trip n :
  wf2 n -> on_curve (twist_point n) ->
  exists e, G2_Unmarshal (fst (G2_Marshal n)) = Some e /\ twist_point e = twist_point n.
Proof. intros W H. rewrite G2_Marshal_spec by exact W. now apply G2_Unmarshal_words. Qed.

(** ** GT *)

Definition gt_words (v : K12) : list Z :=
  [Zmod.unsigned (qx (kx (qx v))); Zmod.unsigned (qy (kx (qx v)));
   Zmod.unsigned (qx (ky (qx v))); Zmod.unsigned (qy (ky (qx v)));
   Zmod.unsigned (qx (kz (qx v))); Zmod.unsigned (qy (kz (qx v)));
   Zmod.unsigned (qx (kx (qy v))); Zmod.unsigned (qy (kx (qy v)));
   Zmod.unsigned (qx (ky (qy v))); Zmod.unsigned (qy (ky (qy v)));
   Zmod.unsigned (qx (kz (qy v))); Zmod.unsigned (qy (kz (qy v)))].

Lemma reduce_mod x : reduce x = x mod p.
Proof.
  unfold reduce. destruct (Z.ltb_spec x 0), (Z.leb_spec p x); cbn [orb]; try reflexivity.
  symmetry. now apply Z.mod_small.
Qed.

Lemma GT_Marshal_spec n : fst (GT_Marshal n) = words (gt_words (val12 n)).
Proof.
  unfold GT_Marshal. cbv zeta. cbn [fst]. rewrite <- val12_Minimal.
  assert (gt_words (val12 (gfP12_Minimal n)) =
    let n := gfP12_Minimal n in
    [x2 (x6 (x12 n)); y2 (x6 (x12 n)); x2 (y6 (x12 n)); y2 (y6 (x12 n)); x2 (z6 (x12 n));
     y2 (z6 (x12 n)); x2 (x6 (y12 n)); y2 (x6 (y12 n)); x2 (y6 (y12 n)); y2 (y6 (y12 n));
     x2 (z6 (y12 n)); y2 (z6 (y12 n))]) as ->.
  { unfold gt_words, val12, val6, val2. cbn [qx qy kx ky kz gfP12_Minimal gfP6_Minimal gfP2_Minimal x12 y12 x6 y6 z6 x2 y2].
    rewrite !fp_unsigned, !reduce_mod, !Z.mod_mod by discriminate. reflexivity. }
  cbv zeta. rewrite <- (app_nil_r (words _)). change [] with (repeat 0 (0 * numBytes)) at 2.
  words_tac ltac:(apply reduce_range) 0%nat. words_tac ltac:(apply reduce_range) 1%nat.
  words_tac ltac:(apply reduce_range) 2%nat. words_tac ltac:(apply reduce_range) 3%nat.
  words_tac ltac:(apply reduce_range) 4%nat. words_tac ltac:(apply reduce_range) 5%nat.
  words_tac ltac:(apply reduce_range) 6%nat. words_tac ltac:(apply reduce_range) 7%nat.
  words_tac ltac:(apply reduce_range) 8%nat. words_tac ltac:(apply reduce_range) 9%nat.
  words_tac ltac:(apply reduce_range) 10%nat. words_tac ltac:(apply reduce_range) 11%nat.
  reflexivity.
Qed.

Lemma K12_unsigned (v : K12) :
  val12 (GfP12
    (GfP6 (GfP2 (Zmod.unsigned (qx (kx (qx v)))) (Zmod.unsigned (qy (kx (qx v)))))
          (GfP2 (Zmod.unsigned (qx (ky (qx v)))) (Zmod.unsigned (qy (ky (qx v)))))
          (GfP2 (Zmod.unsigned (qx (kz (qx v)))) (Zmod.unsigned (qy (kz (qx v))))))
    (GfP6 (GfP2 (Zmod.unsigned (qx (kx (qy v)))) (Zmod.unsigned (qy (kx (qy v)))))
          (GfP2 (Zmod.unsigned (qx (ky (qy v)))) (Zmod.unsigned (qy (ky (qy v)))))
          (GfP2 (Zmod.unsigned (qx (kz (qy v)))) (Zmod.unsigned (qy (kz (qy v))))))) = v.
Proof.
  unfold val12, val6. cbn [x12 y12 x6 y6 z6]. rewrite !val2_unsigned.
  destruct v as [[a b c] [d e f]]. reflexivity.
Qed.

Lemma gt_words_range v i : 0 <= nth i (gt_words v) 0 < p.
Proof.
  unfold gt_words. do 12 (destruct i as [| i]; [apply unsigned_range |]).
  destruct i; split; reflexivity || discriminate.
Qed.

Lemma GT_round_trip n :
  exists e, GT_Unmarshal (fst (GT_Marshal n)) = Some e /\ val12 e = val12 n.
Proof.
  rewrite GT_Marshal_spec. unfold GT_Unmarshal. rewrite length_words, Nat.eqb_refl. cbn [negb].
  rewrite !getWord_words by (apply gt_words_range || (cbn; lia)).
  eexists. split; [reflexivity |]. apply K12_unsigned.
Qed.

(** The operations of the target group. *)
Lemma GT_operations a b k :
  val12 (GT_Add a b) = cmul (val12 a) (val12 b) /\ val12 (GT_Neg a) = cinv (val12 a) /\
  (0 <= k -> val12 (GT_ScalarMult a k) = pow (val12 a) k).
Proof.
  split; [apply val12_Mul |]. split; [apply val12_Invert | apply val12_Exp].
Qed.

(** ** Properties *)


