(* ===== verification/Keccak.v ===== *)
(** * The permutation Keccak-f[1600]

    Model of [src/golang-x-crypto/sha3/keccakf.go]: four rounds per iteration, in place, on 25
    lanes of 64 bits, against the five step mappings of FIPS 202; the round constants
    are the ones that the linear feedback register of the standard generates. *)

From S2P Require Import Prelude.

(** ** keccakf.go *)

Definition rc : list Z :=
  [0x0000000000000001; 0x0000000000008082; 0x800000000000808a; 0x8000000080008000;
   0x000000000000808b; 0x0000000080000001; 0x8000000080008081; 0x8000000000008009;
   0x000000000000008a; 0x0000000000000088; 0x0000000080008009; 0x000000008000000a;
   0x000000008000808b; 0x800000000000008b; 0x8000000000008089; 0x8000000000008003;
   0x8000000000008002; 0x8000000000000080; 0x000000000000800a; 0x800000008000000a;
   0x8000000080008081; 0x8000000000008080; 0x0000000080000001; 0x8000000080008008].

Local Open Scope u64_scope.

Definition round1 (rci : Z) (a : list Z) : list Z :=
  match a with
  | [a0; a1; a2; a3; a4; a5; a6; a7; a8; a9; a10; a11; a12; a13; a14; a15; a16; a17; a18; a19; a20;
     a21; a22; a23; a24] =>
      let bc0 := a0 .^ a5 .^ a10 .^ a15 .^ a20 in
      let bc1 := a1 .^ a6 .^ a11 .^ a16 .^ a21 in
      let bc2 := a2 .^ a7 .^ a12 .^ a17 .^ a22 in
      let bc3 := a3 .^ a8 .^ a13 .^ a18 .^ a23 in
      let bc4 := a4 .^ a9 .^ a14 .^ a19 .^ a24 in
      let d0 := bc4 .^ ((bc1 << 1) .| (bc1 >> 63)) in
      let d1 := bc0 .^ ((bc2 << 1) .| (bc2 >> 63)) in
      let d2 := bc1 .^ ((bc3 << 1) .| (bc3 >> 63)) in
      let d3 := bc2 .^ ((bc4 << 1) .| (bc4 >> 63)) in
      let d4 := bc3 .^ ((bc0 << 1) .| (bc0 >> 63)) in
      let bc0 := a0 .^ d0 in
      let t := a6 .^ d1 in
      let bc1 := (t << 44) .| (t >> (64-44)) in
      let t := a12 .^ d2 in
      let bc2 := (t << 43) .| (t >> (64-43)) in
      let t := a18 .^ d3 in
      let bc3 := (t << 21) .| (t >> (64-21)) in
      let t := a24 .^ d4 in
      let bc4 := (t << 14) .| (t >> (64-14)) in
      let a0 := bc0 .^ (bc2 .&^ bc1) .^ rci in
      let a6 := bc1 .^ (bc3 .&^ bc2) in
      let a12 := bc2 .^ (bc4 .&^ bc3) in
      let a18 := bc3 .^ (bc0 .&^ bc4) in
      let a24 := bc4 .^ (bc1 .&^ bc0) in
      let t := a10 .^ d0 in
      let bc2 := (t << 3) .| (t >> (64-3)) in
      let t := a16 .^ d1 in
      let bc3 := (t << 45) .| (t >> (64-45)) in
      let t := a22 .^ d2 in
      let bc4 := (t << 61) .| (t >> (64-61)) in
      let t := a3 .^ d3 in
      let bc0 := (t << 28) .| (t >> (64-28)) in
      let t := a9 .^ d4 in
      let bc1 := (t << 20) .| (t >> (64-20)) in
      let a10 := bc0 .^ (bc2 .&^ bc1) in
      let a16 := bc1 .^ (bc3 .&^ bc2) in
      let a22 := bc2 .^ (bc4 .&^ bc3) in
      let a3 := bc3 .^ (bc0 .&^ bc4) in
      let a9 := bc4 .^ (bc1 .&^ bc0) in
      let t := a20 .^ d0 in
      let bc4 := (t << 18) .| (t >> (64-18)) in
      let t := a1 .^ d1 in
      let bc0 := (t << 1) .| (t >> (64-1)) in
      let t := a7 .^ d2 in
      let bc1 := (t << 6) .| (t >> (64-6)) in
      let t := a13 .^ d3 in
      let bc2 := (t << 25) .| (t >> (64-25)) in
      let t := a19 .^ d4 in
      let bc3 := (t << 8) .| (t >> (64-8)) in
      let a20 := bc0 .^ (bc2 .&^ bc1) in
      let a1 := bc1 .^ (bc3 .&^ bc2) in
      let a7 := bc2 .^ (bc4 .&^ bc3) in
      let a13 := bc3 .^ (bc0 .&^ bc4) in
      let a19 := bc4 .^ (bc1 .&^ bc0) in
      let t := a5 .^ d0 in
      let bc1 := (t << 36) .| (t >> (64-36)) in
      let t := a11 .^ d1 in
      let bc2 := (t << 10) .| (t >> (64-10)) in
      let t := a17 .^ d2 in
      let bc3 := (t << 15) .| (t >> (64-15)) in
      let t := a23 .^ d3 in
      let bc4 := (t << 56) .| (t >> (64-56)) in
      let t := a4 .^ d4 in
      let bc0 := (t << 27) .| (t >> (64-27)) in
      let a5 := bc0 .^ (bc2 .&^ bc1) in
      let a11 := bc1 .^ (bc3 .&^ bc2) in
      let a17 := bc2 .^ (bc4 .&^ bc3) in
      let a23 := bc3 .^ (bc0 .&^ bc4) in
      let a4 := bc4 .^ (bc1 .&^ bc0) in
      let t := a15 .^ d0 in
      let bc3 := (t << 41) .| (t >> (64-41)) in
      let t := a21 .^ d1 in
      let bc4 := (t << 2) .| (t >> (64-2)) in
      let t := a2 .^ d2 in
      let bc0 := (t << 62) .| (t >> (64-62)) in
      let t := a8 .^ d3 in
      let bc1 := (t << 55) .| (t >> (64-55)) in
      let t := a14 .^ d4 in
      let bc2 := (t << 39) .| (t >> (64-39)) in
      let a15 := bc0 .^ (bc2 .&^ bc1) in
      let a21 := bc1 .^ (bc3 .&^ bc2) in
      let a2 := bc2 .^ (bc4 .&^ bc3) in
      let a8 := bc3 .^ (bc0 .&^ bc4) in
      let a14 := bc4 .^ (bc1 .&^ bc0) in
      [a0; a1; a2; a3; a4; a5; a6; a7; a8; a9; a10; a11; a12; a13; a14; a15; a16; a17; a18; a19;
       a20; a21; a22; a23; a24]
  | _ => a
  end.

Definition round2 (rci : Z) (a : list Z) : list Z :=
  match a with
  | [a0; a1; a2; a3; a4; a5; a6; a7; a8; a9; a10; a11; a12; a13; a14; a15; a16; a17; a18; a19; a20;
     a21; a22; a23; a24] =>
      let bc0 := a0 .^ a5 .^ a10 .^ a15 .^ a20 in
      let bc1 := a1 .^ a6 .^ a11 .^ a16 .^ a21 in
      let bc2 := a2 .^ a7 .^ a12 .^ a17 .^ a22 in
      let bc3 := a3 .^ a8 .^ a13 .^ a18 .^ a23 in
      let bc4 := a4 .^ a9 .^ a14 .^ a19 .^ a24 in
      let d0 := bc4 .^ ((bc1 << 1) .| (bc1 >> 63)) in
      let d1 := bc0 .^ ((bc2 << 1) .| (bc2 >> 63)) in
      let d2 := bc1 .^ ((bc3 << 1) .| (bc3 >> 63)) in
      let d3 := bc2 .^ ((bc4 << 1) .| (bc4 >> 63)) in
      let d4 := bc3 .^ ((bc0 << 1) .| (bc0 >> 63)) in
      let bc0 := a0 .^ d0 in
      let t := a16 .^ d1 in
      let bc1 := (t << 44) .| (t >> (64-44)) in
      let t := a7 .^ d2 in
      let bc2 := (t << 43) .| (t >> (64-43)) in
      let t := a23 .^ d3 in
      let bc3 := (t << 21) .| (t >> (64-21)) in
      let t := a14 .^ d4 in
      let bc4 := (t << 14) .| (t >> (64-14)) in
      let a0 := bc0 .^ (bc2 .&^ bc1) .^ rci in
      let a16 := bc1 .^ (bc3 .&^ bc2) in
      let a7 := bc2 .^ (bc4 .&^ bc3) in
      let a23 := bc3 .^ (bc0 .&^ bc4) in
      let a14 := bc4 .^ (bc1 .&^ bc0) in
      let t := a20 .^ d0 in
      let bc2 := (t << 3) .| (t >> (64-3)) in
      let t := a11 .^ d1 in
      let bc3 := (t << 45) .| (t >> (64-45)) in
      let t := a2 .^ d2 in
      let bc4 := (t << 61) .| (t >> (64-61)) in
      let t := a18 .^ d3 in
      let bc0 := (t << 28) .| (t >> (64-28)) in
      let t := a9 .^ d4 in
      let bc1 := (t << 20) .| (t >> (64-20)) in
      let a20 := bc0 .^ (bc2 .&^ bc1) in
      let a11 := bc1 .^ (bc3 .&^ bc2) in
      let a2 := bc2 .^ (bc4 .&^ bc3) in
      let a18 := bc3 .^ (bc0 .&^ bc4) in
      let a9 := bc4 .^ (bc1 .&^ bc0) in
      let t := a15 .^ d0 in
      let bc4 := (t << 18) .| (t >> (64-18)) in
      let t := a6 .^ d1 in
      let bc0 := (t << 1) .| (t >> (64-1)) in
      let t := a22 .^ d2 in
      let bc1 := (t << 6) .| (t >> (64-6)) in
      let t := a13 .^ d3 in
      let bc2 := (t << 25) .| (t >> (64-25)) in
      let t := a4 .^ d4 in
      let bc3 := (t << 8) .| (t >> (64-8)) in
      let a15 := bc0 .^ (bc2 .&^ bc1) in
      let a6 := bc1 .^ (bc3 .&^ bc2) in
      let a22 := bc2 .^ (bc4 .&^ bc3) in
      let a13 := bc3 .^ (bc0 .&^ bc4) in
      let a4 := bc4 .^ (bc1 .&^ bc0) in
      let t := a10 .^ d0 in
      let bc1 := (t << 36) .| (t >> (64-36)) in
      let t := a1 .^ d1 in
      let bc2 := (t << 10) .| (t >> (64-10)) in
      let t := a17 .^ d2 in
      let bc3 := (t << 15) .| (t >> (64-15)) in
      let t := a8 .^ d3 in
      let bc4 := (t << 56) .| (t >> (64-56)) in
      let t := a24 .^ d4 in
      let bc0 := (t << 27) .| (t >> (64-27)) in
      let a10 := bc0 .^ (bc2 .&^ bc1) in
      let a1 := bc1 .^ (bc3 .&^ bc2) in
      let a17 := bc2 .^ (bc4 .&^ bc3) in
      let a8 := bc3 .^ (bc0 .&^ bc4) in
      let a24 := bc4 .^ (bc1 .&^ bc0) in
      let t := a5 .^ d0 in
      let bc3 := (t << 41) .| (t >> (64-41)) in
      let t := a21 .^ d1 in
      let bc4 := (t << 2) .| (t >> (64-2)) in
      let t := a12 .^ d2 in
      let bc0 := (t << 62) .| (t >> (64-62)) in
      let t := a3 .^ d3 in
      let bc1 := (t << 55) .| (t >> (64-55)) in
      let t := a19 .^ d4 in
      let bc2 := (t << 39) .| (t >> (64-39)) in
      let a5 := bc0 .^ (bc2 .&^ bc1) in
      let a21 := bc1 .^ (bc3 .&^ bc2) in
      let a12 := bc2 .^ (bc4 .&^ bc3) in
      let a3 := bc3 .^ (bc0 .&^ bc4) in
      let a19 := bc4 .^ (bc1 .&^ bc0) in
      [a0; a1; a2; a3; a4; a5; a6; a7; a8; a9; a10; a11; a12; a13; a14; a15; a16; a17; a18; a19;
       a20; a21; a22; a23; a24]
  | _ => a
  end.

Definition round3 (rci : Z) (a : list Z) : list Z :=
  match a with
  | [a0; a1; a2; a3; a4; a5; a6; a7; a8; a9; a10; a11; a12; a13; a14; a15; a16; a17; a18; a19; a20;
     a21; a22; a23; a24] =>
      let bc0 := a0 .^ a5 .^ a10 .^ a15 .^ a20 in
      let bc1 := a1 .^ a6 .^ a11 .^ a16 .^ a21 in
      let bc2 := a2 .^ a7 .^ a12 .^ a17 .^ a22 in
      let bc3 := a3 .^ a8 .^ a13 .^ a18 .^ a23 in
      let bc4 := a4 .^ a9 .^ a14 .^ a19 .^ a24 in
      let d0 := bc4 .^ ((bc1 << 1) .| (bc1 >> 63)) in
      let d1 := bc0 .^ ((bc2 << 1) .| (bc2 >> 63)) in
      let d2 := bc1 .^ ((bc3 << 1) .| (bc3 >> 63)) in
      let d3 := bc2 .^ ((bc4 << 1) .| (bc4 >> 63)) in
      let d4 := bc3 .^ ((bc0 << 1) .| (bc0 >> 63)) in
      let bc0 := a0 .^ d0 in
      let t := a11 .^ d1 in
      let bc1 := (t << 44) .| (t >> (64-44)) in
      let t := a22 .^ d2 in
      let bc2 := (t << 43) .| (t >> (64-43)) in
      let t := a8 .^ d3 in
      let bc3 := (t << 21) .| (t >> (64-21)) in
      let t := a19 .^ d4 in
      let bc4 := (t << 14) .| (t >> (64-14)) in
      let a0 := bc0 .^ (bc2 .&^ bc1) .^ rci in
      let a11 := bc1 .^ (bc3 .&^ bc2) in
      let a22 := bc2 .^ (bc4 .&^ bc3) in
      let a8 := bc3 .^ (bc0 .&^ bc4) in
      let a19 := bc4 .^ (bc1 .&^ bc0) in
      let t := a15 .^ d0 in
      let bc2 := (t << 3) .| (t >> (64-3)) in
      let t := a1 .^ d1 in
      let bc3 := (t << 45) .| (t >> (64-45)) in
      let t := a12 .^ d2 in
      let bc4 := (t << 61) .| (t >> (64-61)) in
      let t := a23 .^ d3 in
      let bc0 := (t << 28) .| (t >> (64-28)) in
      let t := a9 .^ d4 in
      let bc1 := (t << 20) .| (t >> (64-20)) in
      let a15 := bc0 .^ (bc2 .&^ bc1) in
      let a1 := bc1 .^ (bc3 .&^ bc2) in
      let a12 := bc2 .^ (bc4 .&^ bc3) in
      let a23 := bc3 .^ (bc0 .&^ bc4) in
      let a9 := bc4 .^ (bc1 .&^ bc0) in
      let t := a5 .^ d0 in
      let bc4 := (t << 18) .| (t >> (64-18)) in
      let t := a16 .^ d1 in
      let bc0 := (t << 1) .| (t >> (64-1)) in
      let t := a2 .^ d2 in
      let bc1 := (t << 6) .| (t >> (64-6)) in
      let t := a13 .^ d3 in
      let bc2 := (t << 25) .| (t >> (64-25)) in
      let t := a24 .^ d4 in
      let bc3 := (t << 8) .| (t >> (64-8)) in
      let a5 := bc0 .^ (bc2 .&^ bc1) in
      let a16 := bc1 .^ (bc3 .&^ bc2) in
      let a2 := bc2 .^ (bc4 .&^ bc3) in
      let a13 := bc3 .^ (bc0 .&^ bc4) in
      let a24 := bc4 .^ (bc1 .&^ bc0) in
      let t := a20 .^ d0 in
      let bc1 := (t << 36) .| (t >> (64-36)) in
      let t := a6 .^ d1 in
      let bc2 := (t << 10) .| (t >> (64-10)) in
      let t := a17 .^ d2 in
      let bc3 := (t << 15) .| (t >> (64-15)) in
      let t := a3 .^ d3 in
      let bc4 := (t << 56) .| (t >> (64-56)) in
      let t := a14 .^ d4 in
      let bc0 := (t << 27) .| (t >> (64-27)) in
      let a20 := bc0 .^ (bc2 .&^ bc1) in
      let a6 := bc1 .^ (bc3 .&^ bc2) in
      let a17 := bc2 .^ (bc4 .&^ bc3) in
      let a3 := bc3 .^ (bc0 .&^ bc4) in
      let a14 := bc4 .^ (bc1 .&^ bc0) in
      let t := a10 .^ d0 in
      let bc3 := (t << 41) .| (t >> (64-41)) in
      let t := a21 .^ d1 in
      let bc4 := (t << 2) .| (t >> (64-2)) in
      let t := a7 .^ d2 in
      let bc0 := (t << 62) .| (t >> (64-62)) in
      let t := a18 .^ d3 in
      let bc1 := (t << 55) .| (t >> (64-55)) in
      let t := a4 .^ d4 in
      let bc2 := (t << 39) .| (t >> (64-39)) in
      let a10 := bc0 .^ (bc2 .&^ bc1) in
      let a21 := bc1 .^ (bc3 .&^ bc2) in
      let a7 := bc2 .^ (bc4 .&^ bc3) in
      let a18 := bc3 .^ (bc0 .&^ bc4) in
      let a4 := bc4 .^ (bc1 .&^ bc0) in
      [a0; a1; a2; a3; a4; a5; a6; a7; a8; a9; a10; a11; a12; a13; a14; a15; a16; a17; a18; a19;
       a20; a21; a22; a23; a24]
  | _ => a
  end.

Definition round4 (rci : Z) (a : list Z) : list Z :=
  match a with
  | [a0; a1; a2; a3; a4; a5; a6; a7; a8; a9; a10; a11; a12; a13; a14; a15; a16; a17; a18; a19; a20;
     a21; a22; a23; a24] =>
      let bc0 := a0 .^ a5 .^ a10 .^ a15 .^ a20 in
      let bc1 := a1 .^ a6 .^ a11 .^ a16 .^ a21 in
      let bc2 := a2 .^ a7 .^ a12 .^ a17 .^ a22 in
      let bc3 := a3 .^ a8 .^ a13 .^ a18 .^ a23 in
      let bc4 := a4 .^ a9 .^ a14 .^ a19 .^ a24 in
      let d0 := bc4 .^ ((bc1 << 1) .| (bc1 >> 63)) in
      let d1 := bc0 .^ ((bc2 << 1) .| (bc2 >> 63)) in
      let d2 := bc1 .^ ((bc3 << 1) .| (bc3 >> 63)) in
      let d3 := bc2 .^ ((bc4 << 1) .| (bc4 >> 63)) in
      let d4 := bc3 .^ ((bc0 << 1) .| (bc0 >> 63)) in
      let bc0 := a0 .^ d0 in
      let t := a1 .^ d1 in
      let bc1 := (t << 44) .| (t >> (64-44)) in
      let t := a2 .^ d2 in
      let bc2 := (t << 43) .| (t >> (64-43)) in
      let t := a3 .^ d3 in
      let bc3 := (t << 21) .| (t >> (64-21)) in
      let t := a4 .^ d4 in
      let bc4 := (t << 14) .| (t >> (64-14)) in
      let a0 := bc0 .^ (bc2 .&^ bc1) .^ rci in
      let a1 := bc1 .^ (bc3 .&^ bc2) in
      let a2 := bc2 .^ (bc4 .&^ bc3) in
      let a3 := bc3 .^ (bc0 .&^ bc4) in
      let a4 := bc4 .^ (bc1 .&^ bc0) in
      let t := a5 .^ d0 in
      let bc2 := (t << 3) .| (t >> (64-3)) in
      let t := a6 .^ d1 in
      let bc3 := (t << 45) .| (t >> (64-45)) in
      let t := a7 .^ d2 in
      let bc4 := (t << 61) .| (t >> (64-61)) in
      let t := a8 .^ d3 in
      let bc0 := (t << 28) .| (t >> (64-28)) in
      let t := a9 .^ d4 in
      let bc1 := (t << 20) .| (t >> (64-20)) in
      let a5 := bc0 .^ (bc2 .&^ bc1) in
      let a6 := bc1 .^ (bc3 .&^ bc2) in
      let a7 := bc2 .^ (bc4 .&^ bc3) in
      let a8 := bc3 .^ (bc0 .&^ bc4) in
      let a9 := bc4 .^ (bc1 .&^ bc0) in
      let t := a10 .^ d0 in
      let bc4 := (t << 18) .| (t >> (64-18)) in
      let t := a11 .^ d1 in
      let bc0 := (t << 1) .| (t >> (64-1)) in
      let t := a12 .^ d2 in
      let bc1 := (t << 6) .| (t >> (64-6)) in
      let t := a13 .^ d3 in
      let bc2 := (t << 25) .| (t >> (64-25)) in
      let t := a14 .^ d4 in
      let bc3 := (t << 8) .| (t >> (64-8)) in
      let a10 := bc0 .^ (bc2 .&^ bc1) in
      let a11 := bc1 .^ (bc3 .&^ bc2) in
      let a12 := bc2 .^ (bc4 .&^ bc3) in
      let a13 := bc3 .^ (bc0 .&^ bc4) in
      let a14 := bc4 .^ (bc1 .&^ bc0) in
      let t := a15 .^ d0 in
      let bc1 := (t << 36) .| (t >> (64-36)) in
      let t := a16 .^ d1 in
      let bc2 := (t << 10) .| (t >> (64-10)) in
      let t := a17 .^ d2 in
      let bc3 := (t << 15) .| (t >> (64-15)) in
      let t := a18 .^ d3 in
      let bc4 := (t << 56) .| (t >> (64-56)) in
      let t := a19 .^ d4 in
      let bc0 := (t << 27) .| (t >> (64-27)) in
      let a15 := bc0 .^ (bc2 .&^ bc1) in
      let a16 := bc1 .^ (bc3 .&^ bc2) in
      let a17 := bc2 .^ (bc4 .&^ bc3) in
      let a18 := bc3 .^ (bc0 .&^ bc4) in
      let a19 := bc4 .^ (bc1 .&^ bc0) in
      let t := a20 .^ d0 in
      let bc3 := (t << 41) .| (t >> (64-41)) in
      let t := a21 .^ d1 in
      let bc4 := (t << 2) .| (t >> (64-2)) in
      let t := a22 .^ d2 in
      let bc0 := (t << 62) .| (t >> (64-62)) in
      let t := a23 .^ d3 in
      let bc1 := (t << 55) .| (t >> (64-55)) in
      let t := a24 .^ d4 in
      let bc2 := (t << 39) .| (t >> (64-39)) in
      let a20 := bc0 .^ (bc2 .&^ bc1) in
      let a21 := bc1 .^ (bc3 .&^ bc2) in
      let a22 := bc2 .^ (bc4 .&^ bc3) in
      let a23 := bc3 .^ (bc0 .&^ bc4) in
      let a24 := bc4 .^ (bc1 .&^ bc0) in
      [a0; a1; a2; a3; a4; a5; a6; a7; a8; a9; a10; a11; a12; a13; a14; a15; a16; a17; a18; a19;
       a20; a21; a22; a23; a24]
  | _ => a
  end.

Local Close Scope u64_scope.

(** [for i := 0; i < 24; i += 4] *)
Definition keccakF1600 (a : list Z) : list Z :=
  fold_left (fun a i =>
      let a := round1 (nth i rc 0) a in
      let a := round2 (nth (i + 1) rc 0) a in
      let a := round3 (nth (i + 2) rc 0) a in
      round4 (nth (i + 3) rc 0) a)
    [0; 4; 8; 12; 16; 20]%nat a.

(** ** The step mappings of FIPS 202 *)

Definition lane (a : list Z) (x y : nat) : Z := nth (x mod 5 + 5 * (y mod 5)) a 0.

(** The array of a function of the coordinates. *)
Definition lanes (f : nat -> nat -> Z) : list Z :=
  map (fun i => f (i mod 5)%nat (i / 5)%nat) (seq 0 25).

Definition rol (x k : Z) : Z :=
  if k =? 0 then x else Z.lor (uint64 (Z.shiftl x k)) (Z.shiftr x (64 - k)).

Definition column (a : list Z) (x : nat) : Z :=
  Z.lxor (Z.lxor (Z.lxor (Z.lxor (lane a x 0) (lane a x 1)) (lane a x 2)) (lane a x 3)) (lane a x 4).

Definition theta (a : list Z) : list Z :=
  lanes (fun x y => Z.lxor (lane a x y) (Z.lxor (column a (x + 4)) (rol (column a (x + 1)) 1))).

(** The offsets along the walk (x, y) -> (y, 2x + 3y). *)
Fixpoint offsets (n t x y : nat) : list (nat * Z) :=
  match n with
  | O => []
  | S n =>
      ((x + 5 * y)%nat, (Z.of_nat t + 1) * (Z.of_nat t + 2) / 2 mod 64)
        :: offsets n (S t) y ((2 * x + 3 * y) mod 5)
  end.

Definition offset (x y : nat) : Z :=
  fold_right (fun e k => if (fst e =? x + 5 * y)%nat then snd e else k) 0 (offsets 24 0 1 0).

Definition rho (a : list Z) : list Z := lanes (fun x y => rol (lane a x y) (offset x y)).

Definition pi (a : list Z) : list Z := lanes (fun x y => lane a (x + 3 * y) x).

Definition andnot (x y : Z) : Z := Z.land (Z.lnot x) y.

Definition chi (a : list Z) : list Z :=
  lanes (fun x y => Z.lxor (lane a x y) (andnot (lane a (x + 1) y) (lane a (x + 2) y))).

Definition iota (r : Z) (a : list Z) : list Z :=
  lanes (fun x y => if (x + y =? 0)%nat then Z.lxor (lane a x y) r else lane a x y).

Definition keccakRound (r : Z) (a : list Z) : list Z := iota r (chi (pi (rho (theta a)))).

(** The constants: bit 2^j - 1 of round i is the output of a linear feedback register after
    j + 7i steps. *)
Definition lfsr (s : Z) : Z :=
  let s := Z.shiftl s 1 in if Z.testbit s 8 then Z.lxor s 0x171 else s.

Definition lfsrBit (t : nat) : bool := Z.odd (Nat.iter (t mod 255) lfsr 1).

Definition roundConstant (i : nat) : Z :=
  fold_left (fun c j => if lfsrBit (j + 7 * i) then Z.setbit c (2 ^ Z.of_nat j - 1) else c)
    (seq 0 7) 0.

Definition keccak (a : list Z) : list Z :=
  fold_left (fun a i => keccakRound (roundConstant i) a) (seq 0 24) a.

(** ** The code computes them *)

Lemma rc_generated : rc = map roundConstant (seq 0 24).
Proof. vm_compute. reflexivity. Qed.

(** The lanes of the code, of which every round moves all but one, in their places. *)
Definition arrange (place : list nat) (a : list Z) : list Z := map (fun i => nth i a 0) place.

Lemma ldiff_andnot x y : Z.ldiff x y = andnot y x.
Proof. unfold andnot. rewrite Z.land_comm. apply Z.ldiff_land. Qed.

Ltac xor_perm :=
  apply Z.bits_inj; intro; rewrite !Z.lxor_spec;
  repeat match goal with |- context [Z.testbit ?x ?n] => generalize (Z.testbit x n); intro end;
  repeat match goal with b : bool |- _ => destruct b end; reflexivity.

Ltac keccak_eval :=
  cbv -[Z.lxor Z.lor Z.ldiff andnot Z.shiftl Z.shiftr uint64]; rewrite ?ldiff_andnot.

(** A lemma on 25 lanes, for an array of them. *)
Ltac by_lanes a lem :=
  let L := fresh "L" in
  intros L; do 25 (destruct a as [| ? a]; [discriminate L |]); destruct a; [| discriminate L];
  apply lem.

Local Open Scope u64_scope.
Definition place1 : list nat :=
  [0; 11; 22; 8; 19; 15; 1; 12; 23; 9; 5; 16; 2; 13; 24; 20; 6; 17; 3; 14; 10; 21; 7; 18; 4]%nat.

Definition place2 : list nat :=
  [0; 16; 7; 23; 14; 20; 11; 2; 18; 9; 15; 6; 22; 13; 4; 10; 1; 17; 8; 24; 5; 21; 12; 3; 19]%nat.

Definition place3 : list nat :=
  [0; 6; 12; 18; 24; 10; 16; 22; 3; 9; 20; 1; 7; 13; 19; 5; 11; 17; 23; 4; 15; 21; 2; 8; 14]%nat.

Definition place4 : list nat :=
  [0; 1; 2; 3; 4; 5; 6; 7; 8; 9; 10; 11; 12; 13; 14; 15; 16; 17; 18; 19; 20; 21; 22; 23; 24]%nat.

Lemma round1_lanes r v0 v1 v2 v3 v4 v5 v6 v7 v8 v9 v10 v11 v12 v13 v14 v15 v16 v17 v18 v19 v20 v21
    v22 v23 v24 :
  let a :=
    [v0; v1; v2; v3; v4; v5; v6; v7; v8; v9; v10; v11; v12; v13; v14; v15; v16; v17; v18; v19; v20; v21;
     v22; v23; v24] in
  round1 r a = arrange place1 (keccakRound r a).
Proof.
  keccak_eval.
  reflexivity.
Qed.

Lemma round2_lanes r v0 v1 v2 v3 v4 v5 v6 v7 v8 v9 v10 v11 v12 v13 v14 v15 v16 v17 v18 v19 v20 v21
    v22 v23 v24 :
  let a :=
    [v0; v1; v2; v3; v4; v5; v6; v7; v8; v9; v10; v11; v12; v13; v14; v15; v16; v17; v18; v19; v20; v21;
     v22; v23; v24] in
  round2 r (arrange place1 a) = arrange place2 (keccakRound r a).
Proof.
  keccak_eval.
  replace (v0 .^ v15 .^ v5 .^ v20 .^ v10) with (v0 .^ v5 .^ v10 .^ v15 .^ v20) by xor_perm.
  replace (v11 .^ v1 .^ v16 .^ v6 .^ v21) with (v1 .^ v6 .^ v11 .^ v16 .^ v21) by xor_perm.
  replace (v22 .^ v12 .^ v2 .^ v17 .^ v7) with (v2 .^ v7 .^ v12 .^ v17 .^ v22) by xor_perm.
  replace (v8 .^ v23 .^ v13 .^ v3 .^ v18) with (v3 .^ v8 .^ v13 .^ v18 .^ v23) by xor_perm.
  replace (v19 .^ v9 .^ v24 .^ v14 .^ v4) with (v4 .^ v9 .^ v14 .^ v19 .^ v24) by xor_perm.
  reflexivity.
Qed.

Lemma round3_lanes r v0 v1 v2 v3 v4 v5 v6 v7 v8 v9 v10 v11 v12 v13 v14 v15 v16 v17 v18 v19 v20 v21
    v22 v23 v24 :
  let a :=
    [v0; v1; v2; v3; v4; v5; v6; v7; v8; v9; v10; v11; v12; v13; v14; v15; v16; v17; v18; v19; v20; v21;
     v22; v23; v24] in
  round3 r (arrange place2 a) = arrange place3 (keccakRound r a).
Proof.
  keccak_eval.
  replace (v0 .^ v20 .^ v15 .^ v10 .^ v5) with (v0 .^ v5 .^ v10 .^ v15 .^ v20) by xor_perm.
  replace (v16 .^ v11 .^ v6 .^ v1 .^ v21) with (v1 .^ v6 .^ v11 .^ v16 .^ v21) by xor_perm.
  replace (v7 .^ v2 .^ v22 .^ v17 .^ v12) with (v2 .^ v7 .^ v12 .^ v17 .^ v22) by xor_perm.
  replace (v23 .^ v18 .^ v13 .^ v8 .^ v3) with (v3 .^ v8 .^ v13 .^ v18 .^ v23) by xor_perm.
  replace (v14 .^ v9 .^ v4 .^ v24 .^ v19) with (v4 .^ v9 .^ v14 .^ v19 .^ v24) by xor_perm.
  reflexivity.
Qed.

Lemma round4_lanes r v0 v1 v2 v3 v4 v5 v6 v7 v8 v9 v10 v11 v12 v13 v14 v15 v16 v17 v18 v19 v20 v21
    v22 v23 v24 :
  let a :=
    [v0; v1; v2; v3; v4; v5; v6; v7; v8; v9; v10; v11; v12; v13; v14; v15; v16; v17; v18; v19; v20; v21;
     v22; v23; v24] in
  round4 r (arrange place3 a) = arrange place4 (keccakRound r a).
Proof.
  keccak_eval.
  replace (v0 .^ v10 .^ v20 .^ v5 .^ v15) with (v0 .^ v5 .^ v10 .^ v15 .^ v20) by xor_perm.
  replace (v6 .^ v16 .^ v1 .^ v11 .^ v21) with (v1 .^ v6 .^ v11 .^ v16 .^ v21) by xor_perm.
  replace (v12 .^ v22 .^ v7 .^ v17 .^ v2) with (v2 .^ v7 .^ v12 .^ v17 .^ v22) by xor_perm.
  replace (v18 .^ v3 .^ v13 .^ v23 .^ v8) with (v3 .^ v8 .^ v13 .^ v18 .^ v23) by xor_perm.
  replace (v24 .^ v9 .^ v19 .^ v4 .^ v14) with (v4 .^ v9 .^ v14 .^ v19 .^ v24) by xor_perm.
  reflexivity.
Qed.

Local Close Scope u64_scope.

Lemma length_lanes f : length (lanes f) = 25%nat.
Proof. unfold lanes. now rewrite length_map, length_seq. Qed.

Lemma length_keccakRound r a : length (keccakRound r a) = 25%nat.
Proof. apply length_lanes. Qed.

(** Four rounds bring the lanes back to their places. *)
Lemma four_rounds r1 r2 r3 r4 a :
  length a = 25%nat ->
  round4 r4 (round3 r3 (round2 r2 (round1 r1 a))) =
    keccakRound r4 (keccakRound r3 (keccakRound r2 (keccakRound r1 a))).
Proof.
  intros H. assert (forall b, length b = 25%nat -> arrange place4 b = b) as A4
    by (intros b; by_lanes b (@eq_refl (list Z))).
  transitivity (round4 r4 (round3 r3 (round2 r2 (arrange place1 (keccakRound r1 a))))).
  { do 3 f_equal. revert H. by_lanes a round1_lanes. }
  transitivity (round4 r4 (round3 r3 (arrange place2 (keccakRound r2 (keccakRound r1 a))))).
  { do 2 f_equal. generalize (length_keccakRound r1 a). generalize (keccakRound r1 a).
    intros b. by_lanes b round2_lanes. }
  transitivity (round4 r4 (arrange place3 (keccakRound r3 (keccakRound r2 (keccakRound r1 a))))).
  { f_equal. generalize (length_keccakRound r2 (keccakRound r1 a)).
    generalize (keccakRound r2 (keccakRound r1 a)). intros b. by_lanes b round3_lanes. }
  rewrite <- (A4 (keccakRound r4 _)) by apply length_keccakRound.
  generalize (length_keccakRound r3 (keccakRound r2 (keccakRound r1 a))).
  generalize (keccakRound r3 (keccakRound r2 (keccakRound r1 a))). intros b. by_lanes b round4_lanes.
Qed.

Lemma fold_rounds (f f' : list Z -> nat -> list Z) l : forall a,
  (forall i a, length a = 25%nat -> f a i = f' a i) -> (forall i a, length (f' a i) = 25%nat) ->
  length a = 25%nat -> fold_left f l a = fold_left f' l a.
Proof.
  induction l as [| i l IH]; intros a E L H; [reflexivity |]. cbn [fold_left].
  rewrite E by exact H. apply IH; auto.
Qed.

Lemma keccakF1600_spec a : length a = 25%nat -> keccakF1600 a = keccak a.
Proof.
  intros H. unfold keccakF1600. rewrite rc_generated.
  rewrite (fold_rounds _ (fun a i => keccakRound (nth (i + 3) (map roundConstant (seq 0 24)) 0)
      (keccakRound (nth (i + 2) (map roundConstant (seq 0 24)) 0)
      (keccakRound (nth (i + 1) (map roundConstant (seq 0 24)) 0)
      (keccakRound (nth i (map roundConstant (seq 0 24)) 0) a))))); [| | | exact H].
  - unfold keccak. cbn [fold_left seq map nth Nat.add]. reflexivity.
  - intros i b Hb. cbv zeta. now apply four_rounds.
  - intros i b. apply length_keccakRound.
Qed.

Lemma length_keccakF1600 a : length a = 25%nat -> length (keccakF1600 a) = 25%nat.
Proof.
  intros H. rewrite keccakF1600_spec by exact H. unfold keccak.
  change (seq 0 24) with (seq 0 23 ++ [23%nat]). rewrite fold_left_app. apply length_keccakRound.
Qed.

Lemma iter_keccak n a : length a = 25%nat -> length (Nat.iter n keccakF1600 a) = 25%nat.
Proof. intros H. induction n as [| n IH]; [exact H |]. now apply length_keccakF1600. Qed.
