(* ===== verification/Sha3.v ===== *)
(** * SHA-3 and SHAKE

    Model of [src/golang-x-crypto/sha3] above the permutation: the sponge ([sha3.go]), the two
    builds of the conversion between bytes and lanes ([xor_generic.go], [xor_unaligned.go]),
    [hashes.go] and [shake.go].  The slice [d.buf] is an offset and a length in [d.storage],
    so that its capacity, which [clone] uses, is part of the model. *)

From S2P Require Import Prelude Keccak.

Local Open Scope go_scope.

(** ** sha3.go *)

Inductive spongeDirection := spongeAbsorbing | spongeSqueezing.

Definition maxRate : nat := 168.

Record state := State {
  a : list Z;
  buf : option (nat * nat);
  rate : nat;
  dsbyte : Z;
  storage : list Z;
  fixedOutput : bool;
  outputLen : nat;
  direction : spongeDirection }.

(** The composite literals of the constructors: the other fields are zero. *)
Definition newState (r out : nat) (ds : Z) : state :=
  State (repeat 0 25) None r ds (repeat 0 maxRate) false out spongeAbsorbing.

Definition with_a (a' : list Z) (d : state) : state :=
  State a' (buf d) (rate d) (dsbyte d) (storage d) (fixedOutput d) (outputLen d) (direction d).

Definition with_buf (b : option (nat * nat)) (d : state) : state :=
  State (a d) b (rate d) (dsbyte d) (storage d) (fixedOutput d) (outputLen d) (direction d).

Definition with_storage (s : list Z) (d : state) : state :=
  State (a d) (buf d) (rate d) (dsbyte d) s (fixedOutput d) (outputLen d) (direction d).

Definition with_direction (x : spongeDirection) (d : state) : state :=
  State (a d) (buf d) (rate d) (dsbyte d) (storage d) (fixedOutput d) (outputLen d) x.

Definition bufOff (d : state) : nat := match buf d with Some (off, _) => off | None => 0 end.

Definition bufLen (d : state) : nat := match buf d with Some (_, len) => len | None => 0 end.

(** [cap(d.buf)] *)
Definition bufCap (d : state) : nat :=
  match buf d with Some (off, _) => maxRate - off | None => 0 end.

(** The bytes of [d.buf]. *)
Definition bufBytes (d : state) : list Z := firstn (bufLen d) (skipn (bufOff d) (storage d)).

(** [copy(d.storage[off:], l)] *)
Definition store (off : nat) (l : list Z) (d : state) : state :=
  with_storage (firstn off (storage d) ++ l ++ skipn (off + length l) (storage d)) d.

(** [d.buf = append(d.buf, l...)]; a new array is never needed. *)
Definition appendBuf (l : list Z) (d : state) : state :=
  with_buf (Some (bufOff d, (bufLen d + length l)%nat)) (store (bufOff d + bufLen d) l d).

Definition BlockSize (d : state) : nat := rate d.

Definition Size (d : state) : nat := outputLen d.

Definition Reset (d : state) : state :=
  with_buf (Some (0, 0)%nat) (with_direction spongeAbsorbing (with_a (repeat 0 25) d)).

(** *** Bytes and lanes *)

Fixpoint xorInLoop (n i : nat) (lanes b : list Z) : list Z :=
  match n with
  | O => lanes
  | S n =>
      let w := le_val (firstn 8 b) in
      xorInLoop n (S i) (set_nth i (Z.lxor (nth i lanes 0) w) lanes) (skipn 8 b)
  end.

Definition xorInGeneric (lanes b : list Z) : list Z := xorInLoop (length b / 8) 0 lanes b.

Fixpoint copyOutLoop (n i : nat) (lanes b : list Z) : list Z :=
  match n with
  | O => b
  | S n => le_bytes 8 (nth i lanes 0) ++ copyOutLoop n (S i) lanes (skipn 8 b)
  end.

Definition copyOutGeneric (lanes b : list Z) : list Z := copyOutLoop (length b / 8) 0 lanes b.

(** The build for processors that read unaligned words: words [lo] to [hi], if there are
    that many bytes. *)
Definition xorWords (n need lo hi : nat) (b lanes : list Z) : list Z :=
  if (need <=? n)%nat then
    fold_left (fun l i => set_nth i (Z.lxor (nth i l 0) (le_val (firstn 8 (skipn (8 * i) b)))) l)
      (seq lo (hi - lo)) lanes
  else lanes.

Definition xorInUnaligned (lanes b : list Z) : list Z :=
  let n := length b in
  let lanes := xorWords n 72 0 9 b lanes in
  let lanes := xorWords n 104 9 13 b lanes in
  let lanes := xorWords n 136 13 17 b lanes in
  let lanes := xorWords n 144 17 18 b lanes in
  xorWords n 168 18 21 b lanes.

Definition copyOutUnaligned (lanes b : list Z) : list Z :=
  copy b (firstn maxRate (concat (map (le_bytes 8) lanes))).

(** *** The sponge *)

Definition xorIn (b : list Z) (d : state) : state := with_a (xorInGeneric (a d) b) d.

(** [copyOut(d, d.buf)] *)
Definition copyOut (d : state) : state :=
  store (bufOff d) (copyOutGeneric (a d) (bufBytes d)) d.

Definition permute (d : state) : state :=
  match direction d with
  | spongeAbsorbing =>
      let d := xorIn (bufBytes d) d in
      let d := with_buf (Some (0, 0)%nat) d in
      with_a (keccakF1600 (a d)) d
  | spongeSqueezing =>
      let d := with_a (keccakF1600 (a d)) d in
      let d := with_buf (Some (0%nat, rate d)) d in
      copyOut d
  end.

Definition notNil (d : state) : state :=
  match buf d with Some _ => d | None => with_buf (Some (0, 0)%nat) d end.

Definition padAndPermute (ds : Z) (d : state) : state :=
  let d := notNil d in
  let d := appendBuf [ds] d in
  let zerosStart := bufLen d in
  let d := with_buf (Some (0%nat, rate d)) d in
  let d := store zerosStart (repeat 0 (rate d - zerosStart)) d in
  let d := store (rate d - 1) [Z.lxor (nth (rate d - 1) (storage d) 0) 0x80] d in
  let d := permute d in
  let d := with_direction spongeSqueezing d in
  let d := with_buf (Some (0%nat, rate d)) d in
  copyOut d.

(** The loop of [Write]; the fuel is the length of [p], of which every iteration takes at
    least one byte. *)
Fixpoint writeLoop (fuel : nat) (p : list Z) (d : state) : state :=
  match fuel, p with
  | S fuel, _ :: _ =>
      if (bufLen d =? 0)%nat && (rate d <=? length p)%nat then
        let d := xorIn (firstn (rate d) p) d in
        let p := skipn (rate d) p in
        writeLoop fuel p (with_a (keccakF1600 (a d)) d)
      else
        let todo := (rate d - bufLen d)%nat in
        let todo := if (length p <? todo)%nat then length p else todo in
        let d := appendBuf (firstn todo p) d in
        let p := skipn todo p in
        writeLoop fuel p (if (bufLen d =? rate d)%nat then permute d else d)
  | _, _ => d
  end.

Definition Write (p : list Z) (d : state) : outcome (state * nat) :=
  match direction d with
  | spongeSqueezing => Panic
  | spongeAbsorbing =>
      let d := notNil d in
      Return (writeLoop (length p) p d, length p)
  end.

(** The loop of [Read] for [n] bytes, likewise. *)
Fixpoint readLoop (fuel n : nat) (out : list Z) (d : state) : state * list Z :=
  match fuel, n with
  | S fuel, S _ =>
      let k := Nat.min n (bufLen d) in
      let out := out ++ firstn k (bufBytes d) in
      let d := with_buf (Some (bufOff d + k, bufLen d - k)%nat) d in
      readLoop fuel (n - k) out (if (bufLen d =? 0)%nat then permute d else d)
  | _, _ => (d, out)
  end.

Definition Read (n : nat) (d : state) : state * list Z :=
  let d :=
    match direction d with
    | spongeAbsorbing => padAndPermute (dsbyte d) d
    | spongeSqueezing => d
    end in
  readLoop n n [] d.

(** [ret.storage[d.rate-cap(d.buf) : d.rate]] panics when the lower bound is negative or above
    the upper one. *)
Definition clone (d : state) : outcome state :=
  match direction d with
  | spongeAbsorbing => Return (with_buf (Some (0%nat, bufLen d)) d)
  | spongeSqueezing =>
      if (bufCap d <=? rate d)%nat then
        let lo := (rate d - bufCap d)%nat in
        Return (with_buf (Some (lo, (rate d - lo)%nat)) d)
      else Panic
  end.

Definition Sum (inp : list Z) (d : state) : outcome (list Z) :=
  dup <- clone d;;
  Return (inp ++ snd (Read (outputLen dup) dup)).

(** ** hashes.go *)

Definition New224 : state := newState 144 28 0x06.

Definition New256 : state := newState 136 32 0x06.

Definition New384 : state := newState 104 48 0x06.

Definition New512 : state := newState 72 64 0x06.

(** [h.Write(data); h.Sum(digest[:0])]: the result is appended in the array [digest], which is
    as long as it. *)
Definition sumOf (h : state) (data : list Z) : outcome (list Z) :=
  hn <- Write data h;;
  Sum [] (fst hn).

Definition Sum224 (data : list Z) : outcome (list Z) := sumOf New224 data.

Definition Sum256 (data : list Z) : outcome (list Z) := sumOf New256 data.

Definition Sum384 (data : list Z) : outcome (list Z) := sumOf New384 data.

Definition Sum512 (data : list Z) : outcome (list Z) := sumOf New512 data.

(** ** shake.go *)

Definition NewShake128 : state := newState 168 0 0x1f.

Definition NewShake256 : state := newState 136 0 0x1f.

Definition Clone (d : state) : outcome state := clone d.

(** [n] is the length of the slice [hash]. *)
Definition shakeOf (h : state) (n : nat) (data : list Z) : outcome (list Z) :=
  hn <- Write data h;;
  Return (snd (Read n (fst hn))).

Definition ShakeSum128 (n : nat) (data : list Z) : outcome (list Z) := shakeOf NewShake128 n data.

Definition ShakeSum256 (n : nat) (data : list Z) : outcome (list Z) := shakeOf NewShake256 n data.

(** ** The sponge of FIPS 202 *)

(** The bytes of the lanes, and a block added to the first lanes. *)
Definition outBytes (lanes : list Z) : list Z := concat (map (le_bytes 8) lanes).

Definition word64 (b : list Z) (i : nat) : Z := le_val (firstn 8 (skipn (8 * i) b)).

Definition xorBlock (lanes b : list Z) : list Z :=
  map (fun i => Z.lxor (nth i lanes 0) (word64 b i)) (seq 0 25).

Fixpoint absorbBlocks (k r : nat) (lanes m : list Z) : list Z :=
  match k with
  | O => lanes
  | S k => absorbBlocks k r (keccak (xorBlock lanes (firstn r m))) (skipn r m)
  end.

(** The bits of the domain and of the padding rule, in [q] bytes. *)
Definition padding (q : nat) (ds : Z) : list Z :=
  if (q =? 1)%nat then [Z.lxor ds 0x80] else ds :: repeat 0 (q - 2) ++ [0x80].

Definition absorbMessage (r : nat) (ds : Z) (m : list Z) : list Z :=
  let m := m ++ padding (r - length m mod r) ds in
  absorbBlocks (length m / r) r (repeat 0 25) m.

(** Byte [i] of the output. *)
Definition streamByte (r : nat) (lanes : list Z) (i : nat) : Z :=
  nth (i mod r) (outBytes (Nat.iter (i / r) keccak lanes)) 0.

Definition squeezed (r : nat) (lanes : list Z) (from n : nat) : list Z :=
  map (streamByte r lanes) (seq from n).

Definition sponge (r : nat) (ds : Z) (m : list Z) (n : nat) : list Z :=
  squeezed r (absorbMessage r ds m) 0 n.

(** ** Bytes and lanes *)

Lemma nth_list_eq (l l' : list Z) :
  length l = length l' -> (forall i, (i < length l)%nat -> nth i l 0 = nth i l' 0) -> l = l'.
Proof. intros L H. now apply (nth_ext l l' 0 0). Qed.

Lemma length_xorBlock lanes b : length (xorBlock lanes b) = 25%nat.
Proof. unfold xorBlock. now rewrite length_map, length_seq. Qed.

Lemma nth_xorBlock lanes b i :
  (i < 25)%nat -> nth i (xorBlock lanes b) 0 = Z.lxor (nth i lanes 0) (word64 b i).
Proof.
  intros H. unfold xorBlock.
  rewrite (nth_indep _ 0 (Z.lxor (nth 25 lanes 0) (word64 b 25))) by (rewrite length_map, length_seq; lia).
  rewrite (map_nth (fun i => Z.lxor (nth i lanes 0) (word64 b i))), seq_nth by lia. reflexivity.
Qed.

Lemma word64_beyond b i : (length b <= 8 * i)%nat -> word64 b i = 0.
Proof. intros H. unfold word64. now rewrite skipn_all2 by lia. Qed.

Lemma length_xorInLoop n : forall i lanes b, length (xorInLoop n i lanes b) = length lanes.
Proof. induction n as [| n IH]; intros; cbn [xorInLoop]; [reflexivity |]. now rewrite IH, length_set_nth. Qed.

Lemma nth_xorInLoop n : forall i lanes b j,
  (i + n <= length lanes)%nat -> (j < length lanes)%nat ->
  nth j (xorInLoop n i lanes b) 0 =
    if (i <=? j)%nat && (j <? i + n)%nat then Z.lxor (nth j lanes 0) (word64 b (j - i))
    else nth j lanes 0.
Proof.
  induction n as [| n IH]; intros i lanes b j Hn Hj; cbn [xorInLoop].
  - destruct (Nat.leb_spec i j), (Nat.ltb_spec j (i + 0)); try reflexivity; lia.
  - rewrite IH by (rewrite length_set_nth; lia). rewrite nth_set_nth by lia.
    unfold word64. rewrite skipn_skipn.
    destruct (Nat.leb_spec (S i) j), (Nat.ltb_spec j (S i + n)), (Nat.leb_spec i j),
      (Nat.ltb_spec j (i + S n)); cbn [andb]; try lia;
      destruct (Nat.eqb_spec j i) as [-> | N]; cbn [andb]; try lia; try reflexivity.
    + replace (8 * (j - S i) + 8)%nat with (8 * (j - i))%nat by lia. reflexivity.
    + rewrite Nat.sub_diag. reflexivity.
Qed.

Lemma xorInGeneric_spec lanes b :
  length lanes = 25%nat -> (length b mod 8 = 0)%nat -> (length b <= 200)%nat ->
  xorInGeneric lanes b = xorBlock lanes b.
Proof.
  intros L M B. pose proof (Nat.div_mod_eq (length b) 8) as D. unfold xorInGeneric.
  apply nth_list_eq; rewrite length_xorInLoop, L; [now rewrite length_xorBlock |].
  intros i Hi. rewrite nth_xorInLoop, nth_xorBlock by lia. rewrite Nat.sub_0_r. cbn [Nat.leb andb Nat.add].
  destruct (Nat.ltb_spec i (length b / 8)); [reflexivity |].
  rewrite word64_beyond by lia. now rewrite Z.lxor_0_r.
Qed.

(** The two builds agree on the rates of the package. *)
Lemma nth_foldWords b : forall k lo lanes j,
  (lo + k <= length lanes)%nat ->
  nth j (fold_left (fun l i => set_nth i (Z.lxor (nth i l 0) (word64 b i)) l) (seq lo k) lanes) 0 =
    if (lo <=? j)%nat && (j <? lo + k)%nat then Z.lxor (nth j lanes 0) (word64 b j)
    else nth j lanes 0.
Proof.
  induction k as [| k IH]; intros lo lanes j H; cbn [seq fold_left].
  - destruct (Nat.leb_spec lo j), (Nat.ltb_spec j (lo + 0)); try reflexivity; lia.
  - rewrite IH, nth_set_nth by (rewrite ?length_set_nth; lia).
    destruct (Nat.leb_spec (S lo) j), (Nat.ltb_spec j (S lo + k)), (Nat.leb_spec lo j),
      (Nat.ltb_spec j (lo + S k)), (Nat.eqb_spec j lo) as [-> | N];
      cbn [andb]; try lia; reflexivity.
Qed.

Lemma length_foldWords (b : list Z) : forall l lanes,
  length (fold_left (fun l i => set_nth i (Z.lxor (nth i l 0) (word64 b i)) l) l lanes) = length lanes.
Proof. induction l as [| i l IH]; intros lanes; [reflexivity |]. cbn [fold_left]. now rewrite IH, length_set_nth. Qed.

Lemma nth_xorWords n need lo hi b lanes j :
  (lo <= hi <= length lanes)%nat ->
  nth j (xorWords n need lo hi b lanes) 0 =
    if (need <=? n)%nat && ((lo <=? j)%nat && (j <? hi)%nat)
    then Z.lxor (nth j lanes 0) (word64 b j) else nth j lanes 0.
Proof.
  intros H. unfold xorWords. destruct (Nat.leb_spec need n); [| reflexivity].
  cbn [andb]. replace hi with (lo + (hi - lo))%nat at 2 by lia. apply nth_foldWords. lia.
Qed.

Lemma length_xorWords n need lo hi b lanes : length (xorWords n need lo hi b lanes) = length lanes.
Proof. unfold xorWords. destruct (need <=? n)%nat; [apply length_foldWords | reflexivity]. Qed.

Lemma xorInUnaligned_spec lanes b :
  length lanes = 25%nat -> In (length b) [72; 104; 136; 144; 168]%nat ->
  xorInUnaligned lanes b = xorBlock lanes b.
Proof.
  intros L R. unfold xorInUnaligned. cbv zeta.
  apply nth_list_eq; rewrite !length_xorWords; [now rewrite length_xorBlock |]. rewrite L.
  intros i Hi. rewrite !nth_xorWords, nth_xorBlock by (rewrite ?length_xorWords, ?L; lia).
  assert ((length b <= 8 * i)%nat -> nth i lanes 0 = Z.lxor (nth i lanes 0) (word64 b i)) as Z
    by (intros; now rewrite word64_beyond, Z.lxor_0_r).
  destruct R as [E | [E | [E | [E | [E | []]]]]]; rewrite <- E in *; clear E;
    do 25 (destruct i as [| i]; [cbn [Nat.leb Nat.ltb andb]; reflexivity || (apply Z; lia) |]); lia.
Qed.

Lemma length_outBytes lanes : length (outBytes lanes) = (8 * length lanes)%nat.
Proof.
  unfold outBytes. induction lanes as [| l lanes IH]; [reflexivity |].
  cbn [map concat length]. rewrite length_app, IH, length_le_bytes. lia.
Qed.

Lemma skipn_outBytes i lanes : skipn (8 * i) (outBytes lanes) = outBytes (skipn i lanes).
Proof.
  revert lanes. induction i as [| i IH]; intros lanes; [reflexivity |].
  destruct lanes as [| l lanes]; [apply skipn_nil |].
  replace (8 * S i)%nat with (8 + 8 * i)%nat by lia. rewrite Nat.add_comm, <- skipn_skipn.
  change (outBytes (l :: lanes)) with (le_bytes 8 l ++ outBytes lanes).
  rewrite skipn_app_exact by apply length_le_bytes. apply IH.
Qed.

Lemma copyOutLoop_spec n : forall i lanes b,
  (i + n <= length lanes)%nat -> (8 * n <= length b)%nat ->
  copyOutLoop n i lanes b = firstn (8 * n) (skipn (8 * i) (outBytes lanes)) ++ skipn (8 * n) b.
Proof.
  induction n as [| n IH]; intros i lanes b Hn Hb; cbn [copyOutLoop]; [reflexivity |].
  rewrite IH by (rewrite ?length_skipn; lia). rewrite !skipn_outBytes, skipn_skipn.
  assert (skipn i lanes = nth i lanes 0 :: skipn (S i) lanes) as ->.
  { clear -Hn. revert lanes Hn. induction i as [| i IH]; intros [| l lanes] H; cbn in *; try lia;
      [reflexivity |]. rewrite <- IH by lia. reflexivity. }
  change (outBytes (nth i lanes 0 :: skipn (S i) lanes))
    with (le_bytes 8 (nth i lanes 0) ++ outBytes (skipn (S i) lanes)).
  replace (8 * S n)%nat with (8 + 8 * n)%nat by lia.
  rewrite firstn_app, length_le_bytes.
  rewrite (firstn_all2 (n := 8 + 8 * n) (le_bytes 8 _)) by (rewrite length_le_bytes; lia).
  replace (8 + 8 * n - 8)%nat with (8 * n)%nat by lia. rewrite <- app_assoc.
  now rewrite (Nat.add_comm 8 (8 * n)).
Qed.

Lemma copyOutGeneric_spec lanes b :
  length lanes = 25%nat -> (length b mod 8 = 0)%nat -> (length b <= 200)%nat ->
  copyOutGeneric lanes b = firstn (length b) (outBytes lanes).
Proof.
  intros L M B. pose proof (Nat.div_mod_eq (length b) 8) as D. unfold copyOutGeneric.
  rewrite copyOutLoop_spec by lia. rewrite Nat.mul_0_r. cbn [skipn].
  replace (8 * (length b / 8))%nat with (length b) by lia. rewrite skipn_all. apply app_nil_r.
Qed.

Lemma copyOutUnaligned_spec lanes b :
  length lanes = 25%nat -> (length b <= 168)%nat ->
  copyOutUnaligned lanes b = firstn (length b) (outBytes lanes).
Proof.
  intros L B. unfold copyOutUnaligned, copy. fold (outBytes lanes).
  pose proof (length_outBytes lanes) as LO. rewrite L in LO.
  rewrite firstn_firstn, length_firstn, LO. unfold maxRate.
  replace (Nat.min (length b) 168) with (length b) by lia.
  replace (Nat.min 168 (8 * 25)) with 168%nat by reflexivity.
  rewrite skipn_all2 by lia. apply app_nil_r.
Qed.

(** ** The invariants of the sponge *)

Definition rate_ok (r : nat) : Prop := (0 < r <= maxRate)%nat /\ (r mod 8 = 0)%nat.

Lemma length_keccak l : length l = 25%nat -> length (keccak l) = 25%nat.
Proof. intros L. rewrite <- keccakF1600_spec by exact L. now apply length_keccakF1600. Qed.

Lemma length_absorbBlocks k r : forall lanes m,
  length lanes = 25%nat -> length (absorbBlocks k r lanes m) = 25%nat.
Proof.
  induction k as [| k IH]; intros lanes m L; cbn [absorbBlocks]; [exact L |].
  apply IH, length_keccak, length_xorBlock.
Qed.

Lemma absorbBlocks_app k k' r : forall lanes m m',
  length m = (k * r)%nat ->
  absorbBlocks (k + k') r lanes (m ++ m') = absorbBlocks k' r (absorbBlocks k r lanes m) m'.
Proof.
  induction k as [| k IH]; intros lanes m m' L; cbn [Nat.add absorbBlocks].
  - now destruct m.
  - rewrite firstn_app, skipn_app. replace (r - length m)%nat with 0%nat by lia.
    cbn [firstn skipn]. rewrite app_nil_r. apply IH. rewrite length_skipn. lia.
Qed.

(** The whole blocks of what has been written are in the lanes, the rest is in the buffer. *)
Record absorbing (m : list Z) (d : state) : Prop := {
  ab_direction : direction d = spongeAbsorbing;
  ab_storage : length (storage d) = maxRate;
  ab_blocks : exists k M rem, m = M ++ rem /\ length M = (k * rate d)%nat /\
    (length rem < rate d)%nat /\ a d = absorbBlocks k (rate d) (repeat 0 25) M /\
    bufOff d = 0%nat /\ bufLen d = length rem /\ bufBytes d = rem }.

Record squeezing (lanes : list Z) (c : nat) (d : state) : Prop := {
  sq_direction : direction d = spongeSqueezing;
  sq_storage : length (storage d) = maxRate;
  sq_blocks : exists j off, c = (j * rate d + off)%nat /\ (off < rate d)%nat /\
    a d = Nat.iter j keccak lanes /\ buf d = Some (off, (rate d - off)%nat) /\
    bufBytes d = skipn off (firstn (rate d) (outBytes (a d))) }.

Lemma length_store off l d :
  (off + length l <= length (storage d))%nat -> length (storage (store off l d)) = length (storage d).
Proof.
  intros H. cbn [store with_storage storage]. rewrite !length_app, length_firstn, length_skipn. lia.
Qed.

Lemma bufBytes_append l d :
  bufOff d = 0%nat -> (bufLen d + length l <= length (storage d))%nat ->
  bufBytes (appendBuf l d) = bufBytes d ++ l.
Proof.
  intros O H. unfold bufBytes.
  change (bufLen (appendBuf l d)) with (bufLen d + length l)%nat.
  change (bufOff (appendBuf l d)) with (bufOff d).
  cbn [appendBuf with_buf store with_storage storage]. rewrite O. cbn [skipn Nat.add].
  rewrite app_assoc. apply firstn_app_exact. rewrite length_app, length_firstn. lia.
Qed.

Lemma absorbing_new r out ds : rate_ok r -> absorbing [] (newState r out ds).
Proof.
  intros [[R _] _]. split; [reflexivity | apply repeat_length |].
  exists 0%nat, [], []. repeat split. exact R.
Qed.

Lemma absorbing_notNil m d : absorbing m d -> absorbing m (notNil d).
Proof.
  intros [D S (k & M & rem & E & LM & LR & A & O & L & B)]. unfold notNil.
  destruct (buf d) as [ol |] eqn:EB; [split; eauto 12 |].
  split; [exact D | exact S |]. exists k, M, rem. repeat split; try assumption.
  - unfold bufLen in L. rewrite EB in L. exact L.
  - unfold bufBytes, bufLen in B. rewrite EB in B. exact B.
Qed.

Lemma rate_notNil d : rate (notNil d) = rate d.
Proof. unfold notNil. now destruct (buf d). Qed.

(** ** Absorbing *)

Lemma absorbed_lanes d m : absorbing m d -> length (a d) = 25%nat.
Proof. intros [_ _ (k & M & rem & _ & _ & _ & -> & _)]. now apply length_absorbBlocks. Qed.

(** A full buffer is one more block. *)
Lemma permute_absorbing d k M rem :
  rate_ok (rate d) -> direction d = spongeAbsorbing -> length (storage d) = maxRate ->
  length M = (k * rate d)%nat -> length rem = rate d ->
  a d = absorbBlocks k (rate d) (repeat 0 25) M -> bufBytes d = rem ->
  absorbing (M ++ rem) (permute d) /\ rate (permute d) = rate d /\
  a (permute d) = absorbBlocks (k + 1) (rate d) (repeat 0 25) (M ++ rem).
Proof.
  intros [R1 R2] D S LM LR A B. unfold maxRate in R1.
  assert (a (permute d) = absorbBlocks (k + 1) (rate d) (repeat 0 25) (M ++ rem)) as E.
  { rewrite absorbBlocks_app by exact LM. rewrite <- A. unfold permute. rewrite D.
    cbn [with_a with_buf a xorIn absorbBlocks]. rewrite B, firstn_all2 by lia.
    assert (length (a d) = 25%nat) as L by (rewrite A; now apply length_absorbBlocks).
    rewrite xorInGeneric_spec by (rewrite ?LR; assumption || lia).
    apply keccakF1600_spec, length_xorBlock. }
  split; [| split; [| exact E]].
  - split; [| |].
    + unfold permute. rewrite D. exact D.
    + unfold permute. rewrite D. exact S.
    + exists (k + 1)%nat, (M ++ rem), []. rewrite app_nil_r.
      assert (rate (permute d) = rate d) as -> by (unfold permute; now rewrite D).
      repeat split; try (unfold permute; now rewrite D); try assumption.
      * rewrite length_app. lia.
      * cbn. lia.
  - unfold permute. now rewrite D.
Qed.

(** What no operation changes. *)
Definition same_kind (d d' : state) : Prop :=
  rate d' = rate d /\ dsbyte d' = dsbyte d /\ outputLen d' = outputLen d.

Lemma same_kind_refl d : same_kind d d.
Proof. now repeat split. Qed.

Lemma same_kind_trans d d' d'' : same_kind d d' -> same_kind d' d'' -> same_kind d d''.
Proof. unfold same_kind. intuition congruence. Qed.

Lemma same_kind_permute d : same_kind d (permute d).
Proof. unfold permute. destruct (direction d); now repeat split. Qed.

#[local] Hint Resolve same_kind_refl same_kind_permute : core.

(** An iteration on the fast path. *)
Lemma write_fast d m b :
  rate_ok (rate d) -> absorbing m d -> bufLen d = 0%nat -> length b = rate d ->
  let d' := with_a (keccakF1600 (a (xorIn b d))) (xorIn b d) in
  absorbing (m ++ b) d' /\ same_kind d d'.
Proof.
  intros [R1 R2] AB L0 Lb. pose proof (absorbed_lanes d m AB) as L25. unfold maxRate in R1.
  destruct AB as [D S (k & M & rem & E & LM & LR & A & O & L & B)]. subst m.
  assert (rem = []) as -> by (destruct rem; [reflexivity | cbn in L; lia]).
  cbv zeta. split; [| now repeat split]. split; [exact D | exact S |].
  exists (k + 1)%nat, (M ++ b), []. cbn [with_a xorIn rate a]. rewrite !app_nil_r.
  repeat split; try assumption.
  - rewrite length_app. lia.
  - rewrite absorbBlocks_app by exact LM. cbn [absorbBlocks]. rewrite <- A, firstn_all2 by lia.
    rewrite xorInGeneric_spec by (rewrite ?Lb; assumption || lia).
    apply keccakF1600_spec, length_xorBlock.
Qed.

(** An iteration on the slow path: the buffer is filled, and emptied when it is full. *)
Lemma write_slow d m b :
  rate_ok (rate d) -> absorbing m d -> (bufLen d + length b <= rate d)%nat ->
  let d1 := appendBuf b d in
  let d' := if (bufLen d1 =? rate d1)%nat then permute d1 else d1 in
  absorbing (m ++ b) d' /\ same_kind d d'.
Proof.
  intros RO [D S (k & M & rem & E & LM & LR & A & O & L & B)] LB. subst m. cbv zeta.
  pose proof RO as [[R0 R1] R2].
  assert (bufBytes (appendBuf b d) = rem ++ b) as B1
    by (rewrite bufBytes_append, B by (assumption || lia); reflexivity).
  assert (length (storage (appendBuf b d)) = maxRate) as S1.
  { change (storage (appendBuf b d)) with (storage (store (bufOff d + bufLen d) b d)).
    rewrite length_store; [exact S | lia]. }
  change (bufLen (appendBuf b d)) with (bufLen d + length b)%nat.
  change (rate (appendBuf b d)) with (rate d). rewrite <- app_assoc.
  destruct (Nat.eqb_spec (bufLen d + length b) (rate d)) as [F | NF].
  - destruct (permute_absorbing (appendBuf b d) k M (rem ++ b)) as (AB & Rt & _); try assumption.
    + rewrite length_app. cbn. lia.
    + split; [exact AB |]. apply (same_kind_trans _ (appendBuf b d)); [now repeat split | auto].
  - split; [| now repeat split]. split; [exact D | exact S1 |].
    exists k, M, (rem ++ b). repeat split; try assumption.
    + rewrite length_app. cbn. lia.
    + rewrite length_app. change (bufLen (appendBuf b d)) with (bufLen d + length b)%nat. lia.
Qed.

Lemma writeLoop_absorbing fuel : forall p d m,
  rate_ok (rate d) -> (length p <= fuel)%nat -> absorbing m d ->
  absorbing (m ++ p) (writeLoop fuel p d) /\ same_kind d (writeLoop fuel p d).
Proof.
  induction fuel as [| fuel IH]; intros p d m RO F AB.
  { destruct p; [| cbn in F; lia]. rewrite app_nil_r. auto. }
  cbn [writeLoop]. destruct p as [| x p0] eqn:Ep; [rewrite app_nil_r; auto |]. rewrite <- Ep in *.
  assert (0 < length p)%nat as Lp by (rewrite Ep; cbn; lia). clear Ep.
  assert (bufLen d < rate d)%nat as LB
    by (destruct AB as [_ _ (k & M & rem & _ & _ & LR & _ & _ & L & _)]; lia).
  pose proof RO as [[R0 _] _].
  assert (forall b q d', p = b ++ q -> (0 < length b)%nat ->
    absorbing (m ++ b) d' /\ same_kind d d' ->
    absorbing (m ++ p) (writeLoop fuel q d') /\ same_kind d (writeLoop fuel q d')) as Step.
  { intros b q d' -> Lb [AB' K']. rewrite length_app in F. rewrite app_assoc.
    destruct (IH q d' (m ++ b)) as [AB2 K2]; [| lia | exact AB' |].
    - destruct K' as [-> _]. exact RO.
    - split; [exact AB2 | now apply (same_kind_trans _ d')]. }
  destruct ((bufLen d =? 0)%nat && (rate d <=? length p)%nat) eqn:C; cbv zeta.
  - apply andb_true_iff in C as [L0%Nat.eqb_eq Lr%Nat.leb_le].
    apply (Step (firstn (rate d) p) (skipn (rate d) p)); [now rewrite firstn_skipn | |].
    + rewrite length_firstn. lia.
    + apply write_fast; [exact RO | exact AB | exact L0 |]. rewrite length_firstn. lia.
  - set (todo := if (length p <? rate d - bufLen d)%nat then length p else (rate d - bufLen d)%nat).
    assert (0 < todo <= length p /\ todo <= rate d - bufLen d)%nat as T.
    { unfold todo. destruct (Nat.ltb_spec (length p) (rate d - bufLen d)); lia. }
    apply (Step (firstn todo p) (skipn todo p)); [now rewrite firstn_skipn | |].
    + rewrite length_firstn. lia.
    + apply (write_slow d m (firstn todo p) RO AB). rewrite length_firstn. lia.
Qed.

Lemma Write_absorbing p d m :
  rate_ok (rate d) -> absorbing m d ->
  exists d', Write p d = Return (d', length p) /\ absorbing (m ++ p) d' /\ same_kind d d'.
Proof.
  intros RO AB. pose proof (ab_direction _ _ AB) as D. unfold Write. rewrite D.
  eexists. split; [reflexivity |].
  destruct (writeLoop_absorbing (length p) p (notNil d) m) as [AB' K].
  - now rewrite rate_notNil.
  - lia.
  - now apply absorbing_notNil.
  - split; [exact AB' |]. apply (same_kind_trans _ (notNil d)); [| exact K].
    unfold notNil. destruct (buf d); now repeat split.
Qed.

(** ** Squeezing *)

Lemma copyOut_spec d :
  rate_ok (rate d) -> buf d = Some (0%nat, rate d) -> length (a d) = 25%nat ->
  length (storage d) = maxRate ->
  bufBytes (copyOut d) = firstn (rate d) (outBytes (a d)) /\ length (storage (copyOut d)) = maxRate /\
  same_kind d (copyOut d) /\ a (copyOut d) = a d /\ buf (copyOut d) = buf d /\
  direction (copyOut d) = direction d.
Proof.
  intros [[R0 R1] R2] B L S. unfold maxRate in *.
  assert (length (bufBytes d) = rate d) as LB.
  { unfold bufBytes, bufLen, bufOff. rewrite B. cbn [skipn]. rewrite length_firstn. lia. }
  assert (copyOutGeneric (a d) (bufBytes d) = firstn (rate d) (outBytes (a d))) as EC
    by (rewrite copyOutGeneric_spec; rewrite ?LB; assumption || reflexivity || lia).
  assert (length (firstn (rate d) (outBytes (a d))) = rate d) as LF
    by (rewrite length_firstn, length_outBytes, L; lia).
  unfold copyOut. unfold bufOff at 1 2. rewrite B, EC. split; [| split; [| now repeat split]].
  - unfold bufBytes, bufLen, bufOff. cbn [store with_storage buf storage]. rewrite B.
    cbn [skipn firstn app Nat.add]. now apply firstn_app_exact.
  - rewrite length_store; [exact S | lia].
Qed.

(** The bytes that [padAndPermute] puts behind the rest of the message. *)
Definition padded (ds : Z) (d : state) : state :=
  let d := appendBuf [ds] (notNil d) in
  let zerosStart := bufLen d in
  let d := with_buf (Some (0%nat, rate d)) d in
  let d := store zerosStart (repeat 0 (rate d - zerosStart)) d in
  store (rate d - 1) [Z.lxor (nth (rate d - 1) (storage d) 0) 0x80] d.

Lemma pad_bytes (rem T : list Z) ds r :
  (length rem < r)%nat ->
  let st := rem ++ [ds] ++ repeat 0 (r - length rem - 1) ++ T in
  firstn (r - 1) st ++ [Z.lxor (nth (r - 1) st 0) 0x80] = rem ++ padding (r - length rem) ds.
Proof.
  intros H. cbv zeta. unfold padding. destruct (Nat.eqb_spec (r - length rem) 1) as [E | N].
  - rewrite E. cbn [Nat.sub repeat app]. replace (r - 1)%nat with (length rem) by lia.
    rewrite firstn_app_exact by reflexivity. rewrite app_nth2 by lia. now rewrite Nat.sub_diag.
  - replace (repeat 0 (r - length rem - 1)) with (repeat 0 (r - length rem - 2) ++ [0]).
    2: { replace (r - length rem - 1)%nat with (r - length rem - 2 + 1)%nat by lia.
         now rewrite repeat_app. }
    replace (rem ++ [ds] ++ (repeat 0 (r - length rem - 2) ++ [0]) ++ T)
      with ((rem ++ ds :: repeat 0 (r - length rem - 2)) ++ 0 :: T)
      by (rewrite <- !app_assoc; reflexivity).
    assert (length (rem ++ ds :: repeat 0 (r - length rem - 2)) = (r - 1)%nat) as L
      by (rewrite length_app; cbn [length]; rewrite repeat_length; lia).
    rewrite firstn_app_exact by exact L. rewrite app_nth2 by lia. rewrite L, Nat.sub_diag.
    cbn [nth]. rewrite <- app_assoc. reflexivity.
Qed.

Lemma padded_spec ds d m rem :
  rate_ok (rate d) -> absorbing m d -> bufOff d = 0%nat -> bufLen d = length rem ->
  bufBytes d = rem -> (length rem < rate d)%nat ->
  bufBytes (padded ds d) = rem ++ padding (rate d - length rem) ds /\
  length (storage (padded ds d)) = maxRate /\ same_kind d (padded ds d) /\
  a (padded ds d) = a d /\ direction (padded ds d) = direction d.
Proof.
  intros [[R0 R1] R2] [D S _] O L B LR.
  assert (buf (notNil d) <> None /\ storage (notNil d) = storage d /\ bufOff (notNil d) = 0%nat /\
    bufLen (notNil d) = length rem /\ same_kind d (notNil d) /\ a (notNil d) = a d /\
    direction (notNil d) = direction d) as (_ & SN & ON & LN & KN & AN & DN).
  { unfold notNil. destruct (buf d) eqn:EB; [rewrite EB; repeat split; congruence |].
    repeat split; try discriminate. rewrite <- L. unfold bufLen. now rewrite EB. }
  destruct KN as (RN & KN1 & KN2).
  set (st2 := rem ++ [ds] ++ skipn (length rem + 1) (storage d)).
  assert (storage (appendBuf [ds] (notNil d)) = st2) as E2.
  { cbn [appendBuf with_buf store with_storage storage length]. rewrite SN, ON, LN. cbn [Nat.add].
    unfold st2. apply (f_equal (fun x => x ++ _)). transitivity (bufBytes d); [| exact B].
    unfold bufBytes. now rewrite O, L. }
  set (T := skipn (length rem + 1 + (rate d - (length rem + 1))) st2).
  set (st4 := rem ++ [ds] ++ repeat 0 (rate d - length rem - 1) ++ T).
  assert (length st2 = maxRate) as L2.
  { unfold st2. rewrite !length_app, length_skipn, S. cbn [length]. unfold maxRate in *. lia. }
  assert (firstn (length rem + 1) st2 ++ repeat 0 (rate d - (length rem + 1)) ++ T = st4) as E4.
  { assert (firstn (length rem + 1) st2 = rem ++ [ds]) as ->.
    { unfold st2. rewrite app_assoc. apply firstn_app_exact. now rewrite length_app. }
    unfold st4. replace (rate d - (length rem + 1))%nat with (rate d - length rem - 1)%nat by lia.
    now rewrite <- app_assoc. }
  assert (length st4 = maxRate) as L4.
  { unfold st4, T. rewrite !length_app, repeat_length, length_skipn, L2. cbn [length].
    unfold maxRate in *. lia. }
  assert (padded ds d = store (rate d - 1) [Z.lxor (nth (rate d - 1) st4 0) 0x80]
            (with_storage st4 (with_buf (Some (0%nat, rate d)) (notNil d)))) as EP.
  { unfold padded. cbv zeta.
    change (bufLen (appendBuf [ds] (notNil d))) with (bufLen (notNil d) + 1)%nat.
    change (rate (appendBuf [ds] (notNil d))) with (rate (notNil d)). rewrite LN, RN.
    cbn [with_buf rate]. change (rate (appendBuf [ds] (notNil d))) with (rate (notNil d)). rewrite RN.
    match goal with |- context [store (length rem + 1)%nat ?l ?x] =>
      assert (store (length rem + 1) l x =
              with_storage st4 (with_buf (Some (0%nat, rate d)) (notNil d))) as -> end;
      [| cbn [rate with_storage with_buf]; rewrite RN; reflexivity].
    unfold store at 1. rewrite repeat_length.
    change (storage (with_buf (Some (0%nat, rate d)) (appendBuf [ds] (notNil d))))
      with (storage (appendBuf [ds] (notNil d))).
    rewrite E2. fold T. rewrite E4. reflexivity. }
  assert (firstn (rate d) (storage (padded ds d)) = rem ++ padding (rate d - length rem) ds) as EB.
  { rewrite EP. cbn [store with_storage storage]. rewrite app_assoc, firstn_app_exact.
    - apply (pad_bytes rem T ds (rate d) LR).
    - rewrite length_app, length_firstn, L4. cbn [length]. unfold maxRate in *. lia. }
  repeat split; try (rewrite EP; assumption).
  - rewrite <- EB, EP. reflexivity.
  - rewrite EP, length_store; cbn [with_storage storage length]; [exact L4 |].
    rewrite L4. unfold maxRate in *. lia.
Qed.

Lemma padAndPermute_squeezing d m :
  rate_ok (rate d) -> absorbing m d ->
  squeezing (absorbMessage (rate d) (dsbyte d) m) 0 (padAndPermute (dsbyte d) d) /\
  same_kind d (padAndPermute (dsbyte d) d).
Proof.
  intros RO AB. pose proof AB as [D S (k & M & rem & E & LM & LR & A & O & L & B)].
  destruct (padded_spec (dsbyte d) d m rem RO AB O L B LR) as (PB & PS & PK & PA & PD).
  set (r := rate d) in *. set (ds := dsbyte d) in *. set (d1 := padded ds d) in *.
  destruct PK as (PR & PK1 & PK2). fold r in PR.
  assert (length (rem ++ padding (r - length rem) ds) = r) as LP.
  { rewrite length_app. unfold padding. destruct (Nat.eqb_spec (r - length rem) 1) as [e | n].
    - cbn [length]. lia.
    - cbn [length]. rewrite length_app, repeat_length. cbn [length]. lia. }
  destruct (permute_absorbing d1 k M (rem ++ padding (r - length rem) ds)) as (AB2 & R2 & A2);
    rewrite ?PR; try assumption; [congruence | congruence |].
  assert (absorbMessage r ds m = a (permute d1)) as AM.
  { unfold absorbMessage. rewrite A2, PR, E. destruct RO as [[R0 _] _].
    assert (length (M ++ rem) mod r = length rem)%nat as Em.
    { rewrite length_app, LM, Nat.add_comm, Nat.Div0.mod_add. now apply Nat.mod_small. }
    rewrite Em, <- app_assoc. f_equal. rewrite length_app, LM, LP.
    replace (k * r + r)%nat with ((k + 1) * r)%nat by lia. apply Nat.div_mul. lia. }
  set (d2 := with_buf (Some (0%nat, rate (permute d1))) (with_direction spongeSqueezing (permute d1))).
  assert (padAndPermute ds d = copyOut d2) as -> by reflexivity.
  destruct (copyOut_spec d2) as (C1 & C2 & C3 & C4 & C5 & C6).
  - cbn [rate with_buf with_direction d2]. rewrite R2, PR. exact RO.
  - reflexivity.
  - exact (absorbed_lanes _ _ AB2).
  - exact (ab_storage _ _ AB2).
  - assert (rate (copyOut d2) = r) as Rr.
    { destruct C3 as [-> _]. cbn [rate with_buf with_direction d2]. now rewrite R2, PR. }
    split.
    + split; [exact C6 | exact C2 |]. exists 0%nat, 0%nat. rewrite Rr. destruct RO as [[R0 _] _].
      repeat split; [exact R0 | rewrite C4, AM; reflexivity | |].
      * rewrite C5. cbn [buf with_buf d2]. now rewrite R2, PR, Nat.sub_0_r.
      * rewrite C1, C4. cbn [rate with_buf with_direction d2 skipn]. now rewrite R2, PR.
    + apply (same_kind_trans _ d1); [now repeat split |].
      apply (same_kind_trans _ (permute d1)); [auto |]. exact C3.
Qed.

Lemma iter_length j lanes : length lanes = 25%nat -> length (Nat.iter j keccak lanes) = 25%nat.
Proof. intros L. induction j as [| j IH]; [exact L |]. now apply length_keccak. Qed.

Lemma squeezed_app r lanes c n n' :
  squeezed r lanes c (n + n') = squeezed r lanes c n ++ squeezed r lanes (c + n) n'.
Proof. unfold squeezed. now rewrite seq_app, map_app. Qed.

(** A part of one block of the output. *)
Lemma squeezed_block r lanes j off k :
  length lanes = 25%nat -> (r <= 200)%nat -> (off + k <= r)%nat ->
  firstn k (skipn off (firstn r (outBytes (Nat.iter j keccak lanes)))) =
    squeezed r lanes (j * r + off) k.
Proof.
  intros L R H. pose proof (iter_length j lanes L) as LJ.
  assert (length (outBytes (Nat.iter j keccak lanes)) = 200%nat) as LO
    by (rewrite length_outBytes, LJ; reflexivity).
  unfold squeezed. apply nth_list_eq.
  { rewrite length_firstn, length_skipn, length_firstn, length_map, length_seq. lia. }
  intros i Hi. rewrite length_firstn, length_skipn, length_firstn in Hi.
  rewrite (nth_indep (map _ _) 0 (streamByte r lanes 0)) by (rewrite length_map, length_seq; lia).
  rewrite map_nth, seq_nth by lia. unfold streamByte.
  replace (j * r + off + i)%nat with (off + i + j * r)%nat by lia.
  rewrite Nat.Div0.mod_add, Nat.mod_small, Nat.div_add, Nat.div_small by lia.
  rewrite nth_firstn, nth_skipn, nth_firstn.
  destruct (Nat.ltb_spec i k), (Nat.ltb_spec (off + i) r); try lia. reflexivity.
Qed.

(** An iteration of [Read]. *)
Lemma read_step d lanes c n :
  rate_ok (rate d) -> length lanes = 25%nat -> squeezing lanes c d ->
  let k := Nat.min n (bufLen d) in
  let d1 := with_buf (Some (bufOff d + k, bufLen d - k)%nat) d in
  let d' := if (bufLen d1 =? 0)%nat then permute d1 else d1 in
  (0 < bufLen d)%nat /\ firstn k (bufBytes d) = squeezed (rate d) lanes c k /\
  squeezing lanes (c + k) d' /\ same_kind d d'.
Proof.
  intros RO L [D S (j & off & E & HO & A & B & BB)]. cbv zeta. pose proof RO as [[R0 R1] R2].
  unfold maxRate in *.
  assert (bufLen d = (rate d - off)%nat /\ bufOff d = off) as [EL EO]
    by (unfold bufLen, bufOff; now rewrite B).
  split; [lia |]. split.
  { rewrite BB, A, E. apply squeezed_block; [exact L | lia | lia]. }
  set (k := Nat.min n (bufLen d)). assert (k <= rate d - off)%nat as Hk by lia.
  cbn [bufLen buf with_buf]. destruct (Nat.eqb_spec (bufLen d - k) 0) as [Z | N].
  - set (d1 := with_buf _ d).
    assert (length (keccakF1600 (a d)) = 25%nat) as L2
      by (apply length_keccakF1600; rewrite A; now apply iter_length).
    set (d2 := with_buf (Some (0%nat, rate d)) (with_a (keccakF1600 (a d)) d1)).
    assert (permute d1 = copyOut d2) as ->
      by (unfold permute; cbn [direction with_buf d1]; rewrite D; reflexivity).
    destruct (copyOut_spec d2) as (C1 & C2 & C3 & C4 & C5 & C6); try assumption; try reflexivity.
    assert (rate (copyOut d2) = rate d) as Rr by (destruct C3 as [-> _]; reflexivity).
    split; [| exact C3]. split; [rewrite C6; exact D | exact C2 |].
    exists (j + 1)%nat, 0%nat. rewrite Rr. repeat split.
    + lia.
    + exact R0.
    + rewrite C4, Nat.add_comm. cbn [a d2 with_buf with_a Nat.iter Nat.add].
      rewrite keccakF1600_spec by (rewrite A; now apply iter_length). now rewrite A.
    + rewrite C5, Nat.sub_0_r. reflexivity.
    + rewrite C1, C4. reflexivity.
  - split; [| now repeat split]. split; [exact D | exact S |].
    exists j, (off + k)%nat. cbn [rate with_buf a]. repeat split; try assumption; [lia | lia | |].
    + rewrite EO, EL. now replace (rate d - off - k)%nat with (rate d - (off + k))%nat by lia.
    + unfold bufBytes. unfold bufLen at 1, bufOff at 1. cbn [with_buf buf storage].
      rewrite EL, EO. transitivity (skipn k (bufBytes d)).
      * unfold bufBytes. rewrite EL, EO, skipn_firstn_comm, skipn_skipn.
        now rewrite (Nat.add_comm k off).
      * rewrite BB, skipn_skipn. now rewrite Nat.add_comm.
Qed.

Lemma readLoop_squeezing fuel : forall n out d lanes c,
  rate_ok (rate d) -> length lanes = 25%nat -> (n <= fuel)%nat -> squeezing lanes c d ->
  snd (readLoop fuel n out d) = out ++ squeezed (rate d) lanes c n /\
  squeezing lanes (c + n) (fst (readLoop fuel n out d)) /\
  same_kind d (fst (readLoop fuel n out d)).
Proof.
  induction fuel as [| fuel IH]; intros n out d lanes c RO L F SQ.
  { replace n with 0%nat by lia. cbn. rewrite app_nil_r, Nat.add_0_r. auto. }
  destruct n as [| n0] eqn:En; [cbn; rewrite app_nil_r, Nat.add_0_r; auto |]. rewrite <- En in *.
  assert (0 < n)%nat as Hn by lia. clear En n0.
  assert (readLoop (S fuel) n out d =
    let k := Nat.min n (bufLen d) in
    let d1 := with_buf (Some (bufOff d + k, bufLen d - k)%nat) d in
    readLoop fuel (n - k) (out ++ firstn k (bufBytes d))
      (if (bufLen d1 =? 0)%nat then permute d1 else d1)) as ->
    by (destruct n; [lia | reflexivity]).
  destruct (read_step d lanes c n RO L SQ) as (B0 & EB & SQ' & K). cbv zeta in *.
  set (k := Nat.min n (bufLen d)) in *.
  match goal with |- context [readLoop fuel (n - k) ?o ?x] => set (d' := x) in *; set (o' := o) end.
  destruct (IH (n - k)%nat o' d' lanes (c + k)%nat) as (E1 & E2 & E3).
  - destruct K as [-> _]. exact RO.
  - exact L.
  - lia.
  - exact SQ'.
  - destruct K as (KR & K1 & K2). split; [| split].
    + rewrite E1, KR. unfold o'. rewrite EB, <- app_assoc, <- squeezed_app.
      replace (k + (n - k))%nat with n by lia. reflexivity.
    + replace (c + n)%nat with (c + k + (n - k))%nat by lia. exact E2.
    + apply (same_kind_trans _ d'); [now repeat split | exact E3].
Qed.

(** The first read pads; the later ones go on. *)
Lemma Read_absorbing n d m :
  rate_ok (rate d) -> absorbing m d ->
  snd (Read n d) = sponge (rate d) (dsbyte d) m n /\
  squeezing (absorbMessage (rate d) (dsbyte d) m) n (fst (Read n d)) /\ same_kind d (fst (Read n d)).
Proof.
  intros RO AB. pose proof (ab_direction _ _ AB) as D. unfold Read. rewrite D.
  destruct (padAndPermute_squeezing d m RO AB) as [SQ K]. pose proof K as [KR _].
  assert (length (absorbMessage (rate d) (dsbyte d) m) = 25%nat) as L
    by now apply length_absorbBlocks.
  destruct (readLoop_squeezing n n [] (padAndPermute (dsbyte d) d) _ 0 ltac:(now rewrite KR) L
              ltac:(lia) SQ) as (E1 & E2 & E3).
  rewrite E1, KR. split; [reflexivity |]. split; [exact E2 |]. now apply (same_kind_trans _ (padAndPermute (dsbyte d) d)).
Qed.

Lemma Read_squeezing n d lanes c :
  rate_ok (rate d) -> length lanes = 25%nat -> squeezing lanes c d ->
  snd (Read n d) = squeezed (rate d) lanes c n /\
  squeezing lanes (c + n) (fst (Read n d)) /\ same_kind d (fst (Read n d)).
Proof.
  intros RO L SQ. pose proof (sq_direction _ _ _ SQ) as D. unfold Read. rewrite D.
  exact (readLoop_squeezing n n [] d lanes c RO L ltac:(lia) SQ).
Qed.

(** ** Whole runs *)

Lemma clone_absorbing m d :
  absorbing m d -> exists d', clone d = Return d' /\ absorbing m d' /\ same_kind d d'.
Proof.
  intros AB. pose proof AB as [D S (k & M & rem & E & LM & LR & A & O & L & B)]. unfold clone.
  rewrite D. eexists. split; [reflexivity |]. split; [| now repeat split].
  split; [exact D | exact S |]. exists k, M, rem. cbn [with_buf rate a bufOff bufLen buf].
  repeat split; try assumption. unfold bufBytes in *. rewrite O in B. exact B.
Qed.

(** The capacity of the buffer counts from the end of [storage], not from the rate: only the
    largest rate clones what is left to read. *)
Lemma clone_squeezing lanes c d :
  rate_ok (rate d) -> length lanes = 25%nat -> squeezing lanes c d ->
  (rate d = maxRate -> clone d = Return d) /\
  ((c mod rate d < maxRate - rate d)%nat -> clone d = Panic) /\
  ((maxRate - rate d <= c mod rate d)%nat ->
   exists d', clone d = Return d' /\
     buf d' = Some (c mod rate d - (maxRate - rate d), rate d - (c mod rate d - (maxRate - rate d)))%nat).
Proof.
  intros [[R0 R1] R2] L [D S (j & off & E & HO & A & B & BB)].
  assert (c mod rate d = off)%nat as Ec.
  { rewrite E, Nat.add_comm, Nat.Div0.mod_add. now apply Nat.mod_small. }
  rewrite Ec. unfold clone, bufCap. rewrite D, B. split; [| split].
  - intros ER. rewrite ER in *. destruct (Nat.leb_spec (maxRate - off) maxRate); [| lia].
    f_equal. replace (maxRate - (maxRate - off))%nat with off by lia.
    unfold with_buf. rewrite <- B. now destruct d.
  - intros H. destruct (Nat.leb_spec (maxRate - off) (rate d)); [lia | reflexivity].
  - intros H. destruct (Nat.leb_spec (maxRate - off) (rate d)); [| lia].
    eexists. split; [reflexivity |]. cbn [with_buf buf].
    now replace (rate d - (maxRate - off))%nat with (off - (maxRate - rate d))%nat by lia.
Qed.

Fixpoint writes (ws : list (list Z)) (d : state) : outcome state :=
  match ws with
  | [] => Return d
  | w :: ws => dn <- Write w d;; writes ws (fst dn)
  end.

Lemma writes_absorbing ws : forall d m,
  rate_ok (rate d) -> absorbing m d ->
  exists d', writes ws d = Return d' /\ absorbing (m ++ concat ws) d' /\ same_kind d d'.
Proof.
  induction ws as [| w ws IH]; intros d m RO AB; cbn [writes concat].
  { exists d. rewrite app_nil_r. auto. }
  destruct (Write_absorbing w d m RO AB) as (d1 & -> & AB1 & K1). cbn [obind fst].
  destruct (IH d1 (m ++ w)) as (d2 & E2 & AB2 & K2); [| exact AB1 |].
  - destruct K1 as [-> _]. exact RO.
  - exists d2. rewrite app_assoc. split; [exact E2 |]. split; [exact AB2 |].
    now apply (same_kind_trans _ d1).
Qed.

Lemma Sum_absorbing inp d m :
  rate_ok (rate d) -> absorbing m d ->
  Sum inp d = Return (inp ++ sponge (rate d) (dsbyte d) m (outputLen d)).
Proof.
  intros RO AB. destruct (clone_absorbing m d AB) as (d' & E & AB' & KR & KD & KO).
  unfold Sum. rewrite E. cbn [obind].
  destruct (Read_absorbing (outputLen d') d' m) as [-> _]; [now rewrite KR | exact AB' |].
  now rewrite KR, KD, KO.
Qed.

Lemma sumOf_spec r out ds data :
  rate_ok r -> sumOf (newState r out ds) data = Return (sponge r ds data out).
Proof.
  intros RO. unfold sumOf.
  destruct (Write_absorbing data (newState r out ds) [] RO (absorbing_new r out ds RO)) as (d & -> & AB & KR & KD & KO).
  cbn [obind fst app] in *. rewrite (Sum_absorbing [] d data) by (rewrite ?KR; assumption).
  now rewrite KR, KD, KO.
Qed.

Lemma shakeOf_spec r out ds n data :
  rate_ok r -> shakeOf (newState r out ds) n data = Return (sponge r ds data n).
Proof.
  intros RO. unfold shakeOf.
  destruct (Write_absorbing data (newState r out ds) [] RO (absorbing_new r out ds RO)) as (d & -> & AB & KR & KD & KO).
  cbn [obind fst app] in *.
  destruct (Read_absorbing n d data) as [-> _]; [now rewrite KR | exact AB |].
  now rewrite KR, KD.
Qed.

Lemma Reset_absorbing d :
  rate_ok (rate d) -> length (storage d) = maxRate -> absorbing [] (Reset d) /\ same_kind d (Reset d).
Proof.
  intros [[R0 _] _] S. split; [| now repeat split]. split; [reflexivity | exact S |].
  exists 0%nat, [], []. repeat split. exact R0.
Qed.

Lemma rates_ok : Forall rate_ok [72; 104; 136; 144; 168]%nat.
Proof. repeat constructor; unfold maxRate; lia. Qed.

Lemma rate_ok_In r : In r [72; 104; 136; 144; 168]%nat -> rate_ok r.
Proof. exact (proj1 (Forall_forall rate_ok _) rates_ok r). Qed.

Lemma builds_agree lanes b :
  length lanes = 25%nat -> In (length b) [72; 104; 136; 144; 168]%nat ->
  xorInUnaligned lanes b = xorInGeneric lanes b /\ copyOutUnaligned lanes b = copyOutGeneric lanes b.
Proof.
  intros L R. destruct (rate_ok_In _ R) as [[R0 R1] R2]. unfold maxRate in R1.
  rewrite xorInUnaligned_spec, xorInGeneric_spec, copyOutUnaligned_spec, copyOutGeneric_spec by (assumption || lia).
  now split.
Qed.

(** ** Test vectors *)

Example sum512_abc :
  Sum512 [97; 98; 99] = Return (rev (le_bytes 64
    0xb751850b1a57168a5693cd924b6b096e08f621827444f70d884f5d0240d2712e10e116e9192af3c91a7ec57647e3934057340b4cf408d5a56592f8274eec53f0)).
Proof. vm_compute. reflexivity. Qed.

Example shakeSum256_long :
  ShakeSum256 20 (map Z.of_nat (seq 0 200)) =
    Return (rev (le_bytes 20 0x4ee1ca03272b05d3bfb1e1c79a967f823b9fc5e4)).
Proof. vm_compute. reflexivity. Qed.

(** ** Properties *)

(** C36: the sponge.  [keccakF1600], four rounds in place per iteration, is the
    permutation of FIPS 202, and the two builds convert bytes and lanes alike.  However the
    input is split over calls of [Write], [Sum] appends the digest of the whole input and
    successive calls of [Read] return successive parts of one output stream, for every
    rate, domain byte and length; the one-shot functions return the same digest; [Reset]
    starts again; [Write] after [Read] panics.  A clone continues like its original while
    input is written, but after a [Read] only for the rate of SHAKE-128: at
    smaller rates [Clone] panics near the start of a block. *)
Theorem sha3_sponge r out ds ws w inp n n' lanes b :
  In r [72; 104; 136; 144; 168]%nat -> length lanes = 25%nat -> length b = r ->
  keccakF1600 lanes = keccak lanes /\
  (xorInUnaligned lanes b = xorInGeneric lanes b /\ copyOutUnaligned lanes b = copyOutGeneric lanes b) /\
  (exists d, writes ws (newState r out ds) = Return d /\
     Sum inp d = Return (inp ++ sponge r ds (concat ws) out) /\
     snd (Read n d) = sponge r ds (concat ws) n /\
     snd (Read n' (fst (Read n d))) = squeezed r (absorbMessage r ds (concat ws)) n n' /\
     sponge r ds (concat ws) (n + n') = snd (Read n d) ++ snd (Read n' (fst (Read n d))) /\
     Write w (fst (Read n d)) = Panic /\
     (exists d', Clone d = Return d' /\ snd (Read n d') = snd (Read n d)) /\
     (exists d', writes [w] (Reset (fst (Read n d))) = Return d' /\
                 snd (Read n' d') = sponge r ds w n') /\
     (r = maxRate -> Clone (fst (Read n d)) = Return (fst (Read n d))) /\
     ((n mod r < maxRate - r)%nat -> Clone (fst (Read n d)) = Panic)) /\
  Sum224 w = Return (sponge 144 0x06 w 28) /\ Sum256 w = Return (sponge 136 0x06 w 32) /\
  Sum384 w = Return (sponge 104 0x06 w 48) /\ Sum512 w = Return (sponge 72 0x06 w 64) /\
  ShakeSum128 n w = Return (sponge 168 0x1f w n) /\ ShakeSum256 n w = Return (sponge 136 0x1f w n).
Proof.
  intros Hr L Lb. pose proof (rate_ok_In r Hr) as RO.
  split; [now apply keccakF1600_spec |]. split; [apply builds_agree; [exact L | now rewrite Lb] |].
  split.
  - destruct (writes_absorbing ws (newState r out ds) [] RO (absorbing_new r out ds RO)) as (d & E & AB & KR & KD & KO).
    cbn [newState rate dsbyte outputLen app] in AB, KR, KD, KO. exists d. split; [exact E |].
    assert (rate_ok (rate d)) as ROd by now rewrite KR.
    destruct (Read_absorbing n d (concat ws) ROd AB) as (E1 & SQ & K1 & K2 & K3).
    assert (length (absorbMessage (rate d) (dsbyte d) (concat ws)) = 25%nat) as LA
      by now apply length_absorbBlocks.
    assert (rate_ok (rate (fst (Read n d)))) as ROr by now rewrite K1.
    destruct (Read_squeezing n' (fst (Read n d)) _ n ROr LA SQ) as (E2 & _).
    destruct (clone_squeezing _ n _ ROr LA SQ) as (C1 & C2 & _).
    rewrite K1, KR in C1, C2. rewrite (Sum_absorbing inp d (concat ws) ROd AB), E1, E2, K1, KR, KD, KO.
    split; [reflexivity |]. split; [reflexivity |]. split; [reflexivity |].
    split; [apply squeezed_app |].
    split; [unfold Write; now rewrite (sq_direction _ _ _ SQ) |]. split; [| split; [| now split]].
    + destruct (clone_absorbing _ d AB) as (d' & Ec & AB' & KR' & KD' & _). exists d'. split; [exact Ec |].
      destruct (Read_absorbing n d' (concat ws)) as [-> _]; [now rewrite KR' | exact AB' |].
      now rewrite KR', KD', KR, KD.
    + destruct (Reset_absorbing (fst (Read n d)) ROr (sq_storage _ _ _ SQ)) as (AB0 & R1 & R2 & R3).
      destruct (writes_absorbing [w] (Reset (fst (Read n d))) []) as (d' & Ew & AB' & W1 & W2 & W3);
        [now rewrite R1 | exact AB0 |].
      exists d'. split; [exact Ew |]. cbn [app concat] in AB'. rewrite app_nil_r in AB'.
      destruct (Read_absorbing n' d' w) as [-> _]; [now rewrite W1, R1 | exact AB' |].
      now rewrite W1, W2, R1, R2, K1, K2, KR, KD.
  - repeat split; (apply sumOf_spec || apply shakeOf_spec); apply rate_ok_In; cbn; tauto.
Qed.

Lemma sha3_sponge_witness :
  (exists d, writes [[1; 2]; [3]] (newState 136 32 0x1f) = Return d /\
     Sum [] d = Return (sponge 136 0x1f [1; 2; 3] 32) /\ Clone (fst (Read 5 d)) = Panic) /\
  keccakF1600 (repeat 0 25) = keccak (repeat 0 25).
Proof.
  destruct (sha3_sponge 136 32 0x1f [[1; 2]; [3]] [] [] 5 0 (repeat 0 25) (repeat 0 136))
    as (K & _ & (d & E & S & _ & _ & _ & _ & _ & _ & _ & C) & _); [cbn; tauto | reflexivity | reflexivity |].
  split; [| exact K]. exists d. split; [exact E |]. split; [exact S |]. apply C.
  apply Nat.ltb_lt. reflexivity.
Defined.
