(* ===== verification/Digest.v ===== *)
(** * Iterated hash functions

    The digest objects of [src/golang-x-crypto/md4/md4.go] and
    [src/golang-x-crypto/ripemd160/ripemd160.go], which are the same code around two
    compression functions: a buffer of one block, [Write] in pieces, and [Sum], which pads a
    copy.  The class [Compression] is what the object needs of the compression function;
    the object computes the hash of the whole input whatever the pieces are. *)

From S2P Require Import Prelude.

Local Open Scope go_scope.

Definition BlockSize : nat := 64.

(** What the packages differ in. *)
Class Compression := {
  initial : list Z;
  compress : list Z -> list Z -> list Z }.

Section digest.
Context {H : Compression}.

(** ** The object *)

Record digest := Digest { s : list Z; x : list Z; nx : nat; len : Z }.

Definition Reset (d : digest) : digest := Digest initial (x d) 0 0.

Definition New : digest := Reset (Digest (repeat 0 (length initial)) (repeat 0 BlockSize) 0 0).

(** [_Block(d, p)]: all whole blocks of [p], and how many bytes they are. *)
Fixpoint blockLoop (k : nat) (v p : list Z) : list Z :=
  match k with
  | O => v
  | S k => blockLoop k (compress v (firstn BlockSize p)) (skipn BlockSize p)
  end.

Definition Block (d : digest) (p : list Z) : digest * nat :=
  let k := (length p / BlockSize)%nat in
  (Digest (blockLoop k (s d) p) (x d) (nx d) (len d), (k * BlockSize)%nat).

(** [for i := 0; i < n; i++ { d.x[d.nx+i] = p[i] }] *)
Definition fill (d : digest) (p : list Z) : digest :=
  Digest (s d) (firstn (nx d) (x d) ++ p ++ skipn (nx d + length p) (x d)) (nx d + length p) (len d).

Definition Write (d : digest) (p : list Z) : digest :=
  let d := Digest (s d) (x d) (nx d) (uint64 (len d + Z.of_nat (length p))) in
  let '(d, p) :=
    if (0 <? nx d)%nat then
      let n := length p in
      let n := if (BlockSize - nx d <? n)%nat then (BlockSize - nx d)%nat else n in
      let d := fill d (firstn n p) in
      let d :=
        if (nx d =? BlockSize)%nat then
          let d := fst (Block d (x d)) in Digest (s d) (x d) 0 (len d)
        else d in
      (d, skipn n p)
    else (d, p) in
  let '(d, n) := Block d p in
  let p := skipn n p in
  if (0 <? length p)%nat then Digest (s d) (copy (x d) p) (Nat.min BlockSize (length p)) (len d)
  else d.

Definition Sum (d : digest) (inp : list Z) : outcome (list Z) :=
  let l := len d in
  let tmp := 0x80 :: repeat 0 63 in
  let d :=
    if l mod 64 <? 56 then Write d (firstn (Z.to_nat (56 - l mod 64)) tmp)
    else Write d (firstn (Z.to_nat (64 + 56 - l mod 64)) tmp) in
  let l := uint64 (Z.shiftl l 3) in
  let d := Write d (le_bytes 8 l) in
  if (nx d =? 0)%nat then Return (inp ++ concat (map (le_bytes 4) (s d))) else Panic.

(** ** The hash of a message *)

(** The end of a message of [n] bytes. *)
Definition padding (n : nat) : list Z :=
  0x80 :: repeat 0 ((119 - n mod 64) mod 64) ++ le_bytes 8 (8 * Z.of_nat n).

Definition hash (m : list Z) : list Z :=
  let m := m ++ padding (length m) in
  concat (map (le_bytes 4) (blockLoop (length m / BlockSize) initial m)).

(** ** The object computes it *)

Record holds (m : list Z) (d : digest) : Prop := {
  h_buffer : length (x d) = BlockSize;
  h_len : len d = Z.of_nat (length m) mod 2 ^ 64;
  h_blocks : exists k M, m = M ++ firstn (nx d) (x d) /\ length M = (k * BlockSize)%nat /\
    (nx d < BlockSize)%nat /\ s d = blockLoop k initial M }.

Lemma blockLoop_app k k' : forall v m m',
  length m = (k * BlockSize)%nat ->
  blockLoop (k + k') v (m ++ m') = blockLoop k' (blockLoop k v m) m'.
Proof.
  induction k as [| k IH]; intros v m m' L; cbn [Nat.add blockLoop].
  - now destruct m.
  - rewrite firstn_app, skipn_app. replace (BlockSize - length m)%nat with 0%nat by lia.
    cbn [firstn skipn]. rewrite app_nil_r. apply IH. rewrite length_skipn. lia.
Qed.

Lemma blockLoop_firstn k : forall v m,
  blockLoop k v (firstn (k * BlockSize) m) = blockLoop k v m.
Proof.
  induction k as [| k IH]; intros v m; cbn [blockLoop]; [reflexivity |].
  rewrite firstn_firstn, skipn_firstn_comm.
  replace (Nat.min BlockSize (S k * BlockSize)) with BlockSize by lia.
  replace (S k * BlockSize - BlockSize)%nat with (k * BlockSize)%nat by lia. apply IH.
Qed.

Lemma uint64_add_mod n k : uint64 (n mod 2 ^ 64 + k) = (n + k) mod 2 ^ 64.
Proof. now rewrite uint64_mod, Z.add_mod_idemp_l by discriminate. Qed.

(** Whole blocks first, the rest into the empty buffer. *)
Lemma finish_write d p M k m :
  length (x d) = BlockSize -> nx d = 0%nat -> m = M ++ p -> length M = (k * BlockSize)%nat ->
  s d = blockLoop k initial M -> len d = Z.of_nat (length m) mod 2 ^ 64 ->
  holds m (let '(d, n) := Block d p in
           let p := skipn n p in
           if (0 <? length p)%nat then Digest (s d) (copy (x d) p) (Nat.min BlockSize (length p)) (len d)
           else d).
Proof.
  intros LX N0 -> LM S LN. unfold Block. cbv zeta.
  pose proof (Nat.div_mod_eq (length p) BlockSize) as D.
  pose proof (Nat.mod_upper_bound (length p) BlockSize ltac:(discriminate)) as U.
  set (k' := (length p / BlockSize)%nat) in *. set (q := skipn (k' * BlockSize) p).
  assert (length q = length p mod BlockSize)%nat as Lq by (unfold q; rewrite length_skipn; lia).
  assert (M ++ p = (M ++ firstn (k' * BlockSize) p) ++ q) as EM
    by (unfold q; now rewrite <- app_assoc, firstn_skipn).
  assert (blockLoop k' (s d) p = blockLoop (k + k') initial (M ++ firstn (k' * BlockSize) p)) as ES
    by (now rewrite blockLoop_app, <- S, blockLoop_firstn).
  assert (length (M ++ firstn (k' * BlockSize) p) = ((k + k') * BlockSize)%nat) as LM2
    by (rewrite length_app, length_firstn; lia).
  cbn [x nx len s]. destruct (Nat.ltb_spec 0 (length q)) as [P | P].
  - split; cbn [x nx len s]; [now rewrite copy_length | exact LN |].
    exists (k + k')%nat, (M ++ firstn (k' * BlockSize) p).
    replace (Nat.min BlockSize (length q)) with (length q) by lia.
    repeat split; [| exact LM2 | lia | exact ES]. rewrite EM. f_equal. unfold copy.
    rewrite (firstn_all2 q) by lia. symmetry. now apply firstn_app_exact.
  - split; cbn [x nx len s]; [exact LX | exact LN |].
    exists (k + k')%nat, (M ++ firstn (k' * BlockSize) p). rewrite N0. cbn [firstn].
    assert (q = []) as Eq by (destruct q; [reflexivity | cbn in P; lia]).
    repeat split; [now rewrite EM, Eq | exact LM2 | unfold BlockSize; lia | exact ES].
Qed.

Lemma length_fill d p :
  (nx d + length p <= length (x d))%nat -> length (x (fill d p)) = length (x d).
Proof. intros L. cbn [fill x]. rewrite !length_app, length_firstn, length_skipn. lia. Qed.

Lemma firstn_fill d p :
  (nx d + length p <= length (x d))%nat ->
  firstn (nx d + length p) (x (fill d p)) = firstn (nx d) (x d) ++ p.
Proof.
  intros L. cbn [fill x]. rewrite app_assoc. apply firstn_app_exact.
  rewrite length_app, length_firstn. lia.
Qed.

Lemma Write_holds m d p : holds m d -> holds (m ++ p) (Write d p).
Proof.
  intros [LX LN (k & M & E & LM & NX & S)]. unfold Write. cbv zeta. cbn [nx x s len].
  assert (uint64 (len d + Z.of_nat (length p)) = Z.of_nat (length (m ++ p)) mod 2 ^ 64) as LN2
    by (rewrite LN, uint64_add_mod, length_app, Nat2Z.inj_add; reflexivity).
  set (d0 := Digest (s d) (x d) (nx d) (uint64 (len d + Z.of_nat (length p)))).
  destruct (Nat.ltb_spec 0 (nx d)) as [P | P].
  - set (n := if (BlockSize - nx d <? length p)%nat then (BlockSize - nx d)%nat else length p).
    assert (n <= length p /\ nx d + n <= BlockSize /\
            (n < length p -> nx d + n = BlockSize))%nat as Hn.
    { unfold n. destruct (Nat.ltb_spec (BlockSize - nx d) (length p)); lia. }
    assert (length (firstn n p) = n) as Ln by (rewrite length_firstn; lia).
    assert (nx (fill d0 (firstn n p)) = (nx d + n)%nat) as NF by (cbn [fill nx d0]; now rewrite Ln).
    assert (firstn (nx d + n) (x (fill d0 (firstn n p))) = firstn (nx d) (x d) ++ firstn n p) as FF.
    { rewrite <- Ln at 1. apply (firstn_fill d0). cbn [d0 nx x]. lia. }
    assert (length (x (fill d0 (firstn n p))) = BlockSize) as LF
      by (rewrite length_fill; cbn [d0 nx x]; [exact LX | lia]).
    rewrite NF. destruct (Nat.eqb_spec (nx d + n) BlockSize) as [F | NFull].
    + set (d1 := fill d0 (firstn n p)) in *.
      apply (finish_write (Digest (s (fst (Block d1 (x d1)))) (x d1) 0 (len d1)) (skipn n p)
               (M ++ x d1) (k + 1)); cbn [x nx s len Block fst]; try assumption; try reflexivity.
      * rewrite F, firstn_all2 in FF by lia. rewrite E, FF, <- !app_assoc. do 2 f_equal.
        symmetry. apply firstn_skipn.
      * rewrite length_app, LF. lia.
      * rewrite LF. change (BlockSize / BlockSize)%nat with 1%nat.
        rewrite blockLoop_app by exact LM. now rewrite <- S.
    + assert (n = length p) as En by lia.
      assert (firstn n p = p) as Ep by (apply firstn_all2; lia).
      assert (skipn n p = []) as -> by (apply skipn_all2; lia).
      change (Block (fill d0 (firstn n p)) []) with
        (Digest (s d) (x (fill d0 (firstn n p))) (nx (fill d0 (firstn n p))) (len d0), 0%nat).
      cbn [skipn length Nat.ltb Nat.leb].
      split; cbn [x nx len s]; [exact LF | exact LN2 |].
      exists k, M. rewrite NF, FF, Ep. repeat split; try assumption; [| lia].
      now rewrite E, app_assoc.
  - assert (nx d = 0%nat) as N0 by lia. rewrite N0 in E. cbn [firstn] in E. rewrite app_nil_r in E. subst M.
    now apply (finish_write d0 p m k).
Qed.

Lemma le_bytes_congr n y z :
  y mod 256 ^ Z.of_nat n = z mod 256 ^ Z.of_nat n -> le_bytes n y = le_bytes n z.
Proof.
  intros E. rewrite <- (le_bytes_le_val (le_bytes n y)), <- (le_bytes_le_val (le_bytes n z)) by apply le_bytes_ok.
  now rewrite !length_le_bytes, !le_val_le_bytes, E.
Qed.

Lemma firstn_pad k : (k <= 63)%nat -> firstn (S k) (0x80 :: repeat 0 63) = 0x80 :: repeat 0 k.
Proof.
  intros L. cbn [firstn]. f_equal. replace 63%nat with (k + (63 - k))%nat by lia.
  rewrite repeat_app. apply firstn_app_exact, repeat_length.
Qed.

(** At a multiple of the block size the buffer is empty. *)
Lemma holds_blocks m d :
  holds m d -> (length m mod BlockSize = 0)%nat ->
  nx d = 0%nat /\ s d = blockLoop (length m / BlockSize) initial m.
Proof.
  intros [LX LN (k & M & E & LM & NX & S)] L0.
  assert (length m = nx d + k * BlockSize)%nat as L
    by (rewrite E, length_app, length_firstn; lia).
  assert (nx d = 0%nat) as N0.
  { rewrite L, Nat.Div0.mod_add, Nat.mod_small in L0 by exact NX. exact L0. }
  split; [exact N0 |]. rewrite N0 in E. cbn [firstn] in E. rewrite app_nil_r in E. subst M.
  rewrite LM, Nat.div_mul by discriminate. exact S.
Qed.

Lemma padding_length m : (length (m ++ padding (length m)) mod BlockSize = 0)%nat.
Proof.
  unfold padding. rewrite length_app. cbn [length]. rewrite length_app, repeat_length, length_le_bytes.
  unfold BlockSize. pose proof (Nat.div_mod_eq (length m) 64) as D.
  pose proof (Nat.mod_upper_bound (length m) 64 ltac:(discriminate)) as U.
  set (q := (length m / 64)%nat) in *. set (n := (length m mod 64)%nat) in *.
  assert ((119 - n) mod 64 = if (n <? 56)%nat then 55 - n else 119 - n)%nat as ->.
  { destruct (Nat.ltb_spec n 56).
    - replace (119 - n)%nat with (55 - n + 1 * 64)%nat by lia.
      rewrite Nat.Div0.mod_add. apply Nat.mod_small. lia.
    - apply Nat.mod_small. lia. }
  rewrite D. destruct (Nat.ltb_spec n 56).
  - replace (64 * q + n + S (55 - n + 8))%nat with ((q + 1) * 64)%nat by lia. apply Nat.Div0.mod_mul.
  - replace (64 * q + n + S (119 - n + 8))%nat with ((q + 2) * 64)%nat by lia. apply Nat.Div0.mod_mul.
Qed.

Lemma Sum_holds m d inp : holds m d -> Sum d inp = Return (inp ++ hash m).
Proof.
  intros Hd. pose proof (h_len _ _ Hd) as LN. unfold Sum. cbv zeta. rewrite LN.
  set (n := (length m mod 64)%nat).
  pose proof (Nat.mod_upper_bound (length m) 64 ltac:(discriminate)) as U. fold n in U.
  assert (Z.of_nat (length m) mod 2 ^ 64 mod 64 = Z.of_nat n) as E64.
  { unfold n. rewrite Nat2Z.inj_mod. change (2 ^ 64) with (64 * 2 ^ 58).
    rewrite Z.rem_mul_r by lia. rewrite Z.mul_comm, Z_mod_plus_full. now rewrite Z.mod_mod. }
  rewrite E64.
  assert (le_bytes 8 (uint64 (Z.shiftl (Z.of_nat (length m) mod 2 ^ 64) 3)) =
          le_bytes 8 (8 * Z.of_nat (length m))) as EL.
  { apply le_bytes_congr. change (256 ^ Z.of_nat 8) with (2 ^ 64).
    rewrite uint64_mod, Z.mod_mod, Z.shiftl_mul_pow2, Z.mul_comm by lia.
    change (2 ^ 3) with 8. now rewrite Z.mul_mod_idemp_r. }
  rewrite EL.
  assert ((if Z.of_nat n <? 56 then Write d (firstn (Z.to_nat (56 - Z.of_nat n)) (0x80 :: repeat 0 63))
           else Write d (firstn (Z.to_nat (64 + 56 - Z.of_nat n)) (0x80 :: repeat 0 63))) =
          Write d (0x80 :: repeat 0 ((119 - n) mod 64))) as EW.
  { destruct (Z.ltb_spec (Z.of_nat n) 56); f_equal.
    - replace (Z.to_nat (56 - Z.of_nat n)) with (S (55 - n)) by lia. rewrite firstn_pad by lia.
      replace (119 - n)%nat with (55 - n + 1 * 64)%nat by lia.
      rewrite Nat.Div0.mod_add, Nat.mod_small by lia. reflexivity.
    - replace (Z.to_nat (64 + 56 - Z.of_nat n)) with (S (119 - n)) by lia. rewrite firstn_pad by lia.
      rewrite Nat.mod_small by lia. reflexivity. }
  rewrite EW.
  pose proof (Write_holds _ _ (le_bytes 8 (8 * Z.of_nat (length m)))
                (Write_holds _ _ (0x80 :: repeat 0 ((119 - n) mod 64)) Hd)) as H2.
  rewrite <- app_assoc in H2.
  change ((0x80 :: repeat 0 ((119 - n) mod 64)) ++ le_bytes 8 (8 * Z.of_nat (length m)))
    with (padding (length m)) in H2.
  destruct (holds_blocks _ _ H2 (padding_length m)) as [-> ->]. reflexivity.
Qed.

Lemma holds_New : holds [] New.
Proof.
  split; [apply repeat_length | reflexivity |]. exists 0%nat, []. repeat split. cbn. unfold BlockSize. lia.
Qed.

Lemma holds_Reset m d : holds m d -> holds [] (Reset d).
Proof.
  intros [LX _ _]. split; [exact LX | reflexivity |]. exists 0%nat, []. repeat split.
  cbn. unfold BlockSize. lia.
Qed.

Lemma holds_writes ws : forall m d, holds m d -> holds (m ++ concat ws) (fold_left Write ws d).
Proof.
  induction ws as [| w ws IH]; intros m d Hd; cbn [concat fold_left]; [now rewrite app_nil_r |].
  rewrite app_assoc. now apply IH, Write_holds.
Qed.

Lemma digest_spec ws inp : Sum (fold_left Write ws New) inp = Return (inp ++ hash (concat ws)).
Proof. apply Sum_holds. exact (holds_writes ws [] New holds_New). Qed.

Lemma digest_reset m d ws inp :
  holds m d -> Sum (fold_left Write ws (Reset d)) inp = Return (inp ++ hash (concat ws)).
Proof. intros Hd. apply Sum_holds. exact (holds_writes ws [] _ (holds_Reset m d Hd)). Qed.
End digest.

(** ** Two compression functions that agree on blocks of bytes *)

Section agreement.
Context (H H' : Compression) (n : nat).
Context (agree_initial : @initial H = @initial H') (initial_length : length (@initial H') = n).
Context (agree_compress : forall v p, length v = n -> length p = BlockSize -> bytes_ok p ->
  @compress H v p = @compress H' v p).
Context (compress_length : forall v p, length v = n -> length (@compress H' v p) = n).

Lemma blockLoop_agree k : forall v m,
  length v = n -> (k * BlockSize <= length m)%nat -> bytes_ok m ->
  @blockLoop H k v m = @blockLoop H' k v m /\ length (@blockLoop H' k v m) = n.
Proof.
  induction k as [| k IH]; intros v m Lv Lm Om; cbn [blockLoop]; [now split |].
  rewrite agree_compress by (exact Lv || (rewrite length_firstn; lia) || auto with bytes).
  apply IH; [now apply compress_length | rewrite length_skipn; lia | auto with bytes].
Qed.

Lemma padding_ok k : bytes_ok (padding k).
Proof.
  apply Forall_cons; [unfold byte_ok; lia |]. apply bytes_ok_app; auto with bytes.
Qed.

Lemma hash_agree m : bytes_ok m -> @hash H m = @hash H' m.
Proof.
  intros Om. unfold hash. cbv zeta. rewrite agree_initial.
  assert (bytes_ok (m ++ padding (length m))) as Op by (apply bytes_ok_app; [exact Om | apply padding_ok]).
  pose proof (Nat.Div0.mul_div_le (length (m ++ padding (length m))) BlockSize) as D.
  destruct (blockLoop_agree (length (m ++ padding (length m)) / BlockSize) (@initial H') (m ++ padding (length m)))
    as [-> _]; [exact initial_length | lia | exact Op | reflexivity].
Qed.

Lemma hash_length m : bytes_ok m -> length (@hash H' m) = (4 * n)%nat.
Proof.
  intros Om. unfold hash. cbv zeta.
  pose proof (Nat.Div0.mul_div_le (length (m ++ padding (length m))) BlockSize) as D.
  destruct (blockLoop_agree (length (m ++ padding (length m)) / BlockSize) (@initial H') (m ++ padding (length m)))
    as [_ L]; [exact initial_length | lia | apply bytes_ok_app; [exact Om | apply padding_ok] |].
  rewrite <- L. generalize (@blockLoop H' (length (m ++ padding (length m)) / BlockSize) (@initial H') (m ++ padding (length m))).
  intros v. induction v as [| w v IH]; [reflexivity |]. cbn [map concat length].
  rewrite length_app, length_le_bytes, IH. lia.
Qed.
End agreement.
