(* ===== verification/Digests.v ===== *)
(** * MD4 and RIPEMD-160

    Models of [src/golang-x-crypto/md4] and [src/golang-x-crypto/ripemd160]: the block
    functions, against the tables of steps of RFC 1320 and against the two lines of the
    definition of RIPEMD-160, whose tables and constants are generated; both are instances
    of [Compression], and their objects those of [Digest]. *)

From S2P Require Import Prelude Digest.

(** Words of a block, as both packages read them. *)
Definition blockWords (p : list Z) : list Z :=
  map (fun i =>
    let j := (4 * i)%nat in
    Z.lor (Z.lor (Z.lor (nth j p 0) (uint32 (Z.shiftl (nth (j + 1) p 0) 8)))
                 (uint32 (Z.shiftl (nth (j + 2) p 0) 16)))
          (uint32 (Z.shiftl (nth (j + 3) p 0) 24)))
    (seq 0 16).

Lemma uint32_shiftl b k : 0 <= b < 256 -> 0 <= k <= 24 -> uint32 (Z.shiftl b k) = Z.shiftl b k.
Proof.
  intros Hb Hk. rewrite uint32_mod, Z.shiftl_mul_pow2 by lia. apply Z.mod_small.
  assert (0 < 2 ^ k <= 2 ^ 24) as P by (split; [apply Z.pow_pos_nonneg; lia | apply Z.pow_le_mono_r; lia]).
  change (2 ^ 24) with 16777216 in P. change (2 ^ 32) with 4294967296. nia.
Qed.

Lemma blockWords_le p :
  length p = BlockSize -> bytes_ok p ->
  blockWords p = map (fun i => le_val (firstn 4 (skipn (4 * i) p))) (seq 0 16).
Proof.
  intros L O. unfold blockWords. apply map_ext_in. intros i Hi%in_seq. cbv zeta.
  rewrite (firstn_four p (4 * i)) by (rewrite L; unfold BlockSize; lia).
  cbn [le_val].
  assert (forall j, byte_ok (nth j p 0)) as B by (intros j; now apply nth_byte).
  pose proof (B (4 * i)%nat). pose proof (B (4 * i + 1)%nat).
  pose proof (B (4 * i + 2)%nat). pose proof (B (4 * i + 3)%nat). unfold byte_ok in *.
  rewrite !uint32_shiftl by (assumption || lia).
  rewrite (lor_shiftl_add _ _ 8) by lia. change (2 ^ 8) with 256.
  rewrite (lor_shiftl_add _ _ 16) by lia. change (2 ^ 16) with 65536.
  rewrite (lor_shiftl_add _ _ 24) by lia. change (2 ^ 24) with 16777216. lia.
Qed.

(** ** MD4 *)

Module Md4.

Definition Size : nat := 16.

Definition Init : list Z := [0x67452301; 0xEFCDAB89; 0x98BADCFE; 0x10325476].

Definition shift1 : list Z := [3; 7; 11; 19].

Definition shift2 : list Z := [3; 5; 9; 13].

Definition shift3 : list Z := [3; 9; 11; 15].

Definition xIndex2 : list nat := [0; 4; 8; 12; 1; 5; 9; 13; 2; 6; 10; 14; 3; 7; 11; 15]%nat.

Definition xIndex3 : list nat := [0; 8; 4; 12; 2; 10; 6; 14; 1; 9; 5; 13; 3; 11; 7; 15]%nat.

Definition regs : Type := Z * Z * Z * Z.

Local Open Scope u32_scope.

Definition round1 (X : list Z) (v : regs) (i : nat) : regs :=
  let '(a, b, c, d) := v in
  let x := i in
  let s := nth (i mod 4) shift1 0 in
  let f := ((c .^ d) .& b) .^ d in
  let a := a + (f + nth x X 0) in
  let a := (a << s) .| (a >> (32 - s)) in
  (d, a, b, c).

Definition round2 (X : list Z) (v : regs) (i : nat) : regs :=
  let '(a, b, c, d) := v in
  let x := nth i xIndex2 0%nat in
  let s := nth (i mod 4) shift2 0 in
  let g := (b .& c) .| (b .& d) .| (c .& d) in
  let a := a + (g + nth x X 0 + 0x5a827999) in
  let a := (a << s) .| (a >> (32 - s)) in
  (d, a, b, c).

Definition round3 (X : list Z) (v : regs) (i : nat) : regs :=
  let '(a, b, c, d) := v in
  let x := nth i xIndex3 0%nat in
  let s := nth (i mod 4) shift3 0 in
  let h := b .^ c .^ d in
  let a := a + (h + nth x X 0 + 0x6ed9eba1) in
  let a := (a << s) .| (a >> (32 - s)) in
  (d, a, b, c).

(** One iteration of the loop of [_Block]. *)
Definition blockStep (v p : list Z) : list Z :=
  match v with
  | [a; b; c; d] =>
      let '(aa, bb, cc, dd) := (a, b, c, d) in
      let X := blockWords p in
      let w := fold_left (round1 X) (seq 0 16) (a, b, c, d) in
      let w := fold_left (round2 X) (seq 0 16) w in
      let w := fold_left (round3 X) (seq 0 16) w in
      let '(a, b, c, d) := w in
      [a + aa; b + bb; c + cc; d + dd]
  | _ => v
  end.

Local Close Scope u32_scope.

#[export] Instance compression : Compression := { initial := Init; compress := blockStep }.

Definition digest : Type := Digest.digest.

Definition Reset (d : digest) : digest := Digest.Reset d.

Definition New : digest := Digest.New.

Definition _Block (d : digest) (p : list Z) : digest * nat := Digest.Block d p.

Definition Write (d : digest) (p : list Z) : digest := Digest.Write d p.

Definition Sum (d : digest) (inp : list Z) : outcome (list Z) := Digest.Sum d inp.

(** *** RFC 1320

    Register [t] is updated at step [i] with [t = -i] modulo 4, from the three registers that
    follow it. *)
Definition F (x y z : Z) : Z := Z.lor (Z.land x y) (Z.land (Z.lnot x) z).

Definition G (x y z : Z) : Z := Z.lor (Z.lor (Z.land x y) (Z.land x z)) (Z.land y z).

Definition H (x y z : Z) : Z := Z.lxor (Z.lxor x y) z.

Definition rotl32 (w k : Z) : Z := Z.lor (uint32 (Z.shiftl w k)) (Z.shiftr w (32 - k)).

Definition rfcStep (f : Z -> Z -> Z -> Z) (c : Z) (X : list Z) (index : list nat) (shifts : list Z)
    (r : list Z) (i : nat) : list Z :=
  let t := ((16 - i) mod 4)%nat in
  let reg j := nth ((t + j) mod 4) r 0 in
  set_nth t (rotl32 ((reg 0%nat + f (reg 1%nat) (reg 2%nat) (reg 3%nat) + nth (nth i index 0%nat) X 0 + c)
               mod 2 ^ 32) (nth (i mod 4) shifts 0)) r.

Definition rfcBlock (r p : list Z) : list Z :=
  let X := map (fun i => le_val (firstn 4 (skipn (4 * i) p))) (seq 0 16) in
  let r' := fold_left (rfcStep F 0 X (seq 0 16) [3; 7; 11; 19]) (seq 0 16) r in
  let r' := fold_left (rfcStep G 0x5a827999 X xIndex2 [3; 5; 9; 13]) (seq 0 16) r' in
  let r' := fold_left (rfcStep H 0x6ed9eba1 X xIndex3 [3; 9; 11; 15]) (seq 0 16) r' in
  map (fun i => (nth i r 0 + nth i r' 0) mod 2 ^ 32) (seq 0 4).

#[export] Instance rfc1320 : Compression := { initial := Init; compress := rfcBlock }.

(** *** The code computes it *)

(** The registers as the code holds them before step [i]. *)
Definition turned (i : nat) (r : list Z) : regs :=
  let t := ((16 - i) mod 4)%nat in
  (nth t r 0, nth ((t + 1) mod 4) r 0, nth ((t + 2) mod 4) r 0, nth ((t + 3) mod 4) r 0).

Lemma F_code b c d : Z.lxor (Z.land (Z.lxor c d) b) d = F b c d.
Proof.
  unfold F. apply Z.bits_inj'. intros n Hn.
  rewrite Z.lxor_spec, Z.land_spec, Z.lxor_spec, Z.lor_spec, !Z.land_spec, Z.lnot_spec by exact Hn.
  now destruct (Z.testbit b n), (Z.testbit c n), (Z.testbit d n).
Qed.

Lemma sum32_2 y u w : uint32 (y + uint32 (u + w)) = (y + u + w + 0) mod 2 ^ 32.
Proof. rewrite !uint32_mod, Z.add_mod_idemp_r by discriminate. f_equal. ring. Qed.

Lemma sum32_3 y u w c : uint32 (y + uint32 (uint32 (u + w) + c)) = (y + u + w + c) mod 2 ^ 32.
Proof.
  rewrite !uint32_mod, Z.add_mod_idemp_l, Z.add_mod_idemp_r by discriminate. f_equal. ring.
Qed.

Ltac turn_step :=
  lazymatch goal with
  | |- forall r i, length r = _ -> In i _ -> _ =>
      let r := fresh "r" in let i := fresh "i" in let L := fresh "L" in let I := fresh "I" in
      intros r i L I;
      destruct r as [| r0 [| r1 [| r2 [| r3 [| ? ?]]]]]; try discriminate L; clear L;
      repeat (destruct I as [<- | I]; [split; [| reflexivity];
        cbv [turned rfcStep Nat.sub Nat.modulo Nat.divmod Nat.add fst snd nth set_nth rotl32
             round1 round2 round3 xIndex2 xIndex3 shift1 shift2 shift3 seq G H];
        rewrite ?F_code, ?sum32_3, ?sum32_2; reflexivity |]); destruct I
  end.

Lemma round1_turned X : forall r i, length r = 4%nat -> In i (seq 0 16) ->
  round1 X (turned i r) i = turned (i + 1) (rfcStep F 0 X (seq 0 16) [3; 7; 11; 19] r i) /\
  length (rfcStep F 0 X (seq 0 16) [3; 7; 11; 19] r i) = 4%nat.
Proof. turn_step. Qed.

Lemma round2_turned X : forall r i, length r = 4%nat -> In i (seq 0 16) ->
  round2 X (turned i r) i = turned (i + 1) (rfcStep G 0x5a827999 X xIndex2 [3; 5; 9; 13] r i) /\
  length (rfcStep G 0x5a827999 X xIndex2 [3; 5; 9; 13] r i) = 4%nat.
Proof. turn_step. Qed.

Lemma round3_turned X : forall r i, length r = 4%nat -> In i (seq 0 16) ->
  round3 X (turned i r) i = turned (i + 1) (rfcStep H 0x6ed9eba1 X xIndex3 [3; 9; 11; 15] r i) /\
  length (rfcStep H 0x6ed9eba1 X xIndex3 [3; 9; 11; 15] r i) = 4%nat.
Proof. turn_step. Qed.

Lemma fold_turned (f : regs -> nat -> regs) (g : list Z -> nat -> list Z) n : forall i r,
  (forall r i, length r = 4%nat -> In i (seq 0 16) ->
     f (turned i r) i = turned (i + 1) (g r i) /\ length (g r i) = 4%nat) ->
  (i + n <= 16)%nat -> length r = 4%nat ->
  fold_left f (seq i n) (turned i r) = turned (i + n) (fold_left g (seq i n) r) /\
  length (fold_left g (seq i n) r) = 4%nat.
Proof.
  induction n as [| n IH]; intros i r S L Lr; cbn [seq fold_left]; [now rewrite Nat.add_0_r |].
  destruct (S r i Lr) as [-> Lg]; [apply in_seq; lia |].
  replace (i + Datatypes.S n)%nat with (i + 1 + n)%nat by lia.
  replace (Datatypes.S i) with (i + 1)%nat by lia. apply IH; [exact S | lia | exact Lg].
Qed.

Lemma turned_16 r : turned (0 + 16) r = turned 0 r.
Proof. reflexivity. Qed.

Lemma blockStep_rfc v p :
  length v = 4%nat -> length p = BlockSize -> bytes_ok p -> blockStep v p = rfcBlock v p.
Proof.
  intros Lv Lp Op. unfold rfcBlock. rewrite <- (blockWords_le p Lp Op). cbv zeta.
  set (X := blockWords p).
  destruct (fold_turned _ _ 16 0 v (round1_turned X) ltac:(lia) Lv) as [E1 L1].
  destruct (fold_turned _ _ 16 0 _ (round2_turned X) ltac:(lia) L1) as [E2 L2].
  destruct (fold_turned _ _ 16 0 _ (round3_turned X) ltac:(lia) L2) as [E3 L3].
  rewrite turned_16 in E1, E2, E3.
  match type of E3 with _ = turned 0 ?w => set (w3 := w) in * end.
  assert (blockStep v p =
    match v with
    | [a; b; c; d] =>
        let '(a', b', c', d') := turned 0 w3 in
        [uint32 (a' + a); uint32 (b' + b); uint32 (c' + c); uint32 (d' + d)]
    | _ => v
    end) as ->.
  { destruct v as [| a [| b [| c [| d [| ? ?]]]]]; try discriminate Lv.
    unfold blockStep. fold X. change (a, b, c, d) with (turned 0 [a; b; c; d]).
    rewrite E1, E2, E3. reflexivity. }
  destruct v as [| a [| b [| c [| d [| ? ?]]]]]; try discriminate Lv.
  destruct w3 as [| a' [| b' [| c' [| d' [| ? ?]]]]]; try discriminate L3.
  cbn [turned Nat.sub Nat.modulo Nat.divmod Nat.add fst snd nth map seq].
  rewrite !uint32_mod, (Z.add_comm a'), (Z.add_comm b'), (Z.add_comm c'), (Z.add_comm d'). reflexivity.
Qed.

Lemma rfcBlock_length v p : length (rfcBlock v p) = 4%nat.
Proof. reflexivity. Qed.

Example md4_abc :
  Sum (Write New [97; 98; 99]) [] = Return (rev (le_bytes 16 0xa448017aaf21d8525fc10ae87aa6729d)).
Proof. vm_compute. reflexivity. Qed.

End Md4.

(** ** RIPEMD-160 *)

Module Ripemd160.

Definition _n : list nat :=
  [0; 1; 2; 3; 4; 5; 6; 7; 8; 9; 10; 11; 12; 13; 14; 15;
   7; 4; 13; 1; 10; 6; 15; 3; 12; 0; 9; 5; 2; 14; 11; 8;
   3; 10; 14; 4; 9; 15; 8; 1; 2; 7; 0; 6; 13; 11; 5; 12;
   1; 9; 11; 10; 0; 8; 12; 4; 13; 3; 7; 15; 14; 5; 6; 2;
   4; 0; 5; 9; 7; 12; 2; 10; 14; 1; 3; 8; 11; 6; 15; 13]%nat.

Definition _r : list Z :=
  [11; 14; 15; 12; 5; 8; 7; 9; 11; 13; 14; 15; 6; 7; 9; 8;
   7; 6; 8; 13; 11; 9; 7; 15; 7; 12; 15; 9; 11; 7; 13; 12;
   11; 13; 6; 7; 14; 9; 13; 15; 14; 8; 13; 6; 5; 12; 7; 5;
   11; 12; 14; 15; 14; 15; 9; 8; 9; 14; 5; 6; 8; 6; 5; 12;
   9; 15; 5; 11; 6; 8; 13; 12; 5; 12; 13; 14; 11; 8; 5; 6].

Definition n_ : list nat :=
  [5; 14; 7; 0; 9; 2; 11; 4; 13; 6; 15; 8; 1; 10; 3; 12;
   6; 11; 3; 7; 0; 13; 5; 10; 14; 15; 8; 12; 4; 9; 1; 2;
   15; 5; 1; 3; 7; 14; 6; 9; 11; 8; 12; 2; 10; 0; 4; 13;
   8; 6; 4; 1; 3; 11; 15; 0; 5; 12; 2; 13; 9; 7; 10; 14;
   12; 15; 10; 4; 1; 5; 8; 7; 6; 2; 13; 14; 0; 3; 9; 11]%nat.

Definition r_ : list Z :=
  [8; 9; 9; 11; 13; 15; 15; 5; 7; 7; 8; 11; 14; 14; 12; 6;
   9; 13; 15; 7; 12; 8; 9; 11; 7; 7; 12; 7; 6; 15; 13; 11;
   9; 7; 15; 11; 8; 6; 6; 14; 12; 13; 5; 14; 13; 13; 7; 5;
   15; 5; 8; 11; 14; 14; 6; 14; 6; 9; 12; 9; 12; 5; 15; 8;
   8; 5; 12; 9; 12; 5; 14; 6; 8; 13; 6; 5; 15; 13; 11; 11].

(** The complement of a word. *)
Definition not32 (w : Z) : Z := Z.lxor w 0xffffffff.

Definition regs : Type := Z * Z * Z * Z * Z.

Local Open Scope u32_scope.

Definition round1 (X : list Z) (v : regs * regs) (i : nat) : regs * regs :=
  let '((a, b, c, d, e), (aa, bb, cc, dd, ee)) := v in
  let alpha := a + (b .^ c .^ d) + nth (nth i _n 0%nat) X 0 in
  let s := nth i _r 0 in
  let alpha := ((alpha << s) .| (alpha >> (32 - s))) + e in
  let beta := (c << 10) .| (c >> 22) in
  let '(a, b, c, d, e) := (e, alpha, b, beta, d) in
  let alpha := aa + (bb .^ (cc .| not32 dd)) + nth (nth i n_ 0%nat) X 0 + 0x50a28be6 in
  let s := nth i r_ 0 in
  let alpha := ((alpha << s) .| (alpha >> (32 - s))) + ee in
  let beta := (cc << 10) .| (cc >> 22) in
  let '(aa, bb, cc, dd, ee) := (ee, alpha, bb, beta, dd) in
  ((a, b, c, d, e), (aa, bb, cc, dd, ee)).

Definition round2 (X : list Z) (v : regs * regs) (i : nat) : regs * regs :=
  let '((a, b, c, d, e), (aa, bb, cc, dd, ee)) := v in
  let alpha := a + ((b .& c) .| (not32 b .& d)) + nth (nth i _n 0%nat) X 0 + 0x5a827999 in
  let s := nth i _r 0 in
  let alpha := ((alpha << s) .| (alpha >> (32 - s))) + e in
  let beta := (c << 10) .| (c >> 22) in
  let '(a, b, c, d, e) := (e, alpha, b, beta, d) in
  let alpha := aa + ((bb .& dd) .| (cc .&^ dd)) + nth (nth i n_ 0%nat) X 0 + 0x5c4dd124 in
  let s := nth i r_ 0 in
  let alpha := ((alpha << s) .| (alpha >> (32 - s))) + ee in
  let beta := (cc << 10) .| (cc >> 22) in
  let '(aa, bb, cc, dd, ee) := (ee, alpha, bb, beta, dd) in
  ((a, b, c, d, e), (aa, bb, cc, dd, ee)).

Definition round3 (X : list Z) (v : regs * regs) (i : nat) : regs * regs :=
  let '((a, b, c, d, e), (aa, bb, cc, dd, ee)) := v in
  let alpha := a + ((b .| not32 c) .^ d) + nth (nth i _n 0%nat) X 0 + 0x6ed9eba1 in
  let s := nth i _r 0 in
  let alpha := ((alpha << s) .| (alpha >> (32 - s))) + e in
  let beta := (c << 10) .| (c >> 22) in
  let '(a, b, c, d, e) := (e, alpha, b, beta, d) in
  let alpha := aa + ((bb .| not32 cc) .^ dd) + nth (nth i n_ 0%nat) X 0 + 0x6d703ef3 in
  let s := nth i r_ 0 in
  let alpha := ((alpha << s) .| (alpha >> (32 - s))) + ee in
  let beta := (cc << 10) .| (cc >> 22) in
  let '(aa, bb, cc, dd, ee) := (ee, alpha, bb, beta, dd) in
  ((a, b, c, d, e), (aa, bb, cc, dd, ee)).

Definition round4 (X : list Z) (v : regs * regs) (i : nat) : regs * regs :=
  let '((a, b, c, d, e), (aa, bb, cc, dd, ee)) := v in
  let alpha := a + ((b .& d) .| (c .&^ d)) + nth (nth i _n 0%nat) X 0 + 0x8f1bbcdc in
  let s := nth i _r 0 in
  let alpha := ((alpha << s) .| (alpha >> (32 - s))) + e in
  let beta := (c << 10) .| (c >> 22) in
  let '(a, b, c, d, e) := (e, alpha, b, beta, d) in
  let alpha := aa + ((bb .& cc) .| (not32 bb .& dd)) + nth (nth i n_ 0%nat) X 0 + 0x7a6d76e9 in
  let s := nth i r_ 0 in
  let alpha := ((alpha << s) .| (alpha >> (32 - s))) + ee in
  let beta := (cc << 10) .| (cc >> 22) in
  let '(aa, bb, cc, dd, ee) := (ee, alpha, bb, beta, dd) in
  ((a, b, c, d, e), (aa, bb, cc, dd, ee)).

Definition round5 (X : list Z) (v : regs * regs) (i : nat) : regs * regs :=
  let '((a, b, c, d, e), (aa, bb, cc, dd, ee)) := v in
  let alpha := a + (b .^ (c .| not32 d)) + nth (nth i _n 0%nat) X 0 + 0xa953fd4e in
  let s := nth i _r 0 in
  let alpha := ((alpha << s) .| (alpha >> (32 - s))) + e in
  let beta := (c << 10) .| (c >> 22) in
  let '(a, b, c, d, e) := (e, alpha, b, beta, d) in
  let alpha := aa + (bb .^ cc .^ dd) + nth (nth i n_ 0%nat) X 0 in
  let s := nth i r_ 0 in
  let alpha := ((alpha << s) .| (alpha >> (32 - s))) + ee in
  let beta := (cc << 10) .| (cc >> 22) in
  let '(aa, bb, cc, dd, ee) := (ee, alpha, bb, beta, dd) in
  ((a, b, c, d, e), (aa, bb, cc, dd, ee)).

(** One iteration of the loop of [_Block]. *)
Definition blockStep (v p : list Z) : list Z :=
  match v with
  | [s0; s1; s2; s3; s4] =>
      let l := (s0, s1, s2, s3, s4) in
      let X := blockWords p in
      let w := fold_left (round1 X) (seq 0 16) (l, l) in
      let w := fold_left (round2 X) (seq 16 16) w in
      let w := fold_left (round3 X) (seq 32 16) w in
      let w := fold_left (round4 X) (seq 48 16) w in
      let w := fold_left (round5 X) (seq 64 16) w in
      let '((a, b, c, d, e), (aa, bb, cc, dd, ee)) := w in
      let dd := dd + (c + s1) in
      [dd; s2 + d + ee; s3 + e + aa; s4 + a + bb; s0 + b + cc]
  | _ => v
  end.

Local Close Scope u32_scope.

Definition Size : nat := 20.

Definition Init : list Z := [0x67452301; 0xefcdab89; 0x98badcfe; 0x10325476; 0xc3d2e1f0].

#[export] Instance compression : Compression := { initial := Init; compress := blockStep }.

Definition digest : Type := Digest.digest.

Definition Reset (d : digest) : digest := Digest.Reset d.

Definition New : digest := Digest.New.

Definition _Block (d : digest) (p : list Z) : digest * nat := Digest.Block d p.

Definition Write (d : digest) (p : list Z) : digest := Digest.Write d p.

Definition Sum (d : digest) (inp : list Z) : outcome (list Z) := Digest.Sum d inp.

(** *** The definition of RIPEMD-160

    Two lines of 80 steps, with the five functions in opposite orders, the words in orders
    that two permutations generate, and the roots of the first primes as constants. *)
Definition rho : list nat := [7; 4; 13; 1; 10; 6; 15; 3; 12; 0; 9; 5; 2; 14; 11; 8]%nat.

Definition order (first : nat -> nat) (j : nat) : nat :=
  Nat.iter (j / 16) (fun i => nth i rho 0%nat) (first (j mod 16)%nat).

(** In this order the permutations apply to the word, the last round first. *)
Definition leftOrder (j : nat) : nat := order (fun i => i) j.

Definition rightOrder (j : nat) : nat := order (fun i => (9 * i + 5) mod 16)%nat j.

Definition f (k : nat) (x y z : Z) : Z :=
  match k with
  | 0%nat => Z.lxor (Z.lxor x y) z
  | 1%nat => Z.lor (Z.land x y) (Z.land (not32 x) z)
  | 2%nat => Z.lxor (Z.lor x (not32 y)) z
  | 3%nat => Z.lor (Z.land x z) (Z.ldiff y z)
  | _ => Z.lxor x (Z.lor y (not32 z))
  end.

Definition K (k : nat) : Z :=
  match k with
  | 0%nat => 0
  | 1%nat => Z.sqrt (2 * 2 ^ 60)
  | 2%nat => Z.sqrt (3 * 2 ^ 60)
  | 3%nat => Z.sqrt (5 * 2 ^ 60)
  | _ => Z.sqrt (7 * 2 ^ 60)
  end.

(** The integer cube root, bit by bit. *)
Definition cbrt (n : Z) : Z :=
  fold_left (fun r k => let r' := r + 2 ^ k in if r' * r' * r' <=? n then r' else r)
    (map Z.of_nat (rev (seq 0 32))) 0.

Definition K' (k : nat) : Z :=
  match k with
  | 0%nat => cbrt (2 * 2 ^ 90)
  | 1%nat => cbrt (3 * 2 ^ 90)
  | 2%nat => cbrt (5 * 2 ^ 90)
  | 3%nat => cbrt (7 * 2 ^ 90)
  | _ => 0
  end.

Definition rotl32 (w k : Z) : Z := Z.lor (uint32 (Z.shiftl w k)) (Z.shiftr w (32 - k)).

Definition lineStep (g : Z -> Z -> Z -> Z) (word s k : Z) (v : regs) : regs :=
  let '(a, b, c, d, e) := v in
  let t := (rotl32 ((a + g b c d + word + k) mod 2 ^ 32) s + e) mod 2 ^ 32 in
  (e, t, b, rotl32 c 10, d).

Definition leftStep (X : list Z) (v : regs) (j : nat) : regs :=
  lineStep (f (j / 16)) (nth (leftOrder j) X 0) (nth j _r 0) (K (j / 16)) v.

Definition rightStep (X : list Z) (v : regs) (j : nat) : regs :=
  lineStep (f ((79 - j) / 16)) (nth (rightOrder j) X 0) (nth j r_ 0) (K' (j / 16)) v.

Definition specBlock (h p : list Z) : list Z :=
  let X := map (fun i => le_val (firstn 4 (skipn (4 * i) p))) (seq 0 16) in
  match h with
  | [h0; h1; h2; h3; h4] =>
      let '(a, b, c, d, e) := fold_left (leftStep X) (seq 0 80) (h0, h1, h2, h3, h4) in
      let '(aa, bb, cc, dd, ee) := fold_left (rightStep X) (seq 0 80) (h0, h1, h2, h3, h4) in
      [(h1 + c + dd) mod 2 ^ 32; (h2 + d + ee) mod 2 ^ 32; (h3 + e + aa) mod 2 ^ 32;
       (h4 + a + bb) mod 2 ^ 32; (h0 + b + cc) mod 2 ^ 32]
  | _ => h
  end.

#[export] Instance ripemd160 : Compression := { initial := Init; compress := specBlock }.

(** *** The code computes it *)

Lemma add32_3 y u w : uint32 (uint32 (y + u) + w) = (y + u + w) mod 2 ^ 32.
Proof. rewrite !uint32_mod, Z.add_mod_idemp_l by discriminate. reflexivity. Qed.

Lemma add32_4 y u w k : uint32 (uint32 (uint32 (y + u) + w) + k) = (y + u + w + k) mod 2 ^ 32.
Proof.
  rewrite !uint32_mod, Z.add_mod_idemp_l, <- Z.add_assoc, Z.add_mod_idemp_l by discriminate.
  f_equal. ring.
Qed.

(** A step of the code on both lines, and those of the definition. *)
Definition paired (X : list Z) (v : regs * regs) (j : nat) : regs * regs :=
  (leftStep X (fst v) j, rightStep X (snd v) j).

Lemma fold_paired X l : forall v,
  fold_left (paired X) l v = (fold_left (leftStep X) l (fst v), fold_left (rightStep X) l (snd v)).
Proof.
  induction l as [| j l IH]; intros v; cbn [fold_left]; [now destruct v |].
  rewrite IH. reflexivity.
Qed.

Lemma fold_ext_in {A B : Type} (g g' : A -> B -> A) l : forall v,
  (forall v j, In j l -> g v j = g' v j) -> fold_left g l v = fold_left g' l v.
Proof.
  induction l as [| j l IH]; intros v E; cbn [fold_left]; [reflexivity |].
  rewrite E by now left. apply IH. intros. apply E. now right.
Qed.

Lemma K_values :
  (K 0 = 0 /\ K 1 = 0x5a827999 /\ K 2 = 0x6ed9eba1 /\ K 3 = 0x8f1bbcdc /\ K 4 = 0xa953fd4e) /\
  (K' 0 = 0x50a28be6 /\ K' 1 = 0x5c4dd124 /\ K' 2 = 0x6d703ef3 /\ K' 3 = 0x7a6d76e9 /\ K' 4 = 0).
Proof. vm_compute. repeat split. Qed.

Lemma orders_generated : _n = map leftOrder (seq 0 80) /\ n_ = map rightOrder (seq 0 80).
Proof. split; vm_compute; reflexivity. Qed.

Lemma nth_order j :
  (j < 80)%nat -> nth j _n 0%nat = leftOrder j /\ nth j n_ 0%nat = rightOrder j.
Proof.
  intros Hj. destruct orders_generated as [-> ->].
  rewrite (nth_indep (map leftOrder _) 0%nat (leftOrder 0)),
    (nth_indep (map rightOrder _) 0%nat (rightOrder 0)) by (rewrite length_map, length_seq; exact Hj).
  now rewrite !map_nth, seq_nth.
Qed.

Ltac round_paired k :=
  lazymatch goal with
  | |- forall v j, In j _ -> ?r ?X v j = _ =>
      let j := fresh "j" in let I := fresh "I" in
      intros [[[[[a b] c] d] e] [[[[aa bb] cc] dd] ee]] j I; apply in_seq in I;
      destruct (nth_order j) as [E1 E2]; [lia |];
      unfold paired, leftStep, rightStep, r; cbn [fst snd];
      replace (j / 16)%nat with k by (apply (Nat.div_unique j 16 k (j - 16 * k)); lia);
      replace ((79 - j) / 16)%nat with (4 - k)%nat
        by (apply (Nat.div_unique (79 - j) 16 (4 - k) (79 - j - 16 * (4 - k))); lia);
      rewrite E1, E2;
      cbn [f Nat.sub lineStep]; unfold rotl32;
      destruct K_values as ((K0 & K1 & K2 & K3 & K4) & (K0' & K1' & K2' & K3' & K4'));
      rewrite ?K0, ?K1, ?K2, ?K3, ?K4, ?K0', ?K1', ?K2', ?K3', ?K4';
      rewrite ?add32_4, ?add32_3, ?Z.add_0_r, ?uint32_mod; reflexivity
  end.

Lemma round1_paired X : forall v j, In j (seq 0 16) -> round1 X v j = paired X v j.
Proof. round_paired 0%nat. Qed.

Lemma round2_paired X : forall v j, In j (seq 16 16) -> round2 X v j = paired X v j.
Proof. round_paired 1%nat. Qed.

Lemma round3_paired X : forall v j, In j (seq 32 16) -> round3 X v j = paired X v j.
Proof. round_paired 2%nat. Qed.

Lemma round4_paired X : forall v j, In j (seq 48 16) -> round4 X v j = paired X v j.
Proof. round_paired 3%nat. Qed.

Lemma round5_paired X : forall v j, In j (seq 64 16) -> round5 X v j = paired X v j.
Proof. round_paired 4%nat. Qed.

Lemma blockStep_spec v p :
  length v = 5%nat -> length p = BlockSize -> bytes_ok p -> blockStep v p = specBlock v p.
Proof.
  intros Lv Lp Op. unfold specBlock. rewrite <- (blockWords_le p Lp Op).
  destruct v as [| s0 [| s1 [| s2 [| s3 [| s4 [| ? ?]]]]]]; try discriminate Lv.
  unfold blockStep. cbv zeta. set (X := blockWords p).
  rewrite (fold_ext_in (round1 X) (paired X)) by apply round1_paired.
  rewrite (fold_ext_in (round2 X) (paired X)) by apply round2_paired.
  rewrite (fold_ext_in (round3 X) (paired X)) by apply round3_paired.
  rewrite (fold_ext_in (round4 X) (paired X)) by apply round4_paired.
  rewrite (fold_ext_in (round5 X) (paired X)) by apply round5_paired.
  rewrite <- !fold_left_app. change (seq 0 80) with
    ((((seq 0 16 ++ seq 16 16) ++ seq 32 16) ++ seq 48 16) ++ seq 64 16).
  rewrite <- !app_assoc, fold_paired. cbn [fst snd].
  destruct (fold_left (leftStep X) _ _) as [[[[a b] c] d] e].
  destruct (fold_left (rightStep X) _ _) as [[[[aa bb] cc] dd] ee].
  rewrite !add32_3. f_equal. rewrite !uint32_mod, Z.add_mod_idemp_r by discriminate. f_equal. ring.
Qed.

Lemma specBlock_length v p : length v = 5%nat -> length (specBlock v p) = 5%nat.
Proof.
  intros L. destruct v as [| s0 [| s1 [| s2 [| s3 [| s4 [| ? ?]]]]]]; try discriminate L.
  unfold specBlock. cbv zeta. destruct (fold_left _ _ _) as [[[[a b] c] d] e].
  destruct (fold_left _ _ _) as [[[[aa bb] cc] dd] ee]. reflexivity.
Qed.

Example ripemd160_abc :
  Sum (Write New [97; 98; 99]) [] = Return (rev (le_bytes 20 0x8eb208f7e05d987a9b044a8e98c6b087f15a0bfc)).
Proof. vm_compute. reflexivity. Qed.

End Ripemd160.

(** ** Properties *)

(** C37: MD4 and RIPEMD-160.  However the input is split over calls of [Write],
    [Sum] appends the hash of the whole input, which it computes on a copy and without
    panicking, and a [Reset] object starts again; the hash is that of RFC 1320, in
    which the registers stay in place, and that of the definition of RIPEMD-160 with two
    lines of 80 steps, whose orders of words and constants are generated.  The length
    field is that of the input modulo 2^64 bits. *)
Theorem iterated_hashes ws ws' inp :
  bytes_ok (concat ws) -> bytes_ok (concat ws') ->
  (let d := fold_left Md4.Write ws Md4.New in
   Md4.Sum d inp = Return (inp ++ @hash Md4.rfc1320 (concat ws)) /\
   length (@hash Md4.rfc1320 (concat ws)) = Md4.Size /\
   Md4.Sum (fold_left Md4.Write ws' (Md4.Reset d)) inp = Return (inp ++ @hash Md4.rfc1320 (concat ws'))) /\
  (let d := fold_left Ripemd160.Write ws Ripemd160.New in
   Ripemd160.Sum d inp = Return (inp ++ @hash Ripemd160.ripemd160 (concat ws)) /\
   length (@hash Ripemd160.ripemd160 (concat ws)) = Ripemd160.Size /\
   Ripemd160.Sum (fold_left Ripemd160.Write ws' (Ripemd160.Reset d)) inp =
     Return (inp ++ @hash Ripemd160.ripemd160 (concat ws'))).
Proof.
  intros O O'. cbv zeta.
  pose proof (hash_agree Md4.compression Md4.rfc1320 4 eq_refl eq_refl Md4.blockStep_rfc
                (fun v p _ => Md4.rfcBlock_length v p)) as EM.
  pose proof (hash_agree Ripemd160.compression Ripemd160.ripemd160 5 eq_refl eq_refl
                Ripemd160.blockStep_spec Ripemd160.specBlock_length) as ER.
  rewrite <- (EM (concat ws)), <- (EM (concat ws')), <- (ER (concat ws)), <- (ER (concat ws')) by assumption.
  split; (split; [apply digest_spec |]; split;
    [| apply (digest_reset (concat ws)); exact (holds_writes ws [] New holds_New)]).
  - rewrite (EM (concat ws)) by assumption.
    exact (hash_length Md4.compression Md4.rfc1320 4 eq_refl Md4.blockStep_rfc
             (fun v p _ => Md4.rfcBlock_length v p) (concat ws) O).
  - rewrite (ER (concat ws)) by assumption.
    exact (hash_length Ripemd160.compression Ripemd160.ripemd160 5 eq_refl
             Ripemd160.blockStep_spec Ripemd160.specBlock_length (concat ws) O).
Qed.

Lemma iterated_hashes_witness :
  Md4.Sum (fold_left Md4.Write [[97]; [98; 99]] Md4.New) [] =
    Return ([] ++ @hash Md4.rfc1320 (concat [[97]; [98; 99]])) /\
  Ripemd160.Sum (fold_left Ripemd160.Write [[97]; [98; 99]] Ripemd160.New) [] =
    Return ([] ++ @hash Ripemd160.ripemd160 (concat [[97]; [98; 99]])).
Proof.
  assert (bytes_ok (concat [[97]; [98; 99]])) as O
    by (repeat (apply Forall_cons; [unfold byte_ok; lia |]); apply Forall_nil).
  destruct (iterated_hashes [[97]; [98; 99]] [] [] O (Forall_nil _)) as [[E _] [E' _]].
  split; [exact E | exact E'].
Defined.
