(* ===== verification/Kdf.v ===== *)
(** * Key derivation: PBKDF2 and HKDF

    Models of [src/golang-x-crypto/pbkdf2/pbkdf2.go] and [src/golang-x-crypto/hkdf/hkdf.go] over
    any hash function with the laws of the class [HashLaws].  [crypto/hmac] of the Go library is
    an object that collects what is written to it.  PBKDF2 is compared with the function of
    RFC 2898, and the reader of HKDF with the output keying material of RFC 5869, however it
    is read in pieces. *)

From S2P Require Import Prelude BlockCipher Sha2.
Local Open Scope go_scope.

(** ** Hash functions and HMAC *)

(** What a constructor [func() hash.Hash] stands for: [Sum] appends [sum] of what has been
    written since the creation or the last [Reset]. *)
Class Hash := {
  hashSize : nat;
  hashBlock : nat;
  sum : list Z -> list Z }.

Class HashLaws (H : Hash) : Prop := {
  size_positive : (0 < hashSize)%nat;
  size_block : (hashSize <= hashBlock)%nat;
  sum_length : forall m, length (sum m) = hashSize }.

#[export] Instance hashSHA256 : Hash := {| hashSize := 32; hashBlock := 64; sum := sha256 |}.

Section kdf.
Context {H : Hash}.

(** The object that [hmac.New] makes: the key and what was written. *)
Record hmac := MkHmac { macKey : list Z; written : list Z }.

Definition hmac_New (key : list Z) : hmac := MkHmac key [].

Definition hmac_Reset (m : hmac) : hmac := MkHmac (macKey m) [].

Definition hmac_Write (m : hmac) (p : list Z) : hmac := MkHmac (macKey m) (written m ++ p).

(** The function of RFC 2104. *)
Definition padKey (key : list Z) : list Z :=
  let key := if (hashBlock <? length key)%nat then sum key else key in
  key ++ repeat 0 (hashBlock - length key).

Definition HMAC (key m : list Z) : list Z :=
  let key := padKey key in
  sum (map (Z.lxor 0x5c) key ++ sum (map (Z.lxor 0x36) key ++ m)).

Definition hmac_Sum (m : hmac) (b : list Z) : list Z := b ++ HMAC (macKey m) (written m).

(** ** PBKDF2 *)

(** [for n := 2; n <= iter; n++], with [n] iterations left: the object, [U] and [T]. *)
Fixpoint iterate (n : nat) (prf : hmac) (U T : list Z) : hmac * list Z * list Z :=
  match n with
  | O => (prf, U, T)
  | S n =>
      let prf := hmac_Reset prf in
      let prf := hmac_Write prf U in
      let U := hmac_Sum prf [] in
      iterate n prf U (xorBytes T U)
  end.

(** The body of the loop over the blocks, on the object, [dk] and [U]. *)
Definition deriveBlock (salt : list Z) (iter : Z) (s : hmac * list Z * list Z) (block : Z) :
    hmac * list Z * list Z :=
  let '(prf, dk, U) := s in
  let prf := hmac_Reset prf in
  let prf := hmac_Write prf salt in
  let buf := [uint8 (Z.shiftr block 24); uint8 (Z.shiftr block 16); uint8 (Z.shiftr block 8);
              uint8 block] in
  let prf := hmac_Write prf buf in
  let dk := hmac_Sum prf dk in
  let front := firstn (length dk - hashSize) dk in
  let T := skipn (length dk - hashSize) dk in
  let U := copy U T in
  let '(prf, U, T) := iterate (Z.to_nat (iter - 1)) prf U T in
  (prf, front ++ T, U).

(** A division by zero, a negative capacity and a slice bound out of range panic. *)
Definition Key (password salt : list Z) (iter keyLen : Z) : outcome (list Z) :=
  let prf := hmac_New password in
  let hashLen := Z.of_nat hashSize in
  let numBlocks := Z.quot (keyLen + hashLen - 1)%i64 hashLen in
  if hashLen =? 0 then Panic
  else if (numBlocks * hashLen)%i64 <? 0 then Panic
  else
    let blocks := map (fun i => Z.of_nat i) (seq 1 (Z.to_nat numBlocks)) in
    let '(_, dk, _) := fold_left (deriveBlock salt iter) blocks (prf, [], repeat 0 hashSize) in
    if (keyLen <? 0) || ((numBlocks * hashLen)%i64 <? keyLen) then Panic
    else Return (firstn (Z.to_nat keyLen) dk).

(** ** HKDF *)

Record hkdf := MkHkdf {
  expander : hmac;
  size : nat;
  info : list Z;
  counter : Z;
  prev : list Z;
  cache : list Z }.

(** The loop that fills the buffer, of which [need] bytes are left; [n] is the number of bytes
    that the last [copy] took from the cache.  Every iteration copies at least one byte, so
    that [fuel] iterations are enough when [need <= fuel]. *)
Fixpoint fill (fuel need n : nat) (f : hkdf) : list Z * nat * hkdf :=
  match fuel, need with
  | O, _ | _, O => ([], n, f)
  | S fuel, _ =>
      let e := hmac_Reset (expander f) in
      let e := hmac_Write e (prev f) in
      let e := hmac_Write e (info f) in
      let e := hmac_Write e [counter f] in
      let prev := hmac_Sum e [] in
      let f := MkHkdf e (size f) (info f) (uint8 (counter f + 1)) prev prev in
      let n := Nat.min need (length prev) in
      let '(rest, last, f) := fill fuel (need - n) n f in
      (firstn n prev ++ rest, last, f)
  end.

(** [Read] into a buffer of [need] bytes: the bytes, all of which it writes, or the error. *)
Definition Read (f : hkdf) (need : nat) : option (list Z) * hkdf :=
  let remains := (length (cache f) + Z.to_nat (uint8 (uint8 (255 - counter f) + 1)) * size f)%nat in
  if (remains <? need)%nat then (None, f)
  else
    let n := Nat.min need (length (cache f)) in
    let p := firstn n (cache f) in
    let '(rest, n, f) := fill need (need - n) n f in
    (Some (p ++ rest),
     MkHkdf (expander f) (size f) (info f) (counter f) (prev f) (skipn n (cache f))).

(** A [nil] salt is [None]. *)
Definition New (secret : list Z) (salt : option (list Z)) (info : list Z) : hkdf :=
  let salt := match salt with None => repeat 0 hashSize | Some salt => salt end in
  let extractor := hmac_New salt in
  let extractor := hmac_Write extractor secret in
  let prk := hmac_Sum extractor [] in
  MkHkdf (hmac_New prk) hashSize info 1 [] [].

(** ** The standards *)

(** RFC 2898: U_1, U_2, ... of a block, and their sum. *)
Fixpoint rfcU (password salt : list Z) (i : Z) (n : nat) : list Z :=
  match n with
  | O => HMAC password (salt ++ rev (le_bytes 4 i))
  | S n => HMAC password (rfcU password salt i n)
  end.

Definition rfcF (password salt : list Z) (c : nat) (i : Z) : list Z :=
  fold_left xorBytes (map (rfcU password salt i) (seq 1 (c - 1))) (rfcU password salt i 0).

Definition PBKDF2 (password salt : list Z) (c dkLen : nat) : list Z :=
  let l := Nat.div (dkLen + hashSize - 1) hashSize in
  firstn dkLen (flat_map (fun i => rfcF password salt c (Z.of_nat i)) (seq 1 l)).

(** RFC 5869: T(0), T(1), ... and the first blocks of the output. *)
Fixpoint rfcT (prk info : list Z) (i : nat) : list Z :=
  match i with
  | O => []
  | S i => HMAC prk (rfcT prk info i ++ info ++ [Z.of_nat (S i)])
  end.

Definition okm (prk info : list Z) (n : nat) : list Z := flat_map (rfcT prk info) (seq 1 n).

Definition extract (salt secret : list Z) : list Z := HMAC salt secret.

(** ** PBKDF2 is the function of the standard *)

Context {laws : HashLaws H}.

Lemma HMAC_length key m : length (HMAC key m) = hashSize.
Proof. apply sum_length. Qed.

Lemma iterate_spec password salt i n : forall k prf T, macKey prf = password ->
  exists prf', iterate n prf (rfcU password salt i k) T =
    (prf', rfcU password salt i (k + n),
     fold_left xorBytes (map (rfcU password salt i) (seq (S k) n)) T) /\ macKey prf' = password.
Proof.
  induction n as [| n IH]; intros k prf T E; cbn [iterate seq map fold_left].
  - rewrite Nat.add_0_r. now exists prf.
  - unfold hmac_Sum, hmac_Write, hmac_Reset. cbn [macKey written app]. rewrite E.
    change (HMAC password (rfcU password salt i k)) with (rfcU password salt i (S k)).
    replace (k + S n)%nat with (S k + n)%nat by lia. now apply IH.
Qed.

Lemma rfcU_length password salt i n : length (rfcU password salt i n) = hashSize.
Proof. destruct n; apply HMAC_length. Qed.

Lemma fold_xor_length l : forall T : list Z, Forall (fun U => length U = length T) l ->
  length (fold_left xorBytes l T) = length T.
Proof.
  induction l as [| U l IH]; intros T HF; [reflexivity |]. cbn [fold_left].
  apply Forall_cons_iff in HF as [HU HF]. rewrite IH.
  - now apply xorBytes_length.
  - rewrite xorBytes_length by easy. exact HF.
Qed.

Lemma rfcF_length password salt c i : length (rfcF password salt c i) = hashSize.
Proof.
  unfold rfcF. rewrite fold_xor_length; [apply rfcU_length |].
  apply Forall_map, Forall_forall. intros. now rewrite !rfcU_length.
Qed.

Lemma block_bytes i :
  [uint8 (Z.shiftr i 24); uint8 (Z.shiftr i 16); uint8 (Z.shiftr i 8); uint8 i] = rev (le_bytes 4 i).
Proof. exact (storeBE_spec i). Qed.

Lemma deriveBlock_spec password salt iter prf dk U i :
  macKey prf = password -> length U = hashSize ->
  exists prf' U', deriveBlock salt iter (prf, dk, U) i =
    (prf', dk ++ rfcF password salt (Z.to_nat iter) i, U') /\
    macKey prf' = password /\ length U' = hashSize.
Proof.
  intros E L. unfold deriveBlock, hmac_Sum, hmac_Write, hmac_Reset. cbn [macKey written app].
  rewrite E, block_bytes. change (HMAC password (salt ++ _)) with (rfcU password salt i 0).
  pose proof (rfcU_length password salt i 0) as LU. rewrite length_app, LU.
  replace (length dk + hashSize - hashSize)%nat with (length dk) by lia.
  rewrite (firstn_app_exact (length dk)), (skipn_app_exact (length dk)), copy_full by congruence.
  set (prf0 := MkHmac password _).
  destruct (iterate_spec password salt i (Z.to_nat (iter - 1)) 0 prf0 (rfcU password salt i 0) eq_refl)
    as (prf' & -> & E').
  exists prf', (rfcU password salt i (0 + Z.to_nat (iter - 1))). split; [| split; [exact E' | apply rfcU_length]].
  unfold rfcF. now replace (Z.to_nat iter - 1)%nat with (Z.to_nat (iter - 1)) by lia.
Qed.

Lemma deriveBlocks_spec password salt iter blocks : forall prf dk U,
  macKey prf = password -> length U = hashSize ->
  exists prf' U', fold_left (deriveBlock salt iter) blocks (prf, dk, U) =
    (prf', dk ++ flat_map (rfcF password salt (Z.to_nat iter)) blocks, U').
Proof.
  induction blocks as [| i blocks IH]; intros prf dk U E L; cbn [fold_left flat_map].
  - rewrite app_nil_r. now exists prf, U.
  - destruct (deriveBlock_spec password salt iter prf dk U i E L) as (prf1 & U1 & -> & E1 & L1).
    rewrite app_assoc. now apply IH.
Qed.

(** For every length the code computes the function; counts below two are taken as one. *)
Lemma Key_spec password salt iter keyLen :
  0 <= keyLen -> keyLen + Z.of_nat hashSize < 2 ^ 63 ->
  Key password salt iter keyLen = Return (PBKDF2 password salt (Z.to_nat iter) (Z.to_nat keyLen)).
Proof.
  intros H0 H1. pose proof size_positive as Hs. unfold Key. cbv zeta.
  set (h := Z.of_nat hashSize) in *. assert (0 < h) as Hh by (unfold h; lia).
  rewrite (proj2 (Z.eqb_neq h 0)) by lia.
  rewrite (int64_id (keyLen + h)), (int64_id (keyLen + h - 1)) by lia.
  rewrite Z.quot_div_nonneg by lia. set (n := (keyLen + h - 1) / h).
  assert (0 <= n) by (apply Z.div_pos; lia).
  assert (keyLen <= n * h <= keyLen + h - 1) as Hn by (unfold n; Z.div_mod_to_equations; nia).
  rewrite int64_id by lia.
  destruct (Z.ltb_spec (n * h) 0); [lia |]. destruct (Z.ltb_spec keyLen 0); [lia |].
  destruct (Z.ltb_spec (n * h) keyLen); [lia |]. cbn [orb].
  destruct (deriveBlocks_spec password salt iter (map (fun i => Z.of_nat i) (seq 1 (Z.to_nat n)))
    (hmac_New password) [] (repeat 0 hashSize) eq_refl (repeat_length _ _)) as (prf & U & ->).
  apply f_equal. unfold PBKDF2. cbv zeta. cbn [app].
  replace (Nat.div (Z.to_nat keyLen + hashSize - 1) hashSize) with (Z.to_nat n); [now rewrite !flat_map_concat_map, map_map |].
  unfold n, h. rewrite <- (Nat2Z.id (Nat.div _ _)), Nat2Z.inj_div. do 2 f_equal. lia.
Qed.

Lemma Key_negative password salt iter keyLen : keyLen < 0 -> Key password salt iter keyLen = Panic.
Proof.
  intros N. unfold Key. cbv zeta. destruct (_ =? 0); [reflexivity |]. destruct (_ <? 0); [reflexivity |].
  destruct (fold_left _ _ _) as [[prf dk] U].
  now rewrite (proj2 (Z.ltb_lt keyLen 0) N).
Qed.

(** ** HKDF is the output keying material, read in pieces *)

Section reader.
Variables prk inf : list Z.

Lemma rfcT_length i : length (rfcT prk inf (S i)) = hashSize.
Proof. apply HMAC_length. Qed.

Lemma okm_S n : okm prk inf (S n) = okm prk inf n ++ rfcT prk inf (S n).
Proof. unfold okm. rewrite seq_S, flat_map_app. cbn [flat_map Nat.add]. now rewrite app_nil_r. Qed.

Lemma okm_length n : length (okm prk inf n) = (n * hashSize)%nat.
Proof.
  induction n as [| n IH]; [reflexivity |]. rewrite okm_S, length_app, IH, rfcT_length. lia.
Qed.

Lemma okm_firstn m n : (m <= n)%nat -> firstn (m * hashSize) (okm prk inf n) = okm prk inf m.
Proof.
  intros L. induction L as [| n L IH]; [apply firstn_all2; now rewrite okm_length |].
  rewrite okm_S, firstn_app, okm_length, IH.
  replace (m * hashSize - n * hashSize)%nat with 0%nat by nia. apply app_nil_r.
Qed.

(** The state of the reader after [k] bytes of the material: [i] blocks have been made. *)
Record readTo (k i : nat) (f : hkdf) : Prop := {
  r_blocks : (i <= 255)%nat;
  r_within : (k <= i * hashSize)%nat;
  r_key : macKey (expander f) = prk;
  r_size : size f = hashSize;
  r_info : info f = inf;
  r_counter : counter f = uint8 (Z.of_nat i + 1);
  r_prev : prev f = rfcT prk inf i;
  r_cache : cache f = skipn k (okm prk inf i) }.

Definition limit : nat := (255 * hashSize)%nat.

(** The bytes from [k] to [k + n] of the material. *)
Definition material (k n : nat) : list Z := firstn n (skipn k (okm prk inf 255)).

Lemma left_blocks i : (i <= 255)%nat ->
  Z.to_nat (uint8 (uint8 (255 - uint8 (Z.of_nat i + 1)) + 1)) = (255 - i)%nat.
Proof.
  intros L. rewrite !uint8_mod. change (2 ^ 8) with 256.
  destruct (Nat.eq_dec i 255) as [-> | D]; [reflexivity |].
  rewrite (Z.mod_small (Z.of_nat i + 1)), (Z.mod_small (255 - _)), Z.mod_small by lia. lia.
Qed.

Lemma remaining k i f : readTo k i f ->
  (length (cache f) + Z.to_nat (uint8 (uint8 (255 - counter f) + 1)) * size f)%nat = (limit - k)%nat.
Proof.
  intros []. rewrite r_cache0, r_counter0, r_size0, left_blocks by assumption.
  rewrite length_skipn, okm_length. unfold limit. nia.
Qed.

(** One turn of the loop makes the next block, which is then the cache. *)
Lemma nextBlock k i f : readTo k i f -> (i < 255)%nat ->
  let e := hmac_Write (hmac_Write (hmac_Write (hmac_Reset (expander f)) (prev f)) (info f)) [counter f] in
  let p := hmac_Sum e [] in
  p = rfcT prk inf (S i) /\
  readTo (i * hashSize) (S i) (MkHkdf e (size f) (info f) (uint8 (counter f + 1)) p p).
Proof.
  intros [] L. cbv zeta. unfold hmac_Sum, hmac_Write, hmac_Reset. cbn [macKey written app].
  rewrite r_key0, r_info0, r_prev0, r_counter0, <- app_assoc.
  rewrite (uint8_mod (Z.of_nat i + 1)), Z.mod_small by (change (2 ^ 8) with 256; lia).
  replace (Z.of_nat i + 1) with (Z.of_nat (S i)) by lia.
  split; [reflexivity |]. constructor; cbn [expander size info counter prev cache macKey];
    try assumption; try lia; try reflexivity.
  change (HMAC prk _) with (rfcT prk inf (S i)).
  now rewrite okm_S, skipn_app_exact by apply okm_length.
Qed.

(** The material from [k] on, with [k] within the first [i] blocks. *)
Lemma material_from k i : (k <= i * hashSize)%nat -> (i <= 255)%nat ->
  skipn k (okm prk inf 255) = skipn k (okm prk inf i) ++ skipn (i * hashSize) (okm prk inf 255).
Proof.
  intros Lk Li. rewrite <- (firstn_skipn (i * hashSize) (okm prk inf 255)) at 1.
  rewrite okm_firstn, skipn_app, okm_length by exact Li.
  now replace (k - i * hashSize)%nat with 0%nat by lia.
Qed.

Lemma material_block i : (i < 255)%nat ->
  skipn (i * hashSize) (okm prk inf 255) =
  rfcT prk inf (S i) ++ skipn (S i * hashSize) (okm prk inf 255).
Proof.
  intros L. rewrite (material_from (i * hashSize) (S i)) by lia.
  now rewrite okm_S, skipn_app_exact by apply okm_length.
Qed.

Definition dropCache (n : nat) (f : hkdf) : hkdf :=
  MkHkdf (expander f) (size f) (info f) (counter f) (prev f) (skipn n (cache f)).

Lemma dropCache_readTo k i n f : readTo k i f -> (k + n <= i * hashSize)%nat ->
  readTo (k + n) i (dropCache n f).
Proof.
  intros [] L. constructor; cbn [dropCache expander size info counter prev cache]; try assumption.
  now rewrite r_cache0, skipn_skipn, Nat.add_comm.
Qed.

Lemma fill_spec fuel : forall k i need n f,
  readTo k i f -> (0 < need <= fuel)%nat -> (i * hashSize + need <= limit)%nat ->
  exists last f' i', fill fuel need n f = (material (i * hashSize) need, last, f') /\
    readTo (i * hashSize + need) i' (dropCache last f').
Proof.
  pose proof size_positive as Hs.
  induction fuel as [| fuel IH]; intros k i need n f R Hn HL; [lia |].
  assert (i < 255)%nat as Hi by (unfold limit in HL; nia).
  destruct need as [| need']; [lia |]. set (need := S need') in *. cbn [fill]. unfold need at 1.
  destruct (nextBlock k i f R Hi) as [-> R']. cbv zeta in R'.
  set (f1 := MkHkdf _ _ _ _ _ _) in *. rewrite rfcT_length.
  unfold material. rewrite material_block by exact Hi.
  destruct (Nat.le_gt_cases need hashSize) as [Lt | Gt].
  - rewrite Nat.min_l, Nat.sub_diag by exact Lt. exists need, f1, (S i).
    split; [| apply dropCache_readTo; [exact R' | lia]].
    rewrite firstn_app, rfcT_length. replace (need - hashSize)%nat with 0%nat by lia.
    destruct fuel; reflexivity.
  - rewrite Nat.min_r by lia.
    destruct (IH (i * hashSize)%nat (S i) (need - hashSize)%nat hashSize f1 R') as (last & f' & i' & -> & R2);
      [lia .. |].
    exists last, f', i'. split; [| now replace (i * hashSize + need)%nat with (S i * hashSize + (need - hashSize))%nat by lia].
    rewrite firstn_app, rfcT_length, (firstn_all2 (n := need)), (firstn_all2 (n := hashSize))
      by (rewrite rfcT_length; lia).
    reflexivity.
Qed.

(** A read within the limit returns the next bytes; one beyond it is refused and changes
    nothing. *)
Lemma Read_spec k i f need : readTo k i f ->
  ((limit - k < need)%nat -> Read f need = (None, f)) /\
  ((need <= limit - k)%nat -> exists f' i', Read f need = (Some (material k need), f') /\
     readTo (k + need) i' f').
Proof.
  intros R. unfold Read. rewrite (remaining k i f R). split; intros L.
  { now rewrite (proj2 (Nat.ltb_lt _ _) L). }
  rewrite (proj2 (Nat.ltb_ge _ _) L). cbv zeta.
  pose proof (r_within _ _ _ R) as Lk. pose proof (r_blocks _ _ _ R) as Li.
  unfold material. rewrite (material_from k i) by assumption. rewrite <- (r_cache _ _ _ R).
  assert (length (cache f) = i * hashSize - k)%nat as Lc
    by (rewrite (r_cache _ _ _ R), length_skipn, okm_length; reflexivity).
  rewrite firstn_app. destruct (Nat.le_gt_cases need (length (cache f))) as [Lt | Gt].
  - rewrite Nat.min_l, Nat.sub_diag by exact Lt.
    replace (need - length (cache f))%nat with 0%nat by lia. exists (dropCache need f), i.
    split; [destruct need; reflexivity | apply dropCache_readTo; [exact R | lia]].
  - rewrite Nat.min_r by lia.
    destruct (fill_spec need k i (need - length (cache f)) (length (cache f)) f R)
      as (last & f' & i' & -> & R'); [lia | unfold limit in *; lia |].
    exists (dropCache last f'), i'.
    split; [now rewrite (firstn_all2 (n := need)), firstn_all by lia |].
    now replace (k + need)%nat with (i * hashSize + (need - length (cache f)))%nat by lia.
Qed.

(** A sequence of reads. *)
Fixpoint reads (f : hkdf) (ns : list nat) : list (option (list Z)) * hkdf :=
  match ns with
  | [] => ([], f)
  | n :: ns =>
      let (r, f) := Read f n in
      let (rs, f) := reads f ns in
      (r :: rs, f)
  end.

(** What the reads return: the pieces of the material in order, and an error for those that go
    beyond its end. *)
Fixpoint pieces (k : nat) (ns : list nat) : list (option (list Z)) :=
  match ns with
  | [] => []
  | n :: ns => if (k + n <=? limit)%nat then Some (material k n) :: pieces (k + n) ns
               else None :: pieces k ns
  end.

Lemma reads_spec ns : forall k i f, readTo k i f -> (k <= limit)%nat ->
  fst (reads f ns) = pieces k ns.
Proof.
  induction ns as [| n ns IH]; intros k i f R Lk; [reflexivity |]. cbn [reads pieces].
  destruct (Read_spec k i f n R) as [Hno Hyes]. destruct (Nat.leb_spec (k + n) limit) as [L | L].
  - destruct (Hyes ltac:(lia)) as (f' & i' & -> & R'). specialize (IH _ _ _ R' L).
    destruct (reads f' ns) as [rs f2]. cbn [fst] in *. now rewrite IH.
  - rewrite Hno by lia. specialize (IH _ _ _ R Lk). destruct (reads f ns) as [rs f2].
    cbn [fst] in *. now rewrite IH.
Qed.

(** The pieces together are the beginning of the material. *)
Lemma pieces_concat ns : forall k, (k + list_sum ns <= limit)%nat ->
  exists ps, pieces k ns = map Some ps /\ concat ps = material k (list_sum ns).
Proof.
  induction ns as [| n ns IH]; intros k L; [now exists [] |]. cbn [list_sum fold_right] in L.
  fold (list_sum ns) in L. cbn [pieces]. rewrite (proj2 (Nat.leb_le _ _)) by lia.
  destruct (IH (k + n)%nat) as (ps & -> & E); [lia |]. exists (material k n :: ps).
  split; [reflexivity |]. cbn [concat list_sum fold_right]. fold (list_sum ns). rewrite E.
  unfold material. rewrite (Nat.add_comm k n), <- skipn_skipn.
  set (l := skipn k (okm prk inf 255)).
  rewrite <- (firstn_skipn n (firstn (n + list_sum ns) l)), firstn_firstn, skipn_firstn_comm.
  now replace (Nat.min n (n + list_sum ns)) with n by lia; replace (n + list_sum ns - n)%nat with (list_sum ns) by lia.
Qed.
End reader.

Lemma readTo_New secret salt inf :
  readTo (extract (match salt with None => repeat 0 hashSize | Some salt => salt end) secret) inf 0 0
    (New secret salt inf).
Proof. constructor; try reflexivity; cbn; lia. Qed.

(** A missing salt is as good as an empty one: both are padded to a block of zeros. *)
Lemma extract_nil secret : extract (repeat 0 hashSize) secret = extract [] secret.
Proof.
  pose proof size_block as L. unfold extract, HMAC. f_equal.
  assert (padKey (repeat 0 hashSize) = padKey []) as ->; [| reflexivity].
  unfold padKey. rewrite repeat_length, (proj2 (Nat.ltb_ge _ _) L). cbn [Nat.ltb Nat.leb length app].
  replace (hashBlock <? 0)%nat with false by (symmetry; apply Nat.ltb_ge; lia). cbn [length app].
  rewrite repeat_length, <- repeat_app. f_equal. lia.
Qed.
End kdf.

#[export] Instance sha256_laws : HashLaws hashSHA256.
Proof. constructor; cbn; [lia | lia | apply sha256_length]. Qed.

(** The first vector of RFC 5869, read in two pieces. *)
Example hkdf_vector :
  map (option_map (firstn 4))
    (fst (reads (New (repeat 0x0b 22) (Some (map Z.of_nat (seq 0 13))) (map Z.of_nat (seq 0xf0 10))) [3; 39]%nat)) =
  [Some [0x3c; 0xb2; 0x5f]; Some [0x25; 0xfa; 0xac; 0xd5]].
Proof. vm_compute. reflexivity. Qed.

(** ** Properties *)

(** C38: [pbkdf2.Key] returns the key of RFC 2898 for every length whose sum with
    the size of the hash fits an [int], an iteration count below two counting as one, and
    panics for a negative length.  The reader of [hkdf] returns, for any sequence of reads, the
    consecutive pieces of the output keying material T(1), ..., T(255) of RFC 5869; a read
    that would go beyond the 255 blocks (also when the block counter has wrapped around to
    zero) fails and does not change what later reads return; reads within the limit give
    together the beginning of the material; no salt is the same as an empty salt. *)
Theorem key_derivation (H : Hash) password salt iter keyLen secret osalt inf ns :
  HashLaws H ->
  (0 <= keyLen -> keyLen + Z.of_nat hashSize < 2 ^ 63 ->
   Key password salt iter keyLen = Return (PBKDF2 password salt (Z.to_nat iter) (Z.to_nat keyLen))) /\
  (keyLen < 0 -> Key password salt iter keyLen = Panic) /\
  (let prk := extract (match osalt with None => repeat 0 hashSize | Some salt => salt end) secret in
   let results := fst (reads (New secret osalt inf) ns) in
   results = pieces prk inf 0 ns /\
   ((list_sum ns <= 255 * hashSize)%nat ->
    exists ps, results = map Some ps /\ concat ps = firstn (list_sum ns) (okm prk inf 255)) /\
   (osalt = None -> results = fst (reads (New secret (Some []) inf) ns))).
Proof.
  intros L. split; [apply Key_spec |]. split; [apply Key_negative |]. cbv zeta.
  set (prk := extract _ secret).
  assert (fst (reads (New secret osalt inf) ns) = pieces prk inf 0 ns) as ->
    by (eapply reads_spec; [apply readTo_New | lia]).
  split; [reflexivity |]. split.
  - intros S. destruct (pieces_concat prk inf ns 0) as (ps & E & C); [exact S |]. now exists ps.
  - intros ->. symmetry. unfold prk. rewrite extract_nil.
    eapply reads_spec; [apply (readTo_New secret (Some []) inf) | lia].
Qed.

Lemma key_derivation_witness :
  Key (repeat 1 8) (repeat 2 8) 3 40 = Return (PBKDF2 (repeat 1 8) (repeat 2 8) 3 40) /\
  exists ps, fst (reads (New (repeat 1 8) None []) [3; 40]%nat) = map Some ps /\
    concat ps = firstn (list_sum [3; 40]%nat) (okm (extract (repeat 0 hashSize) (repeat 1 8)) [] 255).
Proof.
  destruct (key_derivation hashSHA256 (repeat 1 8) (repeat 2 8) 3 40 (repeat 1 8) None [] [3; 40]%nat sha256_laws)
    as (K & _ & (_ & R & _)).
  split; [apply K; cbn; lia | apply R; cbn; lia].
Defined.
