(* ===== verification/Scrypt.v ===== *)
(** * The scrypt key derivation function

    Model of [src/golang-x-crypto/scrypt/scrypt.go] over the models of PBKDF2 in [Kdf] and of the
    rounds of Salsa20, which are the same statements as in [salsa20].  The code works on flat
    arrays of words, alternates between two buffers and makes two steps per iteration; it is
    compared with scryptBlockMix, scryptROMix and scrypt as RFC 7914 defines them. *)

From S2P Require Import Prelude BlockCipher Salsa20 Sha2 Kdf.
Local Open Scope go_scope.

(** ** The code *)

(** What a write of [data] at an offset leaves of an array. *)
Definition writeAt (off : nat) (data dst : list Z) : list Z :=
  firstn off dst ++ data ++ skipn (off + length data) dst.

(** [blockCopy(dst[off:], src, n)] *)
Definition blockCopy (dst : list Z) (off : nat) (src : list Z) (n : nat) : list Z :=
  writeAt off (firstn n src) dst.

Definition blockXOR (dst src : list Z) (n : nat) : list Z :=
  xorBytes (firstn n dst) (firstn n src) ++ skipn n dst.

(** The sixteen words that end up in both [tmp] and [out]. *)
Definition salsaXOR (tmp inp : list Z) : list Z :=
  let w0 := (nth 0 tmp 0 .^ nth 0 inp 0)%u32 in
  let w1 := (nth 1 tmp 0 .^ nth 1 inp 0)%u32 in
  let w2 := (nth 2 tmp 0 .^ nth 2 inp 0)%u32 in
  let w3 := (nth 3 tmp 0 .^ nth 3 inp 0)%u32 in
  let w4 := (nth 4 tmp 0 .^ nth 4 inp 0)%u32 in
  let w5 := (nth 5 tmp 0 .^ nth 5 inp 0)%u32 in
  let w6 := (nth 6 tmp 0 .^ nth 6 inp 0)%u32 in
  let w7 := (nth 7 tmp 0 .^ nth 7 inp 0)%u32 in
  let w8 := (nth 8 tmp 0 .^ nth 8 inp 0)%u32 in
  let w9 := (nth 9 tmp 0 .^ nth 9 inp 0)%u32 in
  let w10 := (nth 10 tmp 0 .^ nth 10 inp 0)%u32 in
  let w11 := (nth 11 tmp 0 .^ nth 11 inp 0)%u32 in
  let w12 := (nth 12 tmp 0 .^ nth 12 inp 0)%u32 in
  let w13 := (nth 13 tmp 0 .^ nth 13 inp 0)%u32 in
  let w14 := (nth 14 tmp 0 .^ nth 14 inp 0)%u32 in
  let w15 := (nth 15 tmp 0 .^ nth 15 inp 0)%u32 in
  let '(Words x0 x1 x2 x3 x4 x5 x6 x7 x8 x9 x10 x11 x12 x13 x14 x15) :=
    Nat.iter (8 / 2) doubleRound
      (Words w0 w1 w2 w3 w4 w5 w6 w7 w8 w9 w10 w11 w12 w13 w14 w15) in
  [(x0 + w0)%u32; (x1 + w1)%u32; (x2 + w2)%u32; (x3 + w3)%u32;
   (x4 + w4)%u32; (x5 + w5)%u32; (x6 + w6)%u32; (x7 + w7)%u32;
   (x8 + w8)%u32; (x9 + w9)%u32; (x10 + w10)%u32; (x11 + w11)%u32;
   (x12 + w12)%u32; (x13 + w13)%u32; (x14 + w14)%u32; (x15 + w15)%u32].

(** [0, 2, ..., n - 2], for an even [n]. *)
Definition evenIndices (n : nat) : list nat := map (fun i => 2 * i)%nat (seq 0 (n / 2)).

(** The body of the loop of [blockMix], on [tmp] and [out]. *)
Definition mixStep (inp : list Z) (r : nat) (s : list Z * list Z) (i : nat) : list Z * list Z :=
  let (tmp, out) := s in
  let tmp := salsaXOR tmp (skipn (i * 16) inp) in
  let out := writeAt (i * 8) tmp out in
  let tmp := salsaXOR tmp (skipn (i * 16 + 16) inp) in
  let out := writeAt (i * 8 + r * 16) tmp out in
  (tmp, out).

(** The new [out]; what [tmp] held before is overwritten first. *)
Definition blockMix (inp out : list Z) (r : nat) : list Z :=
  let tmp := blockCopy (repeat 0 16) 0 (skipn ((2 * r - 1) * 16) inp) 16 in
  snd (fold_left (mixStep inp r) (evenIndices (2 * r)) (tmp, out)).

Definition integer (b : list Z) (r : nat) : Z :=
  let j := ((2 * r - 1) * 16)%nat in
  (nth j b 0 .| nth (j + 1) b 0 << 32)%u64.

(** The arrays that [smix] works on, [xy] as its two halves. *)
Record buffers := Buffers { bv : list Z; bx : list Z; by_ : list Z }.

(** The bodies of its two loops. *)
Definition fillStep (r : nat) (s : buffers) (i : nat) : buffers :=
  let (v, x, y) := s in
  let v := blockCopy v (i * (32 * r)) x (32 * r) in
  let y := blockMix x y r in
  let v := blockCopy v ((i + 1) * (32 * r)) y (32 * r) in
  let x := blockMix y x r in
  Buffers v x y.

Definition readStep (r : nat) (N : Z) (s : buffers) (i : nat) : buffers :=
  let (v, x, y) := s in
  let j := Z.to_nat (Z.land (integer x r) (uint64 (N - 1))) in
  let x := blockXOR x (skipn (j * (32 * r)) v) (32 * r) in
  let y := blockMix x y r in
  let j := Z.to_nat (Z.land (integer y r) (uint64 (N - 1))) in
  let y := blockXOR y (skipn (j * (32 * r)) v) (32 * r) in
  let x := blockMix y x r in
  Buffers v x y.

(** The slice [b] and the buffers afterwards. *)
Definition smix (b : list Z) (r : nat) (N : Z) (s : buffers) : list Z * buffers :=
  let (v, _, y) := s in
  let x := map (fun i => load32 b (4 * i)) (seq 0 (32 * r)) in
  let s := fold_left (fillStep r) (evenIndices (Z.to_nat N)) (Buffers v x y) in
  let s := fold_left (readStep r N) (evenIndices (Z.to_nat N)) s in
  (writeAt 0 (flat_map store32 (firstn (32 * r) (bx s))) b, s).

Definition maxInt : Z := 2 ^ 63 - 1.

Inductive keyError := BadCost | TooLarge.

(** The second guard, in the order in which it is evaluated: a division by zero panics. *)
Definition tooLarge (N r p : Z) : outcome bool :=
  if 2 ^ 30 <=? uint64 (uint64 r * uint64 p) then Return true
  else if p =? 0 then Panic
  else if Z.quot (Z.quot maxInt 128) p <? r then Return true
  else if Z.quot maxInt 256 <? r then Return true
  else if r =? 0 then Panic
  else Return (Z.quot (Z.quot maxInt 128) r <? N).

(** One iteration of the loop over [p], on [b] and the buffers. *)
Definition mixPart (r : nat) (N : Z) (s : list Z * buffers) (i : nat) : list Z * buffers :=
  let (b, buf) := s in
  let (part, buf) := smix (skipn (i * 128 * r) b) r N buf in
  (firstn (i * 128 * r) b ++ part, buf).

Definition Key (password salt : list Z) (N r p keyLen : Z) : outcome (keyError + list Z) :=
  if (N <=? 1) || negb (Z.land N (int64 (N - 1)) =? 0) then Return (inl BadCost)
  else
    large <- tooLarge N r p;;
    if large then Return (inl TooLarge)
    else
      let xy := repeat 0 (Z.to_nat (64 * r)%i64) in
      let v := repeat 0 (Z.to_nat (32 * N * r)%i64) in
      b <- Kdf.Key password salt 1 (p * 128 * r)%i64;;
      let n := Z.to_nat r in
      let buf := Buffers v (firstn (32 * n) xy) (skipn (32 * n) xy) in
      let (b, _) := fold_left (mixPart n N) (seq 0 (Z.to_nat p)) (b, buf) in
      dk <- Kdf.Key password b 1 keyLen;;
      Return (inr dk).

(** ** RFC 7914 *)

(** The first eight rounds of Salsa20 on the sum of two blocks of sixteen words. *)
Definition salsaBlock (X B : list Z) : list Z := feedforward 4 (xorBytes X B).

(** Block [i] of sixteen words. *)
Definition part (B : list Z) (i : nat) : list Z := firstn 16 (skipn (16 * i) B).

(** Y[0], Y[1], ... of scryptBlockMix. *)
Fixpoint mixed (B X : list Z) (i : nat) : list Z :=
  match i with
  | O => salsaBlock X (part B 0)
  | S i => salsaBlock (mixed B X i) (part B (S i))
  end.

Definition BlockMix (r : nat) (B : list Z) : list Z :=
  let Y := mixed B (part B (2 * r - 1)) in
  flat_map (fun i => Y (2 * i)%nat) (seq 0 r) ++ flat_map (fun i => Y (2 * i + 1)%nat) (seq 0 r).

(** The last block as a little-endian number. *)
Definition Integerify (r : nat) (X : list Z) : Z := le_val (bytes_of (part X (2 * r - 1))).

Definition romStep (r : nat) (N : Z) (B X : list Z) : list Z :=
  let j := Z.to_nat (Integerify r X mod N) in
  BlockMix r (xorBytes X (Nat.iter j (BlockMix r) B)).

Definition ROMix (r : nat) (N : Z) (B : list Z) : list Z :=
  let n := Z.to_nat N in
  Nat.iter n (romStep r N B) (Nat.iter n (BlockMix r) B).

(** On a string of [128 r] bytes. *)
Definition romBytes (r : nat) (N : Z) (b : list Z) : list Z :=
  bytes_of (ROMix r N (map (Salsa20.word b) (seq 0 (32 * r)))).

Definition scrypt (password salt : list Z) (N : Z) (r p dkLen : nat) : list Z :=
  let B := PBKDF2 password salt 1 (p * 128 * r) in
  let B := flat_map (fun i => romBytes r N (firstn (128 * r) (skipn (i * 128 * r) B))) (seq 0 p) in
  PBKDF2 password B 1 dkLen.

(** ** Arrays of blocks

    A flat array of [m] blocks of [n] words as the concatenation of a list of blocks: a write of
    a whole block replaces an element of the list. *)

Definition blocks_ok (n m : nat) (L : list (list Z)) : Prop :=
  length L = m /\ Forall (fun c => length c = n) L.

Lemma blocks_length n m L : blocks_ok n m L -> length (concat L) = (m * n)%nat.
Proof.
  intros [<- A]. induction A as [| c L Hc A IH]; [reflexivity |].
  cbn [concat length]. rewrite length_app, Hc, IH. lia.
Qed.

Lemma blocks_skipn n m L k : blocks_ok n m L -> skipn (k * n) (concat L) = concat (skipn k L).
Proof.
  intros [_ A]. revert k. induction A as [| c L Hc A IH]; intros [| k]; try reflexivity.
  - now rewrite skipn_nil.
  - cbn [concat skipn]. rewrite Nat.mul_succ_l, <- skipn_skipn.
    replace (skipn n (c ++ concat L)) with (concat L); [apply IH |].
    symmetry. now apply skipn_app_exact.
Qed.

Lemma blocks_firstn n m L k : blocks_ok n m L -> firstn (k * n) (concat L) = concat (firstn k L).
Proof.
  intros [_ A]. revert k. induction A as [| c L Hc A IH]; intros [| k]; try reflexivity.
  - now rewrite firstn_nil.
  - cbn [concat firstn]. rewrite firstn_app, Hc. replace (S k * n - n)%nat with (k * n)%nat by lia.
    rewrite firstn_all2 by lia. now rewrite IH.
Qed.

Lemma blocks_nth n m L k : blocks_ok n m L -> (k < m)%nat ->
  firstn n (skipn (k * n) (concat L)) = nth k L [].
Proof.
  intros B Hk. rewrite (blocks_skipn n m L k B). destruct B as [<- A].
  destruct (skipn k L) as [| c R] eqn:E.
  { apply (f_equal (@length _)) in E. rewrite length_skipn in E. cbn in E. lia. }
  assert (nth k L [] = c) as -> by (rewrite <- (firstn_skipn k L), E, app_nth2;
    rewrite length_firstn, Nat.min_l by lia; [now rewrite Nat.sub_diag | lia]).
  cbn [concat]. apply firstn_app_exact. rewrite Forall_forall in A. apply A.
  rewrite <- (firstn_skipn k L), E. apply in_or_app. now right; left.
Qed.

Lemma blocks_set n m L k c : blocks_ok n m L -> length c = n -> blocks_ok n m (set_nth k c L).
Proof.
  intros [Lm A] Hc. split; [now rewrite length_set_nth |]. clear Lm. revert k.
  induction A as [| d L Hd A IH]; intros [| k]; cbn [set_nth]; auto.
Qed.

Lemma set_nth_split {A : Type} k (c : A) L : (k < length L)%nat ->
  set_nth k c L = firstn k L ++ c :: skipn (S k) L.
Proof.
  revert k. induction L as [| d L IH]; intros [| k] Hk; cbn in *; try lia; [reflexivity |].
  now rewrite IH by lia.
Qed.

Lemma writeAt_block n m L k c : blocks_ok n m L -> (k < m)%nat -> length c = n ->
  writeAt (k * n) c (concat L) = concat (set_nth k c L).
Proof.
  intros B Hk Hc. unfold writeAt. rewrite Hc, (blocks_firstn n m L k B).
  replace (k * n + n)%nat with (S k * n)%nat by lia. rewrite (blocks_skipn n m L (S k) B).
  rewrite set_nth_split by (destruct B as [-> _]; exact Hk).
  now rewrite concat_app.
Qed.

Lemma chunks_blocks m n : forall l, length l = (m * n)%nat ->
  blocks_ok n m (chunks m n l) /\ concat (chunks m n l) = l.
Proof.
  induction m as [| m IH]; intros l L; cbn [chunks].
  - apply length_zero_iff_nil in L. subst l. split; [split; [reflexivity | constructor] | reflexivity].
  - destruct (IH (skipn n l)) as [[Lm A] E]; [rewrite length_skipn; lia |].
    split; [split; [cbn; now rewrite Lm | constructor; [rewrite length_firstn; lia | exact A]] |].
    cbn [concat]. rewrite E. apply firstn_skipn.
Qed.

(** ** scryptBlockMix *)

Lemma xorBytes_nth n : forall X Y, length X = n -> length Y = n ->
  xorBytes X Y = map (fun i => Z.lxor (nth i X 0) (nth i Y 0)) (seq 0 n).
Proof.
  unfold xorBytes. induction n as [| n IH]; intros [| a X] [| b Y] LX LY; try discriminate; [reflexivity |].
  cbn [combine map seq nth fst snd]. f_equal. injection LX as LX. injection LY as LY. rewrite (IH X Y LX LY).
  rewrite <- seq_shift, map_map. reflexivity.
Qed.

Lemma salsaXOR_spec tmp inp : length tmp = 16%nat -> (16 <= length inp)%nat ->
  salsaXOR tmp inp = salsaBlock tmp (firstn 16 inp).
Proof.
  intros Lt Li. unfold salsaBlock, feedforward.
  rewrite (xorBytes_nth 16) by (exact Lt || (rewrite length_firstn; lia)).
  replace (map (fun i => Z.lxor (nth i tmp 0) (nth i (firstn 16 inp) 0)) (seq 0 16))
    with (map (fun i => Z.lxor (nth i tmp 0) (nth i inp 0)) (seq 0 16))
    by (apply map_ext_in; intros i Hi%in_seq; rewrite nth_firstn;
        now rewrite (proj2 (Nat.ltb_lt i 16)) by lia).
  unfold salsaXOR. cbv zeta. change (8 / 2)%nat with 4%nat. cbn [seq map].
  edestruct (iter_words 4) as (y0 & y1 & y2 & y3 & y4 & y5 & y6 & y7 & y8 & y9 & y10 & y11 &
    y12 & y13 & y14 & y15 & E & E'); [| rewrite E, E'].
  - reflexivity.
  - cbn [combine map fst snd]. now rewrite !uint32_mod.
Qed.

Lemma salsaXOR_length tmp inp : length (salsaXOR tmp inp) = 16%nat.
Proof. unfold salsaXOR. cbv zeta. now destruct (Nat.iter _ _ _). Qed.

Lemma salsaXOR_words tmp inp : Forall word_ok (salsaXOR tmp inp).
Proof.
  unfold salsaXOR. cbv zeta. destruct (Nat.iter _ _ _).
  repeat (constructor; [apply BlockCipher.uint32_ok |]). constructor.
Qed.

Lemma even_indices_double m : evenIndices (2 * m) = map (fun i => 2 * i)%nat (seq 0 m).
Proof. unfold evenIndices. now rewrite Nat.mul_comm, Nat.div_mul by lia. Qed.

Section block_mix.
Variable r : nat.
Variable B : list Z.
Hypothesis r_positive : (0 < r)%nat.
Hypothesis B_length : length B = (32 * r)%nat.

Let X := part B (2 * r - 1).
Let Y := mixed B X.

Lemma part_length i : (i < 2 * r)%nat -> length (part B i) = 16%nat.
Proof. intros Hi. unfold part. rewrite length_firstn, length_skipn. lia. Qed.

Lemma salsaXOR_part tmp i : length tmp = 16%nat -> (i < 2 * r)%nat ->
  salsaXOR tmp (skipn (16 * i) B) = salsaBlock tmp (part B i).
Proof. intros L Hi. apply salsaXOR_spec; [exact L | rewrite length_skipn; lia]. Qed.

Lemma mixed_length i : (i < 2 * r)%nat -> length (Y i) = 16%nat /\ Forall word_ok (Y i).
Proof.
  unfold Y. induction i as [| i IH]; intros Hi; cbn [mixed].
  - rewrite <- salsaXOR_part by (exact Hi || (apply part_length; lia)).
    split; [apply salsaXOR_length | apply salsaXOR_words].
  - rewrite <- salsaXOR_part by (exact Hi || (apply IH; lia)).
    split; [apply salsaXOR_length | apply salsaXOR_words].
Qed.

Lemma mixed_0 : salsaBlock X (part B 0) = Y 0.
Proof. unfold Y. cbn [mixed]. reflexivity. Qed.

Lemma mixed_S i : salsaBlock (Y i) (part B (S i)) = Y (S i).
Proof. unfold Y. cbn [mixed]. reflexivity. Qed.

(** What [tmp] holds before pair [m]. *)
Definition before (m : nat) : list Z := match m with O => X | S m => Y (2 * m + 1) end.

Definition setPairs (L : list (list Z)) (m : nat) : list (list Z) :=
  set_nth (m + r) (Y (2 * m + 1)) (set_nth m (Y (2 * m)) L).

Lemma before_length m : (m <= r)%nat -> length (before m) = 16%nat.
Proof. intros Hm. destruct m; [apply part_length; lia | apply mixed_length; lia]. Qed.

Lemma mixStep_pair L m : (m < r)%nat -> blocks_ok 16 (2 * r) L ->
  mixStep B r (before m, concat L) (2 * m) = (before (S m), concat (setPairs L m)).
Proof.
  intros Hm HL. unfold mixStep.
  assert (salsaXOR (before m) (skipn (2 * m * 16) B) = Y (2 * m)) as ->.
  { rewrite (Nat.mul_comm (2 * m)), salsaXOR_part by (lia || (apply before_length; lia)).
    destruct m as [| m]; [change (2 * 0)%nat with 0%nat; apply mixed_0 |]. cbn [before].
    replace (2 * S m)%nat with (S (2 * m + 1)) by lia. apply mixed_S. }
  assert (salsaXOR (Y (2 * m)) (skipn (2 * m * 16 + 16) B) = Y (2 * m + 1)) as ->.
  { replace (2 * m * 16 + 16)%nat with (16 * (2 * m + 1))%nat by lia.
    rewrite salsaXOR_part by (lia || (apply mixed_length; lia)).
    rewrite Nat.add_1_r. apply mixed_S. }
  replace (2 * m * 8)%nat with (m * 16)%nat by lia.
  rewrite (writeAt_block 16 (2 * r) L m) by (lia || exact HL || (apply mixed_length; lia)).
  replace (m * 16 + r * 16)%nat with ((m + r) * 16)%nat by lia.
  rewrite (writeAt_block 16 (2 * r)); [reflexivity | | lia | apply mixed_length; lia].
  apply blocks_set; [exact HL | apply mixed_length; lia].
Qed.

Lemma setPairs_ok L m : (m < r)%nat -> blocks_ok 16 (2 * r) L -> blocks_ok 16 (2 * r) (setPairs L m).
Proof.
  intros Hm HL. unfold setPairs.
  apply blocks_set; [apply blocks_set; [exact HL |] |]; apply mixed_length; lia.
Qed.

Lemma mixLoop m : forall k L, (k + m <= r)%nat -> blocks_ok 16 (2 * r) L ->
  fold_left (mixStep B r) (map (fun i => 2 * i)%nat (seq k m)) (before k, concat L) =
    (before (k + m), concat (fold_left setPairs (seq k m) L)) /\
  blocks_ok 16 (2 * r) (fold_left setPairs (seq k m) L).
Proof.
  induction m as [| m IH]; intros k L Hk HL; cbn [seq map fold_left].
  - now rewrite Nat.add_0_r.
  - rewrite mixStep_pair by (exact HL || lia). rewrite <- Nat.add_succ_comm.
    apply IH; [lia | apply setPairs_ok; [lia | exact HL]].
Qed.

Lemma setPairs_nth m : forall L, (m <= r)%nat -> length L = (2 * r)%nat -> forall k, (k < 2 * r)%nat ->
  nth k (fold_left setPairs (seq 0 m) L) [] =
  if (k <? m)%nat then Y (2 * k) else if (r <=? k)%nat && (k <? r + m)%nat then Y (2 * (k - r) + 1)
  else nth k L [].
Proof.
  induction m as [| m IH]; intros L Hm HL k Hk.
  - cbn [seq fold_left]. rewrite Nat.add_0_r.
    destruct (Nat.leb_spec r k), (Nat.ltb_spec k r); cbn [andb Nat.ltb Nat.leb]; try lia; reflexivity.
  - rewrite seq_S, fold_left_app. cbn [fold_left Nat.add]. unfold setPairs at 1.
    assert (length (fold_left setPairs (seq 0 m) L) = 2 * r)%nat as LL.
    { rewrite <- HL. generalize (seq 0 m). intros l. clear. revert L.
      induction l as [| i l IH]; intros L; [reflexivity |]. cbn [fold_left]. rewrite IH.
      unfold setPairs. now rewrite !length_set_nth. }
    rewrite nth_set_nth, nth_set_nth, IH by (rewrite ?length_set_nth; lia).
    destruct (Nat.eqb_spec k (m + r)) as [-> | D1].
    + rewrite (proj2 (Nat.ltb_ge (m + r) (S m))), (proj2 (Nat.leb_le r (m + r))),
        (proj2 (Nat.ltb_lt (m + r) (r + S m))) by lia. cbn [andb]. do 3 f_equal. lia.
    + destruct (Nat.eqb_spec k m) as [-> | D2].
      * now rewrite (proj2 (Nat.ltb_lt m (S m))) by lia.
      * destruct (Nat.ltb_spec k m), (Nat.ltb_spec k (S m)), (Nat.leb_spec r k),
          (Nat.ltb_spec k (r + m)), (Nat.ltb_spec k (r + S m)); cbn [andb]; try lia; reflexivity.
Qed.

(** What [out] held does not matter. *)
Lemma blockMix_spec out : length out = (32 * r)%nat -> blockMix B out r = BlockMix r B.
Proof.
  intros Lo. destruct (chunks_blocks (2 * r) 16 out) as [HL E]; [lia |].
  set (L := chunks (2 * r) 16 out) in *. unfold blockMix.
  assert (blockCopy (repeat 0 16) 0 (skipn ((2 * r - 1) * 16) B) 16 = before 0) as ->.
  { unfold blockCopy, writeAt. rewrite Nat.mul_comm. fold (part B (2 * r - 1)).
    rewrite part_length, skipn_all2 by (rewrite ?repeat_length; lia). apply app_nil_r. }
  rewrite even_indices_double, <- E. destruct (mixLoop r 0 L (le_n _) HL) as [-> HR]. cbn [snd].
  set (R := fold_left setPairs (seq 0 r) L) in *.
  assert (R = map (fun i => Y (2 * i)) (seq 0 r) ++ map (fun i => Y (2 * i + 1)) (seq 0 r)) as ->.
  { apply (nth_ext _ _ [] []); [rewrite (proj1 HR), length_app, !length_map, length_seq; lia |].
    rewrite (proj1 HR). intros k Hk. unfold R. rewrite setPairs_nth by (apply HL || lia).
    destruct (Nat.ltb_spec k r) as [Lt | Ge].
    - rewrite app_nth1 by (rewrite length_map, length_seq; lia).
      rewrite (nth_indep _ [] (Y (2 * 0))) by (rewrite length_map, length_seq; lia).
      now rewrite (map_nth (fun i => Y (2 * i))), seq_nth by lia.
    - rewrite (proj2 (Nat.leb_le r k)), (proj2 (Nat.ltb_lt k (r + r))) by lia. cbn [andb].
      rewrite app_nth2, length_map, length_seq by (rewrite length_map, length_seq; lia).
      rewrite (nth_indep _ [] (Y (2 * 0 + 1))) by (rewrite length_map, length_seq; lia).
      now rewrite (map_nth (fun i => Y (2 * i + 1))), seq_nth by lia. }
  unfold BlockMix. fold X. fold Y. now rewrite concat_app, !flat_map_concat_map.
Qed.

Lemma flat_blocks f n : (forall i, (i < n)%nat -> length (f i) = 16%nat /\ Forall word_ok (f i)) ->
  length (flat_map f (seq 0 n)) = (16 * n)%nat /\ Forall word_ok (flat_map f (seq 0 n)).
Proof.
  induction n as [| n IH]; intros Hf; [split; [reflexivity | constructor] |].
  rewrite seq_S, flat_map_app. cbn [flat_map Nat.add]. rewrite app_nil_r.
  destruct IH as [L A]; [intros; apply Hf; lia |]. destruct (Hf n ltac:(lia)) as [L1 A1].
  split; [rewrite length_app, L, L1; lia | now apply Forall_app].
Qed.

Lemma BlockMix_ok : length (BlockMix r B) = (32 * r)%nat /\ Forall word_ok (BlockMix r B).
Proof.
  unfold BlockMix. fold X. fold Y.
  destruct (flat_blocks (fun i => Y (2 * i)) r) as [L1 A1]; [intros; apply mixed_length; lia |].
  destruct (flat_blocks (fun i => Y (2 * i + 1)) r) as [L2 A2]; [intros; apply mixed_length; lia |].
  split; [rewrite length_app, L1, L2; lia | now apply Forall_app].
Qed.
End block_mix.

(** ** scryptROMix *)

Section rom_mix.
Variable r : nat.
Variable k : nat.
Hypothesis r_positive : (0 < r)%nat.
Hypothesis k_bound : (0 < k <= 63)%nat.

Let N : Z := 2 ^ Z.of_nat k.
Let n : nat := Z.to_nat N.

Lemma N_half : exists h, n = (2 * h)%nat /\ (0 < h)%nat.
Proof.
  exists (Z.to_nat (2 ^ (Z.of_nat k - 1))). unfold n, N.
  replace (Z.of_nat k) with (Z.succ (Z.of_nat k - 1)) at 1 by lia. rewrite Z.pow_succ_r by lia.
  assert (0 < 2 ^ (Z.of_nat k - 1)) by (apply Z.pow_pos_nonneg; lia). lia.
Qed.

Lemma N_bounds : 0 < N /\ uint64 (N - 1) = Z.ones (Z.of_nat k).
Proof.
  unfold N. assert (0 < 2 ^ Z.of_nat k) by (apply Z.pow_pos_nonneg; lia).
  assert (2 ^ Z.of_nat k <= 2 ^ 63) by (apply Z.pow_le_mono_r; lia).
  split; [lia |]. rewrite uint64_mod, Z.mod_small, Z.ones_equiv by lia. lia.
Qed.

Definition words_ok (X : list Z) : Prop := length X = (32 * r)%nat /\ Forall word_ok X.

(** The low 64 bits of the last block decide. *)
Lemma le_val_two w0 w1 ws : word_ok w0 -> word_ok w1 ->
  le_val (bytes_of (w0 :: w1 :: ws)) mod 2 ^ Z.of_nat k = (w0 + 2 ^ 32 * w1) mod 2 ^ Z.of_nat k.
Proof.
  intros H0 H1. unfold bytes_of. cbn [flat_map]. fold (bytes_of ws).
  rewrite !le_val_app, !le_val_store, !length_le_bytes by assumption.
  change (256 ^ Z.of_nat 4) with (2 ^ 32).
  replace (w0 + 2 ^ 32 * (w1 + 2 ^ 32 * le_val (bytes_of ws)))
    with (w0 + 2 ^ 32 * w1 + 2 ^ (64 - Z.of_nat k) * le_val (bytes_of ws) * 2 ^ Z.of_nat k).
  - apply Z_mod_plus_full.
  - assert (2 ^ (64 - Z.of_nat k) * 2 ^ Z.of_nat k = 2 ^ 64) as E
      by (rewrite <- Z.pow_add_r by lia; f_equal; lia).
    rewrite <- Z.mul_assoc, (Z.mul_comm (le_val _)), Z.mul_assoc, E. change (2 ^ 64) with (2 ^ 32 * 2 ^ 32). ring.
Qed.

Lemma integer_spec X : words_ok X ->
  Z.land (integer X r) (uint64 (N - 1)) = Integerify r X mod N.
Proof.
  intros [L W]. rewrite (proj2 N_bounds), Z.land_ones by lia. unfold Integerify, part, N, integer.
  rewrite (Nat.mul_comm _ 16). set (j := (16 * (2 * r - 1))%nat).
  destruct (skipn j X) as [| w0 [| w1 ws]] eqn:E;
    [apply (f_equal (@length _)) in E; rewrite length_skipn in E; cbn in E; lia .. |].
  assert (nth j X 0 = w0 /\ nth (j + 1) X 0 = w1) as [-> ->].
  { rewrite <- (firstn_skipn j X), E. assert (length (firstn j X) = j) as Lj by (rewrite length_firstn; lia).
    rewrite !app_nth2, Lj, Nat.sub_diag by lia. replace (j + 1 - j)%nat with 1%nat by lia. auto. }
  assert (word_ok w0 /\ word_ok w1) as [W0 W1].
  { rewrite <- (firstn_skipn j X), E in W. apply Forall_app in W as [_ W].
    apply Forall_cons_iff in W as [H0 W]. apply Forall_cons_iff in W as [H1 _]. auto. }
  change (firstn 16 (w0 :: w1 :: ws)) with (w0 :: w1 :: firstn 14 ws).
  rewrite le_val_two by assumption. f_equal. unfold word_ok in *.
  rewrite uint64_mod, Z.mod_small by (rewrite Z.shiftl_mul_pow2; lia).
  rewrite lor_shiftl_add by lia. lia.
Qed.

Variable B : list Z.
Hypothesis B_ok : words_ok B.

Let P (j : nat) : list Z := Nat.iter j (BlockMix r) B.
Let R (j : nat) : list Z := Nat.iter j (romStep r N B) (P n).

Lemma power_ok j : words_ok (P j).
Proof.
  induction j as [| j IH]; [exact B_ok |]. unfold P. rewrite Nat.iter_succ.
  apply BlockMix_ok; [exact r_positive | apply IH].
Qed.

Lemma mix_next X y : length X = (32 * r)%nat -> length y = (32 * r)%nat ->
  blockMix X y r = BlockMix r X.
Proof. intros LX Ly. now apply blockMix_spec. Qed.

Definition filled (m : nat) (s : buffers) : Prop :=
  exists VL, bv s = concat VL /\ blocks_ok (32 * r) n VL /\
    (forall j, (j < m)%nat -> nth j VL [] = P j) /\ length (by_ s) = (32 * r)%nat.

Lemma fillStep_spec m s : (2 * m + 1 < n)%nat -> filled (2 * m) s -> bx s = P (2 * m) ->
  let s' := fillStep r s (2 * m) in filled (2 * S m) s' /\ bx s' = P (2 * S m).
Proof.
  intros Hm (VL & Ev & BL & HV & Ly) Ex. destruct s as [v x y]. cbn [bv bx by_] in *. subst v x.
  cbv zeta. unfold fillStep, blockCopy.
  destruct (power_ok (2 * m)) as [L0 _]. destruct (power_ok (2 * m + 1)) as [L1 _].
  rewrite (firstn_all2 (P _)) by lia. rewrite mix_next by assumption.
  change (BlockMix r (P (2 * m))) with (P (S (2 * m))). replace (S (2 * m)) with (2 * m + 1)%nat by lia.
  rewrite firstn_all2, mix_next by lia.
  change (BlockMix r (P (2 * m + 1))) with (P (S (2 * m + 1))). replace (S (2 * m + 1)) with (2 * S m)%nat by lia.
  rewrite (writeAt_block _ n VL) by (exact BL || lia).
  assert (blocks_ok (32 * r) n (set_nth (2 * m) (P (2 * m)) VL)) as B1 by now apply blocks_set.
  rewrite (writeAt_block _ n) by (exact B1 || lia).
  split; [| reflexivity]. eexists. split; [reflexivity |]. cbn [by_].
  split; [now apply blocks_set |]. split; [| exact L1]. intros j Hj.
  destruct BL as [Ln _]. rewrite nth_set_nth, nth_set_nth by (rewrite ?length_set_nth; lia).
  destruct (Nat.eqb_spec j (2 * m + 1)) as [-> | D1]; [reflexivity |].
  destruct (Nat.eqb_spec j (2 * m)) as [-> | D2]; [reflexivity |]. apply HV. lia.
Qed.

Lemma fillLoop m s : (2 * m <= n)%nat -> filled 0 s -> bx s = P 0 ->
  let s' := fold_left (fillStep r) (map (fun i => 2 * i)%nat (seq 0 m)) s in
  filled (2 * m) s' /\ bx s' = P (2 * m).
Proof.
  intros Hm F0 E0. cbv zeta. induction m as [| m IH]; [auto |].
  rewrite seq_S, map_app, fold_left_app. cbn [map fold_left Nat.add].
  destruct IH as [F E]; [lia |]. apply fillStep_spec; [lia | exact F | exact E].
Qed.

(** One of the two steps in the body of the second loop. *)
Lemma read_half VL X : blocks_ok (32 * r) n VL -> (forall j, (j < n)%nat -> nth j VL [] = P j) ->
  words_ok X ->
  let j := Z.to_nat (Z.land (integer X r) (uint64 (N - 1))) in
  BlockMix r (blockXOR X (skipn (j * (32 * r)) (concat VL)) (32 * r)) = romStep r N B X /\
  length (blockXOR X (skipn (j * (32 * r)) (concat VL)) (32 * r)) = (32 * r)%nat.
Proof.
  intros BL HV HX. cbv zeta. rewrite integer_spec by exact HX. unfold romStep.
  set (j := Z.to_nat (Integerify r X mod N)).
  assert (j < n)%nat as Hj.
  { pose proof (proj1 N_bounds) as Np. pose proof (Z.mod_pos_bound (Integerify r X) N Np). unfold j, n. lia. }
  unfold blockXOR. rewrite (blocks_nth _ n VL j BL Hj), (HV j Hj).
  destruct HX as [LX _]. destruct (power_ok j) as [Lj _].
  rewrite firstn_all2, skipn_all2, app_nil_r by lia.
  split; [reflexivity | rewrite xorBytes_length; lia].
Qed.

Lemma R_ok j : words_ok (R j).
Proof.
  induction j as [| j IH]; [apply power_ok |]. unfold R. rewrite Nat.iter_succ. fold (R j).
  unfold romStep. apply BlockMix_ok; [exact r_positive |].
  rewrite xorBytes_length; [apply IH |]. rewrite (proj1 IH). symmetry. apply power_ok.
Qed.

Lemma readStep_spec m s i : filled n s -> bx s = R (2 * m) ->
  let s' := readStep r N s i in filled n s' /\ bx s' = R (2 * S m).
Proof.
  intros (VL & Ev & BL & HV & Ly) Ex. destruct s as [v x y]. cbn [bv bx by_] in *. subst v x.
  cbv zeta. unfold readStep.
  destruct (read_half VL (R (2 * m)) BL HV (R_ok _)) as [E1 L1].
  rewrite (mix_next _ y L1 Ly), E1. change (romStep r N B (R (2 * m))) with (R (S (2 * m))).
  destruct (read_half VL (R (S (2 * m))) BL HV (R_ok _)) as [E2 L2].
  rewrite (mix_next _ _ L2 L1), E2.
  change (romStep r N B (R (S (2 * m)))) with (R (S (S (2 * m)))).
  split; [exists VL; cbn [bv by_]; auto |]. cbn [bx]. f_equal. lia.
Qed.

Lemma readLoop m s : filled n s -> bx s = R 0 ->
  let s' := fold_left (readStep r N) (map (fun i => 2 * i)%nat (seq 0 m)) s in
  filled n s' /\ bx s' = R (2 * m).
Proof.
  intros F0 E0. cbv zeta. induction m as [| m IH]; [auto |].
  rewrite seq_S, map_app, fold_left_app. cbn [map fold_left Nat.add].
  destruct IH as [F E]. now apply readStep_spec.
Qed.

(** The two loops, which step through the even numbers, from buffers of the right size. *)
Lemma romLoops v y : length v = (n * (32 * r))%nat -> length y = (32 * r)%nat ->
  let s := fold_left (fillStep r) (evenIndices n) (Buffers v B y) in
  let s := fold_left (readStep r N) (evenIndices n) s in
  filled n s /\ bx s = ROMix r N B.
Proof.
  intros Lv Ly. destruct N_half as (h & Eh & Hh). cbv zeta.
  assert (evenIndices n = map (fun i => 2 * i)%nat (seq 0 h)) as -> by (rewrite Eh; apply even_indices_double).
  destruct (chunks_blocks n (32 * r) v Lv) as [BL EL].
  destruct (fillLoop h (Buffers v B y)) as [F E]; [lia | | reflexivity |].
  { exists (chunks n (32 * r) v). split; [now rewrite EL |]. split; [exact BL |]. split; [lia | exact Ly]. }
  rewrite <- Eh in F, E. destruct (readLoop h _ F E) as [F' E'].
  split; [exact F' |]. rewrite E', <- Eh. reflexivity.
Qed.
End rom_mix.

(** ** The bytes, and the loop over the parts *)

Section parts.
Variable r : nat.
Variable k : nat.
Hypothesis r_positive : (0 < r)%nat.
Hypothesis k_bound : (0 < k <= 63)%nat.

Let N : Z := 2 ^ Z.of_nat k.
Let n : nat := Z.to_nat N.

Definition buffers_ok (s : buffers) : Prop :=
  length (bv s) = (n * (32 * r))%nat /\ length (by_ s) = (32 * r)%nat.

Lemma loaded_words b : bytes_ok b -> (128 * r <= length b)%nat ->
  map (fun i => load32 b (4 * i)) (seq 0 (32 * r)) =
    map (Salsa20.word (firstn (128 * r) b)) (seq 0 (32 * r)) /\
  words_ok r (map (Salsa20.word (firstn (128 * r) b)) (seq 0 (32 * r))).
Proof.
  intros Ok L. split.
  - apply map_ext_in. intros i Hi%in_seq. rewrite load32_spec by (exact Ok || lia).
    unfold Salsa20.word. rewrite skipn_firstn_comm, firstn_firstn. f_equal. f_equal. lia.
  - split; [now rewrite length_map, length_seq |]. apply Forall_map, Forall_forall. intros i _.
    unfold Salsa20.word. set (w := firstn 4 _).
    assert (bytes_ok w) as Ow by (unfold w; auto with bytes). apply le_val_bounds in Ow.
    assert (256 ^ Z.of_nat (length w) <= 256 ^ 4)
      by (apply Z.pow_le_mono_r; [lia | unfold w; rewrite length_firstn; lia]).
    unfold word_ok. change (2 ^ 32) with (256 ^ 4). lia.
Qed.

Lemma stored_words ws : flat_map store32 ws = bytes_of ws.
Proof. unfold bytes_of. apply flat_map_ext. exact store32_spec. Qed.

Lemma ROMix_words B : words_ok r B -> words_ok r (ROMix r N B).
Proof. intros HB. exact (R_ok r k r_positive B HB n). Qed.

Lemma romBytes_length b : bytes_ok b -> (128 * r <= length b)%nat ->
  length (romBytes r N (firstn (128 * r) b)) = (128 * r)%nat.
Proof.
  intros Ok L. unfold romBytes. rewrite (proj2 (bytes_of_ok _)).
  rewrite (proj1 (ROMix_words _ (proj2 (loaded_words b Ok L)))). lia.
Qed.

Lemma smix_spec b s : bytes_ok b -> (128 * r <= length b)%nat -> buffers_ok s ->
  exists s', smix b r N s = (romBytes r N (firstn (128 * r) b) ++ skipn (128 * r) b, s') /\ buffers_ok s'.
Proof.
  intros Ok L [Lv Ly]. destruct s as [v x y]. cbn [bv by_] in *. unfold smix.
  destruct (loaded_words b Ok L) as [-> WB]. set (B := map (Salsa20.word _) _) in *.
  destruct (romLoops r k r_positive k_bound B WB v y Lv Ly) as [F E]. fold N in F, E. fold n in F, E.
  fold n. set (s := fold_left (readStep r N) _ _) in *. cbv zeta. rewrite E.
  rewrite firstn_all2 by (rewrite (proj1 (ROMix_words B WB)); lia).
  rewrite stored_words. fold (romBytes r N (firstn (128 * r) b)). unfold writeAt. cbn [firstn app Nat.add].
  change (bytes_of (ROMix r N B)) with (romBytes r N (firstn (128 * r) b)).
  rewrite romBytes_length by assumption. exists s. split; [reflexivity |].
  destruct F as (VL & Ev & BL & _ & Ly'). split; [| exact Ly'].
  rewrite Ev. exact (blocks_length _ _ _ BL).
Qed.

(** The parts are mixed one after the other, with the buffers of the one before. *)
Lemma mixParts_spec b p s : bytes_ok b -> length b = (p * 128 * r)%nat -> buffers_ok s ->
  forall m, (m <= p)%nat ->
  exists s', fold_left (mixPart r N) (seq 0 m) (b, s) =
    (flat_map (fun i => romBytes r N (firstn (128 * r) (skipn (i * 128 * r) b))) (seq 0 m) ++
       skipn (m * 128 * r) b, s') /\ buffers_ok s' /\
    length (flat_map (fun i => romBytes r N (firstn (128 * r) (skipn (i * 128 * r) b))) (seq 0 m)) =
      (m * 128 * r)%nat.
Proof.
  intros Ok L Hs. induction m as [| m IH]; intros Hm; [now exists s |].
  destruct IH as (s1 & E & H1 & LF); [lia |].
  rewrite seq_S, fold_left_app, E, flat_map_app. cbn [fold_left flat_map Nat.add]. rewrite app_nil_r.
  unfold mixPart. rewrite (skipn_app_exact (m * 128 * r)), (firstn_app_exact (m * 128 * r)) by exact LF.
  assert (bytes_ok (skipn (m * 128 * r) b)) as Os by auto with bytes.
  assert (128 * r <= length (skipn (m * 128 * r) b))%nat as Ls by (rewrite length_skipn; nia).
  destruct (smix_spec _ s1 Os Ls H1) as (s2 & -> & H2).
  exists s2. rewrite skipn_skipn, app_assoc. replace (128 * r + m * 128 * r)%nat with (S m * 128 * r)%nat by lia.
  split; [reflexivity |]. split; [exact H2 |].
  rewrite length_app, LF, romBytes_length by assumption. lia.
Qed.
End parts.

(** ** The guards *)

Definition power_of_two (N : Z) : Prop := exists k, 0 < k /\ N = 2 ^ k.

Lemma cost_guard N : - 2 ^ 63 <= N < 2 ^ 63 ->
  ((N <=? 1) || negb (Z.land N (int64 (N - 1)) =? 0) = false <-> power_of_two N).
Proof.
  intros HN. destruct (Z.leb_spec N 1) as [L | L]; cbn [orb].
  { split; [discriminate |]. intros (k & Hk & ->).
    assert (2 ^ 1 <= 2 ^ k) by (apply Z.pow_le_mono_r; lia). change (2 ^ 1) with 2 in *. lia. }
  rewrite int64_id, negb_false_iff, Z.eqb_eq by lia. split.
  - intros E. exists (Z.log2 N). pose proof (Z.log2_spec N ltac:(lia)) as [H1 H2].
    pose proof (Z.log2_pos N ltac:(lia)). split; [lia |]. apply Z.le_antisymm; [| exact H1].
    destruct (Z.le_gt_cases N (2 ^ Z.log2 N)) as [| G]; [assumption |]. exfalso.
    assert (Z.testbit (Z.land N (N - 1)) (Z.log2 N) = true) as T; [| now rewrite E, Z.testbit_0_l in T].
    rewrite Z.land_spec, Z.bit_log2 by lia.
    replace (Z.log2 N) with (Z.log2 (N - 1)); [now apply Z.bit_log2; lia |].
    apply Z.log2_unique; lia.
  - intros (k & Hk & ->). replace (2 ^ k - 1) with (Z.ones k) by (rewrite Z.ones_equiv; lia).
    rewrite Z.land_ones by lia. apply Z.mod_same. apply Z.pow_nonzero; lia.
Qed.

Lemma uint64_neg x : - 2 ^ 63 <= x < 0 -> uint64 x = x + 2 ^ 64.
Proof. intros Hx. rewrite uint64_mod, <- (Z_mod_plus_full x 1), Z.mul_1_l. apply Z.mod_small. lia. Qed.

Lemma quot_maxInt : Z.quot maxInt 128 = 2 ^ 56 - 1 /\ Z.quot maxInt 256 = 2 ^ 55 - 1.
Proof. split; reflexivity. Qed.

(** For positive parameters the products are compared without overflow. *)
Lemma tooLarge_positive N r p : 0 < N -> 0 < r < 2 ^ 63 -> 0 < p < 2 ^ 63 ->
  tooLarge N r p = Return (negb ((r * p <? 2 ^ 30) && (N * r <? 2 ^ 56))).
Proof.
  intros HN Hr Hp. unfold tooLarge. destruct quot_maxInt as [-> ->].
  rewrite (uint64_id r), (uint64_id p), uint64_mod by lia.
  rewrite !Z.quot_div_nonneg by lia.
  destruct (Z.eqb_spec p 0); [lia |]. destruct (Z.eqb_spec r 0); [lia |].
  destruct (Z.ltb_spec (r * p) (2 ^ 30)) as [S | S]; cbn [andb negb].
  - rewrite Z.mod_small by lia. destruct (Z.leb_spec (2 ^ 30) (r * p)); [lia |].
    assert (r < 2 ^ 30) by nia.
    assert (r <= (2 ^ 56 - 1) / p) by (apply Z.div_le_lower_bound; lia).
    destruct (Z.ltb_spec ((2 ^ 56 - 1) / p) r); [lia |]. destruct (Z.ltb_spec (2 ^ 55 - 1) r); [lia |].
    f_equal. destruct (Z.ltb_spec (N * r) (2 ^ 56)) as [T | T]; cbn [negb].
    + apply Z.ltb_ge, Z.div_le_lower_bound; lia.
    + apply Z.ltb_lt, Z.div_lt_upper_bound; lia.
  - destruct (Z.leb_spec (2 ^ 30) ((r * p) mod 2 ^ 64)) as [| M]; [reflexivity |].
    destruct (Z.ltb_spec ((2 ^ 56 - 1) / p) r) as [| G]; [reflexivity |]. exfalso.
    assert (r * p <= 2 ^ 56 - 1) by (pose proof (Z.mul_div_le (2 ^ 56 - 1) p ltac:(lia)); nia).
    rewrite Z.mod_small in M by lia. lia.
Qed.

(** Negative ones are refused. *)
Lemma tooLarge_negative N r p : 1 < N -> - 2 ^ 63 <= r < 2 ^ 63 -> - 2 ^ 63 <= p < 2 ^ 63 ->
  (r < 0 /\ p <> 0) \/ (0 < r /\ p < 0) -> tooLarge N r p = Return true.
Proof.
  intros HN Hr Hp Hs. unfold tooLarge. destruct quot_maxInt as [-> ->].
  destruct (Z.leb_spec (2 ^ 30) (uint64 (uint64 r * uint64 p))); [reflexivity |].
  destruct (Z.eqb_spec p 0); [lia |]. destruct (Z.ltb_spec (Z.quot (2 ^ 56 - 1) p) r) as [| G]; [reflexivity |].
  destruct (Z.ltb_spec (2 ^ 55 - 1) r); [reflexivity |]. destruct (Z.eqb_spec r 0); [lia |].
  f_equal. apply Z.ltb_lt. destruct Hs as [[Hr' _] | [Hr' Hp']].
  - pose proof (Z.quot_opp_r (2 ^ 56 - 1) (- r) ltac:(lia)) as E. rewrite Z.opp_involutive in E.
    pose proof (Z.quot_pos (2 ^ 56 - 1) (- r) ltac:(lia) ltac:(lia)). lia.
  - pose proof (Z.quot_opp_r (2 ^ 56 - 1) (- p) ltac:(lia)) as E. rewrite Z.opp_involutive in E.
    pose proof (Z.quot_pos (2 ^ 56 - 1) (- p) ltac:(lia) ltac:(lia)). lia.
Qed.

(** A zero divides. *)
Lemma tooLarge_zero N r p : (p = 0 \/ r = 0 /\ 0 < p < 2 ^ 63) -> tooLarge N r p = Panic.
Proof.
  intros Hz. unfold tooLarge. destruct quot_maxInt as [-> ->].
  assert (uint64 (uint64 r * uint64 p) = 0) as ->.
  { rewrite !uint64_mod. destruct Hz as [-> | [-> _]]; [now rewrite Z.mul_0_r | reflexivity]. }
  cbn [Z.leb Z.compare]. destruct Hz as [-> | [-> Hp]]; [reflexivity |].
  destruct (Z.eqb_spec p 0); [lia |].
  pose proof (Z.quot_pos (2 ^ 56 - 1) p ltac:(lia) ltac:(lia)).
  destruct (Z.ltb_spec (Z.quot (2 ^ 56 - 1) p) 0); [lia | reflexivity].
Qed.

(** ** scrypt *)

Lemma PBKDF2_length {H : Hash} {laws : HashLaws H} password salt c n :
  length (PBKDF2 password salt c n) = n.
Proof.
  pose proof size_positive as Hs. unfold PBKDF2. cbv zeta. set (l := Nat.div (n + hashSize - 1) hashSize).
  assert (forall m k, length (flat_map (fun i => rfcF password salt c (Z.of_nat i)) (seq k m)) =
    (m * hashSize)%nat) as LF.
  { induction m as [| m IH]; intros k; [reflexivity |]. cbn [seq flat_map].
    rewrite length_app, rfcF_length, IH. lia. }
  rewrite length_firstn, LF.
  assert (n <= l * hashSize)%nat; [| lia]. unfold l.
  pose proof (Nat.div_mod_eq (n + hashSize - 1) hashSize) as E.
  pose proof (Nat.mod_upper_bound (n + hashSize - 1) hashSize ltac:(lia)). lia.
Qed.

Lemma PBKDF2_bytes password salt n : bytes_ok (PBKDF2 password salt 1 n).
Proof.
  unfold PBKDF2. apply bytes_ok_firstn. apply Forall_flat_map, Forall_forall. intros i _.
  apply sha256_ok.
Qed.

Lemma Key_accepts password salt k r p keyLen :
  (0 < k <= 63)%nat -> let N := 2 ^ Z.of_nat k in N < 2 ^ 63 ->
  0 < r -> 0 < p -> r * p < 2 ^ 30 -> N * r < 2 ^ 56 ->
  Key password salt N r p keyLen =
    (dk <- Kdf.Key password
             (flat_map (fun i => romBytes (Z.to_nat r) N
                (firstn (128 * Z.to_nat r) (skipn (i * 128 * Z.to_nat r)
                   (PBKDF2 password salt 1 (Z.to_nat p * 128 * Z.to_nat r))))) (seq 0 (Z.to_nat p))) 1 keyLen;;
     Return (inr dk)).
Proof.
  intros Hk N HN Hr Hp Hrp HNr. assert (0 < N) by (unfold N; apply Z.pow_pos_nonneg; lia).
  unfold Key. rewrite (proj2 (cost_guard N ltac:(lia))) by (exists (Z.of_nat k); split; [lia | reflexivity]).
  rewrite tooLarge_positive by nia.
  rewrite (proj2 (Z.ltb_lt (r * p) _) Hrp), (proj2 (Z.ltb_lt (N * r) _) HNr). cbn [andb negb obind].
  assert (p * 128 * r < 2 ^ 37) by nia. assert (32 * N * r < 2 ^ 61) by lia.
  rewrite (int64_id (p * 128)), (int64_id (p * 128 * r)) by nia.
  rewrite (int64_id (32 * N)), (int64_id (32 * N * r)), (int64_id (64 * r)) by nia.
  rewrite Key_spec by (cbn [hashSize hashSHA256]; lia). cbn [obind]. change (Z.to_nat 1) with 1%nat.
  replace (Z.to_nat (p * 128 * r)) with (Z.to_nat p * 128 * Z.to_nat r)%nat by nia.
  set (n := Z.to_nat r). set (b := PBKDF2 password salt 1 (Z.to_nat p * 128 * n)).
  destruct (mixParts_spec n k ltac:(lia) Hk b (Z.to_nat p)
    (Buffers (repeat 0 (Z.to_nat (32 * N * r))) (firstn (32 * n) (repeat 0 (Z.to_nat (64 * r))))
       (skipn (32 * n) (repeat 0 (Z.to_nat (64 * r)))))) with (m := Z.to_nat p) as (s & E & _ & LF);
    [apply PBKDF2_bytes | apply PBKDF2_length | | lia |].
  - split; cbn [bv by_]; rewrite ?length_skipn, repeat_length; fold N; nia.
  - fold N in E. rewrite E, skipn_all2, app_nil_r by (unfold b; rewrite PBKDF2_length; lia).
    reflexivity.
Qed.

(** The test vector with the smallest parameters. *)
Example scrypt_vector :
  Key [112] [115] 2 1 1 16 =
  Return (inr [0x48; 0xb0; 0xd2; 0xa8; 0xa3; 0x27; 0x26; 0x11; 0x98; 0x4c; 0x50; 0xeb; 0xd6; 0x30; 0xaf; 0x52]).
Proof. vm_compute. reflexivity. Qed.

(** ** Properties *)

(** C39: [scrypt.Key].  A cost that is no power of two above one is an error.  For a
    power of two and positive [r] and [p], the second guard accepts exactly the parameters with
    [r * p < 2^30] and [128 * N * r < 2^63], although its own product can wrap around; for
    accepted ones no size overflows, the result is scrypt of RFC 7914 for every key length
    that fits, and a negative key length panics; all other positive ones and, next to a
    non-zero partner, negative ones are errors.  [p = 0], and [r = 0] with a positive [p],
    stop the process with a division by zero. *)
Theorem scrypt_key password salt N r p keyLen :
  - 2 ^ 63 <= N < 2 ^ 63 -> - 2 ^ 63 <= r < 2 ^ 63 -> - 2 ^ 63 <= p < 2 ^ 63 ->
  (~ power_of_two N -> Key password salt N r p keyLen = Return (inl BadCost)) /\
  (power_of_two N ->
   (0 < r -> 0 < p -> r * p < 2 ^ 30 -> 128 * N * r < 2 ^ 63 ->
    (0 <= keyLen < 2 ^ 63 - 32 -> Key password salt N r p keyLen =
       Return (inr (scrypt password salt N (Z.to_nat r) (Z.to_nat p) (Z.to_nat keyLen)))) /\
    (keyLen < 0 -> Key password salt N r p keyLen = Panic)) /\
   (0 < r -> 0 < p -> 2 ^ 30 <= r * p \/ 2 ^ 63 <= 128 * N * r ->
    Key password salt N r p keyLen = Return (inl TooLarge)) /\
   ((r < 0 /\ p <> 0) \/ (0 < r /\ p < 0) -> Key password salt N r p keyLen = Return (inl TooLarge)) /\
   (p = 0 \/ r = 0 /\ 0 < p -> Key password salt N r p keyLen = Panic)).
Proof.
  intros HN Hr Hp. pose proof (cost_guard N HN) as G. split.
  { intros Hno. unfold Key. destruct (_ || _); [reflexivity |]. now destruct Hno, G; auto. }
  intros Hpow. pose proof (proj2 G Hpow) as Gf. destruct Hpow as (k & Hk & E).
  assert (1 < N) by (rewrite E; apply Z.pow_gt_1; lia).
  split; [| split; [| split]].
  - intros Hr' Hp' Hrp HNr.
    assert (k < 63) as Hk' by (apply (Z.pow_lt_mono_r_iff 2); lia).
    pose proof (Key_accepts password salt (Z.to_nat k) r p keyLen ltac:(lia)) as K. cbv zeta in K.
    rewrite Z2Nat.id, <- E in K by lia. specialize (K ltac:(lia) Hr' Hp' Hrp ltac:(lia)). rewrite K.
    split; intros Hl; [rewrite Key_spec by (cbn [hashSize hashSHA256]; lia) | rewrite Key_negative by lia];
      reflexivity.
  - intros Hr' Hp' Hb. unfold Key. rewrite Gf, tooLarge_positive by lia.
    destruct (Z.ltb_spec (r * p) (2 ^ 30)), (Z.ltb_spec (N * r) (2 ^ 56)); try lia; reflexivity.
  - intros Hs. unfold Key. now rewrite Gf, tooLarge_negative by (lia || assumption).
  - intros Hz. unfold Key. rewrite Gf, tooLarge_zero by lia. reflexivity.
Qed.

Lemma scrypt_key_witness :
  Key (repeat 1 8) (repeat 2 8) 16 1 1 64 = Return (inr (scrypt (repeat 1 8) (repeat 2 8) 16 1 1 64)) /\
  Key (repeat 1 8) (repeat 2 8) 16 8 0 64 = Panic.
Proof.
  assert (power_of_two 16) as P by (exists 4; split; [lia | reflexivity]).
  destruct (scrypt_key (repeat 1 8) (repeat 2 8) 16 1 1 64) as [_ A]; [lia .. |].
  destruct (scrypt_key (repeat 1 8) (repeat 2 8) 16 8 0 64) as [_ Z0]; [lia .. |].
  destruct (A P) as (A1 & _). destruct (Z0 P) as (_ & _ & _ & Z1).
  split; [apply A1; lia | apply Z1; now left].
Defined.
