(* ===== verification/Bcrypt.v ===== *)
(** * bcrypt

    Model of [src/golang-x-crypto/bcrypt] ([base64.go], [bcrypt.go]) over the model of Blowfish.
    [encoding/base64], [strconv.Atoi] and the verb [%02d] of the Go library are modelled as far as
    the package uses them.  The random source is an argument.  A password is a slice of a
    larger array: [append(key, 0)] writes into the bytes behind it when there are any. *)

From Stdlib Require Import String Ascii.
From S2P Require Import Prelude BlockCipher Blowfish.
Local Open Scope go_scope.

Definition chars (s : string) : list Z := map (fun a => Z.of_N (N_of_ascii a)) (list_ascii_of_string s).

(** ** Base 64 *)

Definition alphabet : list Z :=
  chars "./ABCDEFGHIJKLMNOPQRSTUVWXYZabcdefghijklmnopqrstuvwxyz0123456789".

Definition equals : Z := 0x3d.

(** [Encoding.Encode]: three bytes as four characters, the end padded with [=]. *)
Definition digit (d : Z) : Z := nth (Z.to_nat d) alphabet 0.

Fixpoint encode64 (src : list Z) : list Z :=
  match src with
  | [] => []
  | [b0] => [digit (b0 / 4); digit ((b0 mod 4) * 16); equals; equals]
  | [b0; b1] =>
      [digit (b0 / 4); digit ((b0 mod 4) * 16 + b1 / 16); digit ((b1 mod 16) * 4); equals]
  | b0 :: b1 :: b2 :: src =>
      digit (b0 / 4) :: digit ((b0 mod 4) * 16 + b1 / 16) ::
      digit ((b1 mod 16) * 4 + b2 / 64) :: digit (b2 mod 64) :: encode64 src
  end.

(** [Encoding.Decode]: line breaks are skipped, padding is only allowed at the end, and the
    bits that the last character has too many are ignored.  An error is [None]. *)
Fixpoint position (c : Z) (l : list Z) (i : Z) : option Z :=
  match l with
  | [] => None
  | d :: l => if c =? d then Some i else position c l (i + 1)
  end.

Definition undigit (c : Z) : option Z := position c alphabet 0.

Fixpoint decodeQuanta (src : list Z) : option (list Z) :=
  match src with
  | [] => Some []
  | a :: b :: c :: d :: src =>
      match undigit a, undigit b with
      | Some d0, Some d1 =>
          let b0 := d0 * 4 + d1 / 16 in
          if c =? equals then
            match src with
            | [] => if d =? equals then Some [b0] else None
            | _ => None
            end
          else
            match undigit c with
            | None => None
            | Some d2 =>
                let b1 := (d1 mod 16) * 16 + d2 / 4 in
                if d =? equals then match src with [] => Some [b0; b1] | _ => None end
                else match undigit d, decodeQuanta src with
                     | Some d3, Some rest => Some (b0 :: b1 :: (d2 mod 4) * 64 + d3 :: rest)
                     | _, _ => None
                     end
            end
      | _, _ => None
      end
  | _ => None
  end.

Definition decode64 (src : list Z) : option (list Z) :=
  decodeQuanta (filter (fun c => negb ((c =? 10) || (c =? 13))) src).

(** [for dst[n-1] == '=' { n-- }], on the reversed slice; an empty one is an index panic. *)
Fixpoint dropEquals (l : list Z) : outcome (list Z) :=
  match l with
  | [] => Panic
  | c :: l => if c =? equals then dropEquals l else Return (c :: l)
  end.

Definition base64Encode (src : list Z) : outcome (list Z) :=
  l <- dropEquals (rev (encode64 src));; Return (rev l).

Definition base64Decode (src : list Z) : option (list Z) :=
  let numOfEquals := (4 - length src mod 4)%nat in
  decode64 (src ++ repeat equals numOfEquals).

(** ** Costs, errors and hashes *)

Definition MinCost : Z := 4.
Definition MaxCost : Z := 31.
Definition DefaultCost : Z := 10.

Definition majorVersion : Z := 0x32.
Definition minorVersion : Z := 0x61.
Definition maxSaltSize : nat := 16.
Definition maxCryptedHashSize : nat := 23.
Definition encodedSaltSize : nat := 22.
Definition encodedHashSize : nat := 31.
Definition minHashSize : nat := 59.

Inductive error :=
  | ErrMismatchedHashAndPassword
  | ErrHashTooShort
  | HashVersionTooNewError (v : Z)
  | InvalidHashPrefixError (b : Z)
  | InvalidCostError (cost : Z)
  | RandError
  | CorruptInputError
  | KeySizeError
  | NumError.

Definition magicCipherData : list Z :=
  [0x4f; 0x72; 0x70; 0x68;
   0x65; 0x61; 0x6e; 0x42;
   0x65; 0x68; 0x6f; 0x6c;
   0x64; 0x65; 0x72; 0x53;
   0x63; 0x72; 0x79; 0x44;
   0x6f; 0x75; 0x62; 0x74].

Record hashed := MkHashed { hash : list Z; salt : list Z; cost : Z; major : Z; minor : Z }.

Definition checkCost (cost : Z) : option error :=
  if (cost <? MinCost) || (MaxCost <? cost) then Some (InvalidCostError cost) else None.

(** [strconv.Atoi] on two bytes. *)
Definition isDigit (c : Z) : bool := (0x30 <=? c) && (c <=? 0x39).

Definition Atoi2 (a b : Z) : option Z :=
  if negb (isDigit b) then None
  else if a =? 0x2b then Some (b - 0x30)
  else if a =? 0x2d then Some (- (b - 0x30))
  else if isDigit a then Some (10 * (a - 0x30) + (b - 0x30))
  else None.

(** [fmt.Sprintf("%02d", cost)], for a number of at most two digits. *)
Definition twoDigits (cost : Z) : list Z := [0x30 + cost / 10; 0x30 + cost mod 10].

(** [copy(arr[n:], src)]; a single assignment is a copy of one byte. *)
Definition copyAt (n : nat) (src arr : list Z) : list Z := firstn n arr ++ copy (skipn n arr) src.

Definition Hash (p : hashed) : list Z :=
  let arr := repeat 0 60%nat in
  let arr := set_nth 0 0x24 arr in
  let arr := set_nth 1 (major p) arr in
  let n := 2%nat in
  let '(arr, n) := if negb (minor p =? 0) then (set_nth 2 (minor p) arr, 3%nat) else (arr, n) in
  let arr := set_nth n 0x24 arr in
  let n := (n + 1)%nat in
  let arr := copyAt n (twoDigits (cost p)) arr in
  let n := (n + 2)%nat in
  let arr := set_nth n 0x24 arr in
  let n := (n + 1)%nat in
  let arr := copyAt n (salt p) arr in
  let n := (n + encodedSaltSize)%nat in
  let arr := copyAt n (hash p) arr in
  let n := (n + encodedHashSize)%nat in
  firstn n arr.

(** The new [major] and [minor] and the number of bytes. *)
Definition decodeVersion (sbytes : list Z) : error + (Z * Z * nat) :=
  if negb (nth 0 sbytes 0 =? 0x24) then inl (InvalidHashPrefixError (nth 0 sbytes 0))
  else if majorVersion <? nth 1 sbytes 0 then inl (HashVersionTooNewError (nth 1 sbytes 0))
  else
    let n := 3%nat in
    if negb (nth 2 sbytes 0 =? 0x24) then inr (nth 1 sbytes 0, nth 2 sbytes 0, (n + 1)%nat)
    else inr (nth 1 sbytes 0, 0, n).

Definition decodeCost (sbytes : list Z) : error + (Z * nat) :=
  match Atoi2 (nth 0 sbytes 0) (nth 1 sbytes 0) with
  | None => inl NumError
  | Some cost =>
      match checkCost cost with
      | Some err => inl err
      | None => inr (cost, 3%nat)
      end
  end.

(** Every index is in range because of the first test. *)
Definition newFromHash (hashedSecret : list Z) : error + hashed :=
  if (length hashedSecret <? minHashSize)%nat then inl ErrHashTooShort
  else
    match decodeVersion hashedSecret with
    | inl err => inl err
    | inr (major, minor, n) =>
        let hashedSecret := skipn n hashedSecret in
        match decodeCost hashedSecret with
        | inl err => inl err
        | inr (cost, n) =>
            let hashedSecret := skipn n hashedSecret in
            let salt := firstn encodedSaltSize hashedSecret in
            let hash := skipn encodedSaltSize hashedSecret in
            inr (MkHashed hash salt cost major minor)
        end
    end.

(** ** The expensive setup *)

(** A slice and the bytes of its array behind it. *)
Record slice := MkSlice { elems : list Z; spare : list Z }.

(** [append(key, 0)]: the new slice, and the old one as it is afterwards. *)
Definition appendByte (s : slice) (x : Z) : list Z * slice :=
  (elems s ++ [x],
   MkSlice (elems s) (match spare s with [] => [] | _ :: rest => x :: rest end)).

Fixpoint repeatM {A : Type} (n : nat) (f : A -> outcome A) (a : A) : outcome A :=
  match n with
  | O => Return a
  | S n => a <- f a;; repeatM n f a
  end.

(** The body of the loop. *)
Definition setupRound (ckey csalt : list Z) (c : Cipher) : outcome Cipher :=
  c <- ExpandKey ckey c;; ExpandKey csalt c.

Definition expensiveBlowfishSetup (key : slice) (cost : Z) (salt : list Z) :
    outcome (error + Cipher) * slice :=
  match base64Decode salt with
  | None => (Return (inl CorruptInputError), key)
  | Some csalt =>
      let (ckey, key) := appendByte key 0 in
      (c <- NewSaltedCipher ckey csalt;;
       match c with
       | None => Return (inl KeySizeError)
       | Some c =>
           let rounds := uint64 (Z.shiftl 1 cost) in
           c <- repeatM (Z.to_nat rounds) (setupRound ckey csalt) c;;
           Return (inr c)
       end, key)
  end.

(** [for j := 0; j < 64; j++ { c.Encrypt(cipherData[i:i+8], cipherData[i:i+8]) }] *)
Definition encrypt64 (c : Cipher) (block : list Z) : list Z := Nat.iter 64 (Blowfish.Encrypt c) block.

Definition bcrypt (password : slice) (cost : Z) (salt : list Z) : outcome (error + list Z) * slice :=
  let (c, password) := expensiveBlowfishSetup password (uint32 cost) salt in
  (c <- c;;
   match c with
   | inl err => Return (inl err)
   | inr c =>
       let cipherData := flat_map (fun i => encrypt64 c (firstn 8 (skipn i magicCipherData))) [0; 8; 16]%nat in
       hsh <- base64Encode (firstn maxCryptedHashSize cipherData);;
       Return (inr hsh)
   end, password).

(** [rand] are the bytes that the random source returns, [None] for its error. *)
Definition newFromPassword (rand : option (list Z)) (password : slice) (cost : Z) :
    outcome (error + hashed) * slice :=
  let cost := if cost <? MinCost then DefaultCost else cost in
  match checkCost cost with
  | Some err => (Return (inl err), password)
  | None =>
      match rand with
      | None => (Return (inl RandError), password)
      | Some unencodedSalt =>
          match base64Encode unencodedSalt with
          | Panic => (Panic, password)
          | Return salt =>
              let (hash, password) := bcrypt password cost salt in
              (hash <- hash;;
               match hash with
               | inl err => Return (inl err)
               | inr hash => Return (inr (MkHashed hash salt cost majorVersion minorVersion))
               end, password)
          end
      end
  end.

Definition GenerateFromPassword (rand : option (list Z)) (password : slice) (cost : Z) :
    outcome (error + list Z) * slice :=
  let (p, password) := newFromPassword rand password cost in
  (p <- p;;
   match p with
   | inl err => Return (inl err)
   | inr p => Return (inr (Hash p))
   end, password).

(** [None] is the nil error. *)
Definition CompareHashAndPassword (hashedPassword : list Z) (password : slice) :
    outcome (option error) * slice :=
  match newFromHash hashedPassword with
  | inl err => (Return (Some err), password)
  | inr p =>
      let (otherHash, password) := bcrypt password (cost p) (salt p) in
      (otherHash <- otherHash;;
       match otherHash with
       | inl err => Return (Some err)
       | inr otherHash =>
           let otherP := MkHashed otherHash (salt p) (cost p) (major p) (minor p) in
           Return (if list_eq_dec Z.eq_dec (Hash p) (Hash otherP) then None
                   else Some ErrMismatchedHashAndPassword)
       end, password)
  end.

Definition Cost (hashedPassword : list Z) : error + Z :=
  match newFromHash hashedPassword with
  | inl err => inl err
  | inr p => inr (cost p)
  end.

(** ** Base 64 *)

Definition plain (c : Z) : Prop := c <> equals /\ c <> 10 /\ c <> 13 /\ c <> 0.

Lemma digit_spec d : 0 <= d < 64 -> undigit (digit d) = Some d /\ plain (digit d).
Proof.
  intros Hd.
  assert (forallb (fun i => match undigit (digit (Z.of_nat i)) with
      Some d => d =? Z.of_nat i | None => false end &&
    negb ((digit (Z.of_nat i) =? equals) || (digit (Z.of_nat i) =? 10) || (digit (Z.of_nat i) =? 13) ||
      (digit (Z.of_nat i) =? 0)))
    (seq 0 64) = true) as A by (vm_compute; reflexivity).
  rewrite forallb_forall in A. specialize (A (Z.to_nat d)). rewrite Z2Nat.id in A by lia.
  apply andb_prop in A as [A1 A2]; [| apply in_seq; lia].
  destruct (undigit (digit d)) as [e |]; [| discriminate]. apply Z.eqb_eq in A1. subst e.
  apply negb_true_iff in A2. rewrite !orb_false_iff, !Z.eqb_neq in A2. unfold plain. tauto.
Qed.

Lemma position_range c l : forall i j, position c l i = Some j -> i <= j < i + Z.of_nat (length l).
Proof.
  induction l as [| d l IH]; intros i j E; cbn [position length] in *; [discriminate |].
  destruct (c =? d); [injection E as <-; lia | apply IH in E; lia].
Qed.

Lemma undigit_range c d : undigit c = Some d -> 0 <= d < 64.
Proof. apply (position_range c alphabet 0). Qed.

Lemma undigit_digit d : 0 <= d < 64 -> undigit (digit d) = Some d.
Proof. apply digit_spec. Qed.

Lemma digit_plain d : 0 <= d < 64 -> plain (digit d).
Proof. apply digit_spec. Qed.

Lemma digit_equals d : 0 <= d < 64 -> (digit d =? equals) = false.
Proof. intros Hd. apply Z.eqb_neq, digit_plain, Hd. Qed.

(** One step of the encoding, on four six-bit digits of three bytes. *)
Lemma digits_range b0 b1 b2 : byte_ok b0 -> byte_ok b1 -> byte_ok b2 ->
  0 <= b0 / 4 < 64 /\ 0 <= (b0 mod 4) * 16 + b1 / 16 < 64 /\
  0 <= (b1 mod 16) * 4 + b2 / 64 < 64 /\ 0 <= b2 mod 64 < 64 /\
  0 <= (b0 mod 4) * 16 < 64 /\ 0 <= (b1 mod 16) * 4 < 64.
Proof. unfold byte_ok. intros. Z.div_mod_to_equations. lia. Qed.

Lemma bytes_back b0 b1 b2 : byte_ok b0 -> byte_ok b1 -> byte_ok b2 ->
  b0 / 4 * 4 + ((b0 mod 4) * 16 + b1 / 16) / 16 = b0 /\
  b0 / 4 * 4 + (b0 mod 4) * 16 / 16 = b0 /\
  ((b0 mod 4) * 16 + b1 / 16) mod 16 * 16 + ((b1 mod 16) * 4 + b2 / 64) / 4 = b1 /\
  ((b0 mod 4) * 16 + b1 / 16) mod 16 * 16 + (b1 mod 16) * 4 / 4 = b1 /\
  ((b1 mod 16) * 4 + b2 / 64) mod 4 * 64 + b2 mod 64 = b2.
Proof. unfold byte_ok. intros. repeat split; Z.div_mod_to_equations; lia. Qed.

(** The encoding of a string: its characters and the padding. *)
Definition encodes (src body : list Z) (pad : nat) : Prop :=
  encode64 src = body ++ repeat equals pad /\ Forall plain body /\
  decodeQuanta (encode64 src) = Some src.

Lemma encodes_step b0 b1 b2 src body pad :
  byte_ok b0 -> byte_ok b1 -> byte_ok b2 -> encodes src body pad ->
  exists q, encodes (b0 :: b1 :: b2 :: src) (q ++ body) pad /\ length q = 4%nat.
Proof.
  intros H0 H1 H2 (E & A & D).
  destruct (digits_range b0 b1 b2 H0 H1 H2) as (R0 & R1 & R2 & R3 & _).
  destruct (bytes_back b0 b1 b2 H0 H1 H2) as (B0 & _ & B1 & _ & B2).
  exists [digit (b0 / 4); digit ((b0 mod 4) * 16 + b1 / 16); digit ((b1 mod 16) * 4 + b2 / 64); digit (b2 mod 64)].
  split; [| reflexivity]. split; [cbn [encode64 app]; now rewrite E |]. split.
  - repeat (apply Forall_cons; [now apply digit_plain |]). exact A.
  - cbn [encode64 decodeQuanta]. rewrite !undigit_digit, !digit_equals, D by assumption.
    now rewrite B0, B1, B2.
Qed.

Lemma encodes_1 b0 : byte_ok b0 -> exists body, encodes [b0] body 2 /\ length body = 2%nat.
Proof.
  intros H0. assert (byte_ok 0) as Hz by (unfold byte_ok; lia).
  destruct (digits_range b0 0 0 H0 Hz Hz) as (R0 & _ & _ & _ & R1 & _).
  destruct (bytes_back b0 0 0 H0 Hz Hz) as (_ & B0 & _).
  exists [digit (b0 / 4); digit ((b0 mod 4) * 16)]. split; [| reflexivity].
  split; [reflexivity |]. split; [repeat (apply Forall_cons; [now apply digit_plain |]); apply Forall_nil |].
  cbn [encode64 decodeQuanta]. rewrite !undigit_digit, Z.eqb_refl by assumption. now rewrite B0.
Qed.

Lemma encodes_2 b0 b1 : byte_ok b0 -> byte_ok b1 ->
  exists body, encodes [b0; b1] body 1 /\ length body = 3%nat.
Proof.
  intros H0 H1. assert (byte_ok 0) as Hz by (unfold byte_ok; lia).
  destruct (digits_range b0 b1 0 H0 H1 Hz) as (R0 & R1 & _ & _ & _ & R2).
  destruct (bytes_back b0 b1 0 H0 H1 Hz) as (B0 & _ & _ & B1 & _).
  exists [digit (b0 / 4); digit ((b0 mod 4) * 16 + b1 / 16); digit ((b1 mod 16) * 4)]. split; [| reflexivity].
  split; [reflexivity |]. split; [repeat (apply Forall_cons; [now apply digit_plain |]); apply Forall_nil |].
  cbn [encode64 decodeQuanta]. rewrite !undigit_digit, Z.eqb_refl, digit_equals by assumption.
  now rewrite B0, B1.
Qed.

(** [3 q + m] bytes, with [m] one or two. *)
Lemma encodes_length q : forall src m, (m = 1 \/ m = 2)%nat -> length src = (3 * q + m)%nat ->
  bytes_ok src -> exists body, encodes src body (3 - m) /\ length body = (4 * q + m + 1)%nat.
Proof.
  unfold bytes_ok. induction q as [| q IH]; intros src m Hm L Ok.
  - destruct Hm as [-> | ->]; destruct src as [| b0 [| b1 [| b2 src]]]; try discriminate;
      repeat match goal with A : Forall byte_ok (_ :: _) |- _ => apply Forall_cons_iff in A as [? A] end.
    + now apply encodes_1.
    + now apply encodes_2.
  - destruct src as [| b0 [| b1 [| b2 src]]]; try (cbn in L; lia).
    repeat match goal with A : Forall byte_ok (_ :: _) |- _ => apply Forall_cons_iff in A as [? A] end.
    destruct (IH src m Hm) as (body & E & Lb); [cbn in L; lia | assumption |].
    destruct (encodes_step b0 b1 b2 src body (3 - m)) as (q4 & E4 & L4); try assumption.
    exists (q4 ++ body). split; [exact E4 | rewrite length_app, L4, Lb; lia].
Qed.

Lemma dropEquals_pad n l : dropEquals (repeat equals n ++ l) = dropEquals l.
Proof. induction n as [| n IH]; [reflexivity |]. cbn [repeat app dropEquals]. now rewrite Z.eqb_refl. Qed.

Lemma repeat_rev {A : Type} (x : A) n : rev (repeat x n) = repeat x n.
Proof. induction n as [| n IH]; [reflexivity |]. cbn [repeat rev]. now rewrite IH, <- repeat_cons. Qed.

Lemma base64Encode_spec src body pad : encodes src body pad -> body <> [] ->
  base64Encode src = Return body.
Proof.
  intros (E & A & _) N. unfold base64Encode. rewrite E, rev_app_distr, repeat_rev, dropEquals_pad.
  apply Forall_rev in A. rewrite <- (rev_involutive body) at 2.
  destruct (rev body) as [| c l] eqn:R; [now apply (f_equal (@rev Z)) in R; rewrite rev_involutive in R |].
  apply Forall_inv in A. cbn [dropEquals]. now rewrite (proj2 (Z.eqb_neq _ _) (proj1 A)).
Qed.

Lemma filter_plain l n : Forall plain l ->
  filter (fun c => negb ((c =? 10) || (c =? 13))) (l ++ repeat equals n) = l ++ repeat equals n.
Proof.
  intros A. rewrite filter_app. f_equal.
  - induction A as [| c l (_ & H1 & H2 & _) A IH]; [reflexivity |]. cbn [filter].
    rewrite (proj2 (Z.eqb_neq _ _) H1), (proj2 (Z.eqb_neq _ _) H2). cbn [orb negb]. now rewrite IH.
  - induction n as [| n IH]; [reflexivity |]. cbn [repeat filter]. now rewrite IH.
Qed.

(** What [base64Encode] makes of a salt is a salt of 22 characters that decodes to it. *)
Lemma salt_roundtrip src : length src = 16%nat -> bytes_ok src ->
  exists body, base64Encode src = Return body /\ length body = 22%nat /\ Forall plain body /\
    base64Decode body = Some src.
Proof.
  intros L Ok. destruct (encodes_length 5 src 1) as (body & E & Lb); [now left | exact L | exact Ok |].
  exists body. split; [apply (base64Encode_spec src body 2 E); intros ->; discriminate |].
  split; [exact Lb |]. destruct E as (E & A & D). split; [exact A |].
  unfold base64Decode, decode64. rewrite Lb. change (4 - (4 * 5 + 1 + 1) mod 4)%nat with 2%nat.
  rewrite filter_plain by exact A. now rewrite <- D, E.
Qed.

Lemma hash_encoded src : length src = 23%nat -> bytes_ok src ->
  exists body, base64Encode src = Return body /\ length body = 31%nat /\ Forall plain body.
Proof.
  intros L Ok. destruct (encodes_length 7 src 2) as (body & E & Lb); [now right | exact L | exact Ok |].
  exists body. split; [apply (base64Encode_spec src body 1 E); intros ->; discriminate |].
  split; [exact Lb | apply E].
Qed.

(** Whatever decodes is a string of bytes, and because of the padding it is never empty. *)
Lemma decodeQuanta_ok n : forall src l, (length src <= n)%nat -> decodeQuanta src = Some l ->
  bytes_ok l /\ (l = [] -> src = []).
Proof.
  induction n as [| n IH]; intros src l Ln E.
  { destruct src; [| cbn in Ln; lia]. injection E as <-. split; [constructor | reflexivity]. }
  destruct src as [| a [| b [| c [| d src]]]]; try discriminate.
  { injection E as <-. split; [constructor | reflexivity]. }
  cbn [decodeQuanta] in E. destruct (undigit a) as [d0 |] eqn:Ea; [| discriminate].
  destruct (undigit b) as [d1 |] eqn:Eb; [| discriminate]. apply undigit_range in Ea, Eb.
  assert (byte_ok (d0 * 4 + d1 / 16)) as B0 by (unfold byte_ok; Z.div_mod_to_equations; lia).
  destruct (c =? equals).
  { destruct src; [| discriminate]. destruct (d =? equals); [| discriminate]. injection E as <-.
    split; [apply Forall_cons; [exact B0 | apply Forall_nil] | discriminate]. }
  destruct (undigit c) as [d2 |] eqn:Ec; [| discriminate]. apply undigit_range in Ec.
  assert (byte_ok ((d1 mod 16) * 16 + d2 / 4)) as B1 by (unfold byte_ok; Z.div_mod_to_equations; lia).
  destruct (d =? equals).
  { destruct src; [| discriminate]. injection E as <-.
    split; [repeat (apply Forall_cons; [assumption |]); apply Forall_nil | discriminate]. }
  destruct (undigit d) as [d3 |] eqn:Ed; [| discriminate]. apply undigit_range in Ed.
  destruct (decodeQuanta src) as [rest |] eqn:Er; [| discriminate]. injection E as <-.
  destruct (IH src rest) as [Or _]; [cbn in Ln; lia | exact Er |].
  assert (byte_ok ((d2 mod 4) * 64 + d3)) as B2 by (unfold byte_ok; Z.div_mod_to_equations; lia).
  split; [repeat (apply Forall_cons; [assumption |]); exact Or | discriminate].
Qed.

Lemma base64Decode_ok salt l : base64Decode salt = Some l -> bytes_ok l /\ (0 < length l)%nat.
Proof.
  unfold base64Decode, decode64. intros E. pose proof (Nat.mod_upper_bound (length salt) 4 ltac:(lia)) as U.
  destruct (decodeQuanta_ok _ _ _ (le_n _) E) as [Ok Ne]. split; [exact Ok |].
  destruct l as [| b l]; [| cbn; lia]. specialize (Ne eq_refl).
  destruct (4 - length salt mod 4)%nat as [| m] eqn:Em; [lia |].
  rewrite filter_app in Ne. apply app_eq_nil in Ne as [_ Ne]. discriminate Ne.
Qed.

(** ** The layout of a hash *)

Lemma copyAt_spec n src arr : (n + length src <= length arr)%nat ->
  copyAt n src arr = firstn n arr ++ src ++ skipn (n + length src) arr.
Proof.
  intros L. unfold copyAt, copy. rewrite skipn_skipn, (firstn_all2 src) by (rewrite length_skipn; lia).
  now rewrite Nat.add_comm.
Qed.

Lemma skipn_zeros k n : skipn k (repeat 0 n) = repeat 0 (n - k).
Proof. revert n. induction k as [| k IH]; intros [| n]; cbn; auto. Qed.

Lemma firstn_zeros k n : firstn k (repeat 0 n) = repeat 0 (Nat.min k n).
Proof. revert n. induction k as [| k IH]; intros [| n]; cbn; auto. now rewrite IH. Qed.

(** The bytes in front of the salt. *)
Definition front (p : hashed) : list Z :=
  [0x24; major p] ++ (if negb (minor p =? 0) then [minor p] else []) ++ [0x24] ++ twoDigits (cost p) ++ [0x24].

(** A hash that is too short is filled up with zeros, one that is too long is cut. *)
Definition cutHash (h : list Z) : list Z := firstn 31 (h ++ repeat 0 31).

Lemma copy_zeros n h : (31 <= n)%nat -> firstn 31 (copy (repeat 0 n) h) = cutHash h.
Proof.
  intros Hn. unfold copy, cutHash. rewrite repeat_length, skipn_zeros, !firstn_app, firstn_firstn.
  replace (Nat.min 31 n) with 31%nat by lia. f_equal. rewrite length_firstn, !firstn_zeros. f_equal. lia.
Qed.

Lemma Hash_layout p : length (salt p) = 22%nat -> Hash p = front p ++ salt p ++ cutHash (hash p).
Proof.
  intros L. destruct p as [h s c ma mi]. cbn [salt hash] in *. unfold Hash, front.
  cbn [major minor cost salt hash].
  assert (forall n pre, (n = length pre) -> (31 <= 60 - n - 22)%nat -> (n <= 38)%nat ->
    firstn (n + 22 + 31) (copyAt (n + 22) h (copyAt n s (pre ++ repeat 0 (60 - n)))) =
    pre ++ s ++ cutHash h) as G.
  { intros n pre En Hn Hn'. rewrite (copyAt_spec n s) by (rewrite length_app, repeat_length; lia).
    rewrite (firstn_app_exact n) by congruence.
    rewrite skipn_app, <- En, skipn_all2, skipn_zeros, L by lia. cbn [app].
    replace (60 - n - (n + 22 - n))%nat with (60 - n - 22)%nat by lia.
    unfold copyAt. rewrite !app_assoc.
    rewrite (firstn_app_exact (n + 22)), (skipn_app_exact (n + 22)) by (rewrite length_app; lia).
    rewrite firstn_app, length_app, <- En, L, firstn_all2 by (rewrite length_app; lia).
    replace (n + 22 + 31 - (n + 22))%nat with 31%nat by lia. now rewrite copy_zeros. }
  destruct (negb (mi =? 0)).
  - change (3 + 1 + 2 + 1 + encodedSaltSize + encodedHashSize)%nat with (7 + 22 + 31)%nat.
    rewrite <- (G 7%nat ([0x24; ma] ++ [mi] ++ [0x24] ++ twoDigits c ++ [0x24])) by (reflexivity || lia).
    reflexivity.
  - change (2 + 1 + 2 + 1 + encodedSaltSize + encodedHashSize)%nat with (6 + 22 + 31)%nat.
    rewrite <- (G 6%nat ([0x24; ma] ++ [] ++ [0x24] ++ twoDigits c ++ [0x24])) by (reflexivity || lia).
    reflexivity.
Qed.

Lemma cutHash_full h : length h = 31%nat -> cutHash h = h.
Proof. intros L. unfold cutHash. now apply firstn_app_exact. Qed.

(** The stored hash is compared up to 31 characters. *)
Lemma cutHash_eq h other : length other = 31%nat -> Forall (fun c => c <> 0) other ->
  (cutHash h = cutHash other <-> firstn 31 h = other).
Proof.
  intros L A. rewrite (cutHash_full other L). unfold cutHash. rewrite firstn_app.
  destruct (Nat.le_gt_cases 31 (length h)) as [Ge | Lt].
  - replace (31 - length h)%nat with 0%nat by lia. now rewrite app_nil_r.
  - split; intros E.
    + exfalso. destruct (31 - length h)%nat as [| m] eqn:Em; [lia |].
      rewrite firstn_zeros, Nat.min_l in E by lia. rewrite <- E in A. apply Forall_app in A as [_ A].
      apply Forall_inv in A. now apply A.
    + apply (f_equal (@List.length Z)) in E. rewrite length_firstn, L in E. lia.
Qed.

Lemma inr_inj {A B : Type} (x y : B) : @inr A B x = inr y -> x = y.
Proof. now injection 1. Qed.

Lemma newFromHash_salt h p : newFromHash h = inr p -> length (salt p) = 22%nat.
Proof.
  unfold newFromHash. destruct (Nat.ltb_spec (length h) minHashSize) as [| L]; [discriminate |].
  unfold minHashSize in L. destruct (decodeVersion h) as [| [[ma mi] n]] eqn:V; [discriminate |].
  assert (n <= 4)%nat as Hn.
  { unfold decodeVersion in V. destruct (negb (nth 0 h 0 =? _)); [discriminate |].
    destruct (majorVersion <? _); [discriminate |].
    destruct (negb (nth 2 h 0 =? _)); injection V as _ _ <-; lia. }
  destruct (decodeCost (skipn n h)) as [| [c m]] eqn:C; [discriminate |].
  assert (m = 3)%nat as ->.
  { unfold decodeCost in C. destruct (Atoi2 _ _); [| discriminate]. destruct (checkCost _); [discriminate |].
    now injection C as _ <-. }
  intros E. apply inr_inj in E. subst p. cbn [salt]. unfold encodedSaltSize.
  rewrite length_firstn, !length_skipn. lia.
Qed.

Lemma Atoi2_digits c : 0 <= c < 100 -> Atoi2 (0x30 + c / 10) (0x30 + c mod 10) = Some c.
Proof.
  intros Hc. unfold Atoi2, isDigit.
  assert (0 <= c / 10 < 10 /\ 0 <= c mod 10 < 10 /\ c = 10 * (c / 10) + c mod 10) as (H1 & H2 & E)
    by (Z.div_mod_to_equations; lia).
  revert H1 H2 E. generalize (c / 10) (c mod 10). intros a b H1 H2 ->.
  replace (0x30 <=? 0x30 + b) with true by lia. replace (0x30 + b <=? 0x39) with true by lia.
  replace (0x30 + a =? 0x2b) with false by lia. replace (0x30 + a =? 0x2d) with false by lia.
  replace (0x30 <=? 0x30 + a) with true by lia. replace (0x30 + a <=? 0x39) with true by lia.
  cbn [andb negb]. f_equal. lia.
Qed.

(** What [Hash] has written is read back; bytes behind it end up in the hash. *)
Lemma newFromHash_Hash h s c junk : length h = 31%nat -> length s = 22%nat -> MinCost <= c <= MaxCost ->
  let p := MkHashed h s c majorVersion minorVersion in
  newFromHash (Hash p ++ junk) = inr (MkHashed (h ++ junk) s c majorVersion minorVersion).
Proof.
  intros Lh Ls Hc. cbv zeta. unfold MinCost, MaxCost in Hc. rewrite Hash_layout by exact Ls.
  cbn [hash salt]. rewrite cutHash_full, <- !app_assoc by exact Lh.
  unfold front, twoDigits. cbn [major minor cost]. unfold newFromHash.
  set (rest := s ++ h ++ junk).
  assert (length rest = 53 + length junk)%nat as Lr by (unfold rest; rewrite !length_app; lia).
  cbn [minorVersion Z.eqb negb app]. rewrite (proj2 (Nat.ltb_ge _ _)) by (cbn [length]; rewrite Lr; unfold minHashSize; lia).
  change (decodeVersion _) with (inr error (majorVersion, minorVersion, 4%nat)).
  cbn [skipn]. unfold decodeCost. cbn [nth]. rewrite Atoi2_digits by lia.
  unfold checkCost, MinCost, MaxCost. rewrite (proj2 (Z.ltb_ge _ _)), (proj2 (Z.ltb_ge _ _)) by lia.
  cbn [orb skipn]. unfold rest. now rewrite (firstn_app_exact 22), (skipn_app_exact 22) by exact Ls.
Qed.

(** ** The setup depends on 72 bytes *)

(** The bytes that the key schedule takes from a password: its first 72 with the final zero,
    repeated when it is shorter. *)
Definition same_key (pw pw' : list Z) : Prop :=
  forall j, (j < 72)%nat -> circular (pw ++ [0]) j = circular (pw' ++ [0]) j.

Section keys.
Variables key key' : list Z.
Hypothesis nonempty : (0 < length key)%nat.
Hypothesis nonempty' : (0 < length key')%nat.
Hypothesis ok : bytes_ok key.
Hypothesis ok' : bytes_ok key'.
Hypothesis same : forall j, (j < 72)%nat -> circular key j = circular key' j.

Lemma mixKey_same ps : table_ok 18 ps -> mixKey key 18 0 0 ps = mixKey key' 18 0 0 ps.
Proof.
  intros T. destruct (mixKey_table key nonempty ok 18 ps T) as (q & -> & [Lq _] & N).
  destruct (mixKey_table key' nonempty' ok' 18 ps T) as (q' & -> & [Lq' _] & N').
  f_equal. apply (nth_ext _ _ 0 0); [congruence |]. intros i Hi. rewrite Lq in Hi.
  rewrite N, N' by exact Hi. unfold wordAt. apply f_equal, f_equal, f_equal, map_ext_in.
  intros k Hk. apply same. cbn [In] in Hk. lia.
Qed.

Lemma ExpandKey_same c : cipher_ok c -> ExpandKey key c = ExpandKey key' c.
Proof. intros Hc. unfold ExpandKey. now rewrite (mixKey_same _ (proj1 Hc)). Qed.

Lemma NewSaltedCipher_same salt : (0 < length salt)%nat ->
  NewSaltedCipher key salt = NewSaltedCipher key' salt.
Proof.
  intros Hs. unfold NewSaltedCipher. rewrite !(proj2 (Nat.ltb_ge _ _)) by lia.
  destruct (Nat.eqb_spec (length salt) 0); [lia |]. unfold expandKeyWithSalt.
  now rewrite (mixKey_same _ (proj1 initCipher_ok)).
Qed.
End keys.

Lemma setupRound_ok ckey csalt c : (0 < length ckey)%nat -> bytes_ok ckey ->
  (0 < length csalt)%nat -> bytes_ok csalt -> cipher_ok c ->
  exists c', setupRound ckey csalt c = Return c' /\ cipher_ok c'.
Proof.
  intros Lk Ok Ls Os Hc. unfold setupRound.
  destruct (ExpandKey_ok ckey c Lk Ok Hc) as (c1 & -> & H1). cbn [obind]. now apply ExpandKey_ok.
Qed.

Lemma repeatM_ok {A : Type} (inv : A -> Prop) (f g : A -> outcome A) n :
  (forall a, inv a -> exists a', f a = Return a' /\ inv a') -> (forall a, inv a -> f a = g a) ->
  forall a, inv a -> exists a', repeatM n f a = Return a' /\ repeatM n g a = Return a' /\ inv a'.
Proof.
  intros Hf Hg. induction n as [| n IH]; intros a Ha; [now exists a |]. cbn [repeatM].
  rewrite <- (Hg a Ha). destruct (Hf a Ha) as (a' & -> & Ha'). exact (IH a' Ha').
Qed.

Lemma ckey_ok pw : bytes_ok pw -> bytes_ok (pw ++ [0]) /\ (0 < length (pw ++ [0%Z]))%nat.
Proof.
  intros Ok. split; [apply bytes_ok_app; [exact Ok | apply (zeros_ok 1)] | rewrite length_app; cbn; lia].
Qed.

(** The setup fails for a salt that does not decode, and otherwise makes a cipher, the same one
    for passwords with the same key bytes. *)
Lemma setup_spec pw pw' sp sp' c salt csalt : bytes_ok pw -> bytes_ok pw' -> same_key pw pw' ->
  base64Decode salt = Some csalt ->
  exists ci, fst (expensiveBlowfishSetup (MkSlice pw sp) c salt) = Return (inr ci) /\
    fst (expensiveBlowfishSetup (MkSlice pw' sp') c salt) = Return (inr ci) /\ cipher_ok ci.
Proof.
  intros O O' Same D. destruct (base64Decode_ok salt csalt D) as [Os Ls].
  destruct (ckey_ok pw O) as [Ok Lk]. destruct (ckey_ok pw' O') as [Ok' Lk'].
  unfold expensiveBlowfishSetup. rewrite D. cbn [appendByte elems spare fst].
  rewrite <- (NewSaltedCipher_same (pw ++ [0]) (pw' ++ [0]) Lk Lk' Ok Ok' Same csalt Ls).
  destruct (NewSaltedCipher_accepts (pw ++ [0]) csalt Lk Ls Ok Os) as (c0 & -> & H0). cbn [obind].
  generalize (Z.to_nat (uint64 (Z.shiftl 1 c))). intros n.
  destruct (repeatM_ok cipher_ok (setupRound (pw ++ [0]) csalt) (setupRound (pw' ++ [0]) csalt) n)
    with (a := c0) as (c1 & -> & -> & H1).
  - intros a Ha. now apply setupRound_ok.
  - intros a Ha. unfold setupRound. now rewrite (ExpandKey_same _ _ Lk Lk' Ok Ok' Same a Ha).
  - exact H0.
  - now exists c1.
Qed.

Lemma encrypt64_ok c block : cipher_ok c -> block_ok 8 block -> block_ok 8 (encrypt64 c block).
Proof.
  intros Hc Hb. unfold encrypt64. pose proof (blowfish_block_laws c Hc) as Laws.
  generalize 64%nat. intros n. induction n as [| n IH]; [exact Hb |]. rewrite Nat.iter_succ.
  exact (encrypt_block (BlockLaws := Laws) _ IH).
Qed.

Lemma magic_blocks i : In i [0; 8; 16]%nat -> block_ok 8 (firstn 8 (skipn i magicCipherData)).
Proof.
  assert (bytes_ok magicCipherData) as Om.
  { apply Forall_forall. intros x Hx. assert (forallb (fun x => (0 <=? x) && (x <? 256)) magicCipherData = true)
      as A by reflexivity. rewrite forallb_forall in A. specialize (A x Hx). unfold byte_ok. lia. }
  intros Hi. split; [| auto with bytes].
  cbn [In] in Hi. destruct Hi as [<- | [<- | [<- | []]]]; reflexivity.
Qed.

(** Passwords with the same key bytes have the same hash, of 31 characters. *)
Lemma bcrypt_spec pw pw' sp sp' c salt csalt : bytes_ok pw -> bytes_ok pw' -> same_key pw pw' ->
  base64Decode salt = Some csalt ->
  exists h, fst (bcrypt (MkSlice pw sp) c salt) = Return (inr h) /\
    fst (bcrypt (MkSlice pw' sp') c salt) = Return (inr h) /\ length h = 31%nat /\ Forall plain h.
Proof.
  intros O O' Same D.
  destruct (setup_spec pw pw' sp sp' (uint32 c) salt csalt O O' Same D) as (ci & E & E' & Hc).
  unfold bcrypt. destruct (expensiveBlowfishSetup (MkSlice pw sp) _ _) as [r s1].
  destruct (expensiveBlowfishSetup (MkSlice pw' sp') _ _) as [r' s1']. cbn [fst] in *. subst r r'. cbn [obind].
  set (data := flat_map _ _).
  assert (block_ok 24 data) as [Ld Od].
  { unfold data. cbn [flat_map]. rewrite app_nil_r.
    destruct (encrypt64_ok ci _ Hc (magic_blocks 0 ltac:(now left))) as [L0 O0].
    destruct (encrypt64_ok ci _ Hc (magic_blocks 8 ltac:(right; now left))) as [L1 O1].
    destruct (encrypt64_ok ci _ Hc (magic_blocks 16 ltac:(right; right; now left))) as [L2 O2].
    split; [rewrite !length_app, L0, L1, L2; reflexivity | auto using bytes_ok_app]. }
  destruct (hash_encoded (firstn maxCryptedHashSize data)) as (h & -> & Lh & Ah);
    [rewrite length_firstn, Ld; reflexivity | auto with bytes |].
  exists h. cbn [obind fst]. auto.
Qed.

Lemma bcrypt_corrupt pw c salt : base64Decode salt = None ->
  fst (bcrypt pw c salt) = Return (inl CorruptInputError).
Proof. intros D. unfold bcrypt, expensiveBlowfishSetup. now rewrite D. Qed.

Lemma same_key_refl pw : same_key pw pw.
Proof. now intros j _. Qed.

(** ** The exported functions *)

Lemma plain_nonzero h : Forall plain h -> Forall (fun c => c <> 0) h.
Proof. apply Forall_impl. unfold plain. tauto. Qed.

(** A comparison always returns; it succeeds when the salt decodes and the 31 characters behind
    it are the hash of the password. *)
Lemma Compare_spec h pw sp : bytes_ok pw ->
  exists r, fst (CompareHashAndPassword h (MkSlice pw sp)) = Return r /\
    (r = None <-> exists p other, newFromHash h = inr p /\
       fst (bcrypt (MkSlice pw sp) (cost p) (salt p)) = Return (inr other) /\ firstn 31 (hash p) = other).
Proof.
  intros O. unfold CompareHashAndPassword. destruct (newFromHash h) as [err | p] eqn:E.
  { exists (Some err). split; [reflexivity |]. split; [discriminate |]. now intros (p & other & F & _). }
  pose proof (newFromHash_salt h p E) as Ls. destruct (base64Decode (salt p)) as [csalt |] eqn:D.
  - destruct (bcrypt_spec pw pw sp sp (cost p) (salt p) csalt O O (same_key_refl pw) D)
      as (other & Eb & _ & Lo & Ao).
    destruct (bcrypt (MkSlice pw sp) (cost p) (salt p)) as [r1 s1] eqn:B1. cbn [fst] in *. subst r1.
    cbn [obind]. eexists. split; [reflexivity |].
    pose proof (cutHash_eq (hash p) other Lo (plain_nonzero _ Ao)) as C.
    set (otherP := MkHashed other (salt p) (cost p) (major p) (minor p)).
    assert (Hash p = Hash otherP <-> firstn 31 (hash p) = other) as HE.
    { rewrite !Hash_layout by exact Ls. change (front otherP) with (front p).
      change (salt otherP) with (salt p). change (hash otherP) with other. rewrite <- C.
      split; [intros H; now do 2 apply app_inv_head in H | congruence]. }
    destruct (list_eq_dec Z.eq_dec (Hash p) (Hash otherP)) as [Heq | Hne].
    + split; [| reflexivity]. intros _. exists p, other. rewrite B1. split; [reflexivity |]. split; [reflexivity | tauto].
    + split; [discriminate |]. intros (p' & o' & Ep & Eo & F). apply inr_inj in Ep. subst p'.
      rewrite B1 in Eo. cbn [fst] in Eo. apply Return_inj, inr_inj in Eo. destruct Hne. apply HE. congruence.
  - pose proof (bcrypt_corrupt (MkSlice pw sp) (cost p) (salt p) D) as Eb.
    destruct (bcrypt (MkSlice pw sp) (cost p) (salt p)) as [r1 s1] eqn:B1. cbn [fst] in *. subst r1.
    cbn [obind]. eexists. split; [reflexivity |]. split; [discriminate |].
    intros (p' & o' & Ep & Eo & _). apply inr_inj in Ep. subst p'. rewrite B1 in Eo. discriminate Eo.
Qed.

Definition effectiveCost (cost : Z) : Z := if cost <? MinCost then DefaultCost else cost.

Lemma effectiveCost_range cost : cost <= MaxCost -> MinCost <= effectiveCost cost <= MaxCost.
Proof.
  unfold effectiveCost, MinCost, MaxCost, DefaultCost. intros Hc. destruct (Z.ltb_spec cost 4); lia.
Qed.

(** What [GenerateFromPassword] makes: the layout of a hash of 31 characters. *)
Lemma Generate_spec rnd pw pw' sp sp' cost : length rnd = 16%nat -> bytes_ok rnd ->
  bytes_ok pw -> bytes_ok pw' -> same_key pw pw' -> cost <= MaxCost ->
  exists h s, fst (GenerateFromPassword (Some rnd) (MkSlice pw sp) cost) =
      Return (inr (Hash (MkHashed h s (effectiveCost cost) majorVersion minorVersion))) /\
    length h = 31%nat /\ length s = 22%nat /\
    fst (bcrypt (MkSlice pw' sp') (effectiveCost cost) s) = Return (inr h).
Proof.
  intros Lr Or O O' Same Hc. pose proof (effectiveCost_range cost Hc) as He.
  destruct (salt_roundtrip rnd Lr Or) as (s & Es & Ls & _ & D).
  destruct (bcrypt_spec pw pw' sp sp' (effectiveCost cost) s rnd O O' Same D) as (h & Eh & Eh' & Lh & _).
  exists h, s. split; [| auto]. unfold GenerateFromPassword, newFromPassword. cbv zeta.
  fold (effectiveCost cost). unfold checkCost.
  rewrite (proj2 (Z.ltb_ge _ _)), (proj2 (Z.ltb_ge MaxCost _)) by lia. cbn [orb]. rewrite Es.
  destruct (bcrypt (MkSlice pw sp) (effectiveCost cost) s) as [r1 s1]. cbn [fst] in *. now subst r1.
Qed.

Lemma Generate_refuses rand pw cost :
  (MaxCost < cost -> fst (GenerateFromPassword rand pw cost) = Return (inl (InvalidCostError cost))) /\
  (cost <= MaxCost -> fst (GenerateFromPassword None pw cost) = Return (inl RandError)).
Proof.
  unfold GenerateFromPassword, newFromPassword. cbv zeta. fold (effectiveCost cost). split; intros Hc.
  - assert (effectiveCost cost = cost) as -> by
      (unfold effectiveCost, MinCost, MaxCost in *; now rewrite (proj2 (Z.ltb_ge _ _)) by lia).
    unfold checkCost. rewrite (proj2 (Z.ltb_lt MaxCost _) Hc), orb_true_r. reflexivity.
  - pose proof (effectiveCost_range cost Hc). unfold checkCost.
    rewrite (proj2 (Z.ltb_ge _ _)), (proj2 (Z.ltb_ge MaxCost _)) by lia. reflexivity.
Qed.

(** The byte behind the password. *)
Lemma Generate_spare rnd pw x sp cost : length rnd = 16%nat -> bytes_ok rnd -> cost <= MaxCost ->
  snd (GenerateFromPassword (Some rnd) (MkSlice pw (x :: sp)) cost) = MkSlice pw (0 :: sp).
Proof.
  intros Lr Or Hc. pose proof (effectiveCost_range cost Hc) as He.
  destruct (salt_roundtrip rnd Lr Or) as (s & Es & Ls & _ & D).
  unfold GenerateFromPassword, newFromPassword. cbv zeta. fold (effectiveCost cost). unfold checkCost.
  rewrite (proj2 (Z.ltb_ge _ _)), (proj2 (Z.ltb_ge MaxCost _)) by lia. cbn [orb]. rewrite Es.
  unfold bcrypt, expensiveBlowfishSetup. rewrite D. reflexivity.
Qed.

(** Passwords that agree in 72 bytes. *)
Lemma same_key_long pw pw' : (72 <= length pw)%nat -> (72 <= length pw')%nat ->
  firstn 72 pw = firstn 72 pw' -> same_key pw pw'.
Proof.
  intros L L' E j Hj. unfold circular. rewrite !length_app. cbn [length].
  rewrite !Nat.mod_small, !app_nth1 by lia.
  assert (forall l : list Z, nth j l 0 = nth j (firstn 72 l) 0) as G
    by (intros l; rewrite nth_firstn; now rewrite (proj2 (Nat.ltb_lt j 72) Hj)).
  now rewrite (G pw), (G pw'), E.
Qed.

(** A password and its repetition behind a zero. *)
Lemma same_key_repeated pw : same_key pw (pw ++ 0 :: pw).
Proof.
  intros j _. unfold circular. set (k := pw ++ [0]).
  assert ((pw ++ 0 :: pw) ++ [0] = k ++ k) as ->
    by (unfold k; rewrite <- !app_assoc; reflexivity).
  assert (0 < length k)%nat as Lk by (unfold k; rewrite length_app; cbn; lia).
  rewrite length_app. pose proof (Nat.mod_upper_bound j (length k + length k) ltac:(lia)) as U.
  pose proof (Nat.mod_upper_bound j (length k) ltac:(lia)) as U1.
  assert (j mod length k = (j mod (length k + length k)) mod length k)%nat as ->.
  { pose proof (Nat.div_mod_eq j (length k + length k)) as E. rewrite E at 1.
    replace ((length k + length k) * (j / (length k + length k)) + j mod (length k + length k))%nat
      with (j mod (length k + length k) + (2 * (j / (length k + length k))) * length k)%nat by lia.
    apply Nat.Div0.mod_add. }
  set (m := (j mod (length k + length k))%nat) in *.
  destruct (Nat.lt_ge_cases m (length k)) as [Lt | Ge].
  - now rewrite Nat.mod_small, app_nth1 by lia.
  - rewrite app_nth2 by lia. f_equal. replace m with (m - length k + 1 * length k)%nat at 1 by lia.
    rewrite Nat.Div0.mod_add. apply Nat.mod_small. lia.
Qed.

(** ** Properties *)

(** C40: a cost above 31 and a failing random source are errors, a cost below 4
    is taken as 10.  Otherwise [GenerateFromPassword] returns 60 bytes, from which [Cost]
    reads the cost back, and with which [CompareHashAndPassword] accepts the password; it also
    accepts every other password with the same key bytes (one that agrees with it in the
    first 72 bytes, or its repetition behind a zero byte), and ignores whatever stands behind
    the hash.  On any input the comparison returns without panicking, and it succeeds exactly
    when the hash parses and the 31 characters behind the salt are the hash of the password.
    The byte behind the password in the caller's array, if there is one, is set to zero. *)
Theorem bcrypt_passwords rnd pw pw' sp sp' c junk :
  length rnd = 16%nat -> bytes_ok rnd -> bytes_ok pw -> bytes_ok pw' ->
  (MaxCost < c -> fst (GenerateFromPassword (Some rnd) (MkSlice pw sp) c) = Return (inl (InvalidCostError c))) /\
  (c <= MaxCost ->
   fst (GenerateFromPassword None (MkSlice pw sp) c) = Return (inl RandError) /\
   (forall x rest, sp = x :: rest ->
      spare (snd (GenerateFromPassword (Some rnd) (MkSlice pw sp) c)) = 0 :: rest) /\
   exists h, fst (GenerateFromPassword (Some rnd) (MkSlice pw sp) c) = Return (inr h) /\
     length h = 60%nat /\ Cost h = inr (effectiveCost c) /\
     (same_key pw pw' -> fst (CompareHashAndPassword (h ++ junk) (MkSlice pw' sp')) = Return None)) /\
  same_key pw pw /\ same_key pw (pw ++ 0 :: pw) /\
  ((72 <= length pw)%nat -> (72 <= length pw')%nat -> firstn 72 pw = firstn 72 pw' -> same_key pw pw') /\
  (forall h, exists r, fst (CompareHashAndPassword h (MkSlice pw sp)) = Return r /\
    (r = None <-> exists p other, newFromHash h = inr p /\
       fst (bcrypt (MkSlice pw sp) (cost p) (salt p)) = Return (inr other) /\ firstn 31 (hash p) = other)).
Proof.
  intros Lr Or O O'. split; [apply Generate_refuses |]. split.
  - intros Hc. split; [exact (proj2 (Generate_refuses None _ c) Hc) |].
    split; [intros x rest ->; now rewrite (Generate_spare rnd pw x rest c Lr Or Hc) |].
    destruct (Generate_spec rnd pw pw sp sp c Lr Or O O (same_key_refl pw) Hc) as (h & s & E & Lh & Ls & _).
    pose proof (effectiveCost_range c Hc) as He.
    eexists. split; [exact E |]. set (p := MkHashed h s _ _ _).
    pose proof (fun j => newFromHash_Hash h s (effectiveCost c) j Lh Ls He) as N. cbv zeta in N. fold p in N.
    split; [| split].
    + rewrite Hash_layout by exact Ls. rewrite !length_app. cbn [salt hash p].
      rewrite cutHash_full, Lh, Ls by exact Lh. reflexivity.
    + unfold Cost. specialize (N []). rewrite !app_nil_r in N. now rewrite N.
    + intros Same. destruct (Compare_spec (Hash p ++ junk) pw' sp' O') as (r & -> & Hr).
      apply f_equal, Hr.
      destruct (Generate_spec rnd pw pw' sp sp' c Lr Or O O' Same Hc) as (h' & s' & E' & Lh' & Ls' & Eb).
      assert (h' = h /\ s' = s) as [-> ->].
      { rewrite E in E'. apply Return_inj, inr_inj in E'. rewrite !Hash_layout in E' by assumption.
        apply app_inv_head in E'. cbn [salt hash] in E'. rewrite !cutHash_full in E' by assumption.
        apply (f_equal (firstn 22)) in E' as F1. apply (f_equal (skipn 22)) in E' as F2.
        now rewrite !(firstn_app_exact 22) in F1; rewrite ?(skipn_app_exact 22) in F2. }
      exists (MkHashed (h ++ junk) s (effectiveCost c) majorVersion minorVersion), h.
      split; [apply N |]. split; [exact Eb |]. cbn [hash]. now apply firstn_app_exact.
  - split; [apply same_key_refl |]. split; [apply same_key_repeated |].
    split; [apply same_key_long |]. intros h. now apply Compare_spec.
Qed.

Lemma bcrypt_passwords_witness :
  exists h, fst (GenerateFromPassword (Some (repeat 7 16)) (MkSlice (repeat 1 80) [9]) 4) = Return (inr h) /\
    length h = 60%nat /\
    fst (CompareHashAndPassword (h ++ [33]) (MkSlice (repeat 1 72) [])) = Return None.
Proof.
  assert (forall b n, byte_ok b -> bytes_ok (repeat b n)) as R
    by (intros b n Hb; apply Forall_forall; now intros x ->%repeat_spec).
  destruct (bcrypt_passwords (repeat 7 16) (repeat 1 80) (repeat 1 72) [9] [] 4 [33])
    as (_ & G & _ & _ & S & _);
    [reflexivity | apply R; unfold byte_ok; lia .. |].
  destruct G as (_ & _ & h & E & L & _ & A); [unfold MaxCost; lia |].
  exists h. split; [exact E |]. split; [exact L |].
  apply A, S; [apply le_n_S, Nat.leb_le; reflexivity | apply le_n | reflexivity].
Defined.
