(* ===== verification/Cosi.v ===== *)
(** * Collective signatures

    Model of [src/golang-x-crypto/ed25519/cosi]: the [Cosigners] object of
    [cosi.go] with its participation mask and cached aggregate key, the signing
    operations of [sign.go] and the verification of [verify.go].  A [Cosigners]
    is a record that the operations replace; a nil slice or pointer is [None],
    and an index out of range or a nil dereference is [Panic]. *)

From S2P Require Import Prelude Primality Field25519 Edwards FieldElement FieldCodec GroupElement BaseTable BasePoint ScalarMult Scalar GroupOrder Sha2 Ed25519.

Local Open Scope go_scope.

(** ** The code: [cosi.go] *)

(** [type MaskBit bool]. *)
Definition MaskBit : Type := bool.

Definition Enabled : MaskBit := false.

Definition Disabled : MaskBit := true.

(** The fields a [Policy] can look at. *)
Record signers := Signers {
  keys : list ExtendedGroupElement;
  mask : list Z;
  aggr : ExtendedGroupElement }.

(** [type Policy interface { Check(cosigners *Cosigners) bool }]. *)
Definition Policy : Type := signers -> outcome bool.

Record Cosigners := MkCosigners {
  group : signers;
  policy : option Policy }.

(** Slice accesses. *)
Definition byteAt (l : list Z) (i : Z) : outcome Z :=
  if (0 <=? i) && (i <? Z.of_nat (length l)) then Return (nth (Z.to_nat i) l 0) else Panic.

Definition keyAt (l : list ExtendedGroupElement) (i : Z) : outcome ExtendedGroupElement :=
  if (0 <=? i) && (i <? Z.of_nat (length l))
  then Return (nth (Z.to_nat i) l Extended_var) else Panic.

Definition maskByt (signer : Z) : Z := Z.shiftr signer 3.

Definition maskBit (signer : Z) : Z := uint8 (Z.shiftl 1 (Z.land signer 7)).

(** [cos.mask[byt] |= bit; cos.aggr.Sub(&cos.aggr, &cos.keys[i])]. *)
Definition disableSigner (c : signers) (i : Z) : outcome signers :=
  b <- byteAt (mask c) (maskByt i);;
  k <- keyAt (keys c) i;;
  Return (Signers (keys c)
            (set_nth (Z.to_nat (maskByt i)) (Z.lor b (maskBit i)) (mask c))
            (Extended_Sub (aggr c) k)).

(** [cos.mask[byt] &^= bit; cos.aggr.Add(&cos.aggr, &cos.keys[i])]. *)
Definition enableSigner (c : signers) (i : Z) : outcome signers :=
  b <- byteAt (mask c) (maskByt i);;
  k <- keyAt (keys c) i;;
  Return (Signers (keys c)
            (set_nth (Z.to_nat (maskByt i)) (Z.ldiff b (maskBit i)) (mask c))
            (Extended_Add (aggr c) k)).

(** One iteration of [SetMask]. *)
Definition SetMask_step (newMask : list Z) (c : signers) (i : Z) : outcome signers :=
  b <- byteAt (mask c) (maskByt i);;
  if (maskByt i <? Z.of_nat (length newMask)) &&
     negb (Z.land (nth (Z.to_nat (maskByt i)) newMask 0) (maskBit i) =? 0)
  then if Z.land b (maskBit i) =? 0 then disableSigner c i else Return c
  else if negb (Z.land b (maskBit i) =? 0) then enableSigner c i else Return c.

(** [for i := range cos.keys]. *)
Fixpoint forKeys {A : Type} (n : nat) (body : A -> Z -> outcome A) (a : A) : outcome A :=
  match n with
  | O => Return a
  | S n => a <- forKeys n body a;; body a (Z.of_nat n)
  end.

Definition SetMask_signers (c : signers) (newMask : list Z) : outcome signers :=
  forKeys (length (keys c)) (SetMask_step newMask) c.

Definition SetMask (cos : Cosigners) (newMask : list Z) : outcome Cosigners :=
  c <- SetMask_signers (group cos) newMask;; Return (MkCosigners c (policy cos)).

Definition CountTotal (c : signers) : Z := Z.of_nat (length (keys c)).

Definition CountEnabled (c : signers) : outcome Z :=
  forKeys (length (keys c)) (fun count i =>
    b <- byteAt (mask c) (maskByt i);;
    Return (if Z.land b (maskBit i) =? 0 then count + 1 else count)) 0.

Definition Mask (cos : Cosigners) : list Z := mask (group cos).

Definition MaskLen (cos : Cosigners) : Z :=
  Z.shiftr (Z.of_nat (length (keys (group cos))) + 7) 3.

Definition SetMaskBit (cos : Cosigners) (signer : Z) (value : MaskBit) : outcome Cosigners :=
  let c := group cos in
  b <- byteAt (mask c) (maskByt signer);;
  c' <- (if Bool.eqb value Disabled then
           if Z.land b (maskBit signer) =? 0 then disableSigner c signer else Return c
         else
           if negb (Z.land b (maskBit signer) =? 0) then enableSigner c signer else Return c);;
  Return (MkCosigners c' (policy cos)).

Definition Cosigners_MaskBit (cos : Cosigners) (signer : Z) : outcome MaskBit :=
  b <- byteAt (mask (group cos)) (maskByt signer);;
  Return (negb (Z.land b (maskBit signer) =? 0)).

Definition fullPolicy : Policy := fun c =>
  n <- CountEnabled c;; Return (n =? CountTotal c).

Definition thresPolicy (t : Z) : Policy := fun c =>
  n <- CountEnabled c;; Return (t <=? n).

Definition ThresholdPolicy (threshold : Z) : Policy := thresPolicy threshold.

(** The loop of [NewCosigners]: [pkBytes] is shared by the iterations, so a short
    key leaves the tail of the previous one in place.  [None] is the early
    [return nil]. *)
Fixpoint loadKeys (publicKeys : list (list Z)) (pkBytes : list Z)
    (ks : list ExtendedGroupElement) (ag : ExtendedGroupElement) :
    option (list ExtendedGroupElement * ExtendedGroupElement) :=
  match publicKeys with
  | [] => Some (ks, ag)
  | pk :: publicKeys =>
      let pkBytes := copy pkBytes pk in
      let '(ok, k) := Extended_FromBytes Extended_var pkBytes in
      if negb ok then None
      else loadKeys publicKeys pkBytes (ks ++ [k]) (Extended_Add ag k)
  end.

Definition NewCosigners (publicKeys : list (list Z)) (newMask : option (list Z)) :
    outcome (option Cosigners) :=
  match loadKeys publicKeys zero32 [] Extended_Zero with
  | None => Return None
  | Some (ks, ag) =>
      let mk := repeat 0 (Z.to_nat (Z.shiftr (Z.of_nat (length publicKeys) + 7) 3)) in
      let cos := MkCosigners (Signers ks mk ag) (Some fullPolicy) in
      match newMask with
      | None => Return (Some cos)
      | Some m => cos <- SetMask cos m;; Return (Some cos)
      end
  end.

(** ** The code: [sign.go] *)

Record Secret := MkSecret { sec_reduced : list Z; sec_valid : bool }.

(** [read] is what [io.ReadFull] returns for 64 bytes. *)
Definition Commit (read : option (list Z)) : option (list Z * Secret) :=
  match read with
  | None => None
  | Some secretFull =>
      let secret := MkSecret (ScReduce secretFull) true in
      let R := GeScalarMultBase (sec_reduced secret) in
      Some (Extended_ToBytes R, secret)
  end.

(** The signature part and the new value of [*secret]. *)
Definition Cosign (privateKey : list Z) (secret : Secret)
    (message aggregateK aggregateR : list Z) : outcome (list Z * Secret) :=
  if negb (length privateKey =? PrivateKeySize)%nat then Panic
  else if negb (length aggregateR =? PublicKeySize)%nat then Panic
  else if negb (sec_valid secret) then Panic
  else
    let digest1 := sha512 (firstn 32 privateKey) in
    let expandedSecretKey := clamp 63 (copy zero32 digest1) in
    let hramDigest := sha512 (aggregateR ++ aggregateK ++ message) in
    let hramDigestReduced := ScReduce hramDigest in
    let s := ScMulAdd hramDigestReduced expandedSecretKey (sec_reduced secret) in
    Return (s, MkSecret zero32 false).

Definition AggregatePublicKey (cos : Cosigners) : list Z :=
  Extended_ToBytes (aggr (group cos)).

Definition nthSlice (l : list (list Z)) (i : Z) : outcome (list Z) :=
  if (0 <=? i) && (i <? Z.of_nat (length l)) then Return (nth (Z.to_nat i) l []) else Panic.

(** One iteration of [AggregateCommit]; the inner [None] is [return nil]. *)
Definition AggregateCommit_step (commits : list (list Z))
    (st : option (list Z * ExtendedGroupElement * ExtendedGroupElement)) (i : Z) :
    outcome (option (list Z * ExtendedGroupElement * ExtendedGroupElement)) :=
  match st with
  | None => Return None
  | Some (commitBytes, indivR, aggR) =>
      commit <- nthSlice commits i;;
      if negb (length commit =? PublicKeySize)%nat then Return None
      else
        let commitBytes := copy commitBytes commit in
        let '(ok, indivR) := Extended_FromBytes indivR commitBytes in
        if negb ok then Return None
        else Return (Some (commitBytes, indivR, Extended_Add aggR indivR))
  end.

Definition AggregateCommit (cos : Cosigners) (commits : list (list Z)) :
    outcome (option (list Z)) :=
  st <- forKeys (length (keys (group cos))) (AggregateCommit_step commits)
          (Some (zero32, Extended_var, Extended_Zero));;
  match st with
  | None => Return None
  | Some (_, _, aggR) => Return (Some (Extended_ToBytes aggR))
  end.

Definition scOne : list Z := 1 :: repeat 0 31.

Definition AggregateSignature_step (sigParts : list (list Z)) (st : option (list Z)) (i : Z) :
    outcome (option (list Z)) :=
  match st with
  | None => Return None
  | Some aggS =>
      part <- nthSlice sigParts i;;
      if negb (length part =? 32)%nat then Return None
      else
        let indivS := copy zero32 part in
        Return (Some (ScMulAdd aggS scOne indivS))
  end.

Definition AggregateSignature (cos : Cosigners) (aggregateR : list Z) (sigParts : list (list Z)) :
    outcome (option (list Z)) :=
  if negb (length aggregateR =? PublicKeySize)%nat then Panic
  else
    st <- forKeys (length (keys (group cos))) (AggregateSignature_step sigParts) (Some zero32);;
    match st with
    | None => Return None
    | Some aggS => Return (Some (aggregateR ++ aggS))
    end.

(** ** The code: [verify.go] *)

Definition verify (cos : Cosigners) (message aggR sigR sigS : list Z)
    (sigA : ExtendedGroupElement) : bool :=
  if negb (length sigR =? 32)%nat || negb (length sigS =? 32)%nat ||
     negb (Z.land (nth 31 sigS 0) 224 =? 0)
  then false
  else
    let aggK := Extended_ToBytes (aggr (group cos)) in
    let digest := sha512 (aggR ++ aggK ++ message) in
    let hReduced := ScReduce digest in
    let b := copy zero32 sigS in
    let projR := GeDoubleScalarMultVartime hReduced (negate sigA) b in
    let checkR := Projective_ToBytes projR in
    bytes_equal sigR checkR.

Definition VerifyPart (cos : Cosigners) (message aggR : list Z) (signer : Z)
    (indR indS : list Z) : outcome bool :=
  k <- keyAt (keys (group cos)) signer;;
  Return (verify cos message aggR indR indS k).

(** The result and the [Cosigners] with the mask of the signature. *)
Definition Cosigners_Verify (cos : Cosigners) (message sig : list Z) :
    outcome (bool * Cosigners) :=
  if (length sig <? SignatureSize)%nat then Return (false, cos)
  else
    let newMask :=
      if (SignatureSize <? length sig)%nat then skipn 64 sig
      else repeat 0 (Z.to_nat (Z.quot (Z.of_nat (length (keys (group cos))) + 7) 8)) in
    let sig := firstn 64 sig in
    cos <- SetMask cos newMask;;
    ok <- (match policy cos with
           | None => Return true
           | Some check => check (group cos)
           end);;
    if negb ok then Return (false, cos)
    else Return (verify cos message (firstn 32 sig) (firstn 32 sig) (skipn 32 sig)
                   (aggr (group cos)), cos).

(** A nil policy selects the default one. *)
Definition SetPolicy (cos : Cosigners) (p : option Policy) : Cosigners :=
  MkCosigners (group cos) (Some (match p with None => fullPolicy | Some p => p end)).

(** [NewCosigners] may return nil, and [SetPolicy] then dereferences it. *)
Definition Verify (publicKeys : list (list Z)) (p : option Policy) (message sig : list Z) :
    outcome bool :=
  if (length sig <? SignatureSize)%nat then Return false
  else
    r <- NewCosigners publicKeys (Some (skipn 64 sig));;
    match r with
    | None => Panic
    | Some cos =>
        r <- Cosigners_Verify (SetPolicy cos p) message sig;;
        Return (fst r)
    end.

(** ** Mask bits *)

(** Signer [i] is disabled when its bit is set; a mask that is too short enables
    the signers it does not cover. *)
Definition disabled (m : list Z) (i : nat) : bool :=
  Z.testbit (nth (i / 8) m 0) (Z.of_nat (i mod 8)).

Lemma maskByt_nat i : maskByt (Z.of_nat i) = Z.of_nat (i / 8).
Proof.
  unfold maskByt. rewrite Z.shiftr_div_pow2, Nat2Z.inj_div by lia. reflexivity.
Qed.

Lemma maskBit_nat i : maskBit (Z.of_nat i) = 2 ^ Z.of_nat (i mod 8).
Proof.
  unfold maskBit. rewrite (Z.land_ones _ 3), Z.shiftl_1_l, Nat2Z.inj_mod by lia.
  change (2 ^ 3) with (Z.of_nat 8). apply uint8_id.
  pose proof (Z.mod_pos_bound (Z.of_nat i) (Z.of_nat 8)).
  split; [apply Z.pow_nonneg; lia |].
  change 256 with (2 ^ 8). apply Z.pow_lt_mono_r; lia.
Qed.

Lemma land_bit b k : 0 <= k -> (Z.land b (2 ^ k) =? 0) = negb (Z.testbit b k).
Proof.
  intros Hk. assert (Z.land b (2 ^ k) = if Z.testbit b k then 2 ^ k else 0) as ->.
  { apply Z.bits_inj'. intros i Hi. rewrite Z.land_spec, Z.pow2_bits_eqb by exact Hk.
    destruct (Z.eqb_spec k i) as [<- | N].
    - destruct (Z.testbit b k) eqn:E; [now rewrite Z.pow2_bits_true | now rewrite Z.bits_0].
    - rewrite andb_false_r. destruct (Z.testbit b k); [| now rewrite Z.bits_0].
      now rewrite Z.pow2_bits_false. }
  destruct (Z.testbit b k); [| reflexivity].
  apply Z.eqb_neq, Z.pow_nonzero; lia.
Qed.

Lemma byte_bit_ops b k : byte_ok b -> (k < 8)%nat ->
  byte_ok (Z.lor b (2 ^ Z.of_nat k)) /\ byte_ok (Z.ldiff b (2 ^ Z.of_nat k)).
Proof.
  intros Hb Hk.
  apply (Z_range_check (fun b => forallb (fun k =>
    (0 <=? Z.lor b (2 ^ Z.of_nat k)) && (Z.lor b (2 ^ Z.of_nat k) <? 256) &&
    (0 <=? Z.ldiff b (2 ^ Z.of_nat k)) && (Z.ldiff b (2 ^ Z.of_nat k) <? 256)) (seq 0 8)) 0 256)
    in Hb; [| vm_compute; reflexivity].
  rewrite forallb_forall in Hb. specialize (Hb k ltac:(apply in_seq; lia)).
  rewrite !andb_true_iff, !Z.leb_le, !Z.ltb_lt in Hb. unfold byte_ok. tauto.
Qed.

Lemma disabled_set_nth m i v j :
  (i / 8 < length m)%nat ->
  disabled (set_nth (i / 8) v m) j =
  if Nat.eqb (j / 8) (i / 8) then Z.testbit v (Z.of_nat (j mod 8)) else disabled m j.
Proof.
  intros H. unfold disabled. rewrite nth_set_nth by exact H.
  destruct (Nat.eqb (j / 8) (i / 8)); reflexivity.
Qed.

Lemma same_bit i j : (j / 8 = i / 8)%nat -> (i mod 8 = j mod 8)%nat <-> j = i.
Proof.
  intros E. pose proof (Nat.div_mod_eq i 8). pose proof (Nat.div_mod_eq j 8). lia.
Qed.

Lemma disabled_lor m i j :
  (i / 8 < length m)%nat ->
  disabled (set_nth (i / 8) (Z.lor (nth (i / 8) m 0) (2 ^ Z.of_nat (i mod 8))) m) j =
  if Nat.eqb j i then true else disabled m j.
Proof.
  intros H. rewrite disabled_set_nth by exact H.
  destruct (Nat.eqb_spec (j / 8) (i / 8)) as [E | E].
  - rewrite Z.lor_spec, Z.pow2_bits_eqb by lia. pose proof (same_bit i j E) as S.
    destruct (Z.eqb_spec (Z.of_nat (i mod 8)) (Z.of_nat (j mod 8))), (Nat.eqb_spec j i);
      first [lia | apply orb_true_r | rewrite orb_false_r; unfold disabled; now rewrite E].
  - destruct (Nat.eqb_spec j i); [congruence | reflexivity].
Qed.

Lemma disabled_ldiff m i j :
  (i / 8 < length m)%nat ->
  disabled (set_nth (i / 8) (Z.ldiff (nth (i / 8) m 0) (2 ^ Z.of_nat (i mod 8))) m) j =
  if Nat.eqb j i then false else disabled m j.
Proof.
  intros H. rewrite disabled_set_nth by exact H.
  destruct (Nat.eqb_spec (j / 8) (i / 8)) as [E | E].
  - rewrite Z.ldiff_spec, Z.pow2_bits_eqb by lia. pose proof (same_bit i j E) as S.
    destruct (Z.eqb_spec (Z.of_nat (i mod 8)) (Z.of_nat (j mod 8))), (Nat.eqb_spec j i);
      first [lia | apply andb_false_r | rewrite andb_true_r; unfold disabled; now rewrite E].
  - destruct (Nat.eqb_spec j i); [congruence | reflexivity].
Qed.

(** ** Sums of keys *)

(** The sum of the keys that [dis] does not exclude, from index [i] on. *)
Fixpoint sumFrom (dis : nat -> bool) (i : nat) (Ks : list point) : point :=
  match Ks with
  | [] => pzero
  | K :: Ks => padd (if dis i then pzero else K) (sumFrom dis (S i) Ks)
  end.

Definition sumAll (Ks : list point) : point := fold_right padd pzero Ks.

Lemma sumFrom_ext dis dis' i Ks :
  (forall j, (i <= j < i + length Ks)%nat -> dis j = dis' j) ->
  sumFrom dis i Ks = sumFrom dis' i Ks.
Proof.
  revert i; induction Ks as [| K Ks IH]; intros i H; [reflexivity |].
  cbn [sumFrom length] in *. rewrite (H i) by lia. f_equal. apply IH. intros j Hj. apply H. lia.
Qed.

Lemma sumFrom_none dis i Ks :
  (forall j, (i <= j < i + length Ks)%nat -> dis j = false) -> sumFrom dis i Ks = sumAll Ks.
Proof.
  revert i; induction Ks as [| K Ks IH]; intros i H; [reflexivity |].
  cbn [sumFrom length sumAll fold_right] in *. rewrite (H i) by lia. f_equal. apply IH.
  intros j Hj. apply H. lia.
Qed.

(** Excluding or including one key changes the sum by that key. *)
Lemma sumFrom_change dis dis' k i Ks :
  (forall j, j <> k -> dis' j = dis j) -> (i <= k < i + length Ks)%nat ->
  padd (sumFrom dis' i Ks) (if dis k then pzero else nth (k - i) Ks pzero) =
  padd (sumFrom dis i Ks) (if dis' k then pzero else nth (k - i) Ks pzero).
Proof.
  revert i; induction Ks as [| K Ks IH]; intros i H Hk; [cbn in Hk; lia |].
  cbn [sumFrom length] in *. destruct (Nat.eq_dec i k) as [-> | N].
  - rewrite Nat.sub_diag. cbn [nth].
    rewrite (sumFrom_ext dis' dis (S k)) by (intros j Hj; apply H; lia).
    set (S0 := sumFrom dis (S k) Ks).
    rewrite (padd_comm _ S0), (padd_comm (if dis k then _ else _) S0), !padd_assoc.
    f_equal. apply padd_comm.
  - rewrite (H i N), !padd_assoc. f_equal.
    replace (k - i)%nat with (S (k - S i)) by lia. cbn [nth]. apply IH; [exact H | lia].
Qed.

Lemma sumFrom_exclude dis dis' k Ks :
  (forall j, j <> k -> dis' j = dis j) -> (k < length Ks)%nat -> dis k = false -> dis' k = true ->
  sumFrom dis' 0 Ks = padd (sumFrom dis 0 Ks) (popp (nth k Ks pzero)).
Proof.
  intros H Hk D D'. pose proof (sumFrom_change dis dis' k 0 Ks H ltac:(lia)) as E.
  rewrite D, D', Nat.sub_0_r, padd_zero_r in E.
  rewrite <- E, padd_assoc, padd_opp_r, padd_zero_r. reflexivity.
Qed.

Lemma sumFrom_include dis dis' k Ks :
  (forall j, j <> k -> dis' j = dis j) -> (k < length Ks)%nat -> dis k = true -> dis' k = false ->
  sumFrom dis' 0 Ks = padd (sumFrom dis 0 Ks) (nth k Ks pzero).
Proof.
  intros H Hk D D'. pose proof (sumFrom_change dis dis' k 0 Ks H ltac:(lia)) as E.
  now rewrite D, D', Nat.sub_0_r, padd_zero_r in E.
Qed.

(** ** The invariant of a [Cosigners] object *)

(** The keys are the points [Ks], the mask covers them, and the cached aggregate
    is the sum of the enabled ones. *)
Record signers_ok (c : signers) (Ks : list point) : Prop := {
  so_keys : Forall2 ext_repr (keys c) Ks;
  so_len : length (mask c) = ((length Ks + 7) / 8)%nat;
  so_mask : bytes_ok (mask c);
  so_aggr : ext_repr (aggr c) (sumFrom (disabled (mask c)) 0 Ks) }.

Section invariant.
Context (c : signers) (Ks : list point) (Hc : signers_ok c Ks).

Lemma mask_index i : (i < length Ks)%nat -> (i / 8 < length (mask c))%nat.
Proof.
  intros Hi. rewrite (so_len _ _ Hc).
  apply Nat.Div0.div_lt_upper_bound.
  pose proof (Nat.div_mod_eq (length Ks + 7) 8).
  pose proof (Nat.mod_upper_bound (length Ks + 7) 8). lia.
Qed.

Lemma keys_length : length (keys c) = length Ks.
Proof. apply (Forall2_length (so_keys _ _ Hc)). Qed.

Lemma byteAt_mask i :
  (i < length Ks)%nat ->
  byteAt (mask c) (maskByt (Z.of_nat i)) = Return (nth (i / 8) (mask c) 0).
Proof.
  intros Hi. pose proof (mask_index i Hi). rewrite maskByt_nat. unfold byteAt.
  destruct (Z.leb_spec 0 (Z.of_nat (i / 8))); [| lia].
  destruct (Z.ltb_spec (Z.of_nat (i / 8)) (Z.of_nat (length (mask c)))); [| lia].
  cbn [andb]. now rewrite Nat2Z.id.
Qed.

Lemma keyAt_keys i :
  (i < length Ks)%nat ->
  exists k, keyAt (keys c) (Z.of_nat i) = Return k /\ ext_repr k (nth i Ks pzero).
Proof.
  intros Hi. unfold keyAt. rewrite keys_length.
  destruct (Z.leb_spec 0 (Z.of_nat i)); [| lia].
  destruct (Z.ltb_spec (Z.of_nat i) (Z.of_nat (length Ks))); [| lia].
  cbn [andb]. rewrite Nat2Z.id. eexists. split; [reflexivity |].
  pose proof (so_keys _ _ Hc) as F. clear - F Hi.
  revert i Hi. induction F as [| k K ks Ks' HK F IH]; intros i Hi; [cbn in Hi; lia |].
  destruct i as [| i]; [exact HK | apply IH; cbn in Hi; lia].
Qed.

Lemma disableSigner_spec i :
  (i < length Ks)%nat -> disabled (mask c) i = false ->
  exists c', disableSigner c (Z.of_nat i) = Return c' /\ signers_ok c' Ks /\
    keys c' = keys c /\
    forall j, disabled (mask c') j = if Nat.eqb j i then true else disabled (mask c) j.
Proof.
  intros Hi D. unfold disableSigner. rewrite (byteAt_mask i Hi). cbn [obind].
  destruct (keyAt_keys i Hi) as (k & -> & Hk). cbn [obind]. eexists. split; [reflexivity |].
  rewrite maskByt_nat, maskBit_nat, Nat2Z.id.
  pose proof (disabled_lor (mask c) i) as DL. specialize (fun j => DL j (mask_index i Hi)) as DL'.
  split; [| split; [reflexivity | exact DL']].
  destruct Hc as [SK SL SM SA]. constructor; cbn [keys mask aggr].
  - exact SK.
  - now rewrite length_set_nth.
  - apply bytes_ok_set_nth; [exact SM |]. apply byte_bit_ops; [now apply nth_byte |].
    apply Nat.mod_upper_bound. lia.
  - rewrite (sumFrom_exclude (disabled (mask c)) _ i).
    + now apply Extended_Sub_spec.
    + intros j Nj. rewrite DL'. destruct (Nat.eqb_spec j i); [contradiction | reflexivity].
    + exact Hi.
    + exact D.
    + rewrite DL', Nat.eqb_refl. reflexivity.
Qed.

Lemma enableSigner_spec i :
  (i < length Ks)%nat -> disabled (mask c) i = true ->
  exists c', enableSigner c (Z.of_nat i) = Return c' /\ signers_ok c' Ks /\
    keys c' = keys c /\
    forall j, disabled (mask c') j = if Nat.eqb j i then false else disabled (mask c) j.
Proof.
  intros Hi D. unfold enableSigner. rewrite (byteAt_mask i Hi). cbn [obind].
  destruct (keyAt_keys i Hi) as (k & -> & Hk). cbn [obind]. eexists. split; [reflexivity |].
  rewrite maskByt_nat, maskBit_nat, Nat2Z.id.
  pose proof (disabled_ldiff (mask c) i) as DL. specialize (fun j => DL j (mask_index i Hi)) as DL'.
  split; [| split; [reflexivity | exact DL']].
  destruct Hc as [SK SL SM SA]. constructor; cbn [keys mask aggr].
  - exact SK.
  - now rewrite length_set_nth.
  - apply bytes_ok_set_nth; [exact SM |]. apply byte_bit_ops; [now apply nth_byte |].
    apply Nat.mod_upper_bound. lia.
  - rewrite (sumFrom_include (disabled (mask c)) _ i).
    + now apply Extended_Add_spec.
    + intros j Nj. rewrite DL'. destruct (Nat.eqb_spec j i); [contradiction | reflexivity].
    + exact Hi.
    + exact D.
    + rewrite DL', Nat.eqb_refl. reflexivity.
Qed.

(** Setting the bit of signer [i] to [b], whatever it was. *)
Lemma setSigner_spec i (b : bool) :
  (i < length Ks)%nat ->
  exists c',
    (if b then
       if Z.land (nth (i / 8) (mask c) 0) (maskBit (Z.of_nat i)) =? 0
       then disableSigner c (Z.of_nat i) else Return c
     else
       if negb (Z.land (nth (i / 8) (mask c) 0) (maskBit (Z.of_nat i)) =? 0)
       then enableSigner c (Z.of_nat i) else Return c) = Return c' /\
    signers_ok c' Ks /\ keys c' = keys c /\
    forall j, disabled (mask c') j = if Nat.eqb j i then b else disabled (mask c) j.
Proof.
  intros Hi. rewrite maskBit_nat, land_bit by lia. fold (disabled (mask c) i).
  assert (forall b, disabled (mask c) i = b ->
    forall j, disabled (mask c) j = if Nat.eqb j i then b else disabled (mask c) j) as Same.
  { intros b' <- j. destruct (Nat.eqb_spec j i) as [-> |]; reflexivity. }
  destruct b, (disabled (mask c) i) eqn:D; cbn [negb].
  - exists c. auto.
  - now apply disableSigner_spec.
  - now apply enableSigner_spec.
  - exists c. auto.
Qed.
End invariant.

(** ** Loops over the keys *)

Lemma forKeys_inv {A : Type} (P : nat -> A -> Prop) (body : A -> Z -> outcome A) n a :
  P 0%nat a ->
  (forall i a, (i < n)%nat -> P i a ->
     exists a', body a (Z.of_nat i) = Return a' /\ P (S i) a') ->
  exists a', forKeys n body a = Return a' /\ P n a'.
Proof.
  intros H0 Step. induction n as [| n IH]; [exists a; auto |].
  destruct IH as (a' & E & H). { intros i a1 Hi. apply Step. lia. }
  cbn [forKeys]. rewrite E. cbn [obind]. apply Step; [lia | exact H].
Qed.

(** ** [SetMask] and [SetMaskBit] *)

(** The mask reaches signer [j] from [old] to [new] when the first [n] signers
    take the new bit. *)
Definition mask_prefix (n : nat) (new old : list Z) (j : nat) : bool :=
  if (j <? n)%nat then disabled new j else disabled old j.

Lemma newMask_bit newMask i :
  (maskByt (Z.of_nat i) <? Z.of_nat (length newMask)) &&
  negb (Z.land (nth (Z.to_nat (maskByt (Z.of_nat i))) newMask 0) (maskBit (Z.of_nat i)) =? 0) =
  disabled newMask i.
Proof.
  rewrite maskBit_nat, land_bit, maskByt_nat, Nat2Z.id, negb_involutive by lia.
  unfold disabled.
  destruct (Z.ltb_spec (Z.of_nat (i / 8)) (Z.of_nat (length newMask))); [reflexivity |].
  rewrite nth_overflow by lia. now rewrite Z.bits_0.
Qed.

Lemma SetMask_step_spec c Ks newMask i :
  signers_ok c Ks -> (i < length Ks)%nat ->
  exists c', SetMask_step newMask c (Z.of_nat i) = Return c' /\ signers_ok c' Ks /\
    keys c' = keys c /\
    forall j, disabled (mask c') j =
              if Nat.eqb j i then disabled newMask i else disabled (mask c) j.
Proof.
  intros Hc Hi. unfold SetMask_step. rewrite (byteAt_mask c Ks Hc i Hi). cbn [obind].
  rewrite newMask_bit. apply (setSigner_spec c Ks Hc i _ Hi).
Qed.

Lemma SetMask_signers_spec c Ks newMask :
  signers_ok c Ks ->
  exists c', SetMask_signers c newMask = Return c' /\ signers_ok c' Ks /\ keys c' = keys c /\
    forall j, disabled (mask c') j = mask_prefix (length Ks) newMask (mask c) j.
Proof.
  intros Hc. unfold SetMask_signers. rewrite (keys_length c Ks Hc).
  apply (forKeys_inv (fun n c' => signers_ok c' Ks /\ keys c' = keys c /\
    forall j, disabled (mask c') j = mask_prefix n newMask (mask c) j)).
  - split; [exact Hc |]. split; [reflexivity |]. intros j. reflexivity.
  - intros i a Hi (Ha & Ek & Hm).
    destruct (SetMask_step_spec a Ks newMask i Ha Hi) as (c' & E & Hc' & Ek' & Hm').
    exists c'. split; [exact E |]. split; [exact Hc' |]. split; [congruence |].
    intros j. rewrite Hm', Hm. unfold mask_prefix.
    destruct (Nat.eqb_spec j i), (Nat.ltb_spec j i), (Nat.ltb_spec j (S i));
      subst; first [lia | reflexivity].
Qed.

Lemma SetMask_spec cos Ks newMask :
  signers_ok (group cos) Ks ->
  exists cos', SetMask cos newMask = Return cos' /\ signers_ok (group cos') Ks /\
    keys (group cos') = keys (group cos) /\ policy cos' = policy cos /\
    forall j, disabled (Mask cos') j = mask_prefix (length Ks) newMask (Mask cos) j.
Proof.
  intros Hc. destruct (SetMask_signers_spec _ _ newMask Hc) as (c' & E & Hc' & Ek & Hm).
  exists (MkCosigners c' (policy cos)). unfold SetMask. rewrite E. auto.
Qed.

Lemma SetMaskBit_spec cos Ks i value :
  signers_ok (group cos) Ks -> (i < length Ks)%nat ->
  exists cos', SetMaskBit cos (Z.of_nat i) value = Return cos' /\ signers_ok (group cos') Ks /\
    keys (group cos') = keys (group cos) /\ policy cos' = policy cos /\
    forall j, disabled (Mask cos') j = if Nat.eqb j i then value else disabled (Mask cos) j.
Proof.
  intros Hc Hi. destruct (setSigner_spec _ _ Hc i value Hi) as (c' & E & Hc' & Ek & Hm).
  exists (MkCosigners c' (policy cos)). unfold SetMaskBit.
  rewrite (byteAt_mask _ _ Hc i Hi). cbn [obind].
  replace (Bool.eqb value Disabled) with value by (destruct value; reflexivity).
  rewrite E. auto.
Qed.

(** An index outside of the mask panics. *)
Lemma byteAt_out l i : i < 0 \/ Z.of_nat (length l) <= i -> byteAt l i = Panic.
Proof.
  intros H. unfold byteAt.
  destruct (Z.leb_spec 0 i), (Z.ltb_spec i (Z.of_nat (length l))); cbn [andb];
    first [lia | reflexivity].
Qed.

Lemma SetMaskBit_out cos signer value :
  signer < 0 \/ 8 * Z.of_nat (length (Mask cos)) <= signer ->
  SetMaskBit cos signer value = Panic /\ Cosigners_MaskBit cos signer = Panic.
Proof.
  intros H. unfold SetMaskBit, Cosigners_MaskBit. fold (Mask cos).
  rewrite byteAt_out; [auto |]. unfold maskByt. rewrite Z.shiftr_div_pow2 by lia.
  change (2 ^ 3) with 8. Z.div_mod_to_equations. lia.
Qed.

Lemma MaskBit_spec cos Ks i :
  signers_ok (group cos) Ks -> (i < length Ks)%nat ->
  Cosigners_MaskBit cos (Z.of_nat i) = Return (disabled (Mask cos) i).
Proof.
  intros Hc Hi. unfold Cosigners_MaskBit. rewrite (byteAt_mask _ _ Hc i Hi). cbn [obind].
  rewrite maskBit_nat, land_bit, negb_involutive by lia. reflexivity.
Qed.

(** ** [CountEnabled] *)

Fixpoint enabledBelow (m : list Z) (n : nat) : Z :=
  match n with
  | O => 0
  | S n => enabledBelow m n + if disabled m n then 0 else 1
  end.

Lemma CountEnabled_spec c Ks :
  signers_ok c Ks -> CountEnabled c = Return (enabledBelow (mask c) (length Ks)).
Proof.
  intros Hc. unfold CountEnabled. rewrite (keys_length c Ks Hc).
  edestruct (forKeys_inv (fun n count => count = enabledBelow (mask c) n))
    as (a & E & ->); [reflexivity | | exact E].
  intros i a Hi ->. rewrite (byteAt_mask c Ks Hc i Hi). cbn [obind]. eexists.
  split; [reflexivity |]. cbn [enabledBelow]. rewrite maskBit_nat, land_bit by lia.
  fold (disabled (mask c) i). destruct (disabled (mask c) i); cbn [negb]; lia.
Qed.

Lemma enabledBelow_bounds m n : 0 <= enabledBelow m n <= Z.of_nat n.
Proof.
  induction n as [| n IH]; [cbn; lia |]. cbn [enabledBelow]. destruct (disabled m n); lia.
Qed.

Lemma enabledBelow_full m n :
  enabledBelow m n = Z.of_nat n <-> forall j, (j < n)%nat -> disabled m j = false.
Proof.
  induction n as [| n IH]; [split; [lia | reflexivity] |].
  cbn [enabledBelow]. pose proof (enabledBelow_bounds m n).
  destruct (disabled m n) eqn:D.
  - split; [lia |]. intros Hall. rewrite (Hall n) in D by lia. discriminate.
  - split.
    + intros E j Hj. destruct (Nat.eq_dec j n) as [-> | N]; [exact D |].
      apply IH; lia.
    + intros Hall. rewrite (proj2 IH); [lia |]. intros j Hj. apply Hall. lia.
Qed.

Lemma enabledBelow_ext m m' n :
  (forall j, (j < n)%nat -> disabled m j = disabled m' j) -> enabledBelow m n = enabledBelow m' n.
Proof.
  induction n as [| n IH]; intros H; [reflexivity |]. cbn [enabledBelow].
  rewrite (H n) by lia. f_equal. apply IH. intros j Hj. apply H. lia.
Qed.

(** ** [NewCosigners] *)

(** The 32 bytes each key is decoded from: the buffer is shared, so a key shorter
    than 32 bytes is completed by the end of its predecessor. *)
Fixpoint effectiveKeys (buf : list Z) (pks : list (list Z)) : list (list Z) :=
  match pks with
  | [] => []
  | pk :: pks => copy buf pk :: effectiveKeys (copy buf pk) pks
  end.

Lemma effectiveKeys_full pks buf :
  length buf = 32%nat -> Forall (fun pk => length pk = 32%nat) pks ->
  effectiveKeys buf pks = pks.
Proof.
  intros Lb H. revert buf Lb; induction H as [| pk pks Lp H IH]; intros buf Lb; [reflexivity |].
  cbn [effectiveKeys]. rewrite copy_full by congruence. f_equal. now apply IH.
Qed.

Definition undecodable (s : list Z) : Prop := forall P, ~ decodes s P.

Lemma Forall2_snoc {A B} (R : A -> B -> Prop) l l' x y :
  Forall2 R l l' -> R x y -> Forall2 R (l ++ [x]) (l' ++ [y]).
Proof. intros H Hxy. apply Forall2_app; auto. Qed.

Lemma sumAll_app Ks Ls : sumAll (Ks ++ Ls) = padd (sumAll Ks) (sumAll Ls).
Proof.
  induction Ks as [| K Ks IH]; cbn [sumAll fold_right app]; [now rewrite padd_zero_l |].
  fold (sumAll (Ks ++ Ls)) (sumAll Ks). rewrite IH. symmetry. apply padd_assoc.
Qed.

Lemma sumAll_snoc Ks K : sumAll (Ks ++ [K]) = padd (sumAll Ks) K.
Proof. rewrite sumAll_app. cbn [sumAll fold_right]. now rewrite padd_zero_r. Qed.

Lemma loadKeys_spec pks buf ks Ks ag :
  Forall bytes_ok pks -> length buf = 32%nat -> bytes_ok buf ->
  Forall2 ext_repr ks Ks -> ext_repr ag (sumAll Ks) ->
  match loadKeys pks buf ks ag with
  | Some (ks', ag') => exists Ls, Forall2 decodes (effectiveKeys buf pks) Ls /\
      Forall2 ext_repr ks' (Ks ++ Ls) /\ ext_repr ag' (sumAll (Ks ++ Ls))
  | None => Exists undecodable (effectiveKeys buf pks)
  end.
Proof.
  intros Ok. revert buf ks Ks ag; induction Ok as [| pk pks Hpk Ok IH];
    intros buf ks Ks ag Lb Ob Hks Hag; cbn [loadKeys effectiveKeys].
  - exists []. rewrite app_nil_r. auto.
  - pose proof (copy_length buf pk) as Lc. pose proof (copy_ok _ _ Ob Hpk) as Oc.
    pose proof (FromBytes_spec Extended_var (copy buf pk) ltac:(congruence) Oc) as F.
    destruct (Extended_FromBytes Extended_var (copy buf pk)) as [[] k]; cbn [negb].
    + destruct F as (P & D & R).
      specialize (IH (copy buf pk) (ks ++ [k]) (Ks ++ [P]) (Extended_Add ag k)
        ltac:(congruence) Oc (Forall2_snoc _ _ _ _ _ Hks R)).
      rewrite sumAll_snoc in IH. specialize (IH (Extended_Add_spec _ _ _ _ Hag R)).
      destruct (loadKeys pks _ _ _) as [[ks' ag'] |].
      * destruct IH as (Ls & HD & HR & HA). exists (P :: Ls). rewrite <- app_assoc in HR, HA.
        split; [constructor; assumption |]. split; assumption.
      * now apply Exists_cons_tl.
    + apply Exists_cons_hd. intros P D. exact (F P (proj1 D)).
Qed.

Lemma disabled_zeros n j : disabled (repeat 0 n) j = false.
Proof. unfold disabled. rewrite nth_repeat. apply Z.bits_0. Qed.

Lemma mask_alloc n : Z.to_nat (Z.shiftr (Z.of_nat n + 7) 3) = ((n + 7) / 8)%nat.
Proof.
  rewrite Z.shiftr_div_pow2 by lia. change (2 ^ 3) with (Z.of_nat 8).
  change 7 with (Z.of_nat 7). rewrite <- Nat2Z.inj_add, <- Nat2Z.inj_div. apply Nat2Z.id.
Qed.

Lemma effectiveKeys_length pks buf : length (effectiveKeys buf pks) = length pks.
Proof. revert buf; induction pks as [| pk pks IH]; intros buf; cbn; [| rewrite IH]; reflexivity. Qed.

(** The disabled signers that [NewCosigners] asks for. *)
Definition initialMask (newMask : option (list Z)) (j : nat) : bool :=
  match newMask with None => false | Some m => disabled m j end.

Lemma NewCosigners_decodable pks newMask Ks :
  Forall bytes_ok pks -> Forall2 decodes (effectiveKeys zero32 pks) Ks ->
  exists cos, NewCosigners pks newMask = Return (Some cos) /\
    signers_ok (group cos) Ks /\ policy cos = Some fullPolicy /\
    forall j, (j < length pks)%nat -> disabled (Mask cos) j = initialMask newMask j.
Proof.
  intros Ok HD. unfold NewCosigners.
  pose proof (loadKeys_spec pks zero32 [] [] Extended_Zero Ok (repeat_length _ _)
    (zeros_ok 32) (Forall2_nil _) Extended_Zero_spec) as L.
  destruct (loadKeys pks zero32 [] Extended_Zero) as [[ks ag] |].
  - destruct L as (Ls & HL & Hks & Hag). cbn [app] in Hks, Hag.
    assert (Ls = Ks) as ->.
    { clear - HD HL. revert Ls HL; induction HD as [| s K ss Ks D HD IH]; intros Ls HL;
        inversion HL as [| ? L ? Ls' D' HL']; subst; [reflexivity |].
      rewrite (decodes_inj _ _ _ D' D). f_equal. now apply IH. }
    pose proof (Forall2_length HD) as Len. rewrite effectiveKeys_length in Len.
    set (cos := MkCosigners _ (Some fullPolicy)).
    assert (signers_ok (group cos) Ks) as Hc.
    { constructor; cbn [cos group keys mask aggr].
      - exact Hks.
      - rewrite repeat_length, mask_alloc. now rewrite Len.
      - apply zeros_ok.
      - rewrite sumFrom_none; [exact Hag |]. intros. apply disabled_zeros. }
    destruct newMask as [m |].
    + destruct (SetMask_spec cos Ks m Hc) as (cos' & -> & Hc' & _ & Ep & Hm). cbn [obind].
      exists cos'. split; [reflexivity |]. split; [exact Hc' |]. split; [exact Ep |].
      intros j Hj. rewrite Hm. unfold mask_prefix.
      destruct (Nat.ltb_spec j (length Ks)); [reflexivity | lia].
    + exists cos. split; [reflexivity |]. split; [exact Hc |]. split; [reflexivity |].
      intros j _. apply disabled_zeros.
  - exfalso. clear - HD L. induction HD as [| s K ss Ks D HD IH]; inversion L; subst; eauto.
    now apply (H0 K).
Qed.

Lemma NewCosigners_undecodable pks newMask :
  Forall bytes_ok pks -> Exists undecodable (effectiveKeys zero32 pks) ->
  NewCosigners pks newMask = Return None.
Proof.
  intros Ok HE. unfold NewCosigners.
  pose proof (loadKeys_spec pks zero32 [] [] Extended_Zero Ok (repeat_length _ _)
    (zeros_ok 32) (Forall2_nil _) Extended_Zero_spec) as L.
  destruct (loadKeys pks zero32 [] Extended_Zero) as [[ks ag] |]; [| reflexivity].
  destruct L as (Ls & HL & _). exfalso. clear - HE HL.
  revert Ls HL; induction HE as [s ss U | s ss HE IH]; intros Ls HL;
    inversion HL as [| ? L ? Ls' D HL']; subst; [exact (U _ D) | exact (IH _ HL')].
Qed.

(** ** [AggregatePublicKey] *)

Definition aggregatePoint (c : signers) (Ks : list point) : point :=
  sumFrom (disabled (mask c)) 0 Ks.

Lemma AggregatePublicKey_spec cos Ks :
  signers_ok (group cos) Ks ->
  AggregatePublicKey cos = encode_point (aggregatePoint (group cos) Ks).
Proof. intros Hc. apply Extended_ToBytes_spec, (so_aggr _ _ Hc). Qed.

(** ** Loops that stop early *)

Lemma forKeys_panic {A : Type} (body : A -> Z -> outcome A) n k a a' :
  (k < n)%nat -> forKeys k body a = Return a' -> body a' (Z.of_nat k) = Panic ->
  forKeys n body a = Panic.
Proof.
  intros Hk E B. induction n as [| n IH]; [lia |]. cbn [forKeys].
  destruct (Nat.eq_dec k n) as [<- | N]; [now rewrite E |]. now rewrite IH by lia.
Qed.

Lemma forKeys_stop {A : Type} (body : A -> Z -> outcome A) n k a a' b :
  (k < n)%nat -> forKeys k body a = Return a' -> body a' (Z.of_nat k) = Return b ->
  (forall i, body b i = Return b) -> forKeys n body a = Return b.
Proof.
  intros Hk E B Fix. induction n as [| n IH]; [lia |]. cbn [forKeys].
  destruct (Nat.eq_dec k n) as [<- | N]; [now rewrite E |]. rewrite IH by lia. apply Fix.
Qed.

Lemma nthSlice_in l i : (i < length l)%nat -> nthSlice l (Z.of_nat i) = Return (nth i l []).
Proof.
  intros H. unfold nthSlice.
  destruct (Z.leb_spec 0 (Z.of_nat i)), (Z.ltb_spec (Z.of_nat i) (Z.of_nat (length l)));
    cbn [andb]; try lia. now rewrite Nat2Z.id.
Qed.

Lemma nthSlice_out l i : (length l <= i)%nat -> nthSlice l (Z.of_nat i) = Panic.
Proof.
  intros H. unfold nthSlice.
  destruct (Z.ltb_spec (Z.of_nat i) (Z.of_nat (length l))); [lia |]. now rewrite andb_false_r.
Qed.

(** ** [AggregateCommit] *)

(** A commit that the loop accepts. *)
Definition commits_to (s : list Z) (P : point) : Prop :=
  length s = 32%nat /\ bytes_ok s /\ decodes s P.

Lemma commits_to_encode P : commits_to (encode_point P) P.
Proof. split; [auto with bytes |]. split; [auto with bytes | apply decodes_encode]. Qed.

Lemma Forall2_nth_l {A B} (R : A -> B -> Prop) l l' i da db :
  Forall2 R l l' -> (i < length l)%nat -> R (nth i l da) (nth i l' db).
Proof.
  intros H. revert i; induction H as [| x y l l' Hxy H IH]; intros i Hi; [cbn in Hi; lia |].
  destruct i as [| i]; [exact Hxy | apply IH; cbn in Hi; lia].
Qed.

Lemma firstn_snoc {A} i (l : list A) d :
  (i < length l)%nat -> firstn (S i) l = firstn i l ++ [nth i l d].
Proof.
  revert i; induction l as [| x l IH]; intros [| i] H; cbn in H; try lia; [reflexivity |].
  cbn [firstn nth app]. f_equal. apply IH. lia.
Qed.

Lemma AggregateCommit_loop commits Rs n :
  Forall2 commits_to (firstn n commits) Rs -> (n <= length commits)%nat ->
  exists buf r ag,
    forKeys n (AggregateCommit_step commits) (Some (zero32, Extended_var, Extended_Zero)) =
    Return (Some (buf, r, ag)) /\ length buf = 32%nat /\ ext_repr ag (sumAll Rs).
Proof.
  intros HC Hn. pose proof (Forall2_length HC) as Len. rewrite length_firstn in Len.
  destruct (forKeys_inv (fun i st => exists buf r ag, st = Some (buf, r, ag) /\
      length buf = 32%nat /\ ext_repr ag (sumAll (firstn i Rs)))
    (AggregateCommit_step commits) n (Some (zero32, Extended_var, Extended_Zero)))
    as (st & E & buf & r & ag & -> & Lb & Hag).
  - exists zero32, Extended_var, Extended_Zero. split; [reflexivity |].
    split; [reflexivity | exact Extended_Zero_spec].
  - intros i st Hi (buf & r & ag & -> & Lb & Hag). cbn [AggregateCommit_step].
    rewrite nthSlice_in by lia. cbn [obind].
    assert (commits_to (nth i commits []) (nth i Rs pzero)) as (L & Ok & D).
    { pose proof (Forall2_nth_l _ _ _ i [] pzero HC ltac:(rewrite length_firstn; lia)) as H.
      rewrite nth_firstn in H. destruct (Nat.ltb_spec i n); [exact H | lia]. }
    rewrite L. cbn [Nat.eqb negb]. rewrite copy_full by congruence.
    pose proof (FromBytes_spec r (nth i commits []) L Ok) as F.
    destruct (Extended_FromBytes r (nth i commits [])) as [[] e]; cbn [negb].
    + destruct F as (P & D' & R). eexists. split; [reflexivity |].
      eexists _, _, _. split; [reflexivity |]. split; [exact L |].
      rewrite (firstn_snoc i Rs pzero) by lia. rewrite sumAll_snoc.
      apply Extended_Add_spec; [exact Hag |]. now rewrite <- (decodes_inj _ _ _ D' D).
    + destruct (F _ (proj1 D)).
  - exists buf, r, ag. split; [exact E |]. split; [exact Lb |].
    now rewrite firstn_all2 in Hag by lia.
Qed.

Lemma AggregateCommit_spec cos commits Rs :
  let n := length (keys (group cos)) in
  Forall2 commits_to (firstn n commits) Rs -> (n <= length commits)%nat ->
  AggregateCommit cos commits = Return (Some (encode_point (sumAll Rs))).
Proof.
  intros n HC Hn. unfold AggregateCommit. fold n.
  destruct (AggregateCommit_loop _ _ _ HC Hn) as (buf & r & ag & -> & _ & Hag). cbn [obind].
  now rewrite (Extended_ToBytes_spec _ _ Hag).
Qed.

(** Fewer commits than keys: the index runs out of range. *)
Lemma AggregateCommit_short cos commits Rs :
  Forall2 commits_to commits Rs -> (length commits < length (keys (group cos)))%nat ->
  AggregateCommit cos commits = Panic.
Proof.
  intros HC Hn. unfold AggregateCommit.
  assert (Forall2 commits_to (firstn (length commits) commits) Rs) as HC' by now rewrite firstn_all.
  destruct (AggregateCommit_loop _ _ _ HC' (le_n _)) as (buf & r & ag & E & _ & _).
  rewrite (forKeys_panic _ _ _ _ _ Hn E); [reflexivity |].
  cbn [AggregateCommit_step]. now rewrite nthSlice_out by lia.
Qed.

(** The first commit of a wrong length, or that is not a point, ends the loop. *)
Lemma AggregateCommit_invalid cos commits Rs k :
  (k < length (keys (group cos)))%nat -> (k < length commits)%nat ->
  Forall2 commits_to (firstn k commits) Rs -> bytes_ok (nth k commits []) ->
  length (nth k commits []) <> 32%nat \/ undecodable (nth k commits []) ->
  AggregateCommit cos commits = Return None.
Proof.
  intros Hk Hc HC Ok Bad. unfold AggregateCommit.
  destruct (AggregateCommit_loop _ _ _ HC ltac:(lia)) as (buf & r & ag & E & Lb & _).
  rewrite (forKeys_stop _ _ _ _ _ None Hk E); [reflexivity | | reflexivity].
  cbn [AggregateCommit_step]. rewrite nthSlice_in by lia. cbn [obind]. unfold PublicKeySize.
  destruct (Nat.eqb_spec (length (nth k commits [])) 32) as [L | L]; cbn [negb]; [| reflexivity].
  destruct Bad as [Bad | Bad]; [contradiction |]. rewrite copy_full by congruence.
  pose proof (FromBytes_spec r _ L Ok) as F.
  destruct (Extended_FromBytes r (nth k commits [])) as [[] e]; cbn [negb]; [| reflexivity].
  destruct F as (P & D & _). destruct (Bad P D).
Qed.

(** ** [AggregateSignature] *)

Definition zsum (l : list Z) : Z := fold_right Z.add 0 l.

Lemma zsum_snoc l x : zsum (l ++ [x]) = zsum l + x.
Proof. induction l as [| y l IH]; cbn [zsum fold_right app] in *; [lia |]. unfold zsum in IH. lia. Qed.

Definition part_ok (s : list Z) : Prop := length s = 32%nat /\ bytes_ok s.

Lemma scOne_ok : part_ok scOne.
Proof. split; [reflexivity |]. constructor; [unfold byte_ok; lia | apply zeros_ok]. Qed.

Lemma le_val_scOne : le_val scOne = 1.
Proof. reflexivity. Qed.

Lemma AggregateSignature_spec cos aggregateR sigParts :
  length aggregateR = 32%nat -> Forall part_ok sigParts ->
  length sigParts = length (keys (group cos)) ->
  AggregateSignature cos aggregateR sigParts =
  Return (Some (aggregateR ++ le_bytes 32 (zsum (map le_val sigParts) mod scOrder))).
Proof.
  intros LR HP Len. unfold AggregateSignature, PublicKeySize. rewrite LR, <- Len.
  cbn [Nat.eqb negb].
  destruct (forKeys_inv (fun i st => st = Some (le_bytes 32
      (zsum (map le_val (firstn i sigParts)) mod scOrder)))
    (AggregateSignature_step sigParts) (length sigParts) (Some zero32)) as (st & -> & ->).
  - reflexivity.
  - intros i st Hi ->. eexists. split; [| reflexivity]. cbn [AggregateSignature_step].
    rewrite nthSlice_in by lia. cbn [obind].
    assert (part_ok (nth i sigParts [])) as (L & Ok)
      by (apply (proj1 (Forall_forall _ _) HP), nth_In; exact Hi).
    rewrite L. cbn [Nat.eqb negb]. rewrite copy_full by (rewrite L; reflexivity).
    set (x := zsum (map le_val (firstn i sigParts))).
    pose proof (scOrder_bound x) as Bx.
    rewrite ScMulAdd_spec
      by first [assumption | apply scOne_ok | auto with bytes].
    rewrite le_bytes_val256, le_val_scOne, Z.mul_1_r by lia.
    rewrite (firstn_snoc i sigParts []), map_app by exact Hi. cbn [map]. rewrite zsum_snoc.
    fold x. now rewrite Zplus_mod_idemp_l.
  - cbn [obind]. now rewrite firstn_all.
Qed.

(** ** [Commit] and [Cosign] *)

Definition commitScalar (read : list Z) : Z := reduced read.

Lemma Commit_spec read :
  length read = 64%nat -> bytes_ok read ->
  Commit (Some read) =
  Some (encode_point (zmul (commitScalar read) B),
        MkSecret (le_bytes 32 (commitScalar read)) true).
Proof.
  intros L Ok. unfold Commit. destruct (ScReduce_reduced read L Ok) as (E & Hs & Hv).
  cbn [sec_reduced]. rewrite (Extended_ToBytes_spec _ _ (GeScalarMultBase_spec _ Hs)), Hv.
  now rewrite E.
Qed.

(** The part of an honest signer. *)
Definition cosignPart (a r h : Z) : list Z := le_bytes 32 ((h * a + r) mod scOrder).

Lemma Cosign_spec seed pk r message aggregateK aggregateR :
  length seed = 32%nat -> length pk = 32%nat -> length aggregateR = 32%nat ->
  0 <= r < 2 ^ 256 ->
  Cosign (seed ++ pk) (MkSecret (le_bytes 32 r) true) message aggregateK aggregateR =
  Return (cosignPart (le_val (secretScalar seed)) r (challenge aggregateR aggregateK message),
          MkSecret zero32 false).
Proof.
  intros Ls Lp LR Hr. unfold Cosign, PrivateKeySize, PublicKeySize.
  rewrite length_app, Ls, Lp, LR. cbn [Nat.add Nat.eqb negb sec_valid sec_reduced].
  rewrite (firstn_app_exact 32) by exact Ls.
  destruct (ScReduce_reduced (sha512 (aggregateR ++ aggregateK ++ message))
              (sha512_length _) (sha512_ok _)) as (_ & Hc & Vc).
  rewrite copy_zero32 by (rewrite sha512_length; lia). fold (secretScalar seed).
  destruct (secretScalar_ok seed) as (L1 & O1 & _), Hc as (Lc & Oc & _).
  rewrite ScMulAdd_spec by auto with bytes.
  rewrite Vc, (le_bytes_val256 r) by lia. reflexivity.
Qed.

(** A secret serves once. *)
Lemma Cosign_reuse privateKey secret message aggregateK aggregateR part secret' :
  Cosign privateKey secret message aggregateK aggregateR = Return (part, secret') ->
  secret' = MkSecret zero32 false /\
  forall privateKey' message' aggregateK' aggregateR',
    Cosign privateKey' secret' message' aggregateK' aggregateR' = Panic.
Proof.
  unfold Cosign.
  destruct (negb (length privateKey =? PrivateKeySize)%nat); [discriminate |].
  destruct (negb (length aggregateR =? PublicKeySize)%nat); [discriminate |].
  destruct (negb (sec_valid secret)); [discriminate |]. intros [= _ <-].
  split; [reflexivity |]. intros sk' m' K' R'. cbn [sec_valid negb].
  destruct (negb (length sk' =? PrivateKeySize)%nat),
    (negb (length R' =? PublicKeySize)%nat); reflexivity.
Qed.

(** ** [verify] *)

(** The equation an accepted pair [(sigR, sigS)] satisfies for the key [P]. *)
Definition equation (c : signers) (Ks : list point) (message aggR sigR sigS : list Z) (P : point) :
    Prop :=
  length sigR = 32%nat /\ length sigS = 32%nat /\ nth 31 sigS 0 < 32 /\
  sigR = encode_point (checkPoint
           (challenge aggR (encode_point (aggregatePoint c Ks)) message) (le_val sigS) P).

Lemma verify_decides cos Ks message aggR sigR sigS A P :
  signers_ok (group cos) Ks -> ext_repr A P -> bytes_ok sigS ->
  verify cos message aggR sigR sigS A = true <->
  equation (group cos) Ks message aggR sigR sigS P.
Proof.
  intros Hc HA Ok. unfold verify, equation. rewrite high_bits by now apply nth_byte.
  destruct (Nat.eqb_spec (length sigR) 32) as [LR | LR]; cbn [negb orb];
    [| split; [discriminate | tauto]].
  destruct (Nat.eqb_spec (length sigS) 32) as [LS | LS]; cbn [negb orb];
    [| split; [discriminate | tauto]].
  destruct (Z.ltb_spec (nth 31 sigS 0) 32) as [Ht | Ht]; cbn [negb];
    [| split; [discriminate | lia]].
  rewrite (Extended_ToBytes_spec _ _ (so_aggr _ _ Hc)). fold (aggregatePoint (group cos) Ks).
  destruct (ScReduce_reduced (sha512 (aggR ++ encode_point (aggregatePoint (group cos) Ks) ++
    message)) (sha512_length _) (sha512_ok _)) as (_ & Hs & Hv).
  rewrite copy_full by (rewrite LS; reflexivity).
  assert (scalar_ok sigS) as Hb. { split; [exact LS |]. split; [exact Ok | lia]. }
  rewrite bytes_equal_spec, (check_encoding _ _ _ _ Hs Hb HA), Hv.
  unfold challenge. tauto.
Qed.

Lemma VerifyPart_decides cos Ks message aggR i indR indS :
  signers_ok (group cos) Ks -> (i < length Ks)%nat -> bytes_ok indS ->
  exists b, VerifyPart cos message aggR (Z.of_nat i) indR indS = Return b /\
    (b = true <-> equation (group cos) Ks message aggR indR indS (nth i Ks pzero)).
Proof.
  intros Hc Hi Ok. unfold VerifyPart. destruct (keyAt_keys _ _ Hc i Hi) as (k & -> & Hk).
  cbn [obind]. eexists. split; [reflexivity |]. now apply verify_decides.
Qed.

(** ** [Cosigners.Verify] *)

(** The mask that a signature carries: absent, everybody signed. *)
Definition signatureMask (sig : list Z) : list Z := skipn 64 sig.

Lemma disabled_signatureMask cos sig :
  (64 <= length sig)%nat ->
  let newMask :=
    if (SignatureSize <? length sig)%nat then skipn 64 sig
    else repeat 0 (Z.to_nat (Z.quot (Z.of_nat (length (keys (group cos))) + 7) 8)) in
  forall j, disabled newMask j = disabled (signatureMask sig) j.
Proof.
  intros L newMask j. unfold newMask, SignatureSize, signatureMask.
  destruct (Nat.ltb_spec 64 (length sig)); [reflexivity |].
  rewrite disabled_zeros, skipn_all2 by lia. unfold disabled. rewrite nth_overflow by (cbn; lia).
  now rewrite Z.bits_0.
Qed.

(** The [Cosigners] state after a signature's mask is installed. *)
Definition masked (cos cos' : Cosigners) (Ks : list point) (sig : list Z) : Prop :=
  signers_ok (group cos') Ks /\ keys (group cos') = keys (group cos) /\
  policy cos' = policy cos /\
  forall j, disabled (Mask cos') j =
            mask_prefix (length Ks) (signatureMask sig) (Mask cos) j.

Lemma Cosigners_Verify_short cos message sig :
  (length sig < 64)%nat -> Cosigners_Verify cos message sig = Return (false, cos).
Proof.
  intros L. unfold Cosigners_Verify, SignatureSize.
  destruct (Nat.ltb_spec (length sig) 64); [reflexivity | lia].
Qed.

Lemma Cosigners_Verify_decides cos Ks message sig check :
  signers_ok (group cos) Ks -> bytes_ok sig -> (64 <= length sig)%nat ->
  policy cos = Some check ->
  exists cos', masked cos cos' Ks sig /\
    forall ok, check (group cos') = Return ok ->
    exists b, Cosigners_Verify cos message sig = Return (b, cos') /\
      (b = true <-> ok = true /\
         equation (group cos') Ks message (firstn 32 sig) (firstn 32 sig)
           (firstn 32 (skipn 32 sig)) (aggregatePoint (group cos') Ks)).
Proof.
  intros Hc Ok L Hp. unfold Cosigners_Verify.
  destruct (Nat.ltb_spec (length sig) SignatureSize) as [L' | _]; [unfold SignatureSize in L'; lia |].
  pose proof (disabled_signatureMask cos sig L) as DM. cbv zeta in DM.
  set (newMask := if (SignatureSize <? length sig)%nat then _ else _) in *.
  destruct (SetMask_spec cos Ks newMask Hc) as (cos' & E & Hc' & Ek & Ep & Hm).
  rewrite E. cbn [obind]. exists cos'. split.
  { split; [exact Hc' |]. split; [exact Ek |]. split; [exact Ep |]. intros j. rewrite Hm.
    unfold mask_prefix. now rewrite DM. }
  intros ok Hok. rewrite Ep, Hp, Hok. cbn [obind].
  destruct ok; cbn [negb]; [| exists false; split; [reflexivity | split; [discriminate | tauto]]].
  eexists. split; [reflexivity |].
  rewrite firstn_firstn, skipn_firstn_comm. cbn [Nat.min Nat.sub].
  rewrite (verify_decides cos' Ks _ _ _ _ _ _ Hc' (so_aggr _ _ Hc')).
  - unfold aggregatePoint. tauto.
  - apply bytes_ok_firstn, bytes_ok_skipn, Ok.
Qed.

(** ** What a verifier accepts *)

(** The two policies of the package: [None] is the default, everybody must sign. *)
Definition policyOf (p : option Z) : option Policy := option_map ThresholdPolicy p.

Definition required (p : option Z) (n : nat) : Z :=
  match p with None => Z.of_nat n | Some t => t end.

(** A signature is good for the keys [Ks] when enough signers are enabled in its
    mask and the equation holds for the sum of exactly their keys. *)
Definition collective_ok (threshold : Z) (Ks : list point) (message sig : list Z) : Prop :=
  let A := sumFrom (disabled (signatureMask sig)) 0 Ks in
  (64 <= length sig)%nat /\ threshold <= enabledBelow (signatureMask sig) (length Ks) /\
  nth 63 sig 0 < 32 /\
  firstn 32 sig = encode_point (checkPoint
    (challenge (firstn 32 sig) (encode_point A) message) (le_val (firstn 32 (skipn 32 sig))) A).

Lemma masked_prefix cos cos' Ks sig j :
  masked cos cos' Ks sig -> (j < length Ks)%nat ->
  disabled (Mask cos') j = disabled (signatureMask sig) j.
Proof.
  intros (_ & _ & _ & Hm) Hj. rewrite Hm. unfold mask_prefix.
  destruct (Nat.ltb_spec j (length Ks)); [reflexivity | lia].
Qed.

Lemma masked_aggregate cos cos' Ks sig :
  masked cos cos' Ks sig ->
  aggregatePoint (group cos') Ks = sumFrom (disabled (signatureMask sig)) 0 Ks.
Proof.
  intros M. apply sumFrom_ext. intros j Hj. apply (masked_prefix _ _ _ _ _ M). lia.
Qed.

Lemma masked_count cos cos' Ks sig :
  masked cos cos' Ks sig ->
  CountEnabled (group cos') = Return (enabledBelow (signatureMask sig) (length Ks)).
Proof.
  intros M. rewrite (CountEnabled_spec _ Ks (proj1 M)). f_equal.
  apply enabledBelow_ext. intros j Hj. apply (masked_prefix _ _ _ _ _ M Hj).
Qed.

Lemma policy_check cos cos' Ks sig p :
  masked cos cos' Ks sig ->
  match policyOf p with None => fullPolicy | Some q => q end (group cos') =
  Return (required p (length Ks) <=? enabledBelow (signatureMask sig) (length Ks)).
Proof.
  intros M. destruct p as [t |]; cbn [policyOf option_map required];
    unfold ThresholdPolicy, thresPolicy, fullPolicy; rewrite (masked_count _ _ _ _ M);
    cbn [obind]; [reflexivity |].
  f_equal. unfold CountTotal. rewrite (keys_length _ _ (proj1 M)).
  pose proof (enabledBelow_bounds (signatureMask sig) (length Ks)).
  destruct (Z.eqb_spec (enabledBelow (signatureMask sig) (length Ks)) (Z.of_nat (length Ks))),
    (Z.leb_spec (Z.of_nat (length Ks)) (enabledBelow (signatureMask sig) (length Ks)));
    first [lia | reflexivity].
Qed.

Lemma Cosigners_Verify_policy cos Ks p message sig :
  signers_ok (group cos) Ks -> bytes_ok sig ->
  exists b cos', Cosigners_Verify (SetPolicy cos (policyOf p)) message sig = Return (b, cos') /\
    (b = true <-> collective_ok (required p (length Ks)) Ks message sig) /\
    ((64 <= length sig)%nat -> masked (SetPolicy cos (policyOf p)) cos' Ks sig).
Proof.
  intros Hc Ok. destruct (Nat.lt_ge_cases (length sig) 64) as [L | L].
  { rewrite Cosigners_Verify_short by exact L. eexists _, _. split; [reflexivity |].
    split; [| lia]. split; [discriminate |]. unfold collective_ok. cbv zeta. lia. }
  destruct (Cosigners_Verify_decides (SetPolicy cos (policyOf p)) Ks message sig _ Hc Ok L eq_refl)
    as (cos' & M & Hv).
  destruct (Hv _ (policy_check _ _ _ _ _ M)) as (b & E & Hb).
  exists b, cos'. split; [exact E |]. split; [| intros _; exact M].
  rewrite Hb, Z.leb_le. unfold equation, collective_ok. cbv zeta.
  rewrite (masked_aggregate _ _ _ _ M), nth_firstn, nth_skipn. cbn [Nat.ltb Nat.leb Nat.add].
  rewrite !length_firstn, length_skipn. rewrite !Nat.min_l by lia. tauto.
Qed.

Lemma Verify_decides_keys pks Ks p message sig :
  Forall bytes_ok pks -> Forall2 decodes (effectiveKeys zero32 pks) Ks -> bytes_ok sig ->
  exists b, Verify pks (policyOf p) message sig = Return b /\
    (b = true <-> collective_ok (required p (length Ks)) Ks message sig).
Proof.
  intros Opk HD Ok. unfold Verify, SignatureSize.
  destruct (Nat.ltb_spec (length sig) 64) as [L | L].
  { exists false. split; [reflexivity |]. split; [discriminate |].
    unfold collective_ok. cbv zeta. lia. }
  destruct (NewCosigners_decodable pks (Some (skipn 64 sig)) Ks Opk HD)
    as (cos & -> & Hc & _). cbn [obind].
  destruct (Cosigners_Verify_policy cos Ks p message sig Hc Ok) as (b & cos' & -> & Hb & _).
  cbn [obind fst]. exists b. auto.
Qed.

(** A key that is no point makes [Verify] dereference the nil [Cosigners]. *)
Lemma Verify_undecodable pks p message sig :
  Forall bytes_ok pks -> Exists undecodable (effectiveKeys zero32 pks) ->
  (64 <= length sig)%nat -> Verify pks p message sig = Panic.
Proof.
  intros Ok HE L. unfold Verify, SignatureSize.
  destruct (Nat.ltb_spec (length sig) 64); [lia |].
  now rewrite NewCosigners_undecodable.
Qed.

(** ** A complete signing session *)

Fixpoint traverse {X Y : Type} (f : X -> outcome Y) (l : list X) : outcome (list Y) :=
  match l with
  | [] => Return []
  | x :: l => y <- f x;; l <- traverse f l;; Return (y :: l)
  end.

Lemma traverse_all {X Y : Type} (f : X -> outcome Y) (g : X -> Y) l :
  Forall (fun x => f x = Return (g x)) l -> traverse f l = Return (map g l).
Proof.
  induction 1 as [| w l E H IH]; [reflexivity |]. cbn [map traverse]. rewrite E. cbn [obind].
  now rewrite IH.
Qed.

Lemma traverse_map {X Y W : Type} (f : X -> outcome Y) (h : W -> X) (g : W -> Y) l :
  Forall (fun w => f (h w) = Return (g w)) l -> traverse f (map h l) = Return (map g l).
Proof.
  induction 1 as [| w l E H IH]; [reflexivity |]. cbn [map traverse]. rewrite E. cbn [obind].
  now rewrite IH.
Qed.

(** What an operation that cannot fail here returned. *)
Definition must {X : Type} (r : option X) : outcome X :=
  match r with Some x => Return x | None => Panic end.

(** The protocol of the package comment: every signer, a key seed and 64 random
    bytes, generates its key and commits; the leader aggregates the commits;
    every signer signs; the leader aggregates the parts and appends the mask. *)
Definition session (participants : list (list Z * list Z)) (message : list Z) :
    outcome (list (list Z) * list Z) :=
  pairs <- traverse (fun s => must (GenerateKey (Some (fst s)))) participants;;
  commits <- traverse (fun s => must (Commit (Some (snd s)))) participants;;
  r <- NewCosigners (map fst pairs) None;;
  cos <- must r;;
  r <- AggregateCommit cos (map fst commits);;
  aggregateR <- must r;;
  parts <- traverse (fun pc => Cosign (snd (fst pc)) (snd (snd pc)) message
                                 (AggregatePublicKey cos) aggregateR) (combine pairs commits);;
  r <- AggregateSignature cos aggregateR (map fst parts);;
  sig <- must r;;
  Return (map fst pairs, sig ++ Mask cos).

Definition participant_ok (s : list Z * list Z) : Prop :=
  length (fst s) = 32%nat /\ length (snd s) = 64%nat /\ bytes_ok (snd s).

(** The scalars of a participant. *)
Definition secretOf (s : list Z * list Z) : Z := le_val (secretScalar (fst s)).

Definition nonceOf (s : list Z * list Z) : Z := commitScalar (snd s).

Lemma sumAll_zmul {X : Type} (f : X -> Z) l :
  sumAll (map (fun x => zmul (f x) B) l) = zmul (zsum (map f l)) B.
Proof.
  induction l as [| x l IH]; cbn [map sumAll zsum fold_right]; [now rewrite zmul_0 |].
  rewrite zmul_add. f_equal. exact IH.
Qed.

Lemma zsum_parts {X : Type} (f g : X -> Z) h l :
  zsum (map (fun x => (h * f x + g x) mod scOrder) l) mod scOrder =
  (h * zsum (map f l) + zsum (map g l)) mod scOrder.
Proof.
  induction l as [| x l IH]; cbn [map zsum fold_right]; [now rewrite Z.mul_0_r |].
  fold (zsum (map (fun x => (h * f x + g x) mod scOrder) l)) (zsum (map f l)) (zsum (map g l)).
  rewrite Z.add_mod_idemp_l, <- Z.add_mod_idemp_r, IH, Z.add_mod_idemp_r by discriminate.
  f_equal. ring.
Qed.

Lemma combine_maps {X Y W : Type} (f : W -> X) (g : W -> Y) l :
  combine (map f l) (map g l) = map (fun w => (f w, g w)) l.
Proof. induction l as [| w l IH]; cbn; [| rewrite IH]; reflexivity. Qed.

Lemma Forall2_maps {X Y W : Type} (R : X -> Y -> Prop) (f : W -> X) (g : W -> Y) l :
  (forall w, In w l -> R (f w) (g w)) -> Forall2 R (map f l) (map g l).
Proof.
  induction l as [| w l IH]; intros H; constructor; [apply H; now left |].
  apply IH. intros w' Hw. apply H. now right.
Qed.

Lemma participant_keys participants :
  let pks := map (fun s => encode_point (publicPoint (fst s))) participants in
  Forall bytes_ok pks /\
  Forall2 decodes (effectiveKeys zero32 pks) (map (fun s => zmul (secretOf s) B) participants).
Proof.
  intros pks. split.
  - apply Forall_map, Forall_forall. intros s _. apply encode_point_ok.
  - rewrite effectiveKeys_full.
    + apply Forall2_maps. intros s _. apply decodes_encode.
    + reflexivity.
    + apply Forall_map, Forall_forall. intros s _. apply encode_point_length.
Qed.

(** The aggregate commit, key and response of a session. *)
Definition sessionR (participants : list (list Z * list Z)) : list Z :=
  encode_point (zmul (zsum (map nonceOf participants)) B).

Definition sessionK (participants : list (list Z * list Z)) : list Z :=
  encode_point (zmul (zsum (map secretOf participants)) B).

Definition sessionS (participants : list (list Z * list Z)) (message : list Z) : Z :=
  let h := challenge (sessionR participants) (sessionK participants) message in
  (h * zsum (map secretOf participants) + zsum (map nonceOf participants)) mod scOrder.

Lemma all_enabled cos Ks :
  (forall j, (j < length Ks)%nat -> disabled (Mask cos) j = false) ->
  aggregatePoint (group cos) Ks = sumAll Ks.
Proof. intros H. apply sumFrom_none. intros j Hj. apply H. lia. Qed.

Lemma session_cosigners participants :
  exists cos,
    NewCosigners (map (fun s => encode_point (publicPoint (fst s))) participants) None =
      Return (Some cos) /\
    length (keys (group cos)) = length participants /\
    AggregatePublicKey cos = sessionK participants /\
    bytes_ok (Mask cos) /\ forall j, (j < length participants)%nat -> disabled (Mask cos) j = false.
Proof.
  destruct (participant_keys participants) as (Opk & HD).
  destruct (NewCosigners_decodable _ None _ Opk HD) as (cos & E & Hc & _ & Hm).
  rewrite length_map in Hm.
  exists cos. split; [exact E |]. split; [rewrite (keys_length _ _ Hc); apply length_map |].
  split; [| split; [exact (so_mask _ _ Hc) | exact Hm]].
  rewrite (AggregatePublicKey_spec _ _ Hc), all_enabled.
  - unfold sessionK. f_equal. apply sumAll_zmul.
  - rewrite length_map. exact Hm.
Qed.

Lemma session_commit cos participants :
  length (keys (group cos)) = length participants ->
  AggregateCommit cos (map (fun s => encode_point (zmul (nonceOf s) B)) participants) =
  Return (Some (sessionR participants)).
Proof.
  intros Len. unfold sessionR. rewrite <- sumAll_zmul. apply AggregateCommit_spec.
  - rewrite Len, firstn_all2 by (rewrite length_map; lia). apply Forall2_maps.
    intros s _. apply commits_to_encode.
  - rewrite length_map. lia.
Qed.

Lemma session_signature cos participants message :
  length (keys (group cos)) = length participants ->
  let h := challenge (sessionR participants) (sessionK participants) message in
  AggregateSignature cos (sessionR participants)
    (map (fun s => cosignPart (secretOf s) (nonceOf s) h) participants) =
  Return (Some (sessionR participants ++ le_bytes 32 (sessionS participants message))).
Proof.
  intros Len h. rewrite AggregateSignature_spec.
  - rewrite map_map. do 4 f_equal. unfold sessionS. fold h.
    rewrite <- (zsum_parts secretOf nonceOf). f_equal. f_equal. apply map_ext. intros s.
    unfold cosignPart. apply le_bytes_val256.
    pose proof (scOrder_bound (h * secretOf s + nonceOf s)). lia.
  - apply encode_point_length.
  - apply Forall_map, Forall_forall. intros s _.
    unfold cosignPart. split; auto with bytes.
  - now rewrite length_map.
Qed.

(** The session ends with the aggregate signature and the all-enabled mask. *)
Lemma session_spec participants message :
  Forall participant_ok participants ->
  exists mk, bytes_ok mk /\ (forall j, (j < length participants)%nat -> disabled mk j = false) /\
    session participants message =
    Return (map (fun s => encode_point (publicPoint (fst s))) participants,
            (sessionR participants ++ le_bytes 32 (sessionS participants message)) ++ mk).
Proof.
  intros HP.
  destruct (session_cosigners participants) as (cos & EN & Len & EK & Ok & Hm).
  exists (Mask cos). split; [exact Ok |]. split; [exact Hm |]. unfold session.
  rewrite (traverse_all _ (fun s => (encode_point (publicPoint (fst s)),
             fst s ++ encode_point (publicPoint (fst s)))))
    by (apply Forall_forall; intros s _; cbn [must]; rewrite GenerateKey_spec; reflexivity).
  cbn [obind].
  rewrite (traverse_all _ (fun s => (encode_point (zmul (nonceOf s) B),
             MkSecret (le_bytes 32 (nonceOf s)) true)))
    by (eapply Forall_impl; [| exact HP]; intros s (_ & L & O); rewrite Commit_spec by assumption;
        reflexivity).
  cbn [obind]. rewrite !map_map. cbn [fst]. rewrite EN. cbn [obind must].
  rewrite (session_commit cos participants Len). cbn [obind must].
  rewrite combine_maps, EK.
  set (h := challenge (sessionR participants) (sessionK participants) message).
  rewrite (traverse_map _ _ (fun s => (cosignPart (secretOf s) (nonceOf s) h, MkSecret zero32 false))).
  - cbn [obind]. rewrite map_map. cbn [fst]. unfold h.
    rewrite (session_signature cos participants message Len). reflexivity.
  - eapply Forall_impl; [| exact HP]. intros s (Ls & _ & _). cbn [fst snd].
    pose proof (reduced_bound (snd s)).
    apply Cosign_spec; [exact Ls | apply encode_point_length | apply encode_point_length |].
    unfold nonceOf, commitScalar. lia.
Qed.

Lemma sessionS_bound participants message :
  0 <= sessionS participants message < 2 ^ 253.
Proof. apply scOrder_bound. Qed.

Lemma session_collective participants message mk threshold :
  (forall j, (j < length participants)%nat -> disabled mk j = false) ->
  threshold <= Z.of_nat (length participants) ->
  collective_ok threshold (map (fun s => zmul (secretOf s) B) participants) message
    ((sessionR participants ++ le_bytes 32 (sessionS participants message)) ++ mk).
Proof.
  intros Hm Ht. pose proof (sessionS_bound participants message) as BS.
  unfold collective_ok, signatureMask. cbv zeta.
  assert (length (sessionR participants) = 32%nat) as LR by apply encode_point_length.
  assert (length (le_bytes 32 (sessionS participants message)) = 32%nat) as LS
    by apply length_le_bytes.
  rewrite (skipn_app_exact 64) by (rewrite length_app; lia).
  rewrite <- !app_assoc.
  rewrite (firstn_app_exact 32), (skipn_app_exact 32), (firstn_app_exact 32) by assumption.
  rewrite sumFrom_none by (intros j Hj; apply Hm; rewrite length_map in Hj; lia).
  rewrite sumAll_zmul. fold (sessionK participants). split_and.
  - rewrite !length_app. lia.
  - rewrite length_map. rewrite (proj2 (enabledBelow_full mk _)); assumption.
  - rewrite app_nth2, LR, app_nth1, top_byte by lia. Z.div_mod_to_equations. lia.
  - rewrite le_bytes_val256 by lia. unfold sessionS. rewrite checkPoint_honest. reflexivity.
Qed.

Lemma session_verifies participants message p :
  Forall participant_ok participants -> required p (length participants) <= Z.of_nat (length participants) ->
  exists pks sig, session participants message = Return (pks, sig) /\
    Verify pks (policyOf p) message sig = Return true.
Proof.
  intros HP Hp. destruct (session_spec participants message HP) as (mk & Ok & Hm & E).
  eexists _, _. split; [exact E |].
  destruct (participant_keys participants) as (Opk & HD).
  edestruct (Verify_decides_keys _ _ p message ((sessionR participants ++
    le_bytes 32 (sessionS participants message)) ++ mk) Opk HD) as (b & EV & Hb).
  - unfold sessionR. auto with bytes.
  - rewrite EV. f_equal. apply Hb. apply session_collective; [exact Hm |].
    now rewrite length_map.
Qed.

(** Every honest part passes [VerifyPart]. *)
Lemma VerifyPart_honest cos Ks message aggR i a r :
  signers_ok (group cos) Ks -> (i < length Ks)%nat -> nth i Ks pzero = zmul a B ->
  VerifyPart cos message aggR (Z.of_nat i) (encode_point (zmul r B))
    (cosignPart a r (challenge aggR (AggregatePublicKey cos) message)) = Return true.
Proof.
  intros Hc Hi Ha. set (h := challenge aggR (AggregatePublicKey cos) message).
  pose proof (scOrder_bound (h * a + r)) as Bs.
  destruct (VerifyPart_decides cos Ks message aggR i (encode_point (zmul r B))
    (cosignPart a r h) Hc Hi (le_bytes_ok _ _)) as (b & E & Hb).
  rewrite E. f_equal. apply Hb. unfold equation, cosignPart.
  split; [apply encode_point_length |]. split; [apply length_le_bytes |]. split.
  - rewrite top_byte by lia. Z.div_mod_to_equations. lia.
  - rewrite le_bytes_val256, Ha, <- (AggregatePublicKey_spec _ _ Hc) by lia.
    fold h. now rewrite checkPoint_honest.
Qed.

(** ** Properties *)



(** C5: for decodable keys [Verify] returns, and it accepts exactly
    the signatures of at least 64 bytes whose mask enables at least the required
    number of signers and whose equation holds for the sum of exactly the enabled
    keys; bits of the mask beyond the last signer are ignored. *)
Theorem collective_verification pks Ks p message sig :
  Forall bytes_ok pks -> Forall2 decodes (effectiveKeys zero32 pks) Ks -> bytes_ok sig ->
  exists b, Verify pks (policyOf p) message sig = Return b /\
    (b = true <-> collective_ok (required p (length Ks)) Ks message sig).
Proof. intros Opk HD Ok. exact (Verify_decides_keys pks Ks p message sig Opk HD Ok). Qed.

(** Two keys for the witnesses. *)
Definition exampleKeys : list (list Z) := [encode_point B; encode_point (zmul 2 B)].

Lemma exampleKeys_ok :
  Forall bytes_ok exampleKeys /\ Forall2 decodes (effectiveKeys zero32 exampleKeys) [B; zmul 2 B].
Proof.
  split.
  - apply Forall_forall. intros k [<- | [<- | []]]; apply encode_point_ok.
  - rewrite effectiveKeys_full; [| reflexivity |].
    + do 2 (apply Forall2_cons; [apply decodes_encode |]). apply Forall2_nil.
    + apply Forall_forall. intros k [<- | [<- | []]]; apply encode_point_length.
Qed.

Lemma collective_verification_witness :
  exists b, Verify exampleKeys (policyOf (Some 1)) [] (repeat 0 65) = Return b /\
    (b = true <-> collective_ok 1 [B; zmul 2 B] [] (repeat 0 65)).
Proof.
  apply (collective_verification exampleKeys [B; zmul 2 B] (Some 1));
    [apply exampleKeys_ok | apply exampleKeys_ok | apply zeros_ok].
Defined.

(** [SetMask] keeps the invariant of a [Cosigners] object, in particular that
    the cached aggregate key is the sum of the enabled keys; afterwards exactly
    the signers that the new mask enables are enabled, a mask that is too short
    enables the signers it does not cover, and [CountEnabled] counts them. *)
Lemma set_mask cos Ks newMask :
  signers_ok (group cos) Ks ->
  exists cos', SetMask cos newMask = Return cos' /\ signers_ok (group cos') Ks /\
    policy cos' = policy cos /\
    (forall i, (i < length Ks)%nat -> disabled (Mask cos') i = disabled newMask i) /\
    AggregatePublicKey cos' = encode_point (sumFrom (disabled newMask) 0 Ks) /\
    CountEnabled (group cos') = Return (enabledBelow newMask (length Ks)).
Proof.
  intros Hc. destruct (SetMask_spec cos Ks newMask Hc) as (cos' & E & Hc' & _ & Ep & Hm).
  assert (forall i, (i < length Ks)%nat -> disabled (Mask cos') i = disabled newMask i) as Hb.
  { intros i Hi. rewrite Hm. unfold mask_prefix. destruct (Nat.ltb_spec i (length Ks)); [reflexivity | lia]. }
  exists cos'. split; [exact E |]. split; [exact Hc' |]. split; [exact Ep |]. split; [exact Hb |].
  split.
  - rewrite (AggregatePublicKey_spec cos' Ks Hc'). unfold aggregatePoint. f_equal.
    apply sumFrom_ext. intros j Hj. apply Hb. lia.
  - rewrite (CountEnabled_spec _ Ks Hc'). f_equal. apply enabledBelow_ext. exact Hb.
Qed.

(** [SetMaskBit] changes the bit of one signer and nothing else, keeping the
    invariant, and [MaskBit] reads it back; an index outside of the mask makes both
    panic. *)
Lemma set_mask_bit cos Ks i value signer :
  signers_ok (group cos) Ks -> (i < length Ks)%nat ->
  (exists cos', SetMaskBit cos (Z.of_nat i) value = Return cos' /\ signers_ok (group cos') Ks /\
     Cosigners_MaskBit cos' (Z.of_nat i) = Return value /\
     forall j, (j < length Ks)%nat -> j <> i ->
       Cosigners_MaskBit cos' (Z.of_nat j) = Cosigners_MaskBit cos (Z.of_nat j)) /\
  (signer < 0 \/ 8 * Z.of_nat (length (Mask cos)) <= signer ->
   SetMaskBit cos signer value = Panic /\ Cosigners_MaskBit cos signer = Panic).
Proof.
  intros Hc Hi. split; [| apply SetMaskBit_out].
  destruct (SetMaskBit_spec cos Ks i value Hc Hi) as (cos' & E & Hc' & _ & _ & Hm).
  exists cos'. split; [exact E |]. split; [exact Hc' |].
  rewrite (MaskBit_spec cos' Ks i Hc' Hi), Hm, Nat.eqb_refl. split; [reflexivity |].
  intros j Hj N. rewrite (MaskBit_spec cos' Ks j Hc' Hj), (MaskBit_spec cos Ks j Hc Hj), Hm.
  destruct (Nat.eqb_spec j i); [contradiction | reflexivity].
Qed.

(** C17: [SetMask] keeps the invariant of a [Cosigners] object, in
    particular that the cached aggregate key is the sum of the enabled keys;
    afterwards exactly the signers that the new mask enables are enabled, a mask
    that is too short enables the signers it does not cover, and [CountEnabled]
    counts them.  [SetMaskBit] changes the bit of one signer and nothing else, and
    [MaskBit] reads it back; an index outside of the mask makes both panic. *)
Theorem mask_operations cos Ks :
  signers_ok (group cos) Ks ->
  (forall newMask, exists cos', SetMask cos newMask = Return cos' /\ signers_ok (group cos') Ks /\
     policy cos' = policy cos /\
     (forall i, (i < length Ks)%nat -> disabled (Mask cos') i = disabled newMask i) /\
     AggregatePublicKey cos' = encode_point (sumFrom (disabled newMask) 0 Ks) /\
     CountEnabled (group cos') = Return (enabledBelow newMask (length Ks))) /\
  (forall i value, (i < length Ks)%nat ->
     exists cos', SetMaskBit cos (Z.of_nat i) value = Return cos' /\ signers_ok (group cos') Ks /\
       Cosigners_MaskBit cos' (Z.of_nat i) = Return value /\
       forall j, (j < length Ks)%nat -> j <> i ->
         Cosigners_MaskBit cos' (Z.of_nat j) = Cosigners_MaskBit cos (Z.of_nat j)) /\
  (forall signer value, signer < 0 \/ 8 * Z.of_nat (length (Mask cos)) <= signer ->
     SetMaskBit cos signer value = Panic /\ Cosigners_MaskBit cos signer = Panic).
Proof.
  intros Hc. split; [intros newMask; exact (set_mask cos Ks newMask Hc) |].
  split; [intros i value Hi; exact (proj1 (set_mask_bit cos Ks i value 0 Hc Hi)) |].
  intros signer value. apply SetMaskBit_out.
Qed.

(** A [Cosigners] object for the witnesses. *)
Lemma exampleCosigners :
  exists cos, NewCosigners exampleKeys None = Return (Some cos) /\
    signers_ok (group cos) [B; zmul 2 B].
Proof.
  destruct exampleKeys_ok as [Ok HD].
  destruct (NewCosigners_decodable exampleKeys None _ Ok HD) as (cos & E & Hc & _). eauto.
Qed.

Lemma mask_operations_witness :
  exists cos cos1 cos2, NewCosigners exampleKeys None = Return (Some cos) /\
    SetMask cos [2] = Return cos1 /\
    AggregatePublicKey cos1 = encode_point (sumFrom (disabled [2]) 0 [B; zmul 2 B]) /\
    SetMaskBit cos 1 Disabled = Return cos2 /\ Cosigners_MaskBit cos2 1 = Return Disabled.
Proof.
  destruct exampleCosigners as (cos & E & Hc).
  destruct (mask_operations cos [B; zmul 2 B] Hc) as (S & T & _).
  destruct (S [2]) as (cos1 & E1 & _ & _ & _ & A & _).
  destruct (T 1%nat Disabled ltac:(cbn; lia)) as (cos2 & E2 & _ & M & _).
  exists cos, cos1, cos2. auto.
Defined.

(** C18: [NewCosigners] succeeds exactly when all keys decode.  It then holds
    the decoded points, the mask asked for (everybody enabled when there is none)
    and the default policy; when a key is no point it returns nil, and [Verify],
    which does not test for it, panics. *)
Theorem new_cosigners pks newMask :
  Forall bytes_ok pks ->
  (forall Ks, Forall2 decodes (effectiveKeys zero32 pks) Ks ->
   exists cos, NewCosigners pks newMask = Return (Some cos) /\ signers_ok (group cos) Ks /\
     policy cos = Some fullPolicy /\
     forall j, (j < length pks)%nat ->
       disabled (Mask cos) j = match newMask with None => false | Some m => disabled m j end) /\
  (Exists undecodable (effectiveKeys zero32 pks) ->
   NewCosigners pks newMask = Return None /\
   forall p message sig, (64 <= length sig)%nat -> Verify pks p message sig = Panic).
Proof.
  intros Ok. split.
  - intros Ks HD. exact (NewCosigners_decodable pks newMask Ks Ok HD).
  - intros HE. split; [now apply NewCosigners_undecodable |].
    intros p message sig L. now apply Verify_undecodable.
Qed.

Lemma new_cosigners_witness :
  exists cos, NewCosigners exampleKeys (Some [1]) = Return (Some cos) /\ disabled (Mask cos) 0 = true.
Proof.
  destruct (new_cosigners exampleKeys (Some [1]) (proj1 exampleKeys_ok)) as [H _].
  destruct (H [B; zmul 2 B] (proj2 exampleKeys_ok)) as (cos & E & _ & _ & Hm).
  exists cos. split; [exact E |]. rewrite (Hm 0%nat); [reflexivity | cbn; lia].
Defined.

(** [AggregateCommit] returns the encoding of the sum of the first n
    commits for n keys.  The sum ranges over all signers: the mask plays no role,
    although the comment of the function says that only the commits of enabled
    signers are used. *)
Lemma aggregate_commit_sum cos Ks commits Rs newMask :
  signers_ok (group cos) Ks ->
  (length Ks <= length commits)%nat ->
  Forall2 commits_to (firstn (length Ks) commits) Rs ->
  AggregateCommit cos commits = Return (Some (encode_point (sumAll Rs))) /\
  exists cos', SetMask cos newMask = Return cos' /\
    AggregateCommit cos' commits = Return (Some (encode_point (sumAll Rs))).
Proof.
  intros Hc L HC. destruct (SetMask_spec cos Ks newMask Hc) as (cos' & E & Hc' & _).
  split; [| exists cos'; split; [exact E |]];
    (apply AggregateCommit_spec; [| erewrite keys_length by eassumption; exact L]);
    erewrite keys_length by eassumption; exact HC.
Qed.

(** Fewer commits than keys make [AggregateCommit] panic with an
    index out of range; otherwise the first commit that has not 32 bytes or is no
    point makes it return nil. *)
Lemma aggregate_commit_errors cos commits Rs k :
  (k < length (keys (group cos)))%nat -> Forall2 commits_to (firstn k commits) Rs ->
  (length commits = k -> AggregateCommit cos commits = Panic) /\
  ((k < length commits)%nat -> bytes_ok (nth k commits []) ->
   length (nth k commits []) <> 32%nat \/ undecodable (nth k commits []) ->
   AggregateCommit cos commits = Return None).
Proof.
  intros Hk HC. split.
  - intros L. apply (AggregateCommit_short cos commits Rs); [| lia].
    now rewrite <- L, firstn_all in HC.
  - intros L Ok Bad. exact (AggregateCommit_invalid cos commits Rs k Hk L HC Ok Bad).
Qed.

(** C19: [AggregateCommit] returns the encoding of the sum of the first n
    commits for n keys.  The sum ranges over all signers: the mask plays no role,
    although the comment of the function says that only the commits of enabled
    signers are used.  Fewer commits than keys make it panic with an index out of
    range; otherwise the first commit that has not 32 bytes or is no point makes it
    return nil.  [AggregateSignature] appends to the aggregate commit the sum of the parts
    modulo the order of the base point, over all signers whatever the mask; a commit that
    has not 32 bytes makes it panic. *)
Theorem cosi_aggregation cos Ks commits aggregateR sigParts :
  signers_ok (group cos) Ks ->
  Forall part_ok sigParts -> length sigParts = length (keys (group cos)) ->
  (forall Rs newMask, (length Ks <= length commits)%nat ->
     Forall2 commits_to (firstn (length Ks) commits) Rs ->
     AggregateCommit cos commits = Return (Some (encode_point (sumAll Rs))) /\
     exists cos', SetMask cos newMask = Return cos' /\
       AggregateCommit cos' commits = Return (Some (encode_point (sumAll Rs)))) /\
  (forall Rs k, (k < length Ks)%nat -> Forall2 commits_to (firstn k commits) Rs ->
     (length commits = k -> AggregateCommit cos commits = Panic) /\
     ((k < length commits)%nat -> bytes_ok (nth k commits []) ->
      length (nth k commits []) <> 32%nat \/ undecodable (nth k commits []) ->
      AggregateCommit cos commits = Return None)) /\
  (length aggregateR = 32%nat ->
   AggregateSignature cos aggregateR sigParts =
   Return (Some (aggregateR ++ le_bytes 32 (zsum (map le_val sigParts) mod scOrder)))) /\
  (length aggregateR <> 32%nat -> AggregateSignature cos aggregateR sigParts = Panic).
Proof.
  intros Hc HP Len. split; [| split; [| split]].
  - intros Rs newMask L HC. exact (aggregate_commit_sum cos Ks commits Rs newMask Hc L HC).
  - intros Rs k Hk. apply aggregate_commit_errors. now rewrite (keys_length _ _ Hc).
  - intros LR. exact (AggregateSignature_spec cos aggregateR sigParts LR HP Len).
  - intros LR. unfold AggregateSignature, PublicKeySize.
    destruct (Nat.eqb_spec (length aggregateR) 32); [contradiction | reflexivity].
Qed.

Lemma cosi_aggregation_witness :
  exists cos, NewCosigners exampleKeys None = Return (Some cos) /\
    AggregateCommit cos exampleKeys = Return (Some (encode_point (sumAll [B; zmul 2 B]))) /\
    AggregateCommit cos [] = Panic /\ AggregateCommit cos [[1]] = Return None /\
    AggregateSignature cos zero32 [scOne; scOne] =
      Return (Some (zero32 ++ le_bytes 32 (zsum [1; 1] mod scOrder))).
Proof.
  destruct exampleCosigners as (cos & E & Hc). exists cos. split; [exact E |].
  assert (Forall part_ok [scOne; scOne]) as HP
    by (do 2 (apply Forall_cons; [apply scOne_ok |]); apply Forall_nil).
  assert (length [scOne; scOne] = length (keys (group cos))) as HL
    by (rewrite (keys_length _ _ Hc); reflexivity).
  split; [| split; [| split]].
  - apply (proj1 (cosi_aggregation cos [B; zmul 2 B] exampleKeys [] _ Hc HP HL) [B; zmul 2 B] []);
      [cbn; lia |].
    do 2 (apply Forall2_cons; [apply commits_to_encode |]). apply Forall2_nil.
  - apply (proj1 (proj2 (cosi_aggregation cos [B; zmul 2 B] [] [] _ Hc HP HL)) [] 0%nat);
      [cbn; lia | constructor | reflexivity].
  - apply (proj1 (proj2 (cosi_aggregation cos [B; zmul 2 B] [[1]] [] _ Hc HP HL)) [] 0%nat);
      [cbn; lia | constructor | cbn; lia | |].
    + apply Forall_cons; [unfold byte_ok; lia | apply Forall_nil].
    + left. discriminate.
  - apply (cosi_aggregation cos [B; zmul 2 B] [] zero32 _ Hc HP HL). reflexivity.
Defined.

(** C20: [Cosign] computes h a + r from the signer's key and its commitment's
    secret, and consumes the secret: a second use of it panics whatever the other
    arguments are, so that a nonce never signs two messages.  The part passes
    [VerifyPart] against the signer's own commit, whatever the other signers do. *)
Theorem cosign_once seed pk r message aggregateK aggregateR :
  length seed = 32%nat -> length pk = 32%nat -> length aggregateR = 32%nat -> 0 <= r < 2 ^ 256 ->
  exists part secret',
    Cosign (seed ++ pk) (MkSecret (le_bytes 32 r) true) message aggregateK aggregateR =
    Return (part, secret') /\
    part = le_bytes 32 ((challenge aggregateR aggregateK message * le_val (secretScalar seed) + r)
                         mod scOrder) /\
    (forall sk message' K R, Cosign sk secret' message' K R = Panic) /\
    forall cos Ks i, signers_ok (group cos) Ks -> (i < length Ks)%nat ->
      nth i Ks pzero = zmul (le_val (secretScalar seed)) B -> aggregateK = AggregatePublicKey cos ->
      VerifyPart cos message aggregateR (Z.of_nat i) (encode_point (zmul r B)) part = Return true.
Proof.
  intros Ls Lp LR Hr. pose proof (Cosign_spec seed pk r message aggregateK aggregateR Ls Lp LR Hr) as E.
  eexists _, _. split; [exact E |]. split; [reflexivity |].
  split; [exact (proj2 (Cosign_reuse _ _ _ _ _ _ _ E)) |].
  intros cos Ks i Hc Hi Ha ->. exact (VerifyPart_honest cos Ks message aggregateR i _ r Hc Hi Ha).
Qed.

Lemma cosign_once_witness :
  exists secret' s, Cosign (repeat 1 32 ++ repeat 2 32) (MkSecret (le_bytes 32 5) true) [] [] zero32 =
    Return (s, secret') /\ Cosign (repeat 1 64) secret' [9] [] zero32 = Panic.
Proof.
  destruct (cosign_once (repeat 1 32) (repeat 2 32) 5 [] [] zero32) as (s & secret' & E & _ & H & _);
    [reflexivity | reflexivity | reflexivity | lia |].
  exists secret', s. split; [exact E | apply H].
Defined.
