(* ===== verification/Aggregation.v ===== *)
(** * What the server needs of the signature package

    [Aggregation] is the part of package [cosi] that [src/network_helper.go] and
    [src/network.go] call, and [AggregationLaws] what it promises about it; the
    server is modelled and verified against these two classes.  The instances at
    the end are the operations of [Cosi], whose theorems discharge the laws. *)

From S2P Require Import Prelude Edwards GroupElement Ed25519 Cosi.

Class Aggregation := {
  Committee : Type;
  agg_NewCosigners : list (list Z) -> outcome (option Committee);
  agg_AggregatePublicKey : Committee -> list Z;
  agg_AggregateCommit : Committee -> list (list Z) -> outcome (option (list Z)) }.

(** The public keys of a list decode to the points [Ks]. *)
Definition keys_decode (pks : list (list Z)) (Ks : list point) : Prop :=
  Forall bytes_ok pks /\ Forall2 decodes (effectiveKeys zero32 pks) Ks.

(** One of them does not. *)
Definition keys_bad (pks : list (list Z)) : Prop :=
  Forall bytes_ok pks /\ Exists undecodable (effectiveKeys zero32 pks).

Class AggregationLaws {A : Aggregation} := {
  (** [c] is the committee of the keys [Ks] *)
  committeeOf : Committee -> list point -> Prop;
  agg_total : forall pks, exists c, agg_NewCosigners pks = Return c;
  agg_new : forall pks Ks, keys_decode pks Ks ->
    exists c, agg_NewCosigners pks = Return (Some c) /\ committeeOf c Ks;
  agg_new_bad : forall pks, keys_bad pks -> agg_NewCosigners pks = Return None;
  agg_key : forall c Ks, committeeOf c Ks ->
    agg_AggregatePublicKey c = encode_point (sumAll Ks);
  agg_commit : forall c Ks commits Rs, committeeOf c Ks ->
    (length Ks <= length commits)%nat ->
    Forall2 commits_to (firstn (length Ks) commits) Rs ->
    agg_AggregateCommit c commits = Return (Some (encode_point (sumAll Rs))) }.

Lemma keys_decode_length pks Ks : keys_decode pks Ks -> length Ks = length pks.
Proof.
  intros [_ HD]. pose proof (Forall2_length HD) as L. now rewrite effectiveKeys_length in L.
Qed.

(** ** The package [cosi] *)

#[export] Instance cosi_aggregation : Aggregation := {|
  Committee := Cosigners;
  agg_NewCosigners pks := NewCosigners pks None;
  agg_AggregatePublicKey := AggregatePublicKey;
  agg_AggregateCommit := AggregateCommit |}.

(** The keys are loaded and everybody is enabled. *)
Definition cosi_committeeOf (cos : Cosigners) (Ks : list point) : Prop :=
  signers_ok (group cos) Ks /\
  forall j, (j < length Ks)%nat -> disabled (Mask cos) j = false.

Lemma NewCosigners_total pks : exists c, NewCosigners pks None = Return c.
Proof. unfold NewCosigners. destruct (loadKeys _ _ _ _) as [[ks ag] |]; eauto. Qed.

Lemma cosi_new pks Ks :
  keys_decode pks Ks ->
  exists c, NewCosigners pks None = Return (Some c) /\ cosi_committeeOf c Ks.
Proof.
  intros H. pose proof (keys_decode_length pks Ks H) as L. destruct H as [Ok HD].
  destruct (NewCosigners_decodable pks None Ks Ok HD) as (cos & E & Hc & _ & Hm).
  exists cos. split; [exact E |]. split; [exact Hc |]. intros j Hj. apply Hm. lia.
Qed.

Lemma cosi_commit c Ks commits Rs :
  cosi_committeeOf c Ks -> (length Ks <= length commits)%nat ->
  Forall2 commits_to (firstn (length Ks) commits) Rs ->
  AggregateCommit c commits = Return (Some (encode_point (sumAll Rs))).
Proof.
  intros [Hc _] L HC. apply AggregateCommit_spec; rewrite (keys_length _ _ Hc); assumption.
Qed.

#[export] Instance cosi_laws : AggregationLaws (A := cosi_aggregation) := {|
  committeeOf := cosi_committeeOf : @Committee cosi_aggregation -> list point -> Prop;
  agg_total := NewCosigners_total;
  agg_new := cosi_new;
  agg_new_bad pks H := NewCosigners_undecodable pks None (proj1 H) (proj2 H);
  agg_key c Ks H := eq_trans (AggregatePublicKey_spec c Ks (proj1 H))
                      (f_equal encode_point (all_enabled c Ks (proj2 H)));
  agg_commit := cosi_commit |}.
