(* ===== verification/Tool.v ===== *)
(** * Constants and helpers of the server

    Model of [src/tool.go]: the two constants, the hash of a round number and the
    test helper that aggregates keys with commitments made by the server. *)

From S2P Require Import Prelude Edwards GroupElement BasePoint ScalarMult Scalar Sha2 Ed25519 Cosi.

Local Open Scope go_scope.

(** ** The code *)

Definition threshold : Z := 10.

Definition gcRoundWindow : Z := 4.

(** [binary.BigEndian.PutUint64]. *)
Definition PutUint64 (v : Z) : list Z :=
  [uint8 (Z.shiftr v 56); uint8 (Z.shiftr v 48); uint8 (Z.shiftr v 40); uint8 (Z.shiftr v 32);
   uint8 (Z.shiftr v 24); uint8 (Z.shiftr v 16); uint8 (Z.shiftr v 8); uint8 v].

Definition generateRoundHash (round : Z) : list Z := sha256 (PutUint64 round).

(** The commitments of the loop; [reads] is what successive reads of the system's
    random source return, and [None] is the early return on an error. *)
Fixpoint testCommits (n : nat) (reads : list (option (list Z))) (commits : list (list Z)) :
    option (list (list Z)) :=
  match n with
  | O => Some commits
  | S n =>
      match Commit (hd None reads) with
      | None => None
      | Some (tempCommit, _) => testCommits n (tl reads) (commits ++ [tempCommit])
      end
  end.

(** A nil [Cosigners] is dereferenced by [AggregatePublicKey]. *)
Definition aggregatePubKey (reads : list (option (list Z))) (pubKeys : list (list Z)) :
    outcome (option (list Z) * option (list Z)) :=
  cosigners <- NewCosigners pubKeys None;;
  match testCommits (length pubKeys) reads [] with
  | None => Return (None, None)
  | Some commits =>
      match cosigners with
      | None => Panic
      | Some cosigners =>
          let aggregatePublicKey := AggregatePublicKey cosigners in
          aggregateCommit <- AggregateCommit cosigners commits;;
          Return (Some aggregatePublicKey, aggregateCommit)
      end
  end.

(** ** The round hash *)

Lemma PutUint64_le v : PutUint64 v = rev (le_bytes 8 v).
Proof.
  unfold PutUint64. cbn [le_bytes rev app].
  rewrite !uint8_mod, !Z.shiftr_div_pow2, !Z.div_div by lia. reflexivity.
Qed.

Lemma PutUint64_length v : length (PutUint64 v) = 8%nat.
Proof. reflexivity. Qed.

(** Distinct rounds hash distinct messages. *)
Lemma PutUint64_inj v w :
  0 <= v < 2 ^ 64 -> 0 <= w < 2 ^ 64 -> PutUint64 v = PutUint64 w -> v = w.
Proof.
  intros Hv Hw. rewrite !PutUint64_le. intros E%(f_equal (@rev Z)). rewrite !rev_involutive in E.
  apply (f_equal le_val) in E. rewrite !le_val_le_bytes in E.
  now rewrite !Z.mod_small in E.
Qed.

(** ** [aggregatePubKey] *)

Lemma testCommits_spec n reads commits :
  (n <= length reads)%nat ->
  Forall (fun r => exists b, r = Some b /\ length b = 64%nat /\ bytes_ok b) (firstn n reads) ->
  exists bs, firstn n reads = map Some bs /\
    testCommits n reads commits =
    Some (commits ++ map (fun b => encode_point (zmul (commitScalar b) B)) bs).
Proof.
  revert reads commits; induction n as [| n IH]; intros reads commits Hn H.
  { exists []. cbn. now rewrite app_nil_r. }
  destruct reads as [| r reads]; [cbn in Hn; lia |]. cbn [firstn] in H.
  apply Forall_cons_iff in H. destruct H as ((b & -> & L & Ok) & H).
  cbn [testCommits hd tl]. rewrite Commit_spec by assumption.
  destruct (IH reads (commits ++ [encode_point (zmul (commitScalar b) B)])) as (bs & E & ->);
    [cbn in Hn; lia | exact H |].
  exists (b :: bs). cbn [firstn map]. rewrite E. split; [reflexivity |].
  now rewrite <- app_assoc.
Qed.

(** With decodable keys and a working random source the helper returns the sum of
    the keys and the sum of the commitments it made. *)
Lemma aggregatePubKey_spec reads pubKeys Ks :
  Forall bytes_ok pubKeys -> Forall2 decodes (effectiveKeys zero32 pubKeys) Ks ->
  (length pubKeys <= length reads)%nat ->
  Forall (fun r => exists b, r = Some b /\ length b = 64%nat /\ bytes_ok b)
    (firstn (length pubKeys) reads) ->
  exists bs, firstn (length pubKeys) reads = map Some bs /\
    aggregatePubKey reads pubKeys =
    Return (Some (encode_point (sumAll Ks)),
            Some (encode_point (zmul (zsum (map commitScalar bs)) B))).
Proof.
  intros Ok HD Hn HR. destruct (testCommits_spec _ _ [] Hn HR) as (bs & E & ET).
  destruct (NewCosigners_decodable pubKeys None Ks Ok HD) as (cos & EN & Hc & _ & Hm).
  exists bs. split; [exact E |]. unfold aggregatePubKey. rewrite EN. cbn [obind].
  rewrite ET. cbn [app]. rewrite (AggregatePublicKey_spec _ _ Hc).
  pose proof (Forall2_length HD) as Len. rewrite effectiveKeys_length in Len.
  rewrite all_enabled by (intros j Hj; apply Hm; lia).
  apply (f_equal (@length _)) in E. rewrite length_map, length_firstn, Nat.min_l in E by exact Hn.
  rewrite (AggregateCommit_spec cos _ (map (fun b => zmul (commitScalar b) B) bs)).
  - cbn [obind]. now rewrite sumAll_zmul.
  - rewrite (keys_length _ _ Hc), firstn_all2 by (rewrite length_map; lia).
    apply Forall2_maps. intros b _. apply commits_to_encode.
  - rewrite (keys_length _ _ Hc), length_map. lia.
Qed.
