(* ===== verification/Mesh.v ===== *)
(** * The mesh server: code

    Model of [src/network.go] and [src/network_helper.go].  A [world] is the
    server object together with what its handlers share with the Go runtime: the
    channels and timers that the maps point to, the running [JoinNetwork]
    streams and the goroutines that execute [tryFinalize].

    A handler that holds [m.mu] is one step.  [tryFinalize] holds no lock, so it
    is a sequence of steps between which other handlers run.  A panic in any of
    them ends the process: [Panic] is the outcome of the whole server.  The calls of
    package [cosi] go through the interface of [Aggregation]. *)

From S2P Require Import Prelude Aggregation Tool.
From stdpp Require Import base gmap strings list numbers.

Local Open Scope go_scope.
Local Open Scope Z_scope.

(** ** Messages *)

Record CommitteeCandidateInfo := MkCandidateInfo {
  cci_Round : Z;
  cci_NodeId : string;
  cci_Seed : string;
  cci_Proof : list Z;
  cci_PublicKey : list Z;
  cci_Commit : list Z;
  cci_MetricData1 : string;
  cci_MetricData2 : string;
  cci_MetricData3 : string }.

Record CommitData := MkCommitData {
  cd_Round : Z;
  cd_Commit : list Z }.

(** A nil byte slice is [None]. *)
Record FinalizedCommittee := MkFinalized {
  fc_Round : Z;
  fc_NodeId : list string;
  fc_AggregatedCommit : option (list Z);
  fc_AggregatedPubKey : option (list Z);
  fc_PublicKeys : list (list Z) }.

Record Ack := MkAck { ack_Ok : bool }.

(** ** State *)

(** A buffered channel of capacity 100. *)
Record channel := MkChannel {
  ch_buf : list FinalizedCommittee;
  ch_closed : bool }.

Definition ch_cap : nat := 100.

Section mesh.
Context {Agg : Aggregation}.

(** The fields of [meshSrv]; a map that [newMeshSrv] leaves nil is an option, and
    channels and timers are references. *)
Record meshSrv := MkMeshSrv {
  subs : gmap string nat;
  processed : option (gmap Z bool);
  timers : option (gmap Z nat);
  committeeCandidates : option (gmap Z (list CommitteeCandidateInfo));
  commitData : option (gmap Z (list CommitData));
  cosigners : option Committee }.

(** A goroutine in [tryFinalize], by the statement it executes next. *)
Inductive finalizer : Type :=
  | FStart (round : Z)
  | FCosigners (round : Z) (cands : list CommitteeCandidateInfo)
  | FAggregate (round : Z) (cands : list CommitteeCandidateInfo)
  | FBroadcast (msg : FinalizedCommittee)
  | FCleanup (round : Z).

(** A running [JoinNetwork], with what it has sent; a nil message is [None]. *)
Record stream := MkStream {
  st_node : string;
  st_wire : list (option FinalizedCommittee) }.

Record world := MkWorld {
  srv : meshSrv;
  nodeNumber : Z;
  chans : gmap nat channel;
  streams : gmap nat stream;
  alarms : gmap nat Z;
  finalizers : list finalizer;
  nextRef : nat }.

(** Field updates. *)
Definition with_subs f (m : meshSrv) := MkMeshSrv (f (subs m)) (processed m) (timers m)
  (committeeCandidates m) (commitData m) (cosigners m).
Definition with_processed f (m : meshSrv) := MkMeshSrv (subs m) (f (processed m)) (timers m)
  (committeeCandidates m) (commitData m) (cosigners m).
Definition with_timers f (m : meshSrv) := MkMeshSrv (subs m) (processed m) (f (timers m))
  (committeeCandidates m) (commitData m) (cosigners m).
Definition with_candidates f (m : meshSrv) := MkMeshSrv (subs m) (processed m) (timers m)
  (f (committeeCandidates m)) (commitData m) (cosigners m).
Definition with_commitData f (m : meshSrv) := MkMeshSrv (subs m) (processed m) (timers m)
  (committeeCandidates m) (f (commitData m)) (cosigners m).
Definition with_cosigners c (m : meshSrv) := MkMeshSrv (subs m) (processed m) (timers m)
  (committeeCandidates m) (commitData m) c.

Definition with_srv f (w : world) := MkWorld (f (srv w)) (nodeNumber w) (chans w) (streams w)
  (alarms w) (finalizers w) (nextRef w).
Definition with_nodeNumber n (w : world) := MkWorld (srv w) n (chans w) (streams w)
  (alarms w) (finalizers w) (nextRef w).
Definition with_chans f (w : world) := MkWorld (srv w) (nodeNumber w) (f (chans w)) (streams w)
  (alarms w) (finalizers w) (nextRef w).
Definition with_streams f (w : world) := MkWorld (srv w) (nodeNumber w) (chans w) (f (streams w))
  (alarms w) (finalizers w) (nextRef w).
Definition with_alarms f (w : world) := MkWorld (srv w) (nodeNumber w) (chans w) (streams w)
  (f (alarms w)) (finalizers w) (nextRef w).
Definition with_finalizers f (w : world) := MkWorld (srv w) (nodeNumber w) (chans w) (streams w)
  (alarms w) (f (finalizers w)) (nextRef w).
Definition with_nextRef n (w : world) := MkWorld (srv w) (nodeNumber w) (chans w) (streams w)
  (alarms w) (finalizers w) n.

(** Maps that may be nil: a nil map reads as empty, deleting from it does
    nothing and writing to it panics. *)
Definition readMap {A} (m : option (gmap Z A)) (k : Z) : option A :=
  match m with None => None | Some m => m !! k end.

Definition deleteMap {A} (k : Z) (m : option (gmap Z A)) : option (gmap Z A) :=
  match m with None => None | Some m => Some (delete k m) end.

Definition writeMap {A} (m : option (gmap Z A)) (k : Z) (v : A) : outcome (gmap Z A) :=
  match m with None => Panic | Some m => Return (<[k := v]> m) end.

Definition makeMap {A} (m : option (gmap Z A)) : option (gmap Z A) :=
  match m with None => Some ∅ | Some m => Some m end.

(** A missing slice reads as nil. *)
Definition readSlice {A} (m : option (gmap Z (list A))) (k : Z) : list A :=
  match readMap m k with None => [] | Some l => l end.

(** ** Channels *)

(** [close(ch)]: closing a closed channel panics. *)
Definition closeChan (ch : nat) (w : world) : outcome world :=
  match chans w !! ch with
  | None => Panic
  | Some c =>
      if ch_closed c then Panic
      else Return (with_chans (fun m => <[ch := MkChannel (ch_buf c) true]> m) w)
  end.

(** [select { case ch <- msg: default: }]: a full buffer drops the message, a
    closed channel panics. *)
Definition trySend (ch : nat) (msg : FinalizedCommittee) (w : world) : outcome world :=
  match chans w !! ch with
  | None => Panic
  | Some c =>
      if ch_closed c then Panic
      else if (length (ch_buf c) <? ch_cap)%nat
      then Return (with_chans (fun m => <[ch := MkChannel (ch_buf c ++ [msg]) false]> m) w)
      else Return w
  end.

(** ** [network_helper.go] *)

Definition initMaps (m : meshSrv) : meshSrv :=
  MkMeshSrv (subs m) (makeMap (processed m)) (makeMap (timers m))
    (makeMap (committeeCandidates m)) (commitData m) (cosigners m).

(** [m.timers[r] = time.AfterFunc(maxWait, ...)], when the round has no timer. *)
Definition startTimer (r : Z) (w : world) : outcome world :=
  match readMap (timers (srv w)) r with
  | Some _ => Return w
  | None =>
      ts <- writeMap (timers (srv w)) r (nextRef w);;
      Return (with_nextRef (S (nextRef w))
               (with_alarms (fun a => <[nextRef w := r]> a)
                 (with_srv (with_timers (fun _ => Some ts)) w)))
  end.

(** [m.timers[r].Stop()]: a nil timer panics, a stopped timer does not fire. *)
Definition stopTimer (r : Z) (w : world) : outcome world :=
  match readMap (timers (srv w)) r with
  | None => Panic
  | Some t => Return (with_alarms (fun a => delete t a) w)
  end.

Definition appendCandidate (cci : CommitteeCandidateInfo) (w : world) : outcome (bool * world) :=
  let w := with_srv initMaps w in
  match readMap (processed (srv w)) (cci_Round cci) with
  | Some true => Return (false, w)
  | _ =>
      let r := cci_Round cci in
      cs <- writeMap (committeeCandidates (srv w)) r
              (readSlice (committeeCandidates (srv w)) r ++ [cci]);;
      let w := with_srv (with_candidates (fun _ => Some cs)) w in
      w <- startTimer r w;;
      if threshold <=? Z.of_nat (length (readSlice (committeeCandidates (srv w)) r))
      then
        w <- stopTimer (cci_Round cci) w;;
        Return (true, with_finalizers (fun fs => fs ++ [FStart r]) w)
      else Return (true, w)
  end.

(** [for _, ch := range m.subs]. *)
Fixpoint sendAll (chs : list nat) (msg : FinalizedCommittee) (w : world) : outcome world :=
  match chs with
  | [] => Return w
  | ch :: chs => w <- trySend ch msg w;; sendAll chs msg w
  end.

Definition broadcast (msg : FinalizedCommittee) (w : world) : outcome world :=
  sendAll (map snd (map_to_list (subs (srv w)))) msg w.

(** One step of [tryFinalize]: the statements it executes until the next point
    where another handler can interfere, and what is left to do. *)
Definition tryFinalize_step (f : finalizer) (w : world) : outcome (option finalizer * world) :=
  match f with
  | FStart round =>
      ps <- writeMap (processed (srv w)) round true;;
      let m := with_timers (deleteMap round) (with_processed (fun _ => Some ps) (srv w)) in
      let cands := readSlice (committeeCandidates m) round in
      Return (Some (FCosigners round cands),
              with_nodeNumber (Z.of_nat (length cands)) (with_srv (fun _ => m) w))
  | FCosigners round cands =>
      cos <- agg_NewCosigners (map cci_PublicKey cands);;
      Return (Some (FAggregate round cands), with_srv (with_cosigners cos) w)
  | FAggregate round cands =>
      match cosigners (srv w) with
      | None => Panic
      | Some cos =>
          let aggPubKey := agg_AggregatePublicKey cos in
          aggCommit <- agg_AggregateCommit cos (map cci_Commit cands);;
          Return (Some (FBroadcast (MkFinalized round (map cci_NodeId cands) aggCommit
                                      (Some aggPubKey) (map cci_PublicKey cands))), w)
      end
  | FBroadcast msg =>
      w <- broadcast msg w;;
      Return (Some (FCleanup (fc_Round msg)), w)
  | FCleanup round =>
      Return (None, with_srv (fun m => with_processed (deleteMap round)
                                        (with_candidates (deleteMap round) m)) w)
  end.

(** [tryFinalize] without interference. *)
Definition tryFinalize (round : Z) (w : world) : outcome world :=
  ps <- writeMap (processed (srv w)) round true;;
  let m := with_timers (deleteMap round) (with_processed (fun _ => Some ps) (srv w)) in
  let cands := readSlice (committeeCandidates m) round in
  let w := with_nodeNumber (Z.of_nat (length cands)) (with_srv (fun _ => m) w) in
  cos <- agg_NewCosigners (map cci_PublicKey cands);;
  let w := with_srv (with_cosigners cos) w in
  match cosigners (srv w) with
  | None => Panic
  | Some cos =>
      let aggPubKey := agg_AggregatePublicKey cos in
      aggCommit <- agg_AggregateCommit cos (map cci_Commit cands);;
      w <- broadcast (MkFinalized round (map cci_NodeId cands) aggCommit
                        (Some aggPubKey) (map cci_PublicKey cands)) w;;
      Return (with_srv (fun m => with_processed (deleteMap round)
                                  (with_candidates (deleteMap round) m)) w)
  end.

(** [if r+gcRoundWindow < cur { delete(m.committeeCandidates, r) }]: the sum is a
    [uint64]. *)
Definition gcKeep (cur r : Z) : bool := negb (uint64 (r + gcRoundWindow) <? cur).

Definition gcOldRounds (cur : Z) (m : meshSrv) : meshSrv :=
  with_candidates (fun cs =>
    match cs with
    | None => None
    | Some cs => Some (filter (fun kv => gcKeep cur (fst kv) = true) cs)
    end) m.

(** ** [network.go] *)

Definition newMeshSrv : meshSrv := MkMeshSrv ∅ None None None None None.

(** [JoinNetwork] up to its loop: a fresh channel is registered. *)
Definition JoinNetwork_register (nodeID : string) (w : world) : world :=
  let ch := nextRef w in
  with_nextRef (S ch)
    (with_streams (fun s => <[ch := MkStream nodeID []]> s)
      (with_srv (with_subs (fun s => <[nodeID := ch]> s))
        (with_chans (fun c => <[ch := MkChannel [] false]> c) w))).

(** The deferred function. *)
Definition JoinNetwork_defer (nodeID : string) (ch : nat) (w : world) : outcome world :=
  let w := with_srv (with_subs (fun s => delete nodeID s)) w in
  w <- closeChan ch w;;
  Return (with_srv (with_processed (fun _ => Some ∅)) w).

(** [return]: the deferred function runs and the stream is over. *)
Definition JoinNetwork_return (ch : nat) (st : stream) (w : world) : outcome world :=
  w <- JoinNetwork_defer (st_node st) ch w;;
  Return (with_streams (fun s => delete ch s) w).

(** [case msg := <-ch]: [None] when the receive blocks.  A closed and empty channel
    yields nil for ever.  [sendOk] tells whether [stream.Send] succeeded. *)
Definition JoinNetwork_receive (ch : nat) (st : stream) (sendOk : bool) (w : world) :
    option (outcome world) :=
  match chans w !! ch with
  | None => None
  | Some c =>
      let deliver msg w :=
        if sendOk
        then Return (with_streams (fun s =>
               <[ch := MkStream (st_node st) (st_wire st ++ [msg])]> s) w)
        else JoinNetwork_return ch st w in
      match ch_buf c with
      | msg :: buf =>
          Some (deliver (Some msg)
                  (with_chans (fun m => <[ch := MkChannel buf (ch_closed c)]> m) w))
      | [] => if ch_closed c then Some (deliver None w) else None
      end
  end.

Definition LeaveNetwork (nodeID : string) (w : world) : outcome (Ack * world) :=
  match subs (srv w) !! nodeID with
  | Some ch =>
      let w := with_srv (with_subs (fun s => delete nodeID s)) w in
      w <- closeChan ch w;;
      Return (MkAck true, w)
  | None => Return (MkAck true, w)
  end.

Definition RequestCommittee (cci : CommitteeCandidateInfo) (w : world) : outcome (Ack * world) :=
  let w := with_srv (with_cosigners None) w in
  r <- appendCandidate cci w;;
  if negb (fst r) then Return (MkAck false, snd r)
  else Return (MkAck true, with_srv (gcOldRounds (cci_Round cci)) (snd r)).

Definition RequestAggregatedCommit (cd : CommitData) (w : world) : outcome (Ack * world) :=
  let w := with_srv (with_commitData makeMap) w in
  ds <- writeMap (commitData (srv w)) (cd_Round cd)
          (readSlice (commitData (srv w)) (cd_Round cd) ++ [cd]);;
  let w := with_srv (with_commitData (fun _ => Some ds)) w in
  if Z.of_nat (length (readSlice (commitData (srv w)) (cd_Round cd))) <? nodeNumber w
  then Return (MkAck true, w)
  else
    let recvPartCommit := map cd_Commit (readSlice (commitData (srv w)) (cd_Round cd)) in
    match cosigners (srv w) with
    | None => Panic
    | Some cos =>
        aggCommit <- agg_AggregateCommit cos recvPartCommit;;
        w <- broadcast (MkFinalized (cd_Round cd) [] aggCommit None []) w;;
        Return (MkAck true, with_srv (with_commitData (deleteMap (cd_Round cd))) w)
    end.

(** ** Executions *)

(** The process after [main] has registered the server. *)
Definition initWorld : world := MkWorld newMeshSrv 0 ∅ ∅ ∅ [] 0.

Inductive event : Type :=
  | EJoin (nodeID : string)
  | EReceive (ch : nat) (sendOk : bool)
  | EDone (ch : nat)
  | ELeave (nodeID : string)
  | ECommittee (cci : CommitteeCandidateInfo)
  | ECommit (cd : CommitData)
  | ETimer (t : nat)
  | EFinalize (k : nat).

(** One event: [None] when it is not enabled. *)
Definition step (e : event) (w : world) : option (outcome world) :=
  match e with
  | EJoin nodeID => Some (Return (JoinNetwork_register nodeID w))
  | EReceive ch sendOk =>
      match streams w !! ch with
      | None => None
      | Some st => JoinNetwork_receive ch st sendOk w
      end
  | EDone ch =>
      match streams w !! ch with
      | None => None
      | Some st => Some (JoinNetwork_return ch st w)
      end
  | ELeave nodeID => Some (r <- LeaveNetwork nodeID w;; Return (snd r))
  | ECommittee cci => Some (r <- RequestCommittee cci w;; Return (snd r))
  | ECommit cd => Some (r <- RequestAggregatedCommit cd w;; Return (snd r))
  | ETimer t =>
      match alarms w !! t with
      | None => None
      | Some r =>
          Some (Return (with_finalizers (fun fs => fs ++ [FStart r])
                         (with_alarms (fun a => delete t a) w)))
      end
  | EFinalize k =>
      match finalizers w !! k with
      | None => None
      | Some f =>
          Some (r <- tryFinalize_step f w;;
                Return (with_finalizers (fun fs =>
                          match fst r with
                          | Some f' => <[k := f']> fs
                          | None => take k fs ++ drop (S k) fs
                          end) (snd r)))
      end
  end.

(** The states the server reaches. *)
Inductive reachable : world -> Prop :=
  | reach_init : reachable initWorld
  | reach_step w e w' : reachable w -> step e w = Some (Return w') -> reachable w'.

(** A run of events. *)
Fixpoint run (es : list event) (w : world) : option (outcome world) :=
  match es with
  | [] => Some (Return w)
  | e :: es =>
      match step e w with
      | None => None
      | Some Panic => Some Panic
      | Some (Return w) => run es w
      end
  end.
End mesh.
