(* ===== verification/MeshSafety.v ===== *)
(** * The mesh server: safety

    An invariant of every reachable state of the server, the exact effect of
    [broadcast], and the list of the situations in which a handler can panic. *)

From S2P Require Import Prelude Aggregation Tool Mesh.
From stdpp Require Import base gmap strings list numbers.

Local Open Scope go_scope.
Local Open Scope Z_scope.

(** A candidate without the data that the server does not read. *)
Definition MkCandidate (round : Z) (node : string) (publicKey commit : list Z) :
    CommitteeCandidateInfo :=
  MkCandidateInfo round node "" [] publicKey commit "" "" "".

Section safety.
Context {Agg : Aggregation} {Laws : AggregationLaws}.

(** ** [broadcast] *)

(** What a non-blocking send does to an open channel. *)
Definition push (msg : FinalizedCommittee) (c : channel) : channel :=
  if (length (ch_buf c) <? ch_cap)%nat then MkChannel (ch_buf c ++ [msg]) (ch_closed c) else c.

Definition open_at (cs : gmap nat channel) (ch : nat) : Prop :=
  exists c, cs !! ch = Some c /\ ch_closed c = false.

#[export] Instance open_at_dec cs ch : Decision (open_at cs ch).
Proof.
  refine (match cs !! ch as o return o = cs !! ch -> _ with
          | None => fun E => right _
          | Some c => fun E => cast_if (decide (ch_closed c = false))
          end eq_refl); unfold open_at; rewrite <- E; [eauto | |]; intros (c' & [=] & O); congruence.
Defined.

Lemma with_chans_id w : with_chans (fun _ => chans w) w = w.
Proof. destruct w; reflexivity. Qed.

Lemma trySend_open ch msg w :
  open_at (chans w) ch ->
  exists cs, trySend ch msg w = Return (with_chans (fun _ => cs) w) /\
    forall ch', cs !! ch' = if decide (ch' = ch) then push msg <$> chans w !! ch'
                            else chans w !! ch'.
Proof.
  intros (c & E & O). unfold trySend. rewrite E, O.
  destruct (length (ch_buf c) <? ch_cap)%nat eqn:Hl.
  - eexists. split; [reflexivity |]. intros ch'. case_decide as D.
    + subst. rewrite lookup_insert_eq, E. simpl. unfold push. now rewrite Hl, O.
    + now rewrite lookup_insert_ne.
  - exists (chans w). rewrite with_chans_id. split; [reflexivity |]. intros ch'.
    case_decide as D; [| reflexivity]. subst. rewrite E. simpl. unfold push. now rewrite Hl.
Qed.

Lemma push_closed msg c : ch_closed (push msg c) = ch_closed c.
Proof. unfold push. destruct (length (ch_buf c) <? ch_cap)%nat; reflexivity. Qed.

Lemma push_length msg c :
  (length (ch_buf c) <= ch_cap)%nat -> (length (ch_buf (push msg c)) <= ch_cap)%nat.
Proof.
  intros H. unfold push. destruct (Nat.ltb_spec (length (ch_buf c)) ch_cap); [| exact H].
  cbn [ch_buf]. rewrite length_app. cbn [length]. lia.
Qed.

Lemma sendAll_spec chs msg w :
  NoDup chs -> (forall ch, ch ∈ chs -> open_at (chans w) ch) ->
  exists cs, sendAll chs msg w = Return (with_chans (fun _ => cs) w) /\
    forall ch, cs !! ch = if decide (ch ∈ chs) then push msg <$> chans w !! ch
                          else chans w !! ch.
Proof.
  revert w; induction chs as [| ch chs IH]; intros w ND HO.
  { exists (chans w). rewrite with_chans_id. split; [reflexivity |]. intros ch'.
    rewrite decide_False by set_solver. reflexivity. }
  apply list.NoDup_cons in ND as [Nin ND].
  destruct (trySend_open ch msg w) as (cs & E & Hcs); [apply HO; set_solver |].
  cbn [sendAll]. rewrite E. cbn [obind].
  destruct (IH (with_chans (fun _ => cs) w) ND) as (cs' & E' & Hcs').
  { intros ch' Hin. destruct (HO ch') as (c & Ec & Oc); [set_solver |].
    exists c. split; [| exact Oc]. cbn [chans with_chans]. rewrite Hcs, decide_False; set_solver. }
  exists cs'. split; [rewrite E'; reflexivity |]. intros ch'. rewrite Hcs'.
  cbn [chans with_chans]. rewrite Hcs.
  destruct (decide (ch' = ch)) as [-> | N].
  - rewrite decide_False, decide_True by set_solver. reflexivity.
  - destruct (decide (ch' ∈ chs)); [rewrite decide_True | rewrite decide_False]; set_solver.
Qed.

(** ** The invariant *)

Definition f_round (f : finalizer) : Z :=
  match f with
  | FStart r | FCosigners r _ | FAggregate r _ | FCleanup r => r
  | FBroadcast msg => fc_Round msg
  end.

Definition finalizing (fs : list finalizer) (r : Z) : Prop := exists f, f ∈ fs /\ f_round f = r.

Definition subs_ok (w : world) : Prop :=
  forall n ch, subs (srv w) !! n = Some ch -> open_at (chans w) ch /\
    exists st, streams w !! ch = Some st /\ st_node st = n.

Record inv (w : world) : Prop := {
  (** a subscribed channel is open and its stream, of that node, is running *)
  i_subs : subs_ok w;
  (** buffers are bounded *)
  i_buf : forall ch c, chans w !! ch = Some c -> (length (ch_buf c) <= ch_cap)%nat;
  (** a running stream has its channel *)
  i_streams : forall ch st, streams w !! ch = Some st -> is_Some (chans w !! ch);
  (** references are fresh *)
  i_fresh : forall ch, (nextRef w <= ch)%nat -> chans w !! ch = None /\ alarms w !! ch = None;
  (** a registered timer is armed, or the finalisation it stands for has begun *)
  i_timers : forall r t, readMap (timers (srv w)) r = Some t ->
    alarms w !! t = Some r \/ FStart r ∈ finalizers w;
  (** rounds have their own timers *)
  i_refs : forall r t, readMap (timers (srv w)) r = Some t -> (t < nextRef w)%nat /\
    forall r', readMap (timers (srv w)) r' = Some t -> r' = r;
  (** the candidates of a round are waiting for a timer or for a finalisation *)
  i_cands : forall r, readSlice (committeeCandidates (srv w)) r <> [] ->
    is_Some (readMap (timers (srv w)) r) \/ finalizing (finalizers w) r;
  (** no finalisation before the maps exist *)
  i_nil : processed (srv w) = None -> alarms w = ∅ /\ finalizers w = [] }.

Lemma inv_init : inv initWorld.
Proof.
  constructor; unfold subs_ok; cbn [initWorld newMeshSrv srv subs chans streams alarms finalizers
    timers committeeCandidates processed nextRef readSlice readMap]; auto;
    intros; try rewrite !lookup_empty in *; try discriminate; auto; contradiction.
Qed.

Lemma subs_NoDup w : subs_ok w -> NoDup (map snd (map_to_list (subs (srv w)))).
Proof.
  intros I. apply NoDup_fmap_2_strong; [| apply NoDup_map_to_list].
  intros [n ch] [n' ch'] H H' E. cbn in E. subst ch'.
  apply elem_of_map_to_list in H, H'.
  destruct (I _ _ H) as [_ (st & S & <-)], (I _ _ H') as [_ (st' & S' & <-)].
  congruence.
Qed.

Definition subscribed (w : world) (ch : nat) : Prop := exists n, subs (srv w) !! n = Some ch.

Lemma elem_of_subs w ch : ch ∈ map snd (map_to_list (subs (srv w))) <-> subscribed w ch.
Proof.
  unfold subscribed. rewrite list_elem_of_fmap. split.
  - intros ([n ch'] & -> & H). apply elem_of_map_to_list in H. eauto.
  - intros (n & H). exists (n, ch). split; [reflexivity |]. now apply elem_of_map_to_list.
Qed.

#[export] Instance subscribed_dec w ch : Decision (subscribed w ch).
Proof.
  refine (cast_if (decide (ch ∈ map snd (map_to_list (subs (srv w))))));
    abstract (rewrite <- elem_of_subs; assumption).
Defined.

(** Every subscribed channel gets the message unless its buffer is full; nothing
    else changes. *)
Lemma broadcast_subs msg w :
  subs_ok w ->
  exists cs, broadcast msg w = Return (with_chans (fun _ => cs) w) /\
    forall ch, cs !! ch = if decide (subscribed w ch) then push msg <$> chans w !! ch
                          else chans w !! ch.
Proof.
  intros I. destruct (sendAll_spec (map snd (map_to_list (subs (srv w)))) msg w)
    as (cs & E & H).
  - now apply subs_NoDup.
  - intros ch (n & Hn)%elem_of_subs. apply (I n ch Hn).
  - exists cs. split; [exact E |]. intros ch. rewrite H.
    destruct (decide (subscribed w ch)) as [D | D]; [rewrite decide_True | rewrite decide_False];
      rewrite ?elem_of_subs; auto.
Qed.

Lemma broadcast_inv msg w :
  inv w ->
  exists cs, broadcast msg w = Return (with_chans (fun _ => cs) w) /\
    forall ch, cs !! ch = if decide (subscribed w ch) then push msg <$> chans w !! ch
                          else chans w !! ch.
Proof. intros I. apply broadcast_subs, (i_subs w I). Qed.

Lemma inv_broadcast msg w w' : inv w -> broadcast msg w = Return w' -> inv w'.
Proof.
  intros I E. destruct (broadcast_inv msg w I) as (cs & E' & H).
  rewrite E in E'. injection E' as ->. destruct I as [I1 I2 I3 I4 I5 I8 I6 I7].
  constructor; unfold subs_ok in *; cbn [srv chans streams alarms finalizers nextRef with_chans]; auto.
  - intros n ch Hn. destruct (I1 n ch Hn) as ((c & Ec & Oc) & St). split; [| exact St].
    exists (push msg c). rewrite H, decide_True, Ec by now exists n.
    split; [reflexivity |]. now rewrite push_closed.
  - intros ch c. rewrite H. case_decide; [| apply I2].
    destruct (chans w !! ch) eqn:Ec; [| discriminate]. intros [= <-].
    apply push_length, (I2 _ _ Ec).
  - intros ch st Hs. rewrite H. case_decide; [| eauto]. rewrite fmap_is_Some. eauto.
  - intros ch Hc. rewrite H. destruct (I4 ch Hc) as [-> A]. case_decide; auto.
Qed.

(** ** Maps that may be nil *)

Lemma readMap_make {A} (m : option (gmap Z A)) k : readMap (makeMap m) k = readMap m k.
Proof. destruct m; reflexivity. Qed.

Lemma readMap_delete {A} (m : option (gmap Z A)) k k' :
  readMap (deleteMap k m) k' = if decide (k' = k) then None else readMap m k'.
Proof.
  destruct m as [m |]; cbn; [| now case_decide].
  case_decide; subst; [apply lookup_delete_eq | now apply lookup_delete_ne].
Qed.

Lemma readMap_insert {A} (m : gmap Z A) k v k' :
  readMap (Some (<[k := v]> m)) k' = if decide (k' = k) then Some v else readMap (Some m) k'.
Proof.
  cbn. case_decide; subst; [apply lookup_insert_eq | now apply lookup_insert_ne].
Qed.

Lemma readSlice_make {A} (m : option (gmap Z (list A))) k : readSlice (makeMap m) k = readSlice m k.
Proof. unfold readSlice. now rewrite readMap_make. Qed.

Lemma readSlice_delete {A} (m : option (gmap Z (list A))) k k' :
  readSlice (deleteMap k m) k' = if decide (k' = k) then [] else readSlice m k'.
Proof. unfold readSlice. rewrite readMap_delete. now case_decide. Qed.

Lemma readSlice_insert {A} (m : gmap Z (list A)) k v k' :
  readSlice (Some (<[k := v]> m)) k' = if decide (k' = k) then v else readSlice (Some m) k'.
Proof. unfold readSlice. rewrite readMap_insert. now case_decide. Qed.

(** ** The handlers preserve the invariant *)

(** The part of the state that the invariant reads of [meshSrv]. *)
Lemma inv_srv w m :
  inv w ->
  subs m = subs (srv w) -> (processed m = None -> processed (srv w) = None) ->
  (forall r, readMap (timers m) r = readMap (timers (srv w)) r) ->
  (forall r, readSlice (committeeCandidates m) r <> [] ->
     readSlice (committeeCandidates (srv w)) r <> []) ->
  inv (with_srv (fun _ => m) w).
Proof.
  intros [I1 I2 I3 I4 I5 I8 I6 I7] ES EP ET EC.
  constructor; unfold subs_ok in *; cbn [srv chans streams alarms finalizers nextRef with_srv]; auto.
  - now rewrite ES.
  - intros r t. rewrite ET. apply I5.
  - intros r t. rewrite ET. intros H. destruct (I8 r t H) as [L J]. split; [exact L |].
    intros r'. rewrite ET. apply J.
  - intros r H. rewrite ET. apply I6, EC, H.
Qed.

Lemma inv_cosigners w c : inv w -> inv (with_srv (with_cosigners c) w).
Proof. intros I. now apply (inv_srv w (with_cosigners c (srv w)) I). Qed.

Lemma inv_commitData w f : inv w -> inv (with_srv (with_commitData f) w).
Proof. intros I. now apply (inv_srv w (with_commitData f (srv w)) I). Qed.

Lemma inv_nodeNumber w n : inv w -> inv (with_nodeNumber n w).
Proof. intros [I1 I2 I3 I4 I5 I8 I6 I7]. now constructor. Qed.

Lemma inv_initMaps w :
  inv w -> inv (with_srv initMaps w) /\ processed (srv (with_srv initMaps w)) <> None.
Proof.
  intros I. split.
  - apply (inv_srv w (initMaps (srv w)) I); cbn [initMaps subs processed timers committeeCandidates].
    + reflexivity.
    + now destruct (processed (srv w)).
    + intros r. apply readMap_make.
    + intros r. now rewrite readSlice_make.
  - cbn. now destruct (processed (srv w)).
Qed.

Lemma inv_gc w cur : inv w -> inv (with_srv (gcOldRounds cur) w).
Proof.
  intros I. apply (inv_srv w (gcOldRounds cur (srv w)) I); cbn; auto.
  intros r. unfold readSlice, readMap.
  destruct (committeeCandidates (srv w)) as [cs |]; [| auto].
  rewrite map_lookup_filter. destruct (cs !! r) as [l |]; cbn; [| auto].
  destruct (guard (gcKeep cur r = true)); cbn; auto.
Qed.

Lemma inv_register w n : inv w -> inv (JoinNetwork_register n w).
Proof.
  intros [I1 I2 I3 I4 I5 I8 I6 I7].
  assert (forall ch, is_Some (chans w !! ch) -> ch <> nextRef w) as Fr.
  { intros ch [c Hc] ->. destruct (I4 (nextRef w) (le_n _)). congruence. }
  constructor; unfold subs_ok in *; cbn.
  - intros n' ch. destruct (decide (n' = n)) as [-> | Nn].
    + rewrite lookup_insert_eq. intros [= <-]. rewrite lookup_insert_eq. split; [| eauto].
      eexists. now rewrite lookup_insert_eq.
    + rewrite lookup_insert_ne by congruence. intros H. destruct (I1 n' ch H) as ((c & Hc & Oc) & St).
      assert (ch <> nextRef w) by (apply Fr; eauto).
      rewrite !lookup_insert_ne by congruence. split; [| exact St]. exists c.
      now rewrite lookup_insert_ne by congruence.
  - intros ch c. rewrite lookup_insert_Some. intros [[_ <-] | [_ H]]; [cbn; lia | eauto].
  - intros ch st. rewrite lookup_insert_Some, lookup_insert_is_Some'.
    intros [[<- _] | [_ H]]; eauto.
  - intros ch Hc. destruct (I4 ch) as [H1 H2]; [lia |]. rewrite lookup_insert_ne by lia. auto.
  - exact I5.
  - intros r t H. destruct (I8 r t H) as [L J]. split; [lia | exact J].
  - exact I6.
  - exact I7.
Qed.

Lemma closeChan_open ch w :
  open_at (chans w) ch ->
  exists c, chans w !! ch = Some c /\
    closeChan ch w = Return (with_chans (fun m => <[ch := MkChannel (ch_buf c) true]> m) w).
Proof. intros (c & E & O). exists c. unfold closeChan. now rewrite E, O. Qed.

(** Closing a channel that no subscription refers to any more. *)
Lemma inv_close w n ch c :
  inv w -> chans w !! ch = Some c ->
  (forall n', n' <> n -> subs (srv w) !! n' <> Some ch) ->
  inv (with_chans (fun m => <[ch := MkChannel (ch_buf c) true]> m)
        (with_srv (with_subs (fun s => delete n s)) w)).
Proof.
  intros [I1 I2 I3 I4 I5 I8 I6 I7] Hc Hn. constructor; unfold subs_ok in *; cbn; auto.
  - intros n' ch'. rewrite lookup_delete_Some. intros [Nn H].
    destruct (I1 n' ch' H) as ((c' & Hc' & Oc') & St). split; [| exact St]. exists c'.
    rewrite lookup_insert_ne; [auto |]. intros ->. now apply (Hn n').
  - intros ch' c'. rewrite lookup_insert_Some. intros [[<- <-] | [_ H]]; [cbn; eauto | eauto].
  - intros ch' st H. rewrite lookup_insert_is_Some'. eauto.
  - intros ch' H. destruct (I4 ch' H) as [H1 H2]. rewrite lookup_insert_ne; [auto |]. congruence.
Qed.

Lemma subs_owner w n ch st :
  inv w -> streams w !! ch = Some st -> n <> st_node st -> subs (srv w) !! n <> Some ch.
Proof.
  intros I St N E. destruct (i_subs w I n ch E) as [_ (st' & St' & En)]. congruence.
Qed.

(** The end of a stream: it panics exactly when its channel is already closed. *)
Lemma return_spec w ch st :
  inv w -> streams w !! ch = Some st ->
  if decide (open_at (chans w) ch)
  then exists w', JoinNetwork_return ch st w = Return w' /\ inv w'
  else JoinNetwork_return ch st w = Panic.
Proof.
  intros I St. unfold JoinNetwork_return, JoinNetwork_defer.
  destruct (i_streams w I ch st St) as [c Hc]. case_decide as D.
  - destruct (closeChan_open ch (with_srv (with_subs (fun s => delete (st_node st) s)) w) D)
      as (c' & Hc' & ->). cbn [obind].
    eexists. split; [reflexivity |].
    pose proof (inv_close w (st_node st) ch c' I Hc'
      (fun n' Nn => subs_owner w n' ch st I St Nn)) as [I1 I2 I3 I4 I5 I8 I6 I7].
    constructor; unfold subs_ok in *; cbn in *; auto.
    + intros n' ch' H. destruct (I1 n' ch' H) as (O & st' & St' & <-). split; [exact O |].
      exists st'. split; [| reflexivity]. rewrite lookup_delete_ne; [exact St' |]. intros <-.
      destruct O as (c2 & E & Oc). rewrite lookup_insert_eq in E. now injection E as <-.
    + intros ch' st'. rewrite lookup_delete_Some. intros [_ H]. eauto.
    + discriminate.
  - unfold closeChan. cbn [with_srv chans]. rewrite Hc.
    destruct (ch_closed c) eqn:O; [reflexivity |]. destruct D. now exists c.
Qed.

Lemma leave_spec w n :
  inv w -> exists w', LeaveNetwork n w = Return (MkAck true, w') /\ inv w'.
Proof.
  intros I. unfold LeaveNetwork. destruct (subs (srv w) !! n) as [ch |] eqn:E; [| eauto].
  destruct (i_subs w I n ch E) as [O (st & St & En)].
  destruct (closeChan_open ch (with_srv (with_subs (fun s => delete n s)) w) O) as (c & Hc & ->).
  cbn [obind]. eexists. split; [reflexivity |].
  apply (inv_close w n ch c I Hc). intros n' Nn. apply (subs_owner w n' ch st I St). congruence.
Qed.

(** [stream.Send] of the next message: it blocks, sends, or ends the stream. *)
Lemma inv_receive w ch st ok w' :
  inv w -> streams w !! ch = Some st -> JoinNetwork_receive ch st ok w = Some (Return w') -> inv w'.
Proof.
  intros I St. unfold JoinNetwork_receive.
  destruct (i_streams w I ch st St) as [c Hc]. rewrite Hc.
  assert (forall msg w1 w2, inv w1 -> streams w1 !! ch = Some st ->
    (if ok then Return (with_streams (fun s =>
       <[ch := MkStream (st_node st) (st_wire st ++ [msg])]> s) w1)
     else JoinNetwork_return ch st w1) = Return w2 -> inv w2) as Deliver.
  { intros msg w1 w2 I1 St1. destruct ok.
    - intros [= <-]. destruct I1 as [J1 J2 J3 J4 J5 J8 J6 J7]. constructor; unfold subs_ok in *; cbn; auto.
      + intros n' ch' H. destruct (J1 n' ch' H) as (O & st' & St' & En). split; [exact O |].
        destruct (decide (ch' = ch)) as [-> | Nc].
        * rewrite lookup_insert_eq. eexists. split; [reflexivity |]. cbn. congruence.
        * rewrite lookup_insert_ne by congruence. eauto.
      + intros ch' st'. rewrite lookup_insert_Some. intros [[<- _] | [_ H]]; eauto.
    - pose proof (return_spec w1 ch st I1 St1) as R. case_decide; intros E.
      + destruct R as (w3 & E3 & I3). congruence.
      + congruence. }
  destruct (ch_buf c) as [| msg buf] eqn:Eb.
  - destruct (ch_closed c); [| discriminate]. intros [= E]. eapply Deliver; eauto.
  - intros [= E]. eapply (Deliver (Some msg)); [| | exact E]; [| exact St].
    clear - I Hc Eb. destruct I as [J1 J2 J3 J4 J5 J8 J6 J7]. constructor; unfold subs_ok in *; cbn; auto.
    + intros n' ch' H. destruct (J1 n' ch' H) as ((c' & Hc' & Oc') & St'). split; [| exact St'].
      destruct (decide (ch' = ch)) as [-> | Nc].
      * rewrite Hc in Hc'. injection Hc' as <-. eexists. now rewrite lookup_insert_eq.
      * exists c'. now rewrite lookup_insert_ne by congruence.
    + intros ch' c'. rewrite lookup_insert_Some. intros [[<- <-] | [_ H]]; [| eauto].
      specialize (J2 ch c Hc). rewrite Eb in J2. cbn in *. lia.
    + intros ch' st' H. rewrite lookup_insert_is_Some'. eauto.
    + intros ch' H. destruct (J4 ch' H). rewrite lookup_insert_ne; [auto |]. congruence.
Qed.

(** ** Candidates *)

Lemma snoc_old (f g : finalizer) fs : f ∈ fs -> f ∈ fs ++ [g].
Proof. set_solver. Qed.

Lemma snoc_new (f : finalizer) fs : f ∈ fs ++ [f].
Proof. set_solver. Qed.

Lemma finalizing_app fs gs r : finalizing fs r -> finalizing (fs ++ gs) r.
Proof. intros (f & Hf & E). exists f. split; [set_solver | exact E]. Qed.

(** The invariant without the clause on the candidates of round [r]. *)
Definition inv_but (r : Z) (w : world) : Prop :=
  inv (with_srv (with_candidates (deleteMap r)) w).

Lemma inv_restore r w :
  inv_but r w -> is_Some (readMap (timers (srv w)) r) -> inv w.
Proof.
  intros [I1 I2 I3 I4 I5 I8 I6 I7] T. constructor; unfold subs_ok in *; cbn in *; auto.
  intros r' H. destruct (decide (r' = r)) as [-> | N]; [now left |].
  apply I6. now rewrite readSlice_delete, decide_False.
Qed.

Lemma inv_but_append r w cs l :
  inv w -> committeeCandidates (srv w) = Some cs ->
  inv_but r (with_srv (with_candidates (fun _ => Some (<[r := l]> cs))) w).
Proof.
  intros I C. apply (inv_srv w (with_candidates (fun _ => deleteMap r (Some (<[r := l]> cs))) (srv w)) I);
    cbn [with_candidates subs processed timers committeeCandidates]; auto.
  intros r'. rewrite readSlice_delete. case_decide; [congruence |].
  rewrite readSlice_insert, decide_False, C by assumption. auto.
Qed.

Lemma startTimer_spec r w :
  inv_but r w -> processed (srv w) <> None -> timers (srv w) <> None ->
  exists w', startTimer r w = Return w' /\ inv w' /\
    is_Some (readMap (timers (srv w')) r) /\
    committeeCandidates (srv w') = committeeCandidates (srv w) /\
    processed (srv w') = processed (srv w) /\ finalizers w' = finalizers w /\
    cosigners (srv w') = cosigners (srv w).
Proof.
  intros I P T. unfold startTimer.
  destruct (readMap (timers (srv w)) r) as [t |] eqn:E.
  { exists w. split; [reflexivity |]. split; [| rewrite E; eauto 10].
    apply (inv_restore r); [exact I | now rewrite E]. }
  destruct (timers (srv w)) as [ts |] eqn:Ets; [| contradiction]. cbn [writeMap obind].
  eexists. split; [reflexivity |].
  destruct I as [I1 I2 I3 I4 I5 I8 I6 I7]. cbn in *.
  split; [| cbn; rewrite lookup_insert_eq; eauto 10].
  rewrite Ets in I5, I6, I8. constructor; unfold subs_ok in *; cbn in *; auto.
  - intros ch Hc. destruct (I4 ch) as [H1 H2]; [lia |]. now rewrite lookup_insert_ne by lia.
  - intros r' t. rewrite lookup_insert_Some. intros [[<- <-] | [N H]].
    + left. apply lookup_insert_eq.
    + destruct (I5 r' t H) as [A | F]; [left | now right].
      rewrite lookup_insert_ne; [exact A |]. intros <-. destruct (I4 (nextRef w) (le_n _)). congruence.
  - intros r' t. rewrite lookup_insert_Some. intros [[<- <-] | [N H]].
    + split; [lia |]. intros r'. rewrite lookup_insert_Some. intros [[<- _] | [_ H]]; [reflexivity |].
      destruct (I8 _ _ H). lia.
    + destruct (I8 _ _ H) as [L J]. split; [lia |]. intros r2. rewrite lookup_insert_Some.
      intros [[_ E2] | [_ H2]]; [lia | now apply J].
  - intros r' H. destruct (decide (r' = r)) as [-> | N].
    + left. now rewrite lookup_insert_eq.
    + rewrite lookup_insert_ne by congruence. apply I6. now rewrite readSlice_delete, decide_False.
  - intros H. now destruct P.
Qed.

(** A stopped timer leaves the finalisation to a goroutine. *)
Lemma inv_stop r w t :
  inv w -> processed (srv w) <> None -> readMap (timers (srv w)) r = Some t ->
  inv (with_finalizers (fun fs => fs ++ [FStart r]) (with_alarms (fun a => delete t a) w)).
Proof.
  intros [I1 I2 I3 I4 I5 I8 I6 I7] P T. constructor; unfold subs_ok in *; cbn; auto.
  - intros ch Hc. destruct (I4 ch Hc) as [H1 H2]. split; [exact H1 |].
    apply lookup_delete_None. now right.
  - intros r' t' H. destruct (I5 r' t' H) as [A | F]; [| right; now apply snoc_old].
    destruct (decide (t' = t)) as [-> | N].
    + right. rewrite (proj2 (I8 r t T) r' H). apply snoc_new.
    + left. now rewrite lookup_delete_ne by congruence.
  - intros r' H. destruct (I6 r' H) as [T' | F]; [now left | right; now apply finalizing_app].
  - intros H. now destruct P.
Qed.

Lemma timer_spec w t r :
  inv w -> alarms w !! t = Some r ->
  inv (with_finalizers (fun fs => fs ++ [FStart r]) (with_alarms (fun a => delete t a) w)).
Proof.
  intros I A. pose proof (i_nil w I) as Nil. destruct I as [I1 I2 I3 I4 I5 I8 I6 I7].
  constructor; unfold subs_ok in *; cbn; auto.
  - intros ch Hc. destruct (I4 ch Hc) as [H1 H2]. split; [exact H1 |].
    apply lookup_delete_None. now right.
  - intros r' t' H. destruct (I5 r' t' H) as [A' | F]; [| right; now apply snoc_old].
    destruct (decide (t' = t)) as [-> | N].
    + right. assert (r' = r) as -> by congruence. apply snoc_new.
    + left. now rewrite lookup_delete_ne by congruence.
  - intros r' H. destruct (I6 r' H) as [T' | F]; [now left | right; now apply finalizing_app].
  - intros H. destruct (Nil H) as [E _]. rewrite E in A. discriminate.
Qed.

Lemma append_spec cci w :
  inv w -> exists b w', appendCandidate cci w = Return (b, w') /\ inv w'.
Proof.
  intros I. destruct (inv_initMaps w I) as [I' P']. unfold appendCandidate.
  set (w0 := with_srv initMaps w) in *.
  assert (timers (srv w0) <> None /\ is_Some (committeeCandidates (srv w0))) as [T' [cs C']].
  { cbn. split; [now destruct (timers (srv w)) | destruct (committeeCandidates (srv w)); cbn; eauto]. }
  destruct (readMap (processed (srv w0)) (cci_Round cci)) as [[] |] eqn:EP; [eauto | |].
  all: rewrite C'; cbn [writeMap obind]; set (r := cci_Round cci);
    set (w1 := with_srv (with_candidates _) w0);
    destruct (startTimer_spec r w1) as (w2 & E2 & I2 & [t T2] & C2 & P2 & F2 & _);
    [ exact (inv_but_append r w0 cs _ I' C')
    | exact P' | exact T' | ].
  all: rewrite E2; cbn [obind]; case_match; [| eauto].
  all: unfold stopTimer; fold r; rewrite T2; cbn [obind]; eexists _, _; split; [reflexivity |];
    apply inv_stop; [exact I2 | rewrite P2; exact P' | exact T2].
Qed.

Lemma request_spec cci w :
  inv w -> exists a w', RequestCommittee cci w = Return (a, w') /\ inv w'.
Proof.
  intros I. unfold RequestCommittee.
  destruct (append_spec cci _ (inv_cosigners w None I)) as (b & w' & -> & I'). cbn [obind fst snd].
  destruct b; cbn [negb]; eexists _, _; (split; [reflexivity |]); [now apply inv_gc | exact I'].
Qed.

(** ** Finalisation *)

Lemma elem_insert (fs : list finalizer) k f f' g :
  fs !! k = Some f -> g <> f -> g ∈ fs -> g ∈ <[k := f']> fs.
Proof.
  intros Hk N [i Hi]%list_elem_of_lookup. apply list_elem_of_lookup. exists i.
  rewrite list_lookup_insert_ne; [exact Hi |]. congruence.
Qed.

Lemma elem_remove (fs : list finalizer) k f g :
  fs !! k = Some f -> g <> f -> g ∈ fs -> g ∈ take k fs ++ drop (S k) fs.
Proof.
  intros Hk N H. rewrite <- (take_drop_middle fs k f Hk) in H. set_solver.
Qed.

Lemma finalizing_insert fs k f f' r :
  fs !! k = Some f -> f_round f' = f_round f -> finalizing fs r -> finalizing (<[k := f']> fs) r.
Proof.
  intros Hk E (g & Hg & <-). destruct (decide (f_round g = f_round f)) as [Eg | Ng].
  - exists f'. split; [| congruence]. apply list_elem_of_lookup. exists k.
    apply list_lookup_insert_eq. now apply lookup_lt_Some in Hk.
  - exists g. split; [| reflexivity]. apply (elem_insert _ _ f); [exact Hk | congruence | exact Hg].
Qed.

Lemma inv_advance w k f f' :
  inv w -> finalizers w !! k = Some f -> f_round f' = f_round f ->
  (forall r, FStart r = f -> readMap (timers (srv w)) r = None) ->
  inv (with_finalizers (fun fs => <[k := f']> fs) w).
Proof.
  intros I Hk E St. pose proof (i_nil w I) as Nil. destruct I as [I1 I2 I3 I4 I5 I8 I6 I7].
  constructor; unfold subs_ok in *; cbn; auto.
  - intros r t H. destruct (I5 r t H) as [A | F]; [now left | right].
    apply (elem_insert _ _ f); [exact Hk | | exact F]. intros Ef. rewrite (St r Ef) in H. discriminate.
  - intros r H. destruct (I6 r H) as [T | F]; [now left | right].
    now apply (finalizing_insert _ _ f).
  - intros H. destruct (Nil H) as [_ Hf]. rewrite Hf in Hk. discriminate.
Qed.

Lemma inv_cleanup w k r :
  inv w -> finalizers w !! k = Some (FCleanup r) ->
  inv (with_finalizers (fun fs => take k fs ++ drop (S k) fs)
        (with_srv (fun m => with_processed (deleteMap r) (with_candidates (deleteMap r) m)) w)).
Proof.
  intros I Hk. pose proof (i_nil w I) as Nil. destruct I as [I1 I2 I3 I4 I5 I8 I6 I7].
  constructor; unfold subs_ok in *; cbn; auto.
  - intros r' t H. destruct (I5 r' t H) as [A | F]; [now left | right].
    apply (elem_remove _ _ (FCleanup r)); [exact Hk | discriminate | exact F].
  - intros r'. rewrite readSlice_delete. case_decide as D; [congruence |]. intros H.
    destruct (I6 r' H) as [T | (g & Hg & E)]; [now left | right]. exists g. split; [| exact E].
    apply (elem_remove _ _ (FCleanup r)); [exact Hk | | exact Hg]. intros ->. cbn in E. congruence.
  - intros H. destruct (processed (srv w)); [discriminate |].
    destruct (Nil eq_refl) as [_ Hf]. rewrite Hf in Hk. discriminate.
Qed.

(** The first step of [tryFinalize] cannot find a nil map. *)
Lemma start_spec w k r :
  inv w -> finalizers w !! k = Some (FStart r) ->
  exists f w', tryFinalize_step (FStart r) w = Return (Some f, w') /\
    inv (with_finalizers (fun fs => <[k := f]> fs) w').
Proof.
  intros I Hk. cbn [tryFinalize_step].
  destruct (processed (srv w)) as [ps |] eqn:P.
  2: { destruct (i_nil w I P) as [_ Hf]. rewrite Hf in Hk. discriminate. }
  cbn [writeMap obind]. eexists _, _. split; [reflexivity |].
  destruct I as [I1 I2 I3 I4 I5 I8 I6 I7]. constructor; unfold subs_ok in *; cbn; auto.
  - intros r' t. rewrite readMap_delete. case_decide as D; [discriminate |]. intros H.
    destruct (I5 r' t H) as [A | F]; [now left | right].
    apply (elem_insert _ _ (FStart r)); [exact Hk | congruence | exact F].
  - intros r' t. rewrite readMap_delete. case_decide as D; [discriminate |]. intros H.
    destruct (I8 r' t H) as [L J]. split; [exact L |]. intros r2. rewrite readMap_delete.
    case_decide; [discriminate |]. apply J.
  - intros r' H. rewrite readMap_delete. case_decide as D.
    + right. subst. apply (finalizing_insert _ _ (FStart r)); [exact Hk | reflexivity |].
      exists (FStart r). split; [| reflexivity]. apply list_elem_of_lookup. eauto.
    + destruct (I6 r' H) as [T | F]; [now left | right].
      now apply (finalizing_insert _ _ (FStart r)).
  - discriminate.
Qed.

Definition advance (k : nat) (f' : option finalizer) (fs : list finalizer) : list finalizer :=
  match f' with Some f' => <[k := f']> fs | None => take k fs ++ drop (S k) fs end.

Lemma broadcast_srv msg w w' :
  inv w -> broadcast msg w = Return w' -> srv w' = srv w /\ finalizers w' = finalizers w /\
    nodeNumber w' = nodeNumber w /\ alarms w' = alarms w.
Proof.
  intros I E. destruct (broadcast_inv msg w I) as (cs & E' & _). rewrite E in E'.
  now injection E' as ->.
Qed.

(** Where [tryFinalize] panics: only where it dereferences [m.cosigners]. *)
Lemma finalize_spec w k f :
  inv w -> finalizers w !! k = Some f ->
  match tryFinalize_step f w with
  | Return (f', w') => inv (with_finalizers (advance k f') w')
  | Panic => exists r cands, f = FAggregate r cands /\
      (cosigners (srv w) = None \/
       exists cos, cosigners (srv w) = Some cos /\
         agg_AggregateCommit cos (map cci_Commit cands) = Panic)
  end.
Proof.
  intros I Hk. destruct f as [r | r cands | r cands | msg | r].
  - destruct (start_spec w k r I Hk) as (f & w' & -> & I'). exact I'.
  - cbn [tryFinalize_step]. destruct (agg_total (map cci_PublicKey cands)) as [c ->].
    cbn [obind]. unfold advance.
    apply (inv_advance _ k (FCosigners r cands)); [now apply inv_cosigners | exact Hk | reflexivity |].
    discriminate.
  - cbn [tryFinalize_step]. destruct (cosigners (srv w)) as [cos |] eqn:C; [| eauto].
    destruct (agg_AggregateCommit cos (map cci_Commit cands)) eqn:A; cbn [obind]; [| eauto 8].
    unfold advance. apply (inv_advance _ k (FAggregate r cands)); [exact I | exact Hk | reflexivity |].
    discriminate.
  - cbn [tryFinalize_step]. destruct (broadcast_inv msg w I) as (cs & E & _).
    pose proof (inv_broadcast msg w _ I E) as I'. rewrite E. cbn [obind]. unfold advance.
    apply (inv_advance _ k (FBroadcast msg)); [exact I' | exact Hk | reflexivity |]. discriminate.
  - cbn [tryFinalize_step]. now apply inv_cleanup.
Qed.

(** ** [RequestAggregatedCommit] *)

(** The data of a round once [cd] is added. *)
Definition received (cd : CommitData) (w : world) : list CommitData :=
  readSlice (commitData (srv w)) (cd_Round cd) ++ [cd].

Lemma commit_spec cd w :
  inv w ->
  match RequestAggregatedCommit cd w with
  | Return (a, w') => inv w' /\ a = MkAck true
  | Panic => nodeNumber w <= Z.of_nat (length (received cd w)) /\
      (cosigners (srv w) = None \/
       exists cos, cosigners (srv w) = Some cos /\
         agg_AggregateCommit cos (map cd_Commit (received cd w)) = Panic)
  end.
Proof.
  intros I. unfold RequestAggregatedCommit, received.
  cbn [with_srv srv with_commitData commitData]. rewrite readSlice_make.
  destruct (makeMap (commitData (srv w))) as [ds |] eqn:Ed; [| now destruct (commitData (srv w))].
  cbn [writeMap obind]. cbn [srv with_srv with_commitData commitData nodeNumber cosigners].
  rewrite readSlice_insert, decide_True by reflexivity.
  destruct (Z.ltb_spec (Z.of_nat (length (readSlice (commitData (srv w)) (cd_Round cd) ++ [cd])))
    (nodeNumber w)) as [L | L].
  { split; [| reflexivity]. apply inv_commitData, inv_commitData, I. }
  destruct (cosigners (srv w)) as [cos |] eqn:C; [| split; [lia | now left]].
  destruct (agg_AggregateCommit cos _) as [ag |] eqn:A; cbn [obind]; [| split; [lia | eauto]].
  match goal with |- context [broadcast ?m ?w0] => set (msg := m); set (w1 := w0) end.
  assert (inv w1) as I1 by apply inv_commitData, inv_commitData, I.
  destruct (broadcast_inv msg w1 I1) as (cs & E & _).
  pose proof (inv_broadcast msg w1 _ I1 E) as I2. rewrite E. cbn [obind].
  split; [| reflexivity]. now apply inv_commitData.
Qed.

(** ** Every reachable state *)

Lemma inv_step e w w' : inv w -> step e w = Some (Return w') -> inv w'.
Proof.
  intros I. destruct e as [n | ch ok | ch | n | cci | cd | t | k]; cbn [step].
  - intros [= <-]. now apply inv_register.
  - destruct (streams w !! ch) as [st |] eqn:St; [| discriminate]. now apply inv_receive.
  - destruct (streams w !! ch) as [st |] eqn:St; [| discriminate]. intros [= E].
    pose proof (return_spec w ch st I St) as R. case_decide; [| congruence].
    destruct R as (w2 & E2 & I2). congruence.
  - destruct (leave_spec w n I) as (w2 & -> & I2). now intros [= <-].
  - destruct (request_spec cci w I) as (a & w2 & -> & I2). now intros [= <-].
  - intros [= E]. pose proof (commit_spec cd w I) as C.
    destruct (RequestAggregatedCommit cd w) as [[a w2] |]; [| discriminate].
    injection E as <-. apply C.
  - destruct (alarms w !! t) as [r |] eqn:A; [| discriminate]. intros [= <-]. now apply timer_spec.
  - destruct (finalizers w !! k) as [f |] eqn:F; [| discriminate]. intros [= E].
    pose proof (finalize_spec w k f I F) as C.
    destruct (tryFinalize_step f w) as [[f' w2] |]; [| discriminate]. cbn in E.
    injection E as <-. exact C.
Qed.

Lemma reachable_inv w : reachable w -> inv w.
Proof. induction 1 as [| w e w' R IH E]; [exact inv_init | exact (inv_step e w w' IH E)]. Qed.

Lemma run_reachable es w w' : reachable w -> run es w = Some (Return w') -> reachable w'.
Proof.
  revert w; induction es as [| e es IH]; intros w R; cbn [run]; [now intros [= <-] |].
  destruct (step e w) as [[w1 |] |] eqn:E; try discriminate.
  apply IH. now apply (reach_step w e).
Qed.

(** The situations in which the process dies. *)
Inductive panics (w : world) : event -> Prop :=
  | panic_done ch st c :
      streams w !! ch = Some st -> chans w !! ch = Some c -> ch_closed c = true ->
      panics w (EDone ch)
  | panic_send ch st c :
      streams w !! ch = Some st -> chans w !! ch = Some c -> ch_closed c = true ->
      panics w (EReceive ch false)
  | panic_finalize k r cands :
      finalizers w !! k = Some (FAggregate r cands) ->
      (cosigners (srv w) = None \/ exists cos, cosigners (srv w) = Some cos /\
         agg_AggregateCommit cos (map cci_Commit cands) = Panic) ->
      panics w (EFinalize k)
  | panic_commit cd :
      nodeNumber w <= Z.of_nat (length (received cd w)) ->
      (cosigners (srv w) = None \/ exists cos, cosigners (srv w) = Some cos /\
         agg_AggregateCommit cos (map cd_Commit (received cd w)) = Panic) ->
      panics w (ECommit cd).

Lemma not_open_closed w ch c : chans w !! ch = Some c -> ~ open_at (chans w) ch -> ch_closed c = true.
Proof. intros Hc N. destruct (ch_closed c) eqn:O; [reflexivity |]. destruct N. now exists c. Qed.

Lemma return_panic w ch st :
  inv w -> streams w !! ch = Some st -> JoinNetwork_return ch st w = Panic ->
  exists c, chans w !! ch = Some c /\ ch_closed c = true.
Proof.
  intros I St E. destruct (i_streams w I ch st St) as [c Hc]. exists c. split; [exact Hc |].
  pose proof (return_spec w ch st I St) as R. case_decide as D.
  - destruct R as (w2 & E2 & _). congruence.
  - exact (not_open_closed w ch c Hc D).
Qed.

Lemma step_panic e w : inv w -> step e w = Some Panic -> panics w e.
Proof.
  intros I. destruct e as [n | ch ok | ch | n | cci | cd | t | k]; cbn [step].
  - discriminate.
  - destruct (streams w !! ch) as [st |] eqn:St; [| discriminate].
    unfold JoinNetwork_receive. destruct (i_streams w I ch st St) as [c Hc]. rewrite Hc.
    destruct (ch_buf c) as [| msg buf] eqn:Eb.
    + destruct (ch_closed c) eqn:Oc; [| discriminate]. destruct ok; [discriminate |].
      intros _. exact (panic_send w ch st c St Hc Oc).
    + destruct ok; [discriminate |]. intros [= E].
      unfold JoinNetwork_return, JoinNetwork_defer, closeChan in E. cbn in E.
      rewrite lookup_insert_eq in E. cbn in E. destruct (ch_closed c) eqn:Oc; [| discriminate].
      exact (panic_send w ch st c St Hc Oc).
  - destruct (streams w !! ch) as [st |] eqn:St; [| discriminate]. intros [= E].
    destruct (return_panic w ch st I St E) as (c & Hc & Oc). exact (panic_done w ch st c St Hc Oc).
  - destruct (leave_spec w n I) as (w2 & -> & _). discriminate.
  - destruct (request_spec cci w I) as (a & w2 & -> & _). discriminate.
  - intros [= E]. pose proof (commit_spec cd w I) as C.
    destruct (RequestAggregatedCommit cd w) as [[a w2] |]; [discriminate |].
    now apply panic_commit.
  - destruct (alarms w !! t); discriminate.
  - destruct (finalizers w !! k) as [f |] eqn:F; [| discriminate]. intros [= E].
    pose proof (finalize_spec w k f I F) as C.
    destruct (tryFinalize_step f w) as [[f' w2] |]; [discriminate |].
    destruct C as (r & cands & -> & C). exact (panic_finalize w k r cands F C).
Qed.

Lemma panics_step e w : inv w -> panics w e -> step e w = Some Panic.
Proof.
  intros I [ch st c St Hc O | ch st c St Hc O | k r cands F C | cd L C]; cbn [step].
  - rewrite St. f_equal. pose proof (return_spec w ch st I St) as R. case_decide as D; [| exact R].
    destruct D as (c' & Hc' & O'). congruence.
  - rewrite St. unfold JoinNetwork_receive. rewrite Hc, O.
    unfold JoinNetwork_return, JoinNetwork_defer, closeChan.
    destruct (ch_buf c); cbn; [rewrite Hc, O | rewrite lookup_insert_eq]; reflexivity.
  - rewrite F. cbn [tryFinalize_step]. destruct C as [-> | (cos & -> & ->)]; reflexivity.
  - unfold RequestAggregatedCommit, received in *.
    cbn [with_srv srv with_commitData commitData]. rewrite readSlice_make.
    destruct (makeMap (commitData (srv w))) as [ds |]; [| reflexivity].
    cbn [writeMap obind]. cbn [srv with_srv with_commitData commitData nodeNumber cosigners].
    rewrite readSlice_insert, decide_True by reflexivity.
    destruct (Z.ltb_spec (Z.of_nat (length (readSlice (commitData (srv w)) (cd_Round cd) ++ [cd])))
      (nodeNumber w)); [lia |].
    destruct C as [-> | (cos & -> & ->)]; reflexivity.
Qed.

(** Candidates always have a timer that is armed or a finalisation under way. *)
Lemma candidates_pending w r :
  inv w -> readSlice (committeeCandidates (srv w)) r <> [] ->
  (exists t, alarms w !! t = Some r) \/ finalizing (finalizers w) r.
Proof.
  intros I H. destruct (i_cands w I r H) as [[t T] | F]; [| now right].
  destruct (i_timers w I r t T) as [A | F]; [left; eauto | right].
  exists (FStart r). split; [exact F | reflexivity].
Qed.
End safety.

(** ** Properties *)

(** C2: in every state that any interleaving of RPCs, stream events, timers
    and finalising goroutines reaches, each subscribed channel is open, belongs to
    the running stream of its node and holds at most 100 messages; each timer of
    the table is armed or its finalisation has been started; references are
    fresh; and no finalisation runs before the maps are made. *)
Theorem server_invariant w :
  reachable w -> inv w.
Proof. exact (reachable_inv w). Qed.

Lemma server_invariant_witness :
  inv (JoinNetwork_register "n1" initWorld).
Proof.
  apply server_invariant. exact (reach_step initWorld (EJoin "n1") _ reach_init eq_refl).
Defined.




(** A state with one candidate. *)
Definition oneCandidate : world :=
  match step (ECommittee (MkCandidate 7 "n1" [] [])) initWorld with
  | Some (Return w) => w
  | _ => initWorld
  end.


(** C13: in a reachable state [broadcast] returns; it appends the message to
    the buffer of every subscribed channel that holds fewer than 100 messages and
    changes nothing else. *)
Theorem broadcast_effect msg w :
  reachable w ->
  exists w', broadcast msg w = Return w' /\
    srv w' = srv w /\ streams w' = streams w /\ finalizers w' = finalizers w /\
    (forall ch c, subscribed w ch -> chans w !! ch = Some c ->
       chans w' !! ch =
       Some (if (length (ch_buf c) <? 100)%nat then MkChannel (ch_buf c ++ [msg]) (ch_closed c)
             else c)) /\
    (forall ch, ~ subscribed w ch -> chans w' !! ch = chans w !! ch).
Proof.
  intros R. destruct (broadcast_inv msg w (reachable_inv w R)) as (cs & E & H).
  eexists. split; [exact E |]. do 3 (split; [reflexivity |]). split.
  - intros ch c S Hc. cbn [chans with_chans]. rewrite H, decide_True, Hc by exact S. reflexivity.
  - intros ch N. cbn [chans with_chans]. now rewrite H, decide_False.
Qed.

Lemma broadcast_effect_witness :
  exists w', broadcast (MkFinalized 1 [] None None []) (JoinNetwork_register "n1" initWorld) =
    Return w' /\ chans w' !! 0%nat = Some (MkChannel [MkFinalized 1 [] None None []] false).
Proof.
  destruct (broadcast_effect (MkFinalized 1 [] None None []) (JoinNetwork_register "n1" initWorld))
    as (w' & E & _ & _ & _ & H & _).
  - exact (reach_step initWorld (EJoin "n1") _ reach_init eq_refl).
  - exists w'. split; [exact E |].
    rewrite (H 0%nat (MkChannel [] false)); [reflexivity | exists "n1"; reflexivity | reflexivity].
Defined.
