(* ===== verification/MeshProtocol.v ===== *)
(** * The mesh server: behaviour of the handlers

    What each RPC of [src/network.go] and [src/network_helper.go] does on every
    branch: accepted and rejected candidates, the garbage collection of old
    rounds, the committee that [tryFinalize] announces, the commits of a signing
    round, and the use a client makes of the announced committee. *)

From S2P Require Import Prelude Edwards GroupElement BasePoint ScalarMult Scalar Sha2 Ed25519 Cosi Aggregation Tool Mesh MeshSafety.
From stdpp Require Import base gmap strings list numbers.

Local Open Scope go_scope.
Local Open Scope Z_scope.

Section protocol.
Context {Agg : Aggregation} {Laws : AggregationLaws}.

(** ** [gcOldRounds] *)

Lemma gcOldRounds_slice cur m r :
  readSlice (committeeCandidates (gcOldRounds cur m)) r =
  if gcKeep cur r then readSlice (committeeCandidates m) r else [].
Proof.
  unfold readSlice, readMap. cbn. destruct (committeeCandidates m) as [cs |]; cbn;
    [| now destruct (gcKeep cur r)].
  rewrite map_lookup_filter. destruct (cs !! r) as [l |]; cbn; [| now destruct (gcKeep cur r)].
  destruct (gcKeep cur r) eqn:K.
  - rewrite option_guard_True by reflexivity. reflexivity.
  - rewrite option_guard_False by discriminate. reflexivity.
Qed.

Lemma gcKeep_spec cur r :
  0 <= r < 2 ^ 64 ->
  gcKeep cur r = true <->
  if r <? 2 ^ 64 - gcRoundWindow then cur <= r + gcRoundWindow
  else cur <= r + gcRoundWindow - 2 ^ 64.
Proof.
  intros Hr. unfold gcKeep, gcRoundWindow in *. rewrite uint64_mod.
  rewrite negb_true_iff, Z.ltb_ge. destruct (Z.ltb_spec r (2 ^ 64 - 4)).
  - rewrite Z.mod_small by lia. reflexivity.
  - replace ((r + 4) mod 2 ^ 64) with (r + 4 - 2 ^ 64); [reflexivity |].
    apply (Zmod_unique _ _ 1); lia.
Qed.

(** ** [RequestCommittee] *)

Definition isProcessed (w : world) (r : Z) : bool :=
  match readMap (processed (srv w)) r with Some b => b | None => false end.

Definition candidates (w : world) (r : Z) : list CommitteeCandidateInfo :=
  readSlice (committeeCandidates (srv w)) r.

(** A round that is being finalised takes no candidate. *)
Lemma RequestCommittee_rejected cci w :
  isProcessed w (cci_Round cci) = true ->
  exists w', RequestCommittee cci w = Return (MkAck false, w') /\
    (forall r, candidates w' r = candidates w r) /\ finalizers w' = finalizers w /\
    cosigners (srv w') = None.
Proof.
  unfold isProcessed. intros P. eexists. unfold RequestCommittee, appendCandidate.
  cbn [with_srv srv initMaps processed with_cosigners]. rewrite readMap_make.
  destruct (readMap (processed (srv w)) (cci_Round cci)) as [[] |]; try discriminate.
  split; [reflexivity |]. split; [| split; reflexivity].
  intros r. apply readSlice_make.
Qed.

(** The other branch, before the garbage collection. *)
Lemma appendCandidate_accepted cci w :
  inv w -> isProcessed w (cci_Round cci) = false ->
  let r := cci_Round cci in
  exists w', appendCandidate cci w = Return (true, w') /\ inv w' /\
    (forall r', candidates w' r' = if decide (r' = r) then candidates w r ++ [cci]
                                   else candidates w r') /\
    cosigners (srv w') = cosigners (srv w) /\
    finalizers w' = finalizers w ++
      (if threshold <=? Z.of_nat (length (candidates w r ++ [cci])) then [FStart r] else []).
Proof.
  intros I NP r. unfold isProcessed in NP. destruct (inv_initMaps w I) as [I0 P0].
  pose proof (append_spec cci w I) as (b & wf & Ef & If).
  unfold appendCandidate in *. fold r in Ef |- *. fold r in NP.
  set (w0 := with_srv initMaps w) in *.
  assert (readMap (processed (srv w0)) r = readMap (processed (srv w)) r) as EP
    by apply readMap_make.
  assert (timers (srv w0) <> None) as T0 by (cbn; now destruct (timers (srv w))).
  destruct (committeeCandidates (srv w0)) as [cs |] eqn:C0;
    [| cbn in C0; now destruct (committeeCandidates (srv w))].
  assert (forall r', readSlice (Some cs) r' = candidates w r') as ECs.
  { intros r'. rewrite <- C0. apply readSlice_make. }
  assert (exists w2, startTimer r (with_srv (with_candidates (fun _ =>
      Some (<[r := readSlice (Some cs) r ++ [cci]]> cs))) w0) = Return w2 /\ inv w2 /\
    is_Some (readMap (timers (srv w2)) r) /\
    (forall r', candidates w2 r' = if decide (r' = r) then candidates w r ++ [cci]
                                   else candidates w r') /\
    cosigners (srv w2) = cosigners (srv w) /\ finalizers w2 = finalizers w)
    as (w2 & E2 & I2 & [t T2] & Ca2 & Co2 & F2).
  { destruct (startTimer_spec r _ (inv_but_append r w0 cs (readSlice (Some cs) r ++ [cci]) I0 C0)
      P0 T0) as (w2 & E2 & I2 & T2 & C2 & _ & F2 & Co2).
    exists w2. split; [exact E2 |]. split; [exact I2 |]. split; [exact T2 |].
    split; [| split; [exact Co2 | exact F2]]. intros r'. unfold candidates. rewrite C2. cbn [srv with_srv
      with_candidates committeeCandidates]. rewrite readSlice_insert, !ECs. reflexivity. }
  rewrite EP in *. destruct (readMap (processed (srv w)) r) as [[] |]; [discriminate | |].
  all: cbn [writeMap obind] in *; rewrite E2 in *; cbn [obind] in *.
  all: change (readSlice (committeeCandidates (srv w2)) r) with (candidates w2 r) in *.
  all: rewrite Ca2, decide_True in * by reflexivity.
  all: destruct (threshold <=? _); [unfold stopTimer in *; rewrite T2 in *; cbn [obind] in * |].
  all: injection Ef as <- <-; eexists; split; [reflexivity |]; split; [exact If |].
  all: cbn; rewrite F2, ?app_nil_r; auto.
Qed.

Lemma RequestCommittee_accepted cci w :
  inv w -> isProcessed w (cci_Round cci) = false ->
  let r := cci_Round cci in
  exists w', RequestCommittee cci w = Return (MkAck true, w') /\ inv w' /\
    (forall r', candidates w' r' =
       if gcKeep r r' then if decide (r' = r) then candidates w r ++ [cci] else candidates w r'
       else []) /\
    cosigners (srv w') = None /\
    finalizers w' = finalizers w ++
      (if threshold <=? Z.of_nat (length (candidates w r ++ [cci])) then [FStart r] else []).
Proof.
  intros I NP r. unfold RequestCommittee.
  destruct (appendCandidate_accepted cci _ (inv_cosigners w None I) NP)
    as (w' & -> & I' & Ca & Co & Fi). cbn [obind fst snd negb].
  eexists. split; [reflexivity |]. split; [now apply inv_gc |].
  split; [| split; [exact Co | exact Fi]].
  intros r'. unfold candidates. cbn [srv with_srv]. rewrite gcOldRounds_slice.
  fold (candidates w' r'). now rewrite Ca.
Qed.

(** ** [tryFinalize] *)

(** The committee that a list of candidates forms, given the points of its keys
    and of its commits. *)
Definition committee (round : Z) (cands : list CommitteeCandidateInfo)
    (Ks Rs : list point) : FinalizedCommittee :=
  MkFinalized round (map cci_NodeId cands) (Some (encode_point (sumAll Rs)))
    (Some (encode_point (sumAll Ks))) (map cci_PublicKey cands).

(** What is left when a round has been announced. *)
Record finalized (w w' : world) (round : Z) (msg : FinalizedCommittee) (Ks : list point) : Prop := {
  fz_chans : forall ch, chans w' !! ch =
    if decide (subscribed w ch) then push msg <$> chans w !! ch else chans w !! ch;
  fz_number : nodeNumber w' = Z.of_nat (length (fc_PublicKeys msg));
  fz_cosigners : exists cos, cosigners (srv w') = Some cos /\ committeeOf cos Ks;
  fz_cands : forall r, candidates w' r = if decide (r = round) then [] else candidates w r;
  fz_timers : forall r, readMap (timers (srv w')) r =
    if decide (r = round) then None else readMap (timers (srv w)) r;
  fz_processed : forall r, isProcessed w' r = if decide (r = round) then false else isProcessed w r;
  fz_rest : subs (srv w') = subs (srv w) /\ commitData (srv w') = commitData (srv w) /\
    streams w' = streams w /\ alarms w' = alarms w /\ finalizers w' = finalizers w }.

Lemma sendAll_finalizers chs msg w g :
  sendAll chs msg (with_finalizers g w) =
  (w' <- sendAll chs msg w;; Return (with_finalizers g w')).
Proof.
  revert w; induction chs as [| ch chs IH]; intros w; [reflexivity |].
  cbn [sendAll]. unfold trySend. cbn [with_finalizers chans].
  destruct (chans w !! ch) as [c |]; [| reflexivity].
  destruct (ch_closed c); [reflexivity |].
  destruct (length (ch_buf c) <? ch_cap)%nat; cbn [obind]; [| apply IH].
  match goal with |- sendAll _ _ ?a = obind (sendAll _ _ ?b) _ => change a with (with_finalizers g b) end.
  apply IH.
Qed.

Lemma broadcast_finalizers msg w g :
  broadcast msg (with_finalizers g w) = (w' <- broadcast msg w;; Return (with_finalizers g w')).
Proof. apply sendAll_finalizers. Qed.

(** The announcement reaches the subscribers of the state [tryFinalize] began in. *)
Lemma tryFinalize_broadcast w round ps c n msg :
  inv w ->
  let w1 := with_srv (with_cosigners c) (with_nodeNumber n (with_srv (fun _ =>
    with_timers (deleteMap round) (with_processed (fun _ => Some ps) (srv w))) w)) in
  exists cs, broadcast msg w1 = Return (with_chans (fun _ => cs) w1) /\
    forall ch, cs !! ch = if decide (subscribed w ch) then push msg <$> chans w !! ch
                          else chans w !! ch.
Proof.
  intros I w1. destruct (broadcast_subs msg w1 (i_subs w I)) as (cs & E & H).
  exists cs. split; [exact E |]. intros ch. rewrite H.
  destruct (decide (subscribed w ch)); [rewrite decide_True | rewrite decide_False]; auto.
Qed.

Lemma tryFinalize_spec w round Ks Rs :
  inv w -> processed (srv w) <> None ->
  keys_decode (map cci_PublicKey (candidates w round)) Ks ->
  Forall2 commits_to (map cci_Commit (candidates w round)) Rs ->
  exists w', tryFinalize round w = Return w' /\
    finalized w w' round (committee round (candidates w round) Ks Rs) Ks.
Proof.
  intros I P HK HR. destruct (processed (srv w)) as [ps |] eqn:EP; [| contradiction].
  destruct (agg_new _ _ HK) as (cos & EN & Hc).
  pose proof (keys_decode_length _ _ HK) as Len. rewrite length_map in Len.
  unfold tryFinalize. rewrite EP. cbn [writeMap obind].
  cbn [with_timers with_processed committeeCandidates]. fold (candidates w round).
  rewrite EN. cbn [obind]. cbn [srv with_srv with_cosigners cosigners].
  rewrite (agg_commit cos Ks _ Rs Hc)
    by (rewrite ?length_map, ?firstn_all2; rewrite ?length_map; first [exact HR | lia]).
  cbn [obind]. rewrite (agg_key cos Ks Hc).
  fold (committee round (candidates w round) Ks Rs).
  destruct (tryFinalize_broadcast w round (<[round := true]> ps) (Some cos)
    (Z.of_nat (length (candidates w round))) (committee round (candidates w round) Ks Rs) I)
    as (cs & E & Hcs).
  match goal with |- context [broadcast ?m ?w1] => change (broadcast m w1) with
    (broadcast m (with_srv (with_cosigners (Some cos)) (with_nodeNumber
      (Z.of_nat (length (candidates w round))) (with_srv (fun _ => with_timers (deleteMap round)
        (with_processed (fun _ => Some (<[round := true]> ps)) (srv w))) w)))) end.
  rewrite E. cbn [obind]. eexists. split; [reflexivity |]. constructor; cbn; auto.
  - now rewrite length_map.
  - eauto.
  - intros r. unfold candidates. cbn. apply readSlice_delete.
  - intros r. apply readMap_delete.
  - intros r. unfold isProcessed. cbn [srv with_srv with_processed processed with_chans
      with_nodeNumber with_timers with_cosigners with_candidates].
    rewrite readMap_delete. case_decide as D; [reflexivity |].
    rewrite readMap_insert, decide_False by exact D. now rewrite EP.
Qed.

(** A candidate whose key is no point stops the server. *)
Lemma tryFinalize_bad_key w round :
  processed (srv w) <> None -> keys_bad (map cci_PublicKey (candidates w round)) ->
  tryFinalize round w = Panic.
Proof.
  intros P HB. unfold tryFinalize.
  destruct (processed (srv w)) as [ps |]; [| contradiction]. cbn [writeMap obind].
  cbn [with_timers with_processed committeeCandidates]. fold (candidates w round).
  rewrite (agg_new_bad _ HB). reflexivity.
Qed.

(** ** The steps of [tryFinalize] *)

Lemma remove_insert (fs : list finalizer) k f :
  (k < length fs)%nat ->
  take k (<[k := f]> fs) ++ drop (S k) (<[k := f]> fs) = take k fs ++ drop (S k) fs.
Proof.
  intros Hk. rewrite insert_take_drop by exact Hk.
  rewrite take_app_le, take_take, Nat.min_id by (rewrite length_take; lia). f_equal.
  rewrite (drop_app_ge (take k fs)) by (rewrite length_take; lia).
  rewrite length_take, Nat.min_l by lia. now replace (S k - k)%nat with 1%nat by lia.
Qed.

(** A step does not look at the other goroutines. *)
Lemma step_frame f w g :
  tryFinalize_step f (with_finalizers g w) =
  (r <- tryFinalize_step f w;; Return (fst r, with_finalizers g (snd r))).
Proof.
  destruct f as [r | r cands | r cands | msg | r]; cbn [tryFinalize_step].
  - cbn [srv with_finalizers]. destruct (processed (srv w)); reflexivity.
  - destruct (agg_total (map cci_PublicKey cands)) as [c ->]. reflexivity.
  - cbn [srv with_finalizers]. destruct (cosigners (srv w)) as [cos |]; [| reflexivity].
    destruct (agg_AggregateCommit cos _); reflexivity.
  - rewrite broadcast_finalizers. destruct (broadcast msg w); reflexivity.
  - reflexivity.
Qed.

Fixpoint finishFrom (n : nat) (f : finalizer) (w : world) : outcome world :=
  match n with
  | O => Panic
  | S n =>
      r <- tryFinalize_step f w;;
      match fst r with None => Return (snd r) | Some f' => finishFrom n f' (snd r) end
  end.

Lemma tryFinalize_finish r w : tryFinalize r w = finishFrom 5 (FStart r) w.
Proof.
  cbn [finishFrom tryFinalize_step]. unfold tryFinalize.
  destruct (processed (srv w)) as [ps |]; [| reflexivity]. cbn [writeMap obind fst snd].
  set (cands := readSlice _ r). set (m := with_timers _ _).
  cbn [tryFinalize_step]. destruct (agg_total (map cci_PublicKey cands)) as [c ->].
  cbn [obind fst snd tryFinalize_step srv with_srv with_nodeNumber with_cosigners cosigners].
  destruct c as [cos |]; [| reflexivity].
  destruct (agg_AggregateCommit cos (map cci_Commit cands)); [| reflexivity].
  cbn [obind fst snd tryFinalize_step].
  match goal with |- context [broadcast ?m ?w1] => destruct (broadcast m w1) end; reflexivity.
Qed.

(** The steps a goroutine still has to take. *)
Definition rank (f : finalizer) : nat :=
  match f with
  | FStart _ => 5 | FCosigners _ _ => 4 | FAggregate _ _ => 3 | FBroadcast _ => 2 | FCleanup _ => 1
  end.

Lemma step_rank f w f' w' :
  tryFinalize_step f w = Return (f', w') ->
  rank f = match f' with Some f' => S (rank f') | None => 1%nat end.
Proof.
  destruct f as [r | r cands | r cands | msg | r]; cbn [tryFinalize_step].
  - destruct (writeMap (processed (srv w)) r true); [| discriminate]. now intros [= <- _].
  - destruct (agg_total (map cci_PublicKey cands)) as [c ->]. now intros [= <- _].
  - destruct (cosigners (srv w)) as [cos |]; [| discriminate].
    destruct (agg_AggregateCommit cos _); [| discriminate]. now intros [= <- _].
  - destruct (broadcast msg w); [| discriminate]. now intros [= <- _].
  - now intros [= <- _].
Qed.

(** One goroutine running alone does what [tryFinalize] does. *)
Lemma run_finish n f k fs w :
  n = rank f -> (k < length fs)%nat ->
  run (repeat (EFinalize k) n) (with_finalizers (fun _ => <[k := f]> fs) w) =
  Some (w' <- finishFrom n f w;;
        Return (with_finalizers (fun _ => take k fs ++ drop (S k) fs) w')).
Proof.
  revert f w; induction n as [| n IH]; intros f w En Hk; [now destruct f |].
  cbn [repeat run step with_finalizers finalizers]. rewrite list_lookup_insert_eq by exact Hk.
  change (MkWorld _ _ _ _ _ _ _) with (with_finalizers (fun _ => <[k := f]> fs) w).
  rewrite step_frame. cbn [finishFrom].
  destruct (tryFinalize_step f w) as [[[f' |] w1] |] eqn:E1; cbn [obind fst snd]; [| | reflexivity].
  - pose proof (step_rank _ _ _ _ E1) as R. cbn in R. rewrite <- (IH f' w1) by lia.
    f_equal. unfold with_finalizers at 1 2 3. cbn [finalizers]. now rewrite list_insert_insert_eq.
  - pose proof (step_rank _ _ _ _ E1) as R. cbn in R. replace n with 0%nat by lia.
    cbn [repeat run]. unfold with_finalizers. cbn [finalizers]. now rewrite remove_insert.
Qed.

Lemma tryFinalize_run w k r :
  finalizers w !! k = Some (FStart r) ->
  run (repeat (EFinalize k) 5) w =
  Some (w' <- tryFinalize r w;;
        Return (with_finalizers (fun _ => take k (finalizers w) ++ drop (S k) (finalizers w)) w')).
Proof.
  intros Hk. rewrite tryFinalize_finish, <- run_finish;
    [| reflexivity | now apply lookup_lt_Some in Hk].
  rewrite list_insert_id by exact Hk. now destruct w.
Qed.

(** ** [RequestAggregatedCommit] *)

Definition commitsOf (w : world) (r : Z) : list CommitData := readSlice (commitData (srv w)) r.

(** Before the last member has sent its commit, the commit is stored. *)
Lemma RequestAggregatedCommit_waits cd w :
  Z.of_nat (length (received cd w)) < nodeNumber w ->
  exists w', RequestAggregatedCommit cd w = Return (MkAck true, w') /\
    (forall r, commitsOf w' r = if decide (r = cd_Round cd) then received cd w else commitsOf w r) /\
    chans w' = chans w.
Proof.
  intros L. unfold RequestAggregatedCommit, received, commitsOf in *.
  cbn [with_srv srv with_commitData commitData]. rewrite readSlice_make.
  pose proof (readSlice_make (commitData (srv w))) as M.
  destruct (makeMap (commitData (srv w))) as [ds |] eqn:Ed; [| now destruct (commitData (srv w))].
  cbn [writeMap obind]. cbn [srv with_srv with_commitData commitData nodeNumber].
  rewrite readSlice_insert, decide_True by reflexivity.
  destruct (Z.ltb_spec (Z.of_nat (length (readSlice (commitData (srv w)) (cd_Round cd) ++ [cd])))
    (nodeNumber w)); [| lia].
  eexists. split; [reflexivity |]. split; [| reflexivity]. intros r.
  cbn [srv with_srv with_commitData commitData]. rewrite readSlice_insert. now rewrite M.
Qed.

(** The message that announces the aggregate of a signing round. *)
Definition commitMessage (r : Z) (Rs : list point) : FinalizedCommittee :=
  MkFinalized r [] (Some (encode_point (sumAll Rs))) None [].

(** The last commit makes the server announce the sum and forget the round. *)
Lemma RequestAggregatedCommit_last cd w cos Ks Rs :
  inv w -> nodeNumber w <= Z.of_nat (length (received cd w)) ->
  cosigners (srv w) = Some cos -> committeeOf cos Ks ->
  (length Ks <= length (received cd w))%nat ->
  Forall2 commits_to (firstn (length Ks) (map cd_Commit (received cd w))) Rs ->
  exists w', RequestAggregatedCommit cd w = Return (MkAck true, w') /\
    (forall r, commitsOf w' r = if decide (r = cd_Round cd) then [] else commitsOf w r) /\
    forall ch, chans w' !! ch =
      if decide (subscribed w ch) then push (commitMessage (cd_Round cd) Rs) <$> chans w !! ch
      else chans w !! ch.
Proof.
  intros I L C Hc Ln HR. unfold RequestAggregatedCommit, received, commitsOf in *.
  cbn [with_srv srv with_commitData commitData]. rewrite readSlice_make.
  pose proof (readSlice_make (commitData (srv w))) as M.
  destruct (makeMap (commitData (srv w))) as [ds |] eqn:Ed; [| now destruct (commitData (srv w))].
  cbn [writeMap obind]. cbn [srv with_srv with_commitData commitData nodeNumber cosigners].
  rewrite readSlice_insert, decide_True by reflexivity.
  destruct (Z.ltb_spec (Z.of_nat (length (readSlice (commitData (srv w)) (cd_Round cd) ++ [cd])))
    (nodeNumber w)); [lia |].
  rewrite C, (agg_commit cos Ks _ Rs Hc) by (rewrite ?length_map; assumption).
  cbn [obind]. fold (commitMessage (cd_Round cd) Rs).
  match goal with |- context [broadcast ?m ?w0] => set (msg := m); set (w1 := w0) end.
  destruct (broadcast_subs msg w1 (i_subs w I)) as (cs & E & Hcs). rewrite E. cbn [obind].
  eexists. split; [reflexivity |]. split.
  - intros r. cbn [srv with_srv with_commitData commitData with_chans].
    rewrite readSlice_delete. case_decide as D; [reflexivity |].
    cbn [w1 srv with_srv with_commitData commitData].
    rewrite readSlice_insert, decide_False by exact D. apply M.
  - intros ch. cbn [chans with_srv with_chans]. rewrite Hcs.
    destruct (decide (subscribed w ch)); [rewrite decide_True | rewrite decide_False]; auto.
Qed.


(** ** Sequences that stop the server *)

(** A commit before any committee. *)
Lemma run_fresh_commit cd : run [ECommit cd] initWorld = Some Panic.
Proof.
  cbn [run]. rewrite (panics_step (ECommit cd) initWorld inv_init); [reflexivity |].
  apply panic_commit; [cbn; lia | now left].
Qed.

(** [LeaveNetwork] closes the channel and the end of the stream closes it again. *)
Lemma run_leave_done w n ch :
  inv w -> subs (srv w) !! n = Some ch -> run [ELeave n; EDone ch] w = Some Panic.
Proof.
  intros I Hn. destruct (i_subs w I n ch Hn) as [O (st & St & _)]. cbn [run step].
  unfold LeaveNetwork. rewrite Hn.
  destruct (closeChan_open ch (with_srv (with_subs (fun s => delete n s)) w) O) as (c & Hc & ->).
  cbn [obind snd step streams with_chans with_srv]. rewrite St.
  unfold JoinNetwork_return, JoinNetwork_defer, closeChan. cbn. now rewrite lookup_insert_eq.
Qed.

(** A candidate that arrives between the two uses of [m.cosigners]. *)
Lemma request_frame cci w a w' k f :
  inv w -> RequestCommittee cci w = Return (a, w') -> finalizers w !! k = Some f ->
  finalizers w' !! k = Some f /\ cosigners (srv w') = None /\ inv w'.
Proof.
  intros I E Hk. assert (inv w') as I'.
  { destruct (request_spec cci w I) as (a2 & w2 & E2 & I2). congruence. }
  destruct (isProcessed w (cci_Round cci)) eqn:P.
  - destruct (RequestCommittee_rejected cci w P) as (w2 & E2 & _ & F & C).
    assert (w2 = w') as <- by congruence. rewrite F. auto.
  - destruct (RequestCommittee_accepted cci w I P) as (w2 & E2 & _ & _ & C & F).
    assert (w2 = w') as <- by congruence. rewrite F. split; [| auto].
    now apply lookup_app_l_Some.
Qed.

Lemma run_race w cci k r cands :
  inv w -> finalizers w !! k = Some (FAggregate r cands) ->
  run [ECommittee cci; EFinalize k] w = Some Panic.
Proof.
  intros I Hk. destruct (request_spec cci w I) as (a & w' & E & _).
  assert (step (ECommittee cci) w = Some (Return w')) as S by (cbn [step]; now rewrite E).
  cbn [run]. rewrite S.
  destruct (request_frame cci w a w' k _ I E Hk) as (Hk' & C' & I').
  rewrite (panics_step (EFinalize k) w' I'); [reflexivity |].
  apply (panic_finalize w' k r cands Hk'). now left.
Qed.

(** ** What the streams receive *)

(** The messages a stream has sent, followed by those that wait in its channel. *)
Definition history (w : world) (ch : nat) : list (option FinalizedCommittee) :=
  match streams w !! ch, chans w !! ch with
  | Some st, Some c => st_wire st ++ map Some (ch_buf c)
  | _, _ => []
  end.

Lemma push_history msg c : map Some (ch_buf c) `prefix_of` map Some (ch_buf (push msg c)).
Proof.
  unfold push. destruct (length (ch_buf c) <? ch_cap)%nat; [| reflexivity].
  cbn [ch_buf]. rewrite map_app. apply prefix_app_r. reflexivity.
Qed.

Lemma history_broadcast w w' ch msg :
  streams w' = streams w ->
  (forall ch, chans w' !! ch = if decide (subscribed w ch) then push msg <$> chans w !! ch
                               else chans w !! ch) ->
  history w ch `prefix_of` history w' ch.
Proof.
  intros ES HC. unfold history. rewrite ES, HC.
  destruct (streams w !! ch) as [st |]; [| reflexivity].
  destruct (decide (subscribed w ch)); destruct (chans w !! ch) as [c |]; cbn; try reflexivity.
  apply prefix_app, push_history.
Qed.

Lemma history_same w w' ch :
  streams w' !! ch = streams w !! ch -> chans w' !! ch = chans w !! ch ->
  history w ch `prefix_of` history w' ch.
Proof. intros E1 E2. unfold history. now rewrite E1, E2. Qed.

(** A closed channel keeps its buffer. *)
Lemma history_close w w' ch ch' :
  streams w' !! ch = streams w !! ch -> closeChan ch' w = Return w' ->
  history w ch `prefix_of` history w' ch.
Proof.
  unfold closeChan. intros ES. destruct (chans w !! ch') as [c |] eqn:Hc; [| discriminate].
  destruct (ch_closed c); [discriminate |]. intros [= <-]. unfold history. rewrite ES.
  cbn [chans with_chans]. destruct (decide (ch = ch')) as [-> | N].
  - rewrite lookup_insert_eq, Hc. reflexivity.
  - now rewrite lookup_insert_ne by congruence.
Qed.

Definition same_streams (w w' : world) : Prop := streams w' = streams w /\ chans w' = chans w.

Lemma startTimer_chans r w w' : startTimer r w = Return w' -> same_streams w w'.
Proof.
  unfold startTimer. destruct (readMap _ r); [now intros [= <-] |].
  destruct (writeMap _ _ _); [| discriminate]. now intros [= <-].
Qed.

Lemma stopTimer_chans r w w' : stopTimer r w = Return w' -> same_streams w w'.
Proof. unfold stopTimer. destruct (readMap _ r); [| discriminate]. now intros [= <-]. Qed.

Lemma append_chans cci w b w' : appendCandidate cci w = Return (b, w') -> same_streams w w'.
Proof.
  unfold appendCandidate. set (w0 := with_srv initMaps w).
  destruct (readMap (processed (srv w0)) (cci_Round cci)) as [[] |]; [now intros [= _ <-] | |].
  all: destruct (writeMap _ _ _) as [cs |]; [| discriminate]; cbn [obind].
  all: destruct (startTimer _ _) as [w1 |] eqn:E1; [| discriminate]; cbn [obind].
  all: apply startTimer_chans in E1; destruct (_ <=? _); [| now intros [= _ <-]].
  all: destruct (stopTimer _ _) as [w2 |] eqn:E2; [| discriminate].
  all: apply stopTimer_chans in E2; destruct E1, E2; intros [= _ <-].
  all: split; cbn in *; congruence.
Qed.

Lemma request_chans cci w a w' : RequestCommittee cci w = Return (a, w') -> same_streams w w'.
Proof.
  unfold RequestCommittee. destruct (appendCandidate _ _) as [[b w1] |] eqn:E; [| discriminate].
  apply append_chans in E. cbn [obind fst snd]. destruct (negb b); now intros [= _ <-].
Qed.

Lemma finalize_history w f f' w' ch :
  inv w -> tryFinalize_step f w = Return (f', w') ->
  streams w' = streams w /\ history w ch `prefix_of` history w' ch.
Proof.
  intros I. destruct f as [r | r cands | r cands | msg | r]; cbn [tryFinalize_step].
  - destruct (writeMap (processed (srv w)) r true); [| discriminate]. intros [= _ <-].
    split; [reflexivity | now apply history_same].
  - destruct (agg_total (map cci_PublicKey cands)) as [c ->]. intros [= _ <-].
    split; [reflexivity | now apply history_same].
  - destruct (cosigners (srv w)) as [cos |]; [| discriminate].
    destruct (agg_AggregateCommit cos _); [| discriminate]. intros [= _ <-]. auto.
  - destruct (broadcast_inv msg w I) as (cs & -> & H). intros [= _ <-].
    split; [reflexivity | now apply (history_broadcast _ _ _ msg)].
  - intros [= _ <-]. split; [reflexivity | now apply history_same].
Qed.

Lemma commit_history cd w a w' ch :
  inv w -> RequestAggregatedCommit cd w = Return (a, w') ->
  streams w' = streams w /\ history w ch `prefix_of` history w' ch.
Proof.
  intros I. unfold RequestAggregatedCommit.
  destruct (writeMap _ _ _) as [ds |]; [| discriminate]. cbn [obind].
  destruct (_ <? _); [intros [= _ <-]; split; [reflexivity | now apply history_same] |].
  cbn [cosigners srv with_srv with_commitData].
  destruct (cosigners (srv w)) as [cos |]; [| discriminate].
  destruct (agg_AggregateCommit cos _) as [ag |]; [| discriminate]. cbn [obind].
  match goal with |- context [broadcast ?m ?w0] => set (msg := m); set (w1 := w0) end.
  destruct (broadcast_subs msg w1 (i_subs w I)) as (cs & -> & H). cbn [obind]. intros [= _ <-].
  split; [reflexivity |].
  transitivity (history w1 ch); [now apply history_same |].
  now apply (history_broadcast _ _ _ msg).
Qed.

Lemma return_history w ch st ch' w' :
  ch' <> ch -> JoinNetwork_return ch st w = Return w' ->
  streams w' !! ch' = streams w !! ch' /\ history w ch' `prefix_of` history w' ch'.
Proof.
  intros N. unfold JoinNetwork_return, JoinNetwork_defer.
  set (w0 := with_srv (with_subs (fun s => delete (st_node st) s)) w).
  destruct (closeChan ch w0) as [w1 |] eqn:E; [| discriminate]. cbn [obind]. intros [= <-].
  assert (streams w1 = streams w) as E1.
  { unfold closeChan in E. repeat case_match; try discriminate. now injection E as <-. }
  cbn [streams with_streams with_srv]. rewrite lookup_delete_ne, E1 by congruence.
  split; [reflexivity |]. transitivity (history w1 ch').
  - transitivity (history w0 ch'); [now apply history_same |].
    apply (history_close _ _ _ ch); [now rewrite E1 | exact E].
  - apply history_same; cbn; [rewrite lookup_delete_ne by congruence |]; reflexivity.
Qed.

Lemma history_receive w ch st ok ch' w' :
  streams w !! ch = Some st -> JoinNetwork_receive ch st ok w = Some (Return w') ->
  is_Some (streams w' !! ch') -> history w ch' `prefix_of` history w' ch'.
Proof.
  intros St E [st' St']. unfold JoinNetwork_receive in E.
  destruct (chans w !! ch) as [c |] eqn:Hc; [| discriminate].
  destruct (decide (ch' = ch)) as [-> | N].
  - assert (ok = true) as ->.
    { destruct ok; [reflexivity | exfalso]. unfold JoinNetwork_return in E.
      destruct (ch_buf c); [destruct (ch_closed c); [| discriminate] |];
        (destruct (JoinNetwork_defer _ _ _); [| discriminate]); injection E as <-;
        cbn in St'; rewrite lookup_delete_eq in St'; discriminate. }
    unfold history. rewrite St, Hc. destruct (ch_buf c) as [| msg buf] eqn:Eb.
    + destruct (ch_closed c); [| discriminate]. injection E as <-. cbn.
      rewrite lookup_insert_eq, Hc, Eb. cbn. rewrite !app_nil_r. now apply prefix_app_r.
    + injection E as <-. cbn. rewrite !lookup_insert_eq. cbn.
      rewrite <- app_assoc. reflexivity.
  - destruct ok.
    + apply history_same; destruct (ch_buf c) as [| msg buf];
        try (destruct (ch_closed c); [| discriminate]); injection E as <-; cbn;
        rewrite ?lookup_insert_ne by congruence; reflexivity.
    + destruct (ch_buf c) as [| msg buf].
      * destruct (ch_closed c); [| discriminate]. injection E as E.
        now apply (return_history w ch st ch' w' N E).
      * injection E as E. etrans; [| apply (return_history _ ch st ch' w' N E)].
        apply history_same; cbn; rewrite ?lookup_insert_ne by congruence; reflexivity.
Qed.

(** While a stream runs, its history only grows: messages are delivered in the
    order of their broadcasts, each at most once, and an accepted one is not lost. *)
Lemma history_step e w w' ch :
  inv w -> step e w = Some (Return w') -> is_Some (streams w !! ch) -> is_Some (streams w' !! ch) ->
  history w ch `prefix_of` history w' ch.
Proof.
  intros I E [st St] St'. destruct e as [n | ch2 ok | ch2 | n | cci | cd | t | k]; cbn [step] in E.
  - injection E as <-. destruct (i_streams w I ch st St) as [c Hc].
    assert (ch <> nextRef w) by (intros ->; destruct (i_fresh w I _ (le_n _)); congruence).
    apply history_same; cbn; now rewrite lookup_insert_ne by congruence.
  - destruct (streams w !! ch2) as [st2 |] eqn:St2; [| discriminate].
    exact (history_receive w ch2 st2 ok ch w' St2 E St').
  - destruct (streams w !! ch2) as [st2 |] eqn:St2; [| discriminate]. injection E as E.
    destruct (decide (ch = ch2)) as [-> | N]; [exfalso | now apply (return_history w ch2 st2)].
    unfold JoinNetwork_return in E. destruct (JoinNetwork_defer _ _ _); [| discriminate].
    injection E as <-. destruct St' as [s Hs]. cbn in Hs. now rewrite lookup_delete_eq in Hs.
  - unfold LeaveNetwork in E. destruct (subs (srv w) !! n) as [ch2 |]; [| now injection E as <-].
    set (w0 := with_srv _ w) in E. destruct (closeChan ch2 w0) as [w1 |] eqn:E1; [| discriminate].
    injection E as <-. transitivity (history w0 ch); [now apply history_same |].
    apply (history_close _ _ _ ch2); [| exact E1].
    unfold closeChan in E1. repeat case_match; try discriminate. now injection E1 as <-.
  - destruct (RequestCommittee cci w) as [[a w2] |] eqn:E1; [| discriminate].
    injection E as <-. destruct (request_chans cci w a w2 E1) as [Es Ec].
    apply history_same; cbn; [now rewrite Es | now rewrite Ec].
  - destruct (RequestAggregatedCommit cd w) as [[a w2] |] eqn:E1; [| discriminate].
    injection E as <-. now apply (commit_history cd w a w2).
  - destruct (alarms w !! t); [| discriminate]. injection E as <-. now apply history_same.
  - destruct (finalizers w !! k) as [f |]; [| discriminate].
    destruct (tryFinalize_step f w) as [[f' w2] |] eqn:E1; [| discriminate].
    injection E as <-. destruct (finalize_history w f f' w2 ch I E1) as [_ H].
    etrans; [exact H |]. now apply history_same.
Qed.

(** ** Goroutines *)

Lemma started_maps w k f : inv w -> finalizers w !! k = Some f -> processed (srv w) <> None.
Proof. intros I Hk E. destruct (i_nil w I E) as [_ F]. rewrite F in Hk. discriminate. Qed.

Lemma sendAll_keeps chs msg w w' : sendAll chs msg w = Return w' -> finalizers w' = finalizers w.
Proof.
  revert w; induction chs as [| ch chs IH]; intros w; cbn [sendAll]; [now intros [= <-] |].
  unfold trySend. destruct (chans w !! ch) as [c |]; [| discriminate].
  destruct (ch_closed c); [discriminate |].
  destruct (length (ch_buf c) <? ch_cap)%nat; cbn [obind]; intros E; rewrite (IH _ E); reflexivity.
Qed.

Lemma step_finalizers f w f' w' :
  tryFinalize_step f w = Return (f', w') -> finalizers w' = finalizers w.
Proof.
  destruct f as [r | r cands | r cands | msg | r]; cbn [tryFinalize_step].
  - destruct (writeMap (processed (srv w)) r true); [| discriminate]. now intros [= _ <-].
  - destruct (agg_total (map cci_PublicKey cands)) as [c ->]. now intros [= _ <-].
  - destruct (cosigners (srv w)) as [cos |]; [| discriminate].
    destruct (agg_AggregateCommit cos _); [| discriminate]. now intros [= _ <-].
  - unfold broadcast. destruct (sendAll _ msg w) eqn:E; [| discriminate]. intros [= _ <-].
    exact (sendAll_keeps _ _ _ _ E).
  - now intros [= _ <-].
Qed.

Lemma rank_bound fs : (list_sum (map rank fs) <= 5 * length fs)%nat.
Proof.
  induction fs as [| f fs IH]; [cbn; lia |].
  change (list_sum (map rank (f :: fs))) with (rank f + list_sum (map rank fs))%nat.
  change (length (f :: fs)) with (S (length fs)). destruct f; cbn [rank]; lia.
Qed.

Lemma advance_rank fs k f f' :
  fs !! k = Some f -> rank f = match f' with Some f' => S (rank f') | None => 1%nat end ->
  (list_sum (map rank (advance k f' fs)) < list_sum (map rank fs))%nat.
Proof.
  intros Hk E. rewrite <- (take_drop_middle fs k f Hk) at 2.
  assert (list_sum (map rank (take k fs ++ f :: drop (S k) fs)) =
    (list_sum (map rank (take k fs)) + (rank f + list_sum (map rank (drop (S k) fs))))%nat) as ->.
  { rewrite map_app, list_sum_app. reflexivity. }
  destruct f' as [f' |]; cbn [advance].
  - rewrite insert_take_drop by now apply lookup_lt_Some in Hk.
    rewrite map_app, list_sum_app. cbn [map].
    change (list_sum (rank f' :: map rank (drop (S k) fs))) with
      (rank f' + list_sum (map rank (drop (S k) fs)))%nat. lia.
  - rewrite map_app, list_sum_app. lia.
Qed.
(** The first steps of a goroutine, up to the first use of [m.cosigners]. *)
Lemma start_step w k r :
  inv w -> finalizers w !! k = Some (FStart r) ->
  exists cands w', step (EFinalize k) w = Some (Return w') /\ inv w' /\
    finalizers w' !! k = Some (FCosigners r cands).
Proof.
  intros I Hk. destruct (processed (srv w)) as [ps |] eqn:P.
  2: { destruct (started_maps w k _ I Hk P). }
  assert (exists cands w', step (EFinalize k) w = Some (Return w') /\
    finalizers w' = <[k := FCosigners r cands]> (finalizers w)) as (cands & w' & E & F).
  { eexists _, _. cbn [step]. rewrite Hk. cbn [tryFinalize_step]. rewrite P. split; reflexivity. }
  exists cands, w'. split; [exact E |]. split; [exact (inv_step _ w w' I E) |].
  rewrite F. apply list_lookup_insert_eq. now apply lookup_lt_Some in Hk.
Qed.

Lemma two_steps w k r :
  inv w -> finalizers w !! k = Some (FStart r) ->
  exists cands w', run [EFinalize k; EFinalize k] w = Some (Return w') /\
    finalizers w' !! k = Some (FAggregate r cands).
Proof.
  intros I Hk. destruct (start_step w k r I Hk) as (cands & w1 & E1 & _ & F1).
  destruct (agg_total (map cci_PublicKey cands)) as [c Ec].
  assert (exists w2, step (EFinalize k) w1 = Some (Return w2) /\
    finalizers w2 = <[k := FAggregate r cands]> (finalizers w1)) as (w2 & E2 & F2).
  { eexists. cbn [step]. rewrite F1. cbn [tryFinalize_step]. rewrite Ec. split; reflexivity. }
  exists cands, w2. split; [cbn [run]; now rewrite E1, E2 |].
  rewrite F2. apply list_lookup_insert_eq. now apply lookup_lt_Some in F1.
Qed.

(** ** Small runs *)

(** One candidate whose timer has fired. *)
Lemma exampleRound c :
  cci_Round c = 7 ->
  exists w, run [ECommittee c; ETimer 0] initWorld = Some (Return w) /\
    finalizers w !! 0%nat = Some (FStart 7) /\ candidates w 7 = [c].
Proof.
  intros E. destruct c as [r n seed proof pk cm m1 m2 m3]. cbn in E. subst r.
  eexists. split; [reflexivity |]. split; reflexivity.
Qed.

(** Two candidates, and the first step of the finalisation. *)
Lemma exampleTwo :
  exists w, run [ECommittee (MkCandidate 7 "n1" [] []); ECommittee (MkCandidate 7 "n2" [] []);
      ETimer 0; EFinalize 0] initWorld = Some (Return w) /\
    nodeNumber w = 2 /\ commitsOf w 7 = [].
Proof. eexists. split; [vm_compute; reflexivity |]. split; reflexivity. Qed.

End protocol.

(** ** A committee and its clients *)

(** The candidate that an honest participant sends. *)
Definition candidateOf (round : Z) (node : string) (s : list Z * list Z) : CommitteeCandidateInfo :=
  MkCandidate round node (encode_point (publicPoint (fst s))) (encode_point (zmul (nonceOf s) B)).

(** What the members do with an announced committee: each signs with the secret of
    its commit, and the parts are aggregated with the announced keys. *)
Definition clientSign (fc : FinalizedCommittee) (participants : list (list Z * list Z))
    (message : list Z) : outcome (list Z) :=
  aggregateK <- must (fc_AggregatedPubKey fc);;
  aggregateR <- must (fc_AggregatedCommit fc);;
  pairs <- traverse (fun s => must (GenerateKey (Some (fst s)))) participants;;
  commits <- traverse (fun s => must (Commit (Some (snd s)))) participants;;
  parts <- traverse (fun pc => Cosign (snd (fst pc)) (snd (snd pc)) message aggregateK aggregateR)
             (combine pairs commits);;
  r <- NewCosigners (fc_PublicKeys fc) None;;
  cos <- must r;;
  r <- AggregateSignature cos aggregateR (map fst parts);;
  must r.

Definition honestCommittee (round : Z) (nodes : list string)
    (participants : list (list Z * list Z)) : FinalizedCommittee :=
  MkFinalized round nodes (Some (sessionR participants)) (Some (sessionK participants))
    (map (fun s => encode_point (publicPoint (fst s))) participants).

Lemma clientSign_spec round nodes participants message :
  Forall participant_ok participants ->
  clientSign (honestCommittee round nodes participants) participants message =
  Return (sessionR participants ++ le_bytes 32 (sessionS participants message)).
Proof.
  intros HP. unfold clientSign, honestCommittee.
  cbn [fc_AggregatedPubKey fc_AggregatedCommit fc_PublicKeys must obind].
  rewrite (traverse_all _ (fun s => (encode_point (publicPoint (fst s)),
             fst s ++ encode_point (publicPoint (fst s)))))
    by (apply List.Forall_forall; intros s _; rewrite GenerateKey_spec; reflexivity).
  cbn [obind].
  rewrite (traverse_all _ (fun s => (encode_point (zmul (nonceOf s) B),
             MkSecret (le_bytes 32 (nonceOf s)) true)))
    by (eapply List.Forall_impl; [| exact HP]; intros s (_ & L & O);
        rewrite Commit_spec by assumption; reflexivity).
  cbn [obind]. rewrite combine_maps.
  set (h := challenge (sessionR participants) (sessionK participants) message).
  rewrite (traverse_map _ _ (fun s => (cosignPart (secretOf s) (nonceOf s) h, MkSecret zero32 false))).
  - cbn [obind]. destruct (session_cosigners participants) as (cos & -> & Len & _). cbn [obind must].
    rewrite List.map_map. cbn [fst]. unfold h.
    rewrite (session_signature cos participants message Len). reflexivity.
  - eapply List.Forall_impl; [| exact HP]. intros s (Ls & _ & _). cbn [fst snd].
    pose proof (reduced_bound (snd s)).
    apply Cosign_spec; [exact Ls | apply encode_point_length | apply encode_point_length |].
    unfold nonceOf, commitScalar. lia.
Qed.

Lemma clientSign_verifies round nodes participants message :
  Forall participant_ok participants ->
  exists sig, clientSign (honestCommittee round nodes participants) participants message = Return sig /\
    Cosi.Verify (fc_PublicKeys (honestCommittee round nodes participants)) None message sig = Return true.
Proof.
  intros HP. rewrite clientSign_spec by exact HP. eexists. split; [reflexivity |].
  destruct (participant_keys participants) as (Opk & HD).
  set (sig := sessionR participants ++ _).
  assert (bytes_ok sig) as Ok
    by (unfold sig, sessionR; auto with bytes).
  destruct (Verify_decides_keys _ _ None message sig Opk HD Ok) as (b & EV & Hb).
  cbn [fc_PublicKeys honestCommittee]. change None with (policyOf None). rewrite EV. f_equal. apply Hb.
  replace sig with (sig ++ []) by apply app_nil_r.
  apply session_collective.
  - intros j _. unfold disabled. rewrite nth_overflow by (cbn; lia). apply Z.bits_0.
  - cbn [required]. now rewrite length_map.
Qed.

(** The committee of honest candidates is the one their clients expect. *)
Lemma committee_honest round nodes participants :
  length nodes = length participants ->
  let cands := zip_with (candidateOf round) nodes participants in
  exists Ks Rs, keys_decode (map cci_PublicKey cands) Ks /\ Forall2 commits_to (map cci_Commit cands) Rs /\
    committee round cands Ks Rs = honestCommittee round nodes participants.
Proof.
  intros Len cands.
  assert (map cci_PublicKey cands = map (fun s => encode_point (publicPoint (fst s))) participants /\
          map cci_Commit cands = map (fun s => encode_point (zmul (nonceOf s) B)) participants /\
          map cci_NodeId cands = nodes) as (EK & ER & EN).
  { unfold cands. clear cands. revert nodes Len; induction participants as [| s ps IH];
      intros [| n nodes] Len; try discriminate; [auto |]. cbn.
    destruct (IH nodes) as (-> & -> & ->); [now injection Len |]. auto. }
  destruct (participant_keys participants) as (Opk & HD).
  eexists _, (map (fun s => zmul (nonceOf s) B) participants). split; [| split].
  - split; rewrite EK; [exact Opk | exact HD].
  - rewrite ER. apply Forall2_maps. intros s _. apply commits_to_encode.
  - unfold committee, honestCommittee. rewrite EN, EK, !sumAll_zmul. reflexivity.
Qed.

(** ** Properties *)

(** C1: a round of honest candidates, end to end.  In a reachable state in
    which [tryFinalize] is due for a round whose candidates are honest
    participants, the goroutine finishes, every subscriber with room in its buffer
    receives one committee, and that committee lets the participants produce with
    [Cosign] and [AggregateSignature] a signature that [cosi.Verify] accepts for
    the announced keys. *)
Theorem committee_round w k round nodes participants message :
  reachable w -> finalizers w !! k = Some (FStart round) ->
  candidates w round = zip_with (candidateOf round) nodes participants ->
  length nodes = length participants -> Forall participant_ok participants ->
  exists w' fc sig,
    run (repeat (EFinalize k) 5) w = Some (Return w') /\
    (forall ch, subscribed w ch -> chans w' !! ch = push fc <$> chans w !! ch) /\
    fc_Round fc = round /\ fc_NodeId fc = nodes /\
    nodeNumber w' = Z.of_nat (length participants) /\ candidates w' round = [] /\
    clientSign fc participants message = Return sig /\
    Cosi.Verify (fc_PublicKeys fc) None message sig = Return true.
Proof.
  intros R Hk HC Len HP. pose proof (reachable_inv w R) as I.
  destruct (committee_honest round nodes participants Len) as (Ks & Rs & HK & HR & EC).
  rewrite <- HC in HK, HR, EC.
  destruct (tryFinalize_spec w round Ks Rs I (started_maps w k _ I Hk) HK HR) as (w' & E & FZ).
  destruct (clientSign_verifies round nodes participants message HP) as (sig & ES & EV).
  rewrite EC in FZ. eexists _, (honestCommittee round nodes participants), sig.
  rewrite (tryFinalize_run w k round Hk), E. cbn [obind]. split; [reflexivity |].
  split; [intros ch S; cbn [chans with_finalizers]; now rewrite (fz_chans _ _ _ _ _ FZ), decide_True |].
  split; [reflexivity |]. split; [reflexivity |].
  split; [cbn [nodeNumber with_finalizers]; rewrite (fz_number _ _ _ _ _ FZ); cbn; now rewrite length_map |].
  split; [change (candidates w' round = []); now rewrite (fz_cands _ _ _ _ _ FZ), decide_True |].
  split; [exact ES | exact EV].
Qed.

(** A participant, and the state in which the timer of its round has fired. *)
Definition exampleParticipant : list Z * list Z := (repeat 1 32, repeat 2 64).

Lemma exampleParticipant_ok : Forall participant_ok [exampleParticipant].
Proof.
  apply List.Forall_forall. intros s [<- | []]. split; [reflexivity |]. split; [reflexivity |].
  apply List.Forall_forall. intros x ->%repeat_spec. unfold byte_ok. lia.
Qed.

Lemma committee_round_witness :
  exists w w' fc sig,
    run [ECommittee (candidateOf 7 "n1" exampleParticipant); ETimer 0] initWorld = Some (Return w) /\
    run (repeat (EFinalize 0) 5) w = Some (Return w') /\
    clientSign fc [exampleParticipant] [1] = Return sig /\
    Cosi.Verify (fc_PublicKeys fc) None [1] sig = Return true.
Proof.
  destruct (exampleRound (candidateOf 7 "n1" exampleParticipant) eq_refl) as (w & E & Hk & HC).
  destruct (committee_round w 0 7 ["n1"] [exampleParticipant] [1])
    as (w' & fc & sig & ER & _ & _ & _ & _ & _ & ES & EV).
  - exact (run_reachable _ _ _ reach_init E).
  - exact Hk.
  - exact HC.
  - reflexivity.
  - exact exampleParticipant_ok.
  - exists w, w', fc, sig. auto.
Defined.

(** Every step of a finalising goroutine decreases the number of
    steps that the goroutines of the state still have to take, and the number is at
    most five per goroutine, so that finalisations end under every schedule. *)
Lemma finalizer_terminates w k w' :
  step (EFinalize k) w = Some (Return w') ->
  (list_sum (map rank (finalizers w')) < list_sum (map rank (finalizers w)) <=
   5 * length (finalizers w))%nat.
Proof.
  intros E. split; [| apply rank_bound]. cbn [step] in E.
  destruct (finalizers w !! k) as [f |] eqn:Hk; [| discriminate].
  destruct (tryFinalize_step f w) as [[f' w1] |] eqn:E1; [| discriminate].
  apply (f_equal (from_option id (Return w))), Return_inj in E. cbn [from_option id fst snd] in E.
  subst w'. cbn [finalizers with_finalizers]. rewrite (step_finalizers f w f' w1 E1).
  exact (advance_rank _ k f f' Hk (step_rank f w f' w1 E1)).
Qed.



(** C10: while a stream runs, the messages it has sent followed by those that
    wait in its channel only grow at the end: an accepted message is neither lost,
    duplicated nor overtaken, whatever the other handlers do. *)
Theorem delivery_in_order e w w' ch :
  reachable w -> step e w = Some (Return w') ->
  is_Some (streams w !! ch) -> is_Some (streams w' !! ch) ->
  history w ch `prefix_of` history w' ch.
Proof. intros R E S S'. exact (history_step e w w' ch (reachable_inv w R) E S S'). Qed.

Lemma delivery_in_order_witness :
  history (JoinNetwork_register "n1" initWorld) 0 `prefix_of`
  history (JoinNetwork_register "n2" (JoinNetwork_register "n1" initWorld)) 0.
Proof.
  apply (delivery_in_order (EJoin "n2")).
  - exact (reach_step initWorld (EJoin "n1") _ reach_init eq_refl).
  - reflexivity.
  - eexists. reflexivity.
  - eexists. reflexivity.
Defined.

(** C14: [RequestCommittee] on every branch.  A candidate of a round that is
    being finalised is refused and changes no candidate list; any other is
    appended to its round, rounds that have left the window are dropped, and a
    finalising goroutine is started as soon as the round has ten candidates, and
    again for every further candidate.  In both cases the current cosigners are
    forgotten.  [RequestAggregatedCommit] stores the commits of a round until there
    are as many as committee members; the last one makes it announce the encoding
    of the sum of the commits to every subscriber and forget the round. *)
Theorem committee_handlers cci cd w :
  reachable w ->
  (let r := cci_Round cci in
   exists a w', RequestCommittee cci w = Return (a, w') /\ cosigners (srv w') = None /\
    if isProcessed w r then
      ack_Ok a = false /\ (forall r', candidates w' r' = candidates w r') /\
      finalizers w' = finalizers w
    else
      ack_Ok a = true /\
      (forall r', candidates w' r' =
         if gcKeep r r' then if decide (r' = r) then candidates w r ++ [cci] else candidates w r'
         else []) /\
      finalizers w' = finalizers w ++
        (if 10 <=? Z.of_nat (length (candidates w r ++ [cci])) then [FStart r] else [])) /\
  (Z.of_nat (length (received cd w)) < nodeNumber w ->
   exists w', RequestAggregatedCommit cd w = Return (MkAck true, w') /\
     commitsOf w' (cd_Round cd) = commitsOf w (cd_Round cd) ++ [cd] /\ chans w' = chans w) /\
  (forall cos Ks Rs,
   cosigners (srv w) = Some cos -> committeeOf cos Ks ->
   nodeNumber w = Z.of_nat (length Ks) -> length (received cd w) = length Ks ->
   Forall2 commits_to (map cd_Commit (received cd w)) Rs ->
   exists w', RequestAggregatedCommit cd w = Return (MkAck true, w') /\
     commitsOf w' (cd_Round cd) = [] /\
     forall ch, subscribed w ch ->
       chans w' !! ch = push (commitMessage (cd_Round cd) Rs) <$> chans w !! ch).
Proof.
  intros R. pose proof (reachable_inv w R) as I. split; [| split].
  - intros r. destruct (isProcessed w r) eqn:P.
    + destruct (RequestCommittee_rejected cci w P) as (w' & E & C & F & Co). eauto 10.
    + destruct (RequestCommittee_accepted cci w I P) as (w' & E & _ & C & Co & F). eauto 10.
  - intros L. destruct (RequestAggregatedCommit_waits cd w L) as (w' & E & C & Ch).
    exists w'. split; [exact E |]. split; [| exact Ch]. rewrite C. now rewrite decide_True.
  - intros cos Ks Rs Co Hc N L HR.
    destruct (RequestAggregatedCommit_last cd w cos Ks Rs I) as (w' & E & C & Ch);
      [lia | exact Co | exact Hc | lia | |].
    + rewrite firstn_all2; [exact HR |]. rewrite length_map. lia.
    + exists w'. split; [exact E |]. split; [rewrite C; now rewrite decide_True |].
      intros ch S. now rewrite Ch, decide_True.
Qed.

Lemma committee_handlers_witness :
  (exists a w', RequestCommittee (MkCandidate 7 "n1" [] []) initWorld = Return (a, w') /\
    ack_Ok a = true) /\
  (exists w w', nodeNumber w = 2 /\
    RequestAggregatedCommit (MkCommitData 7 [1]) w = Return (MkAck true, w') /\
    commitsOf w' 7 = [MkCommitData 7 [1]]).
Proof.
  split.
  - destruct (committee_handlers (MkCandidate 7 "n1" [] []) (MkCommitData 7 [1]) initWorld reach_init)
      as ((a & w' & E & _ & Ok & _) & _).
    exists a, w'. auto.
  - destruct exampleTwo as (w & E & N & C).
    destruct (committee_handlers (MkCandidate 7 "n1" [] []) (MkCommitData 7 [1]) w
                (run_reachable _ _ _ reach_init E)) as (_ & H & _).
    destruct H as (w' & E' & C' & _).
    + unfold received. change (readSlice (commitData (srv w)) 7) with (commitsOf w 7).
      cbn [cd_Round]. rewrite N. unfold commitsOf in C. rewrite C. cbn. lia.
    + exists w, w'. split; [exact N |]. split; [exact E' |].
      cbn [cd_Round] in C'. now rewrite C', C.
Defined.

(** C15: after [RequestCommittee] for round [cur], [gcOldRounds] has kept the
    candidates of round [r] exactly when r + 4 >= cur.  The sum wraps around: the
    last four rounds below 2^64 are dropped as soon as [cur] passes
    r + 4 - 2^64, in particular when they request their own committee. *)
Theorem gc_window cur m r :
  0 <= r < 2 ^ 64 ->
  readSlice (committeeCandidates (gcOldRounds cur m)) r =
  (if decide (cur <= if r <? 2 ^ 64 - 4 then r + 4 else r + 4 - 2 ^ 64)
   then readSlice (committeeCandidates m) r else []) /\
  (2 ^ 64 - 4 <= r -> gcKeep r r = false).
Proof.
  intros Hr. rewrite gcOldRounds_slice. pose proof (gcKeep_spec cur r Hr) as K.
  pose proof (gcKeep_spec r r Hr) as K'. unfold gcRoundWindow in *. split.
  - destruct (gcKeep cur r), (r <? 2 ^ 64 - 4); case_decide as D; try reflexivity; exfalso;
      first [apply D, K; reflexivity | now apply K in D].
  - intros L. destruct (Z.ltb_spec r (2 ^ 64 - 4)); [lia |].
    destruct (gcKeep r r); [| reflexivity]. assert (r <= r + 4 - 2 ^ 64) by now apply K'. lia.
Qed.

Lemma gc_window_witness :
  readSlice (committeeCandidates (gcOldRounds 12 (srv oneCandidate))) 7 = [] /\
  gcKeep (2 ^ 64 - 1) (2 ^ 64 - 1) = false.
Proof.
  split.
  - rewrite (proj1 (gc_window 12 (srv oneCandidate) 7 ltac:(lia))). reflexivity.
  - apply (gc_window 0 (srv oneCandidate) (2 ^ 64 - 1)); lia.
Defined.

(** Candidates with a key that is no encoding of a point. *)
Definition bad_round (w : world) (round : Z) : Prop :=
  Forall bytes_ok (map cci_PublicKey (candidates w round)) /\
  Exists undecodable (effectiveKeys zero32 (map cci_PublicKey (candidates w round))).

Lemma run_bad_key w k round :
  inv w -> finalizers w !! k = Some (FStart round) -> bad_round w round ->
  run (repeat (EFinalize k) 5) w = Some Panic.
Proof.
  intros I Hk [Ok HE]. rewrite (tryFinalize_run w k round Hk).
  rewrite (tryFinalize_bad_key w round); [reflexivity | | split; [exact Ok | exact HE]].
  exact (started_maps w k _ I Hk).
Qed.

(** The 32 bytes of the number 2, which is no [y] coordinate. *)
Definition badKey : list Z := 2 :: repeat 0 31.

Lemma badKey_undecodable : bytes_ok badKey /\ undecodable badKey.
Proof.
  assert (bytes_ok badKey) as Ok
    by (apply List.Forall_cons; [unfold byte_ok; lia | apply zeros_ok]).
  split; [exact Ok |]. intros P D.
  pose proof (FromBytes_spec Extended_var badKey eq_refl Ok) as F.
  assert (fst (Extended_FromBytes Extended_var badKey) = false) as E by (vm_compute; reflexivity).
  destruct (Extended_FromBytes Extended_var badKey) as [b e]. cbn [fst] in E. subst b.
  exact (F P (proj1 D)).
Qed.

(** C16: three more sequences that stop the server.  One candidate whose public
    key is not the encoding of a curve point makes the finalisation of its round panic: the
    nil that [NewCosigners] returns is dereferenced.  The graceful departure that
    [LeaveNetwork] is meant for closes the node's channel, and the end of the node's
    stream closes it a second time; and [tryFinalize] runs without the lock, so that a
    candidate, of any round, accepted or refused, that arrives between its two uses of
    [m.cosigners] makes it dereference nil. *)
Theorem finalize_race w :
  reachable w ->
  (forall k round, finalizers w !! k = Some (FStart round) -> bad_round w round ->
     run (repeat (EFinalize k) 5) w = Some Panic) /\
  (forall n ch, subs (srv w) !! n = Some ch -> run [ELeave n; EDone ch] w = Some Panic) /\
  (forall cci k r cands, finalizers w !! k = Some (FAggregate r cands) ->
     run [ECommittee cci; EFinalize k] w = Some Panic).
Proof.
  intros R. pose proof (reachable_inv w R) as I. split; [| split].
  - intros k round. now apply run_bad_key.
  - intros n ch Hn. exact (run_leave_done w n ch I Hn).
  - intros cci k r cands Hk. exact (run_race w cci k r cands I Hk).
Qed.

Lemma finalize_race_witness :
  run [ELeave "n1"; EDone 0] (JoinNetwork_register "n1" initWorld) = Some Panic /\
  exists w w', run [ECommittee (MkCandidate 7 "n1" badKey []); ETimer 0] initWorld = Some (Return w) /\
    run (repeat (EFinalize 0) 5) w = Some Panic /\
    run [EFinalize 0; EFinalize 0] w = Some (Return w') /\
    run [ECommittee (MkCandidate 8 "n2" [] []); EFinalize 0] w' = Some Panic.
Proof.
  split.
  - refine (proj1 (proj2 (finalize_race _ (reach_step initWorld (EJoin "n1") _ reach_init eq_refl))) _ _ _).
    reflexivity.
  - destruct (exampleRound (MkCandidate 7 "n1" badKey []) eq_refl) as (w & E & Hk & HC).
    pose proof (run_reachable _ _ _ reach_init E) as R.
    destruct (two_steps w 0 7 (reachable_inv w R) Hk) as (cands & w' & E2 & Hk2).
    exists w, w'. split; [exact E |]. split; [| split; [exact E2 |]].
    + apply (proj1 (finalize_race w R) 0%nat 7 Hk). destruct badKey_undecodable as [Ok U].
      split; rewrite HC; [apply List.Forall_cons; [exact Ok | apply List.Forall_nil] |].
      cbn [map cci_PublicKey]. rewrite effectiveKeys_full;
        [now apply List.Exists_cons_hd | reflexivity |].
      apply List.Forall_cons; [reflexivity | apply List.Forall_nil].
    + exact (proj2 (proj2 (finalize_race w' (run_reachable _ _ _ R E2))) _ 0%nat 7 cands Hk2).
Defined.
